(* ===== verification/_CoqProject ===== *)
-Q . S2P
Prelude.v
Bytes.v
Config.v
Errors.v
Eff.v
LinkedHashSet.v
Recency.v
Arc.v
ArcProps.v
ArcRuns.v
Keys.v
Chunker.v
CowStore.v
CowTree.v
CowRead.v
CowLogic.v
CowFrame.v
CowIsolation.v
CowBooks.v
CowSnapshots.v
CowHistory.v
Merge3.v
Merge3Props.v
CowShape.v
CowSteps.v
CowLeaf.v
CowInsert.v
CowUnlink.v
CowMerge.v
CowWrites.v
CowScenario.v
WalRecord.v
Values.v
DecimalOrder.v
ValueOrder.v
Tuple.v
HeapPage.v
HeapPageProps.v
Wal.v
WalProps.v
Grants.v
Escrow.v
EscrowProps.v
Visibility.v
TxnManager.v
PageDirectory.v
HeapFile.v
Recovery.v
RecoveryProps.v
Durability.v
AbortProps.v
HeapFileProps.v
Types.v
Transport.v
TransportCanonical.v
Digest.v
LogTail.v
Payload.v
State.v
Office.v
Membership.v
Replicate.v
SnapshotProto.v
Transfer.v
Append.v
Election.v
Step.v
Changes.v
Hoare.v
Votes.v
Quorums.v
NodeInv.v
NoPanic.v
AppendInv.v
StepInv.v
NodeProps.v
Timers.v
Static.v
Offices.v
Cluster.v
