(* ===== verification/Prelude.v ===== *)
(** * A verification development for ferrodb

    ferrodb is a distributed relational database written in Rust ([src/src/]).
    Its parts meet in layers: rows are packed into slotted heap pages, pages are
    cached by a buffer pool and protected by a write-ahead log, transactions give
    rows versions and roll them back, branches share copy-on-write trees, agents
    draw on bounded counters, and a consensus group decides what every node
    applies. This library translates the code of these layers operation by
    operation and proves the translations correct. A value of the source's
    [Result] is an [Ok] or an [Err], a panic is [None], and the state a method
    mutates is passed along, so that what was written before an error stays
    written.

    ** Bytes, errors and effects

    - This file: machine integers, the record-update notation, shared lemmas and
      tactics. [Bytes] : integers and slices of bytes. [Errors] : [error.rs] as far
      as the modelled code constructs it.
    - [Eff] : the effect of a method on shared state (state, error, panic), its
      equations and a small logic of runs.

    ** Storage and transactions ([src/src/storage/], [catalog/], [wal/], [buffer/])

    - [Values], [DecimalOrder], [ValueOrder] : [catalog/column.rs], values and
      their order; proved to be one total order that compares exact numbers.
    - [Tuple] : [storage/tuple.rs], rows as bytes; what a schema accepts is read
      back.
    - [HeapPage], [HeapPageProps] : [storage/heap_page.rs]; a stored page refines a
      list of rows over any run of operations.
    - [PageDirectory], [HeapFile], [HeapFileProps] : [storage/page_directory.rs]
      and [storage/heap_file_manager.rs], the chain of directories and the inserts,
      updates and relocations that log before they store; an insertion is read
      back, and an update is all or nothing while no directory promises more room
      than its pages have.
    - [WalRecord], [Wal], [WalProps] : [wal/log.rs], records, frames, the file and
      its opening after a crash; what was flushed is read back, and a torn tail is
      cut.
    - [Visibility] : the snapshots and read views of [wal/txn.rs] and the walk of
      [wal/visibility.rs]; the walk ends and finds the newest visible version.
    - [TxnManager] : [TxnManager] of [wal/txn.rs] with the write-back gate of
      [buffer/buffer_pool.rs]. One state [Db] holds the log, the pages shown and
      the pages on disk, the active-transaction table and the rest of the manager;
      the primary indexes are behind the class [Index]. A method is the serial
      order of the critical sections it takes.
    - [Recovery] : [recover] and [redo_one] of [wal/recovery.rs].
    - [RecoveryProps], [Durability], [AbortProps] : runs between two checkpoints as
      interleavings of critical sections ([step]), with flushes and page writes
      that may fail. Redo rebuilds the pages byte for byte as they were when the
      last surviving record was appended; an acknowledged commit is never rolled
      back; a rollback restores every row, or stops where it can go on. A crash
      keeps whole pages and a prefix of the log file that contains what was
      flushed.
    - [LinkedHashSet], [Recency], [Arc], [ArcProps], [ArcRuns] :
      [buffer/linked_hash_set.rs] and [buffer/arc.rs]; the list behind a class,
      the linked set proved to refine a plain list, and the policy proved over the
      class.

    ** Branches ([src/src/cow/])

    - [Keys], [Chunker], [CowStore], [CowTree], [CowRead] : [chunker.rs],
      [store.rs], [btree.rs] and the searches of [node.rs]. A page is kept
      decoded, as the node it holds with its header.
    - [CowLogic], [CowFrame], [CowIsolation], [CowBooks], [CowSnapshots],
      [CowHistory] : what writes may touch; failed writes restore, writes stay
      private to their branch, forks keep their answers, and the store's books
      balance over any history.
    - [CowShape], [CowSteps], [CowLeaf], [CowInsert], [CowUnlink], [CowMerge],
      [CowWrites] : a write puts or takes exactly one row. [CowScenario] holds
      concrete trees, and a deletion that hides rows.
    - [Merge3], [Merge3Props] : [merge3.rs]; the structural merge equals the
      cell-by-cell rule.

    ** Counters

    - [Grants] : the granted counter of [cluster/mod.rs]; no id is issued twice.
    - [Escrow], [EscrowProps] : [agent_sql/escrow.rs] and the charge of a staged
      row; a cell is never overdrawn.

    ** Consensus ([src/src/consensus/])

    - [Config], [Types], [State] : [config.rs], the data of [mod.rs], and the state
      [Consensus] with the effect its handlers run in, which pushes actions.
    - [Digest], [LogTail], [Replicate], [Append] : [replicate.rs].
    - [Office], [Election] : [election.rs] and [become_follower].
    - [Membership] : [membership.rs]. [Payload], [SnapshotProto] : [snapshot.rs].
    - [Step] : [step] and [on_message] of [mod.rs], which compose all of these,
      and the concrete runs the witnesses use. [Transport] : [transport.rs].
    - [Hoare], [Votes], [NodeInv], [NoPanic], [AppendInv], [StepInv],
      [NodeProps] : a program logic for the handlers, and what one node guarantees
      whatever reaches it: no panic, watermarks in order, committed entries kept,
      one vote per term, on disk before it is sent.
    - [Quorums], [Changes], [Timers] : the leader's computations and the
      gate on membership changes against counting voters, the lease against the
      election timeout, and that a node a majority answers is elected.
    - [Static], [Offices], [Cluster] : nodes over a network that loses, repeats and
      reorders, with crashes between any two actions; a term has one leader. The
      order in which [drain] and [perform] of [node.rs] carry out the actions is
      part of the cluster's steps.
    - [TransportCanonical], [Transfer] : the codec's two directions are inverse,
      and a snapshot transfer runs from end to end.

    ** Bounds and fuel

    Machine integers are [N] or [Z] with the width written where the source wraps
    or saturates ([wadd64], [sadd64], [sadd32], [wsub16]); arithmetic is that of a
    release build. Loops that are not structural carry fuel, and the theorems say
    that the fuel given is enough: [deserialize_fuel] counts the nesting of
    compensation records; opening a log scans with as much fuel as the file has
    bytes, and [read_log] with as much as the log has; [undo_loop] takes one unit
    per record walked; the walks over directories take one more than there are
    pages; [resolve_visibility] one per hop; the descents of a tree stop at
    [MAX_DESCENT] and [MAX_DEPTH], 64 as in the source. The node theorems assume
    round numbers to spare ([headroom]): 2^64 rounds are never reached.

    ** Not modelled

    Threads, atomics and latches below the critical sections (frames and pins of
    the buffer pool, its lock-free page table, the cached snapshot), files and
    sockets (the driver's event loop, the durable round log, the transport's
    connections, the disk manager), HMAC signing, the B+tree of the secondary and
    primary indexes with its rebuild after a crash, the content-hash diff, branch
    records and their reaper, the typed edit log, agent sessions above the escrow
    ledger, provenance, replication streams, and the SQL front end (parser, binder,
    planner, executor, wire protocol). *)
From stdpp Require Export base numbers list gmap sets fin_maps option sorting.
From Stdlib Require Export NArith Lia.
From Stdlib Require Import Strings.Byte.

#[global] Set Default Proof Using "Type".

Declare Scope rust_scope.
Delimit Scope rust_scope with rust.
Open Scope rust_scope.

(** * Machine integers

    A [u64], [u32], [u16] or [u8] of the source is an [N]; the operations that
    can leave the type's range are written with the width they wrap or saturate
    at. *)

Abbreviation u64 := N (only parsing).
Abbreviation u32 := N (only parsing).
Abbreviation u16 := N (only parsing).

Definition max_u16 : N := 65535.
Definition max_u32 : N := 4294967295.
Definition max_u64 : N := 18446744073709551615.

(** [a + b] on [u64] in a release build: wraps at 2^64. *)
Definition wadd64 (a b : N) : N := ((a + b) mod 18446744073709551616)%N.
(** [a.wrapping_mul(b)] on [u64]. *)
Definition wmul64 (a b : N) : N := ((a * b) mod 18446744073709551616)%N.
(** [a.saturating_add(b)] on [u64] and on [u32]. *)
Definition sadd64 (a b : N) : N := N.min (a + b) max_u64.
Definition sadd32 (a b : N) : N := N.min (a + b) max_u32.

Lemma wadd64_small a b : (a + b <= max_u64)%N -> wadd64 a b = (a + b)%N.
Proof. unfold wadd64, max_u64. intros H. apply N.mod_small. lia. Qed.

Lemma sadd64_small a b : (a + b <= max_u64)%N -> sadd64 a b = (a + b)%N.
Proof. unfold sadd64. lia. Qed.

Lemma sadd64_ge a b : (a <= max_u64)%N -> (a <= sadd64 a b)%N.
Proof. unfold sadd64. lia. Qed.

Lemma wmul64_lt a b : (wmul64 a b <= max_u64)%N.
Proof.
  unfold wmul64, max_u64.
  pose proof (N.mod_upper_bound (a * b) 18446744073709551616). lia.
Qed.

Lemma wadd64_le a b : (wadd64 a b <= max_u64)%N.
Proof.
  unfold wadd64, max_u64.
  pose proof (N.mod_upper_bound (a + b) 18446744073709551616). lia.
Qed.

(** * Results

    Rust's [Result<A, E>], the error first so that [Result E] is a monad; the
    [?] of the source is the bind. *)

Inductive Result (E A : Type) : Type :=
| Ok (a : A)
| Err (e : E).
Arguments Ok {E A} a.
Arguments Err {E A} e.

#[export] Instance result_ret {E} : MRet (Result E) := fun _ a => Ok a.
#[export] Instance result_bind {E} : MBind (Result E) := fun _ _ k m =>
  match m with Ok a => k a | Err e => Err e end.

Definition map_err {E F A : Type} (f : E -> F) (m : Result E A) : Result F A :=
  match m with Ok a => Ok a | Err e => Err (f e) end.

(** [o.ok_or(e)]. *)
Definition ok_or {E A : Type} (o : option A) (e : E) : Result E A :=
  match o with Some a => Ok a | None => Err e end.

(** [r.ok()]. *)
Definition ok_opt {E A : Type} (m : Result E A) : option A :=
  match m with Ok a => Some a | Err _ => None end.

(** The guard [if b { return Err(e) }]. *)
Definition refuse_if {E : Type} (b : bool) (e : E) : Result E unit :=
  if b then Err e else Ok tt.

Lemma rbind_Ok_inv {E A B : Type} (m : Result E A) (k : A -> Result E B) b :
  m ≫= k = Ok b -> exists a, m = Ok a /\ k a = Ok b.
Proof. destruct m; cbn; [eauto | discriminate]. Qed.

Lemma refuse_if_Ok {E : Type} (b : bool) (e : E) u :
  refuse_if b e = Ok u -> b = false.
Proof. by destruct b. Qed.

Lemma ok_or_Ok {E A : Type} (o : option A) (e : E) a :
  ok_or o e = Ok a -> o = Some a.
Proof. destruct o; cbn; congruence. Qed.

Lemma Ok_inj {E A : Type} (a b : A) : @Ok E A a = Ok b -> a = b.
Proof. by intros [= ->]. Qed.

(** [inv_ok] opens every [_ ≫= _ = Ok _] hypothesis. *)
Ltac inv_ok :=
  repeat match goal with
  | H : mbind _ _ = Ok _ |- _ =>
      let a := fresh "a" in let E := fresh "E" in
      apply rbind_Ok_inv in H as (a & E & H)
  | H : refuse_if _ _ = Ok _ |- _ => apply refuse_if_Ok in H
  | H : ok_or _ _ = Ok _ |- _ => apply ok_or_Ok in H
  | H : Ok _ = Ok _ |- _ => apply Ok_inj in H; subst
  | H : mret _ = Ok _ |- _ => apply Ok_inj in H; subst
  | H : Err _ = Ok _ |- _ => discriminate H
  | H : Ok _ = Err _ |- _ => discriminate H
  end.

(** * Lists *)

Lemma list_filter_all {A : Type} (P : A -> Prop) `{!forall x, Decision (P x)} (l : list A) :
  Forall P l -> filter P l = l.
Proof. induction 1; [done|]. rewrite filter_cons_True by done. by f_equal. Qed.

Lemma list_filter_none {A : Type} (P : A -> Prop) `{!forall x, Decision (P x)} (l : list A) :
  Forall (fun x => ~ P x) l -> filter P l = [].
Proof. induction 1; [done|]. by rewrite filter_cons_False. Qed.

Lemma sorted_lookup {A : Type} (R : A -> A -> Prop) (l : list A) i j a b :
  StronglySorted R l -> i < j -> l !! i = Some a -> l !! j = Some b -> R a b.
Proof.
  intros Hs. revert i j. induction Hs as [|x l Hs IH Ha]; [done|]. intros [|i] [|j] Hij; cbn; try lia.
  - intros [= <-] Hy. rewrite Forall_forall in Ha. apply Ha, list_elem_of_lookup. eauto.
  - apply IH. lia.
Qed.

(** * Field update

    [s <| f := v |>] is the record [s] with its field [f] replaced. A record
    type declares its eta expansion and one [Setter] per field. *)

Class Setter {R T : Type} (get : R -> T) := set_field : (T -> T) -> R -> R.
Class Eta (R : Type) := eta : R -> R.

Notation "s <| f := v |>" := (set_field (get := f) (fun _ => v) s)
  (at level 1, f constr at level 0, left associativity,
   format "s <| f  :=  v |>") : rust_scope.

Ltac build_setter :=
  match goal with
  | |- @Setter ?R ?T ?get =>
      let f := fresh "f" in let r := fresh "r" in
      intros f r;
      let e := eval cbv delta [eta] in (@eta R _ r) in
      let e := match e with ?h r => eval hnf in (h r) | _ => eval hnf in e end in
      let e := eval pattern (get r) in e in
      match e with
      | ?g _ => let x := eval cbv beta in (g (f (get r))) in exact x
      end
  end.

(** Destruct the scrutinee of a [match] or [if] of the goal, keeping its
    equation. *)
Ltac case_goal :=
  match goal with
  | |- context [match ?x with _ => _ end] =>
      let E := fresh "E" in destruct x eqn:E
  end.
