(* ===== verification/Bytes.v ===== *)
(** Bytes and the encodings every record format of the program is built from:
    fixed-width big- and little-endian integers, length-bounded slices of a
    buffer ([slice.get(a..b)]), and the UTF-8 check behind
    [String::from_utf8]. *)
From S2P Require Import Prelude.
From Stdlib Require Import Strings.Byte.

Abbreviation byte := Byte.byte (only parsing).

(** [n as u8]. *)
Definition u8 (n : N) : byte := default x00 (Byte.of_N (n mod 256)).
(** [b as u64]. *)
Definition byteN (b : byte) : N := Byte.to_N b.

Lemma byteN_lt b : (byteN b < 256)%N.
Proof. unfold byteN. pose proof (Byte.to_N_bounded b). lia. Qed.

Lemma byteN_u8 n : byteN (u8 n) = (n mod 256)%N.
Proof.
  unfold byteN, u8.
  destruct (Byte.of_N (n mod 256)) as [b|] eqn:E; cbn.
  - by apply Byte.to_of_N.
  - apply Byte.of_N_None_iff in E.
    pose proof (N.mod_upper_bound n 256). lia.
Qed.

Lemma u8_byteN b : u8 (byteN b) = b.
Proof.
  unfold u8, byteN. rewrite N.mod_small by apply byteN_lt.
  by rewrite Byte.of_to_N.
Qed.

Lemma byteN_inj a b : byteN a = byteN b -> a = b.
Proof. intros H. by rewrite <- (u8_byteN a), <- (u8_byteN b), H. Qed.

#[export] Instance byte_eq_dec : EqDecision byte.
Proof.
  intros a b. destruct (decide (byteN a = byteN b)) as [E|E].
  - left. by apply byteN_inj.
  - right. congruence.
Defined.

(** The length of a buffer, as a [u64]. *)
Definition blen {A : Type} (l : list A) : N := N.of_nat (length l).

Lemma blen_app {A : Type} (a b : list A) : blen (a ++ b) = (blen a + blen b)%N.
Proof. unfold blen. rewrite length_app. lia. Qed.

Lemma blen_nil {A : Type} : blen (@nil A) = 0%N.
Proof. done. Qed.

Lemma blen_cons {A : Type} (x : A) l : blen (x :: l) = (1 + blen l)%N.
Proof. unfold blen. cbn [length]. lia. Qed.

Lemma to_nat_blen {A : Type} (l : list A) : N.to_nat (blen l) = length l.
Proof. unfold blen. apply Nat2N.id. Qed.

(** * Fixed-width integers *)

(** [v.to_be_bytes()] of an [n]-byte integer. *)
Fixpoint be_bytes (n : nat) (v : N) : list byte :=
  match n with
  | O => []
  | S n' => u8 (v / 256 ^ N.of_nat n') :: be_bytes n' v
  end.

(** [uN::from_be_bytes]. *)
Definition of_be (bs : list byte) : N :=
  fold_left (fun acc b => acc * 256 + byteN b)%N bs 0%N.

(** [v.to_le_bytes()] and [uN::from_le_bytes]. *)
Definition le_bytes (n : nat) (v : N) : list byte := rev (be_bytes n v).
Definition of_le (bs : list byte) : N := of_be (rev bs).

Lemma length_be_bytes n v : length (be_bytes n v) = n.
Proof. induction n; cbn; congruence. Qed.

Lemma blen_be_bytes n v : blen (be_bytes n v) = N.of_nat n.
Proof. unfold blen. by rewrite length_be_bytes. Qed.

Lemma of_be_acc bs acc :
  (fold_left (fun acc b => acc * 256 + byteN b) bs acc
   = acc * 256 ^ blen bs + of_be bs)%N.
Proof.
  unfold of_be. revert acc. induction bs as [|b bs IH]; intros acc.
  - cbn [fold_left]. rewrite blen_nil, N.pow_0_r. lia.
  - cbn [fold_left]. rewrite IH, (IH (0 * 256 + byteN b)%N), blen_cons.
    rewrite N.pow_add_r, N.pow_1_r. lia.
Qed.

Lemma of_be_cons b bs : of_be (b :: bs) = (byteN b * 256 ^ blen bs + of_be bs)%N.
Proof. unfold of_be at 1. cbn [fold_left]. rewrite of_be_acc. lia. Qed.

Lemma of_be_lt bs : (of_be bs < 256 ^ blen bs)%N.
Proof.
  induction bs as [|b bs IH]; [done|].
  rewrite of_be_cons, blen_cons, N.pow_add_r, N.pow_1_r.
  pose proof (byteN_lt b). nia.
Qed.

Lemma of_be_be_bytes n v : of_be (be_bytes n v) = (v mod 256 ^ N.of_nat n)%N.
Proof.
  induction n as [|n IH]; [by rewrite N.mod_1_r|].
  cbn [be_bytes]. rewrite of_be_cons, blen_be_bytes, IH, byteN_u8.
  rewrite Nat2N.inj_succ, N.pow_succ_r', (N.mul_comm 256), N.Div0.mod_mul_r by done.
  lia.
Qed.

Lemma of_be_be_bytes_small n v :
  (v < 256 ^ N.of_nat n)%N -> of_be (be_bytes n v) = v.
Proof. intros. rewrite of_be_be_bytes. by apply N.mod_small. Qed.

Lemma be_bytes_of_be bs : be_bytes (length bs) (of_be bs) = bs.
Proof.
  assert (forall k bs, be_bytes (length bs) (k * 256 ^ blen bs + of_be bs) = bs) as G.
  { clear bs. intros k bs. revert k. induction bs as [|b bs IH]; intros k; [done|].
    cbn [length be_bytes]. rewrite of_be_cons, blen_cons, N.pow_add_r, N.pow_1_r.
    change (N.of_nat (length bs)) with (blen bs).
    replace (k * (256 * 256 ^ blen bs) + (byteN b * 256 ^ blen bs + of_be bs))%N
      with ((k * 256 + byteN b) * 256 ^ blen bs + of_be bs)%N by lia.
    f_equal; [|apply IH].
    rewrite N.div_add_l by (apply N.pow_nonzero; lia).
    rewrite (N.div_small (of_be bs)) by apply of_be_lt.
    rewrite N.add_0_r. apply byteN_inj. rewrite byteN_u8, N.add_comm.
    rewrite N.Div0.mod_add. apply N.mod_small, byteN_lt. }
  specialize (G 0%N bs). by rewrite N.mul_0_l, N.add_0_l in G.
Qed.

Lemma be_bytes_of_be' n bs : length bs = n -> be_bytes n (of_be bs) = bs.
Proof. intros <-. apply be_bytes_of_be. Qed.

Lemma of_le_le_bytes_small n v :
  (v < 256 ^ N.of_nat n)%N -> of_le (le_bytes n v) = v.
Proof. unfold of_le, le_bytes. rewrite rev_involutive. apply of_be_be_bytes_small. Qed.

Lemma length_le_bytes n v : length (le_bytes n v) = n.
Proof. unfold le_bytes. by rewrite length_rev, length_be_bytes. Qed.

Lemma le_bytes_of_le' n bs : length bs = n -> le_bytes n (of_le bs) = bs.
Proof.
  intros <-. unfold le_bytes, of_le.
  rewrite be_bytes_of_be' by apply length_rev. apply rev_involutive.
Qed.

#[global] Arguments be_bytes : simpl never.

(** * Slices *)

(** [bytes.get(a..b)]: [None] when the range is not inside the buffer. *)
Definition get_range (bytes : list byte) (a b : nat) : option (list byte) :=
  if decide (a <= b <= length bytes) then Some (take (b - a) (drop a bytes)) else None.

Lemma get_range_app (pre w rest : list byte) :
  get_range (pre ++ w ++ rest) (length pre) (length pre + length w) = Some w.
Proof.
  unfold get_range. rewrite decide_True by (rewrite !length_app; lia).
  rewrite drop_app_length. f_equal.
  replace (length pre + length w - length pre) with (length w) by lia.
  apply take_app_length.
Qed.

Lemma get_range_Some (bytes w : list byte) a b :
  get_range bytes a b = Some w ->
  exists pre rest, bytes = pre ++ w ++ rest /\ length pre = a /\ a + length w = b.
Proof.
  unfold get_range. case_decide as D; [|discriminate]. intros [= <-].
  exists (take a bytes), (drop (b - a) (drop a bytes)).
  rewrite take_drop, take_drop, length_take, length_take, length_drop.
  split; [done|]. split; lia.
Qed.

(** * UTF-8

    [String::from_utf8] accepts exactly the sequences of Unicode's table of
    well-formed byte sequences: no overlong forms, no surrogates, nothing above
    U+10FFFF. *)

Definition in_range (lo hi : N) (b : byte) : bool :=
  (lo <=? byteN b)%N && (byteN b <=? hi)%N.

Definition cont (b : byte) : bool := in_range 128 191 b.

Fixpoint from_utf8 (fuel : nat) (s : list byte) : bool :=
  match fuel with
  | O => match s with [] => true | _ => false end
  | S fuel =>
      match s with
      | [] => true
      | b0 :: s1 =>
          if (byteN b0 <=? 127)%N then from_utf8 fuel s1
          else match s1 with
          | [] => false
          | b1 :: s2 =>
              if in_range 194 223 b0 && cont b1 then from_utf8 fuel s2
              else match s2 with
              | [] => false
              | b2 :: s3 =>
                  if ((in_range 224 224 b0 && in_range 160 191 b1)
                      || (in_range 225 236 b0 && cont b1)
                      || (in_range 237 237 b0 && in_range 128 159 b1)
                      || (in_range 238 239 b0 && cont b1)) && cont b2
                  then from_utf8 fuel s3
                  else match s3 with
                  | [] => false
                  | b3 :: s4 =>
                      if ((in_range 240 240 b0 && in_range 144 191 b1)
                          || (in_range 241 243 b0 && cont b1)
                          || (in_range 244 244 b0 && in_range 128 143 b1))
                         && cont b2 && cont b3
                      then from_utf8 fuel s4
                      else false
                  end
              end
          end
      end
  end.

(** Each character takes at least one byte, so the length is fuel enough. *)
Definition utf8_valid (s : list byte) : bool := from_utf8 (length s) s.
