(* ===== verification/Config.v ===== *)
(** The voter set of a cluster and what a majority of it is:
    [src/src/consensus/config.rs]. The invariant [config_wf] (voters and
    learners strictly ascending and disjoint) is established by every
    constructor; the quorum lemmas at the end are what elections, commits and
    membership changes rest on. *)
From S2P Require Import Prelude Bytes.

(** [struct NodeId(pub u32)]. *)
Abbreviation NodeId := N (only parsing).
Abbreviation Term := N (only parsing).
Abbreviation Round := N (only parsing).

(** A configuration's version with the term that created it. *)
Record CfgAt := mkCfgAt { at_version : u64; at_term : u64 }.

#[export] Instance CfgAt_eq_dec : EqDecision CfgAt.
Proof. solve_decision. Defined.

(** The derived [PartialOrd]: lexicographic, version first. *)
Definition cfgat_gtb (a b : CfgAt) : bool :=
  (at_version b <? at_version a)%N
  || ((at_version a =? at_version b)%N && (at_term b <? at_term a)%N).
Definition cfgat_geb (a b : CfgAt) : bool := cfgat_gtb a b || bool_decide (a = b).
Definition cfgat_max (a b : CfgAt) : CfgAt := if cfgat_gtb a b then a else b.
(** [CfgAt::default()]. *)
Definition cfgat_default : CfgAt := mkCfgAt 0 0.

Record Config := mkConfig {
  members : list NodeId;
  learners : list NodeId;
  cfg_version : u64;
  cfg_term : u64
}.

#[export] Instance Config_eq_dec : EqDecision Config.
Proof. solve_decision. Defined.

(** [Vec::sort] on node ids and [Vec::dedup]. *)
Definition sort_ids (l : list NodeId) : list NodeId := merge_sort N.le l.

Fixpoint dedup (l : list NodeId) : list NodeId :=
  match l with
  | [] => []
  | x :: t =>
      match t with
      | y :: _ => if (x =? y)%N then dedup t else x :: dedup t
      | [] => [x]
      end
  end.

(** [slice::binary_search(..).is_ok()] over the window [lo, hi): the bisection
    halves the window, so its length is fuel enough. *)
Fixpoint bisect (fuel lo hi : nat) (sorted : list NodeId) (x : NodeId) : bool :=
  match fuel with
  | O => false
  | S fuel =>
      if decide (lo < hi) then
        let mid := (lo + hi) / 2 in
        match sorted !! mid with
        | None => false
        | Some y =>
            match N.compare y x with
            | Eq => true
            | Lt => bisect fuel (S mid) hi sorted x
            | Gt => bisect fuel lo mid sorted x
            end
        end
      else false
  end.

Definition binary_search (sorted : list NodeId) (x : NodeId) : bool :=
  bisect (S (length sorted)) 0 (length sorted) sorted x.

(** Drop from [items] everything that also appears in [sorted]. *)
Definition retain_absent (items sorted : list NodeId) : list NodeId :=
  filter (fun n => Is_true (negb (binary_search sorted n))) items.

Module Config.

Definition empty : Config := mkConfig [] [] 0 0.

Definition new (ms : list NodeId) (version term : u64) : Config :=
  mkConfig (dedup (sort_ids ms)) [] version term.

Definition with_learners (c : Config) (ls : list NodeId) : Config :=
  let l := dedup (sort_ids ls) in
  mkConfig (members c) (retain_absent l (members c)) (cfg_version c) (cfg_term c).

Definition contains (c : Config) (n : NodeId) : bool := bool_decide (n ∈ members c).

Definition is_known (c : Config) (n : NodeId) : bool :=
  bool_decide (n ∈ members c) || bool_decide (n ∈ learners c).

Definition len (c : Config) : nat := length (members c).

Definition is_empty (c : Config) : bool :=
  match members c with [] => true | _ => false end.

Definition quorum (c : Config) : nat := length (members c) / 2 + 1.

Definition has_quorum (c : Config) (votes : nat) : bool :=
  negb (is_empty c) && (quorum c <=? votes).

Definition at_ (c : Config) : CfgAt := mkCfgAt (cfg_version c) (cfg_term c).

Definition without (n : NodeId) (l : list NodeId) : list NodeId :=
  filter (fun x => x <> n) l.

Definition adding (c : Config) (n : NodeId) (term : u64) : Config :=
  with_learners (new (members c ++ [n]) (wadd64 (cfg_version c) 1) term)
                (without n (learners c)).

Definition removing (c : Config) (n : NodeId) (term : u64) : Config :=
  with_learners (new (without n (members c)) (wadd64 (cfg_version c) 1) term)
                (without n (learners c)).

Definition adding_learner (c : Config) (n : NodeId) (term : u64) : Config :=
  with_learners (new (members c) (wadd64 (cfg_version c) 1) term)
                (learners c ++ [n]).

End Config.

(** * Sorting and de-duplication *)

Abbreviation ascending := (StronglySorted N.lt) (only parsing).

Lemma sort_ids_perm l : sort_ids l ≡ₚ l.
Proof. apply merge_sort_Permutation. Qed.

Lemma sort_ids_sorted l : StronglySorted N.le (sort_ids l).
Proof. apply (StronglySorted_merge_sort N.le). Qed.

Lemma dedup_cons2 a b t :
  dedup (a :: b :: t) = if (a =? b)%N then dedup (b :: t) else a :: dedup (b :: t).
Proof. done. Qed.

Lemma elem_of_dedup x l : x ∈ dedup l <-> x ∈ l.
Proof.
  induction l as [|a [|b t] IH]; [done|done|].
  rewrite dedup_cons2. destruct (N.eqb_spec a b) as [->|Hne].
  - rewrite IH, !elem_of_cons. tauto.
  - rewrite elem_of_cons, IH, !elem_of_cons. tauto.
Qed.

Lemma dedup_ascending l : StronglySorted N.le l -> ascending (dedup l).
Proof.
  induction 1 as [|a t Hs IH Ha]; [constructor|].
  destruct t as [|b t]; [repeat constructor|]. rewrite dedup_cons2.
  destruct (N.eqb_spec a b) as [->|Hne]; [done|].
  constructor; [done|]. apply Forall_forall. intros x Hx.
  apply (elem_of_dedup x (b :: t)) in Hx. rewrite Forall_forall in Ha.
  assert (a <= b)%N by (apply Ha; left).
  apply StronglySorted_inv in Hs as [_ Hb]. rewrite Forall_forall in Hb.
  apply elem_of_cons in Hx as [->|Hx]; [lia|]. specialize (Hb x Hx). lia.
Qed.

Lemma ascending_NoDup l : ascending l -> NoDup l.
Proof.
  induction 1 as [|a t _ IH Ha]; [constructor|].
  constructor; [|done]. intros Hin. rewrite Forall_forall in Ha.
  specialize (Ha a Hin). lia.
Qed.

Lemma ascending_sort_id l : ascending l -> dedup (sort_ids l) = l.
Proof.
  intros H.
  assert (StronglySorted N.le l) as Hle.
  { clear -H. induction H as [|a t _ IH Ha]; constructor; [done|].
    eapply Forall_impl; [done|]. cbn. lia. }
  assert (sort_ids l = l) as ->.
  { apply (StronglySorted_unique N.le); [apply sort_ids_sorted|done|apply sort_ids_perm]. }
  clear Hle. induction H as [|a t Hs IH Ha]; [done|].
  destruct t as [|b t]; [done|]. rewrite dedup_cons2. inversion_clear Ha.
  destruct (N.eqb_spec a b); [lia|]. by rewrite IH.
Qed.

Lemma ascending_filter (P : N -> Prop) `{!forall x, Decision (P x)} l :
  ascending l -> ascending (filter P l).
Proof.
  induction 1 as [|a t _ IH Ha]; [constructor|].
  rewrite filter_cons. case_decide; [|done]. constructor; [done|].
  apply Forall_forall. intros x [_ Hx]%list_elem_of_filter.
  rewrite Forall_forall in Ha. by apply Ha.
Qed.

Lemma ascending_lookup l i j x y :
  ascending l -> l !! i = Some x -> l !! j = Some y -> i < j -> (x < y)%N.
Proof.
  intros H. revert i j. induction H as [|a t _ IH Ha]; intros i j Hi Hj Hlt; [done|].
  destruct j as [|j]; [lia|]. destruct i as [|i]; cbn in *.
  - injection Hi as ->. rewrite Forall_forall in Ha. apply Ha.
    apply list_elem_of_lookup. eauto.
  - eapply (IH i j); eauto. lia.
Qed.

Lemma bisect_sound fuel lo hi l x : bisect fuel lo hi l x = true -> x ∈ l.
Proof.
  revert lo hi. induction fuel as [|fuel IH]; intros lo hi; cbn [bisect]; [done|].
  case_decide; [|done]. destruct (l !! _) as [y|] eqn:E; [|done].
  destruct (N.compare_spec y x) as [->|Hl|Hl]; [|apply IH|apply IH].
  intros _. apply list_elem_of_lookup. eauto.
Qed.

Lemma bisect_complete fuel lo hi l x i :
  ascending l -> hi <= length l -> hi - lo < fuel ->
  l !! i = Some x -> lo <= i < hi -> bisect fuel lo hi l x = true.
Proof.
  intros Hs. revert lo hi. induction fuel as [|fuel IH]; intros lo hi Hhi Hf Hi Hr; [lia|].
  cbn [bisect]. rewrite decide_True by lia.
  assert (lo <= (lo + hi) / 2 < hi) as [Hm1 Hm2].
  { split; [apply Nat.div_le_lower_bound; lia | apply Nat.Div0.div_lt_upper_bound; lia]. }
  destruct (lookup_lt_is_Some_2 l ((lo + hi) / 2)) as [y Hy]; [lia|]. rewrite Hy.
  destruct (N.compare_spec y x) as [->|Hl|Hl]; [done|..]; apply IH; try done; try lia.
  - destruct (decide (i <= (lo + hi) / 2)); [|lia].
    destruct (decide (i = (lo + hi) / 2)) as [->|]; [simplify_eq; lia|].
    assert (x < y)%N by (eapply (ascending_lookup l i); eauto; lia). lia.
  - destruct (decide ((lo + hi) / 2 <= i)); [|lia].
    destruct (decide (i = (lo + hi) / 2)) as [->|]; [simplify_eq; lia|].
    assert (y < x)%N by (eapply (ascending_lookup l ((lo + hi) / 2)); eauto; lia). lia.
Qed.

Lemma binary_search_spec l x : ascending l -> binary_search l x = bool_decide (x ∈ l).
Proof.
  intros Hs. unfold binary_search. case_bool_decide as Hin.
  - apply list_elem_of_lookup in Hin as [i Hi].
    pose proof (lookup_lt_Some _ _ _ Hi).
    eapply (bisect_complete _ _ _ _ _ i); eauto; lia.
  - apply not_true_is_false. by intros ?%bisect_sound.
Qed.

Lemma elem_of_retain_absent items l x :
  ascending l -> x ∈ retain_absent items l <-> x ∈ items /\ x ∉ l.
Proof.
  intros Hs. unfold retain_absent. rewrite list_elem_of_filter, binary_search_spec by done.
  case_bool_decide; cbn; tauto.
Qed.

(** * The configuration invariant *)

Record config_wf (c : Config) : Prop := {
  wf_members : ascending (members c);
  wf_learners : ascending (learners c);
  wf_disjoint : forall n, n ∈ members c -> n ∈ learners c -> False
}.

Lemma new_wf ms v t : config_wf (Config.new ms v t).
Proof.
  split; cbn; [|constructor|by intros n _ ?%not_elem_of_nil].
  apply dedup_ascending, sort_ids_sorted.
Qed.

Lemma elem_of_new n ms v t : n ∈ members (Config.new ms v t) <-> n ∈ ms.
Proof. cbn. by rewrite elem_of_dedup, sort_ids_perm. Qed.

Lemma with_learners_wf c ls :
  ascending (members c) -> config_wf (Config.with_learners c ls).
Proof.
  intros Hm. split; cbn; [done| |].
  - apply ascending_filter, dedup_ascending, sort_ids_sorted.
  - intros n Hn [_ ?]%elem_of_retain_absent; done.
Qed.

Lemma elem_of_with_learners n c ls :
  ascending (members c) ->
  n ∈ learners (Config.with_learners c ls) <-> n ∈ ls /\ n ∉ members c.
Proof.
  intros Hm. cbn. by rewrite elem_of_retain_absent, elem_of_dedup, sort_ids_perm.
Qed.

(** Building a configuration from its own lists is the identity, so equality of
    configurations is equality of sets. *)
Lemma with_learners_new_id c :
  config_wf c ->
  Config.with_learners (Config.new (members c) (cfg_version c) (cfg_term c)) (learners c) = c.
Proof.
  intros [Hm Hl Hd]. destruct c as [ms ls v t]; cbn in *.
  unfold Config.with_learners, Config.new; cbn.
  rewrite !ascending_sort_id by done. f_equal.
  unfold retain_absent. clear Hl. induction ls as [|a ls IH]; [done|].
  rewrite filter_cons, binary_search_spec by done.
  rewrite bool_decide_false by (intros ?; apply (Hd a); [done|left]).
  cbn. rewrite decide_True by done. f_equal. apply IH.
  intros n ? ?. apply (Hd n); [done|by right].
Qed.

(** * Majorities *)

Lemma contains_spec c n : Config.contains c n = true <-> n ∈ members c.
Proof. unfold Config.contains. by rewrite bool_decide_eq_true. Qed.

Lemma has_quorum_spec c k :
  Config.has_quorum c k = true <-> members c <> [] /\ Config.quorum c <= k.
Proof.
  unfold Config.has_quorum, Config.is_empty.
  rewrite andb_true_iff, Nat.leb_le.
  destruct (members c); cbn; split; intros [? ?]; split; congruence || done.
Qed.

(** Two sets of voters that together outnumber the voters share one. *)
Lemma majorities_intersect (ms : list N) (A B : gset N) :
  NoDup ms ->
  (forall x, x ∈ A -> x ∈ ms) -> (forall x, x ∈ B -> x ∈ ms) ->
  length ms < size A + size B ->
  exists x, x ∈ A /\ x ∈ B.
Proof.
  intros Hnd HA HB Hlen.
  destruct (decide (A ∩ B = ∅)) as [E|E].
  - assert (size (A ∪ B) <= length ms).
    { rewrite <- (size_list_to_set (C := gset N) ms Hnd).
      apply subseteq_size. set_solver. }
    rewrite size_union in H by set_solver. lia.
  - apply set_choose_L in E as [x Hx]. exists x. set_solver.
Qed.

Lemma quorum_double c : length (members c) < 2 * Config.quorum c.
Proof. unfold Config.quorum. pose proof (Nat.div_mod_eq (length (members c)) 2).
  pose proof (Nat.mod_upper_bound (length (members c)) 2). lia. Qed.

Lemma elem_of_without x n l : x ∈ Config.without n l <-> x ∈ l /\ x <> n.
Proof. unfold Config.without. rewrite list_elem_of_filter. tauto. Qed.

Lemma members_adding c n t x : x ∈ members (Config.adding c n t) <-> x ∈ members c \/ x = n.
Proof. unfold Config.adding. cbn [Config.with_learners members]. rewrite elem_of_new, elem_of_app, elem_of_cons.
  pose proof (not_elem_of_nil x). tauto. Qed.

Lemma members_removing c n t x : x ∈ members (Config.removing c n t) <-> x ∈ members c /\ x <> n.
Proof. unfold Config.removing. cbn [Config.with_learners members]. by rewrite elem_of_new, elem_of_without. Qed.

Lemma members_adding_learner c n t x : x ∈ members (Config.adding_learner c n t) <-> x ∈ members c.
Proof. unfold Config.adding_learner. cbn [Config.with_learners members]. apply elem_of_new. Qed.

Lemma ascending_new ms v t : ascending (members (Config.new ms v t)).
Proof. apply wf_members, new_wf. Qed.

(** The voters of [adding c n] are those of [c] with [n]: the same number, or one more. *)
Lemma length_adding c n t :
  config_wf c ->
  length (members (Config.adding c n t)) =
    if Config.contains c n then length (members c) else S (length (members c)).
Proof.
  intros Hc. destruct (Config.contains c n) eqn:E.
  - apply contains_spec in E. apply Permutation_length, NoDup_Permutation.
    + apply ascending_NoDup, ascending_new.
    + apply ascending_NoDup, Hc.
    + intros x. rewrite members_adding. split; [intros [?| ->]; done|auto].
  - assert (n ∉ members c) as Hn by (intros ?%contains_spec; congruence).
    change (S (length (members c))) with (length (n :: members c)).
    apply Permutation_length, NoDup_Permutation.
    + apply ascending_NoDup, ascending_new.
    + constructor; [done|]. apply ascending_NoDup, Hc.
    + intros x. rewrite members_adding, elem_of_cons. tauto.
Qed.

Lemma length_removing c n t :
  config_wf c ->
  length (members c) =
    if Config.contains c n then S (length (members (Config.removing c n t)))
    else length (members (Config.removing c n t)).
Proof.
  intros Hc. destruct (Config.contains c n) eqn:E.
  - apply contains_spec in E.
    change (S (length ?l)) with (length (n :: l)). apply Permutation_length, NoDup_Permutation.
    + apply ascending_NoDup, Hc.
    + constructor; [rewrite members_removing; tauto|]. apply ascending_NoDup, ascending_new.
    + intros x. rewrite elem_of_cons, members_removing. destruct (decide (x = n)) as [->|]; tauto.
  - assert (n ∉ members c) as Hn by (intros ?%contains_spec; congruence).
    apply Permutation_length, NoDup_Permutation.
    + apply ascending_NoDup, Hc.
    + apply ascending_NoDup, ascending_new.
    + intros x. rewrite members_removing. split; [intros Hx; split; [done|by intros ->]|tauto].
Qed.

(** * Properties *)

(** C25: every constructor of a configuration sorts, removes duplicates and
    keeps voters and learners apart, and holds exactly the ids it should:
    [adding] promotes a node out of the learners, [removing] takes it out of
    both lists, [adding_learner] leaves the voters and never demotes one. *)
Theorem config_constructors (c : Config) (n : NodeId) (t : Term) (ms ls : list NodeId) (v : u64) :
  config_wf c ->
  config_wf (Config.new ms v t) /\ config_wf (Config.with_learners c ls)
  /\ config_wf (Config.adding c n t) /\ config_wf (Config.removing c n t)
  /\ config_wf (Config.adding_learner c n t)
  /\ (forall x, x ∈ members (Config.adding c n t) <-> x ∈ members c \/ x = n)
  /\ (forall x, x ∈ members (Config.removing c n t) <-> x ∈ members c /\ x <> n)
  /\ (forall x, x ∈ members (Config.adding_learner c n t) <-> x ∈ members c)
  /\ (forall x, x ∈ learners (Config.adding c n t) <-> x ∈ learners c /\ x <> n)
  /\ (forall x, x ∈ learners (Config.removing c n t) <-> x ∈ learners c /\ x <> n)
  /\ (forall x, x ∈ learners (Config.adding_learner c n t) <->
        (x ∈ learners c \/ x = n) /\ x ∉ members c).
Proof.
  intros [Hm Hl Hd]. split; [apply new_wf|]. split; [by apply with_learners_wf|].
  do 3 (split; [apply with_learners_wf, ascending_new|]).
  split; [apply members_adding|]. split; [apply members_removing|]. split; [apply members_adding_learner|].
  assert (forall ms ls v x, x ∈ learners (Config.with_learners (Config.new ms v t) ls)
                            <-> x ∈ ls /\ x ∉ ms) as W.
  { intros ms' ls' v' x. rewrite elem_of_with_learners by apply ascending_new. by rewrite elem_of_new. }
  split_and!; intros x; unfold Config.adding, Config.removing, Config.adding_learner; rewrite W;
    rewrite ?elem_of_app, ?elem_of_without, ?elem_of_cons; pose proof (Hd x);
    pose proof (not_elem_of_nil x); tauto.
Qed.

Lemma config_constructors_witness :
  config_wf (Config.adding (Config.with_learners (Config.new [2; 1; 2]%N 1 0) [3]%N) 3 1)
  /\ Config.adding (Config.with_learners (Config.new [2; 1; 2]%N 1 0) [3]%N) 3 1
     = mkConfig [1; 2; 3]%N [] 2 1.
Proof.
  split; [|by vm_compute].
  assert (config_wf (Config.with_learners (Config.new [2; 1; 2]%N 1 0) [3]%N)) as H
    by (apply with_learners_wf, ascending_new).
  destruct (config_constructors _ 3%N 1%N [] [] 0%N H) as (_ & _ & R & _). exact R.
Defined.

(** Two majorities share a voter, within one configuration and across the
    one-server changes [adding] and [removing] make to it: no two disjoint sets
    of voters can each decide, whichever side of the change counted them. *)
Theorem one_server_change_keeps_majorities_overlapping (c d : Config) (n : NodeId) (t : Term) (A B : gset N) :
  config_wf c -> d = c \/ d = Config.adding c n t \/ d = Config.removing c n t ->
  (forall x, x ∈ A -> x ∈ members c) -> (forall x, x ∈ B -> x ∈ members d) ->
  Config.has_quorum c (size A) = true -> Config.has_quorum d (size B) = true ->
  exists x, x ∈ A /\ x ∈ B.
Proof.
  intros Hc Hd HA HB [_ QA]%has_quorum_spec [_ QB]%has_quorum_spec.
  pose proof (quorum_double c). pose proof (quorum_double d).
  pose proof (ascending_NoDup _ (wf_members _ Hc)) as Hnd.
  destruct Hd as [->|[->| ->]].
  - apply (majorities_intersect (members c)); [done..|lia].
  - pose proof (length_adding c n t Hc) as Hlen.
    apply (majorities_intersect (members (Config.adding c n t))).
    + apply ascending_NoDup, ascending_new.
    + intros x Hx. rewrite members_adding. auto.
    + done.
    + destruct (Config.contains c n); lia.
  - pose proof (length_removing c n t Hc) as Hlen.
    apply (majorities_intersect (members c)); [done|done| |destruct (Config.contains c n); lia].
    intros x Hx. apply HB in Hx. by apply members_removing in Hx as [? _].
Qed.

Lemma one_server_change_witness :
  exists x, x ∈ ({[1%N; 2%N]} : gset N) /\ x ∈ ({[2%N; 3%N; 4%N]} : gset N).
Proof.
  apply (one_server_change_keeps_majorities_overlapping
           (Config.new [1; 2; 3]%N 1 0) (Config.adding (Config.new [1; 2; 3]%N 1 0) 4 1) 4 1).
  - apply new_wf.
  - by right; left.
  - intros x Hx. apply elem_of_union in Hx as [->%elem_of_singleton| ->%elem_of_singleton];
      apply (bool_decide_unpack _); by vm_compute.
  - intros x Hx. rewrite !elem_of_union, !elem_of_singleton in Hx.
    destruct Hx as [[->| ->]| ->]; apply (bool_decide_unpack _); by vm_compute.
  - by vm_compute.
  - by vm_compute.
Defined.
