(* ===== verification/Errors.v ===== *)
(** The program's error type ([src/src/error.rs]) as far as the modelled code
    constructs it. Where the source renders a message, the model keeps the
    class of the error and, in [Why], which message it is together with the
    values the message is rendered from. *)
From S2P Require Import Prelude Bytes.

Inductive FerroError : Type :=
| Io (w : Why)
| Constraint (w : Why)
| Wal (w : Why)
| Internal (w : Why)
| Corruption (w : Why)
| Unrepresentable (what : StrWhat) (len limit : N)
| NotLeader (leader : option N)
| KeyNotFound
| EmptyList
| NotEnoughSpace
| SlotDeleted
| Txn (w : Why)
| Cow (w : Why)
| Branch (w : Why)
| Bind (w : Why)
| Provenance (w : Why)
(** Which string or count did not fit its length prefix. *)
with StrWhat : Type :=
| AddedColumn | RenamedOld | RenamedNew | RetypedColumn | TableName | ColumnCount
| ColumnName | AgentId | RunId | ModelName | ModelVersion
with Why : Type :=
(** [storage/heap_page.rs] *)
| SlotOutOfBounds
| SlotPastPage (slot slots : N)
(** [storage/tuple.rs] *)
| RowArity (values columns : N)
| ColumnMismatch (column : N)
| DecimalTooLong (len : N)
| VarcharTooLong (max : N)
| DecimalNonUtf8
| TupleTooShort
(** [wal/visibility.rs] and [wal/txn.rs] *)
| DoubleWriteConflict
| TxnNotActive
| TxnIsNotActive (txn : N)
| ReaderWrote (txn : N)
| NoSnapshot
| RollingBack (txn : N)
| CheckpointWithActive
| ProvSlotTaken (slot : N)
(** [storage/page_directory.rs] and [storage/heap_file_manager.rs] *)
| DirectoryEntryMissing
| RowTooWide (len : N)
| SpacePastU16 (len : N)
(** [cluster/mod.rs] *)
| GrantExhausted (node need : N)
| GrantWrongNode (granted_to self_id : N)
| GrantNotClustered
| GrantEmptyRange (lo hi : N)
| GrantSpaceExhausted (issued_through : N)
(** [agent_sql/escrow.rs] *)
| NegativeSlack (slack : Z)
| PoolAlreadyOpen
| ClaimNotPositive (amount : Z)
| NotBounded
| ClaimExceeds (amount free : Z)
| EscrowExceeded (amount left claimed spent : Z)
(** [cow/node.rs], [cow/btree.rs] and [cow/merge3.rs] *)
| NodeSlotOutOfRange (i : N)
| LeafFillOverflow
| InternalFillOverflow
| NotABtreeNode (page : N)
| DepthGuard
| EntryTooLarge (bytes : N)
| KeyTooLarge (bytes : N)
| SeparatorTooLarge
(** [cow/store.rs] *)
| TornPage (page : N)
| BranchUnregistered (id generation : N)
| BranchAlreadyRegistered (id generation : N)
| TrunkForgotten
| ForgottenWhileAllocating
| NotContiguous (count : N)
| PageOfUnknownArena (page arena : N)
| NoSuchArena (arena : N)
| ArenaExhausted (arena : N)
| ReleaseIntoUnknownArena (arena : N)
| PageNotInArena (page arena : N)
| DoubleFree (page : N)
(** [storage/disk_manager.rs], from the operating system *)
| DiskRefused
(** [wal/log.rs] *)
| Short (at_ want have : N)
| NonUtf8
| UnknownColumnType (tag : N)
| LsnPastBuffer
| RecordPastBuffer
| BelowLogBase (lsn : N)
| PinBelowBase (lsn base : N)
| RecordLength
| RecordTooShort
| CrcMismatch
| LogMagic
| LogVersion
| EofBeforeRecord
| UnknownAlteration (tag : N)
| UnknownDdlOp (tag : N)
| EmptyRecord
| UnknownTag (tag : N)
| RunIdentityNone
(** [consensus/transport.rs] *)
| TooBig (n : N)
| ConfigTooLarge (n : N)
| EntryTooBig (n budget : N)
| LeftOver (n : N)
| BadFlag (b : N)
| UnknownKind (k : N)
| UnknownCommand (k : N)
| UnknownBranchOp (k : N)
| EntryOf (i count : N) (e : FerroError)
| CatalogNotDdl (k : N)
| CatalogEmpty
| CatalogNotCanonical (had out : N)
| CatalogNotDdlAfterAll
| CatalogPageIds (dir_root time_travel_root : N)
| NodeListTooLong (n : N)
| NodeListNotAscending (prev n : N)
| VoterAndLearner (n : N)
| ConfigChanged
(** [consensus/membership.rs] *)
| EmptyVoterSet
| TwoConfigsOneIdentity
| OwnTermNotCommitted (term : N)
| EmptyProposal
| WrongVersion (asked held : N)
| WrongTerm (asked held : N)
| MovesNotOne (moved : N)
| DirectVoter (n : N)
| VoterRemovedOutright (n : N)
| AboutSelf (n : N)
| NotCaughtUp (n : N) (matched : option N) (commit : N)
| NoProvenance
| PreviousChangeUnacknowledged (holders voters quorum : N)
| AlreadyVoter (n : N)
| AlreadyLearner (n : N)
| UnknownNode (n : N)
(** [consensus/snapshot.rs], wrapped by [SnapshotError::into_ferro] *)
| SnapshotRefused (w : Why)
| RoundZero
| SnapshotEmptyVoterSet (round : N)
| SmallerThanHeader (round total : N)
| AboveCeiling (round total : N)
| HeaderShort (have : N)
| BadMagic
| BadFormatVersion (v : N)
| BadHeaderDigest (claimed actual : N)
| ImageLength (pages image : N)
| HeaderRoundZero
| SidecarTooBig (len : N)
| ZeroPages
| AboveApplied (through applied : N)
| AboveLogEnd (through last : N)
| NoTermAt (round : N)
| NotTheLeader
| PeerUnknown (n : N)
| BelowOwnFloor (round floor : N)
| SnapshotTermMismatch (round claimed held : N)
| BaseDigestMismatch (claimed held : N)
| DoesNotFitU32 (len : N)
(** [consensus/node.rs] *)
| HardStateLength (n : N)
| HardStateChecksum
| HardStateTag (tag : N).
