(* ===== verification/Eff.v ===== *)
(** The effect of a method that reads and writes shared state, may return an
    error and may panic. The state survives an error: what was written before the
    [?] stays written. *)
From S2P Require Import Prelude Bytes Errors.

(** * Methods that may panic

    A [&mut self] method is a function of the state it borrows to its result and
    the state it leaves, [None] where the source panics (an index out of range,
    [unwrap] of an error). A method is compared with its reference by [sim]: run
    from related states, where the reference does not panic neither does the
    method, both return the same, and the states they leave are related. *)

Definition Mut (S A : Type) : Type := S -> option (A * S).

#[export] Instance mut_ret {S} : MRet (Mut S) := fun _ a s => Some (a, s).
#[export] Instance mut_bind {S} : MBind (Mut S) := fun _ _ k m s =>
  match m s with Some (a, s') => k a s' | None => None end.

Definition mget {S : Type} : Mut S S := fun s => Some (s, s).
Definition mset {S : Type} (f : S -> S) : Mut S unit := fun s => Some (tt, f s).

(** [r.unwrap()]. *)
Definition must {S E A : Type} (m : Mut S (Result E A)) : Mut S A := fun s =>
  match m s with Some (Ok a, s') => Some (a, s') | _ => None end.

(** A method called on a field. *)
Definition on_field {R S A : Type} (get : R -> S) `{!Setter get} (m : Mut S A) : Mut R A := fun r =>
  match m (get r) with Some (a, s) => Some (a, r <| get := s |>) | None => None end.

Definition agree {S T A : Type} (R : S -> T -> Prop) (x : option (A * S)) (y : option (A * T)) : Prop :=
  match y with Some (a, t) => exists s, x = Some (a, s) /\ R s t | None => True end.

Definition sim {S T A : Type} (R : S -> T -> Prop) (m : Mut S A) (m' : Mut T A) : Prop :=
  forall s t, R s t -> agree R (m s) (m' t).

Lemma sim_ret {S T A : Type} (R : S -> T -> Prop) (a : A) : sim R (mret a) (mret a).
Proof. intros s t H. by exists s. Qed.

Lemma agree_bind {S T A B : Type} (R : S -> T -> Prop) (m : Mut S A) (m' : Mut T A)
    (k : A -> Mut S B) (k' : A -> Mut T B) s t :
  agree R (m s) (m' t) -> (forall a, sim R (k a) (k' a)) -> agree R ((m ≫= k) s) ((m' ≫= k') t).
Proof.
  intros Hm Hk. unfold mbind, mut_bind. destruct (m' t) as [[a t']|]; [|done].
  destruct Hm as (s' & -> & H'). by apply Hk.
Qed.

Lemma sim_bind {S T A B : Type} (R : S -> T -> Prop) (m : Mut S A) (m' : Mut T A)
    (k : A -> Mut S B) (k' : A -> Mut T B) :
  sim R m m' -> (forall a, sim R (k a) (k' a)) -> sim R (m ≫= k) (m' ≫= k').
Proof. intros Hm Hk s t H. apply agree_bind; [by apply Hm|done]. Qed.

(** Reading the whole state: what follows is compared from related readings. *)
Lemma sim_get {S T B : Type} (R : S -> T -> Prop) (k : S -> Mut S B) (k' : T -> Mut T B) :
  (forall s t, R s t -> sim R (k s) (k' t)) -> sim R (mget ≫= k) (mget ≫= k').
Proof. intros H s t Hst. by apply H. Qed.

Lemma sim_set {S T : Type} (R : S -> T -> Prop) (f : S -> S) (g : T -> T) :
  (forall s t, R s t -> R (f s) (g t)) -> sim R (mset f) (mset g).
Proof. intros H s t Hst. exists (f s). auto. Qed.

Lemma sim_must {S T E A : Type} (R : S -> T -> Prop) (m : Mut S (Result E A)) (m' : Mut T (Result E A)) :
  sim R m m' -> sim R (must m) (must m').
Proof.
  intros H s t Hst. specialize (H s t Hst). unfold must. destruct (m' t) as [[[a|e] t']|]; [|done|done].
  destruct H as (s' & -> & H'). by exists s'.
Qed.

(** Running a bind. *)
Lemma mget_bind {S B : Type} (k : S -> Mut S B) s : (mget ≫= k) s = k s s.
Proof. done. Qed.

Lemma mut_bind_run {S A B : Type} (m : Mut S A) (k : A -> Mut S B) s a s' :
  m s = Some (a, s') -> (m ≫= k) s = k a s'.
Proof. intros E. unfold mbind, mut_bind. by rewrite E. Qed.

(** * The effect: a state that survives an error; [None] is a panic *)

Definition Eff (S A : Type) : Type := S -> option (Result FerroError A * S).

#[export] Instance eff_ret {S} : MRet (Eff S) := fun _ a s => Some (Ok a, s).
#[export] Instance eff_bind {S} : MBind (Eff S) := fun _ _ k m s =>
  match m s with
  | Some (Ok a, s') => k a s'
  | Some (Err e, s') => Some (Err e, s')
  | None => None
  end.

Definition eget {S : Type} : Eff S S := fun s => Some (Ok s, s).
Definition eset {S : Type} (f : S -> S) : Eff S unit := fun s => Some (Ok tt, f s).
Definition throw {S A : Type} (e : FerroError) : Eff S A := fun s => Some (Err e, s).
Definition lift {S A : Type} (r : Result FerroError A) : Eff S A := fun s => Some (r, s).
(** What follows an error, from the state it left. *)
Definition catch {S A : Type} (m : Eff S A) (k : FerroError -> Eff S A) : Eff S A := fun s =>
  match m s with Some (Err e, s') => k e s' | r => r end.
(** An index into a vector. *)
Definition at_index {S A : Type} (o : option A) : Eff S A := fun s =>
  match o with Some a => Some (Ok a, s) | None => None end.

(** * Symbolic execution of effects *)

Definition runs {S A : Type} (m : Eff S A) (s : S) (Φ : Result FerroError A -> S -> Prop) : Prop :=
  match m s with Some (r, s') => Φ r s' | None => True end.

Section runs.
Context {S : Type}.

Lemma runs_mono {A : Type} (m : Eff S A) s (Φ Ψ : _ -> _ -> Prop) :
  (forall r s', Φ r s' -> Ψ r s') -> runs m s Φ -> runs m s Ψ.
Proof. unfold runs. destruct (m s) as [[r s']|]; auto. Qed.

Lemma runs_bind {A B : Type} (m : Eff S A) (k : A -> Eff S B) s Φ :
  runs m s (fun r s' => match r with Ok a => runs (k a) s' Φ | Err e => Φ (Err e) s' end) ->
  runs (m ≫= k) s Φ.
Proof. unfold runs, mbind, eff_bind. destruct (m s) as [[[a|e] s']|]; auto. Qed.

Lemma runs_ret {A : Type} (a : A) (s : S) (Φ : _ -> _ -> Prop) : Φ (Ok a) s -> runs (mret a) s Φ.
Proof. done. Qed.

Lemma runs_get (s : S) (Φ : _ -> _ -> Prop) : Φ (Ok s) s -> runs eget s Φ.
Proof. done. Qed.

Lemma runs_set (f : S -> S) s (Φ : _ -> _ -> Prop) : Φ (Ok tt) (f s) -> runs (eset f) s Φ.
Proof. done. Qed.

Lemma runs_throw {A : Type} e (s : S) (Φ : Result FerroError A -> S -> Prop) : Φ (Err e) s -> runs (throw e) s Φ.
Proof. done. Qed.

Lemma runs_lift {A : Type} (r : Result FerroError A) (s : S) (Φ : _ -> _ -> Prop) : Φ r s -> runs (lift r) s Φ.
Proof. done. Qed.

Lemma runs_at {A : Type} (o : option A) (s : S) (Φ : Result FerroError A -> S -> Prop) :
  (forall a, o = Some a -> Φ (Ok a) s) -> runs (at_index o) s Φ.
Proof. unfold runs, at_index. destruct o; auto. Qed.

End runs.

Ltac run_step :=
  first
    [ apply runs_bind
    | apply runs_ret
    | apply runs_get
    | apply runs_set
    | apply runs_throw
    | apply runs_lift ].
Ltac run := repeat (run_step; cbn beta iota).

(** A bind whose first part succeeds. *)
Lemma bind_run {S A B : Type} (m : Eff S A) (k : A -> Eff S B) s a s' : m s = Some (Ok a, s') -> (m ≫= k) s = k a s'.
Proof. intros E. unfold mbind, eff_bind. by rewrite E. Qed.

(** * Reading changes nothing *)

Definition reads {S A : Type} (m : Eff S A) : Prop := forall s, runs m s (fun _ s' => s' = s).

Lemma eff_reads_bind {S A B : Type} (m : Eff S A) (k : A -> Eff S B) : reads m -> (forall a, reads (k a)) -> reads (m ≫= k).
Proof.
  intros Hm Hk s. apply runs_bind. eapply runs_mono; [|apply Hm]. intros [a|e] s' ->; [|done]. apply Hk.
Qed.

Lemma eff_reads_lift {S A : Type} (r : Result FerroError A) : reads (S := S) (lift r).
Proof. done. Qed.
Lemma eff_reads_throw {S A : Type} e : reads (S := S) (A := A) (throw e).
Proof. done. Qed.
Lemma eff_reads_ret {S A : Type} (a : A) : reads (S := S) (mret a).
Proof. done. Qed.
