(* ===== verification/LinkedHashSet.v ===== *)
(** The recency list of the buffer pool: [src/src/buffer/linked_hash_set.rs], a
    doubly linked list threaded through a vector of nodes, with a hash map from
    keys to slots and a stack of free slots. [lists s l] says that [s] holds the
    (slot, key) pairs [l], most recent first; every operation, run on such a
    state, does not panic and does to [l] what the reference operation on lists
    does. *)
From S2P Require Import Prelude Eff Bytes Errors.

(** * The code *)

Record Node := mkNode { n_key : u32; n_next : option nat; n_prev : option nat }.

Record LinkedHashSet := mkLhs {
  lhs_map : gmap u32 nat;
  lhs_nodes : list Node;
  lhs_tail : option nat;
  lhs_head : option nat;
  lhs_free : list nat
}.

(** [self.nodes[i] = n], [self.nodes[i].next = v] and [self.nodes[i].prev = v];
    an index out of range panics. *)
Definition set_node (i : nat) (n : Node) (nodes : list Node) : option (list Node) :=
  if decide (i < length nodes) then Some (<[i := n]> nodes) else None.
Definition set_next_of (i : nat) (v : option nat) (nodes : list Node) : option (list Node) :=
  n ← nodes !! i; Some (<[i := mkNode (n_key n) v (n_prev n)]> nodes).
Definition set_prev_of (i : nat) (v : option nat) (nodes : list Node) : option (list Node) :=
  n ← nodes !! i; Some (<[i := mkNode (n_key n) (n_next n) v]> nodes).

(** [free_slots.pop()]: the slot pushed last. *)
Definition pop_slot (free : list nat) : option (nat * list nat) :=
  i ← last free; Some (i, take (length free - 1) free).

Module Lhs.

Definition new : LinkedHashSet := mkLhs ∅ [] None None [].

Definition contains (key : u32) (s : LinkedHashSet) : bool := bool_decide (is_Some (lhs_map s !! key)).

Definition len (s : LinkedHashSet) : nat := size (lhs_map s).

(** The two [match]es that join the neighbours of a node, shared by [remove]
    and [move_to_front]: the nodes, the head and the tail after them. *)
Definition unlink (prev next : option nat) (s : LinkedHashSet) :
    option (list Node * option nat * option nat) :=
  '(nodes, head) ← match prev with
                   | Some p => nodes ← set_next_of p next (lhs_nodes s); Some (nodes, lhs_head s)
                   | None => Some (lhs_nodes s, next)
                   end;
  match next with
  | Some n => nodes ← set_prev_of n prev nodes; Some (nodes, head, lhs_tail s)
  | None => Some (nodes, head, prev)
  end.

(** The [match] on the old head that [insert] and [move_to_front] share: the
    nodes and the tail after it. *)
Definition link_front (i : nat) (head : option nat) (nodes : list Node) (tail : option nat) :
    option (list Node * option nat) :=
  match head with
  | Some old_head => nodes ← set_prev_of old_head (Some i) nodes; Some (nodes, tail)
  | None => Some (nodes, Some i)
  end.

Definition move_to_front (key : u32) : Mut LinkedHashSet (Result FerroError unit) := fun s =>
  match lhs_map s !! key with
  | None => Some (Err KeyNotFound, s)
  | Some i =>
      node ← lhs_nodes s !! i;
      let prev := n_prev node in
      let next := n_next node in
      '(nodes, head, tail) ← unlink prev next s;
      nodes ← set_prev_of i None nodes;
      nodes ← set_next_of i head nodes;
      '(nodes, tail) ← link_front i head nodes tail;
      Some (Ok tt, mkLhs (lhs_map s) nodes tail (Some i) (lhs_free s))
  end.

Definition insert (key : u32) : Mut LinkedHashSet (Result FerroError unit) := fun s =>
  if contains key s then move_to_front key s
  else
    '(i, nodes, free) ← match pop_slot (lhs_free s) with
                        | Some (slot, free) =>
                            nodes ← set_node slot (mkNode key (lhs_head s) None) (lhs_nodes s);
                            Some (slot, nodes, free)
                        | None => Some (length (lhs_nodes s),
                                        lhs_nodes s ++ [mkNode key (lhs_head s) None], lhs_free s)
                        end;
    '(nodes, tail) ← link_front i (lhs_head s) nodes (lhs_tail s);
    Some (Ok tt, mkLhs (<[key := i]> (lhs_map s)) nodes tail (Some i) free).

Definition remove (key : u32) : Mut LinkedHashSet (Result FerroError unit) := fun s =>
  match lhs_map s !! key with
  | None => Some (Err KeyNotFound, s)
  | Some i =>
      node ← lhs_nodes s !! i;
      '(nodes, head, tail) ← unlink (n_prev node) (n_next node) s;
      Some (Ok tt, mkLhs (delete key (lhs_map s)) nodes tail head (lhs_free s ++ [i]))
  end.

Definition pop_back : Mut LinkedHashSet (Result FerroError u32) := fun s =>
  match lhs_tail s with
  | None => Some (Err EmptyList, s)
  | Some i =>
      node ← lhs_nodes s !! i;
      let prev := n_prev node in
      '(nodes, head) ← match prev with
                       | Some p => nodes ← set_next_of p None (lhs_nodes s); Some (nodes, lhs_head s)
                       | None => Some (lhs_nodes s, None)
                       end;
      node' ← nodes !! i;
      Some (Ok (n_key node'), mkLhs (delete (n_key node') (lhs_map s)) nodes prev head (lhs_free s ++ [i]))
  end.

(** The loop of [check_unpinned], one node a turn from the back; the chain is
    at most as long as the vector. *)
Fixpoint scan (fuel : nat) (is_pinned : u32 -> bool) (curr : option nat) : Mut LinkedHashSet (option u32) := fun s =>
  match curr with
  | None => Some (None, s)
  | Some i =>
      match fuel with
      | O => None
      | S fuel =>
          node ← lhs_nodes s !! i;
          if negb (is_pinned (n_key node)) then
            '(r, s) ← remove (n_key node) s;
            match r with Ok _ => Some (Some (n_key node), s) | Err _ => None end
          else scan fuel is_pinned (n_prev node) s
      end
  end.

Definition check_unpinned (is_pinned : u32 -> bool) : Mut LinkedHashSet (option u32) := fun s =>
  scan (length (lhs_nodes s)) is_pinned (lhs_tail s) s.

End Lhs.

(** * The list the nodes thread *)

Abbreviation cells := (list (nat * u32)) (only parsing).

(** The slot a segment starts at, and the one it ends at. *)
Definition first (l : cells) (nxt : option nat) : option nat :=
  match l with (i, _) :: _ => Some i | [] => nxt end.
Definition final (prev : option nat) (l : cells) : option nat :=
  match last l with Some (i, _) => Some i | None => prev end.

(** The nodes of [l], linked in order, between the slots [prev] and [nxt]. *)
Fixpoint segment (nodes : list Node) (prev : option nat) (l : cells) (nxt : option nat) : Prop :=
  match l with
  | [] => True
  | (i, k) :: l' => nodes !! i = Some (mkNode k (first l' nxt) prev) /\ segment nodes (Some i) l' nxt
  end.

Record lists (s : LinkedHashSet) (l : cells) : Prop := {
  l_segment : segment (lhs_nodes s) None l None;
  l_head : lhs_head s = first l None;
  l_tail : lhs_tail s = final None l;
  l_slots : l.*1 ++ lhs_free s ≡ₚ seq 0 (length (lhs_nodes s));
  l_keys : NoDup l.*2;
  l_map : forall k i, lhs_map s !! k = Some i <-> (i, k) ∈ l
}.

Lemma final_app prev a b : final prev (a ++ b) = final (final prev a) b.
Proof. unfold final. rewrite last_app. by destruct (last b) as [[? ?]|]. Qed.

Lemma final_cons prev i k l : final prev ((i, k) :: l) = final (Some i) l.
Proof. exact (final_app prev [(i, k)] l). Qed.

Lemma first_app a b nxt : first (a ++ b) nxt = first a (first b nxt).
Proof. by destruct a as [|[i k] a]. Qed.

Lemma final_nonempty prev prev' x l : final prev (x :: l) = final prev' (x :: l).
Proof. destruct x as [i k]. by rewrite !final_cons. Qed.

Lemma segment_app nodes prev a b nxt :
  segment nodes prev (a ++ b) nxt <->
  segment nodes prev a (first b nxt) /\ segment nodes (final prev a) b nxt.
Proof.
  revert prev. induction a as [|[i k] a IH]; intros prev; cbn [app segment]; [tauto|].
  rewrite IH, first_app, final_cons. tauto.
Qed.

Lemma list_snoc_case {A : Type} (l : list A) : l = [] \/ exists l' x, l = l' ++ [x].
Proof.
  destruct (last l) as [x|] eqn:E; [right|left; by apply last_None].
  apply last_Some in E as [l' ->]. eauto.
Qed.

(** A write elsewhere leaves a segment alone. *)
Lemma segment_frame nodes i n prev l nxt :
  i ∉ l.*1 -> segment nodes prev l nxt -> segment (<[i := n]> nodes) prev l nxt.
Proof.
  revert prev. induction l as [|[j k] l IH]; intros prev Hi; [done|]. intros [H1 H2].
  cbn in Hi. apply not_elem_of_cons in Hi as [Hne Hi].
  split; [by rewrite list_lookup_insert_ne|by apply IH].
Qed.

Lemma segment_grow nodes more prev l nxt :
  segment nodes prev l nxt -> segment (nodes ++ more) prev l nxt.
Proof.
  revert prev. induction l as [|[j k] l IH]; intros prev; [done|]. intros [H1 H2].
  split; [by apply lookup_app_l_Some|by apply IH].
Qed.

(** Redirecting the last node's [next], or the first one's [prev]. *)
Lemma segment_set_next nodes prev a i k nxt v :
  NoDup (a ++ [(i, k)]).*1 -> segment nodes prev (a ++ [(i, k)]) nxt ->
  exists nodes', set_next_of i v nodes = Some nodes' /\ length nodes' = length nodes
    /\ segment nodes' prev (a ++ [(i, k)]) v /\ (forall j, j <> i -> nodes' !! j = nodes !! j)
    /\ (forall p l x, i ∉ l.*1 -> segment nodes p l x -> segment nodes' p l x).
Proof.
  intros Hnd [Ha [Hi _]]%segment_app. rewrite fmap_app in Hnd. apply NoDup_app in Hnd as (_ & Hd & _).
  unfold set_next_of. cbn in Hi. rewrite Hi. cbn. eexists. split; [done|].
  split; [by rewrite length_insert|].
  split; [|split; [intros j Hj; by rewrite list_lookup_insert_ne|intros p l x; apply segment_frame]].
  apply segment_app. split.
  - apply segment_frame; [|done]. intros Hin. apply (Hd i Hin). by left.
  - split; [|done]. cbn. apply list_lookup_insert_eq. by eapply lookup_lt_Some.
Qed.

Lemma segment_set_prev nodes prev i k b nxt v :
  NoDup ((i, k) :: b).*1 -> segment nodes prev ((i, k) :: b) nxt ->
  exists nodes', set_prev_of i v nodes = Some nodes' /\ length nodes' = length nodes
    /\ segment nodes' v ((i, k) :: b) nxt /\ (forall j, j <> i -> nodes' !! j = nodes !! j)
    /\ (forall p l x, i ∉ l.*1 -> segment nodes p l x -> segment nodes' p l x).
Proof.
  intros Hnd [Hi Hb]. cbn in Hnd. apply NoDup_cons in Hnd as [Hn _].
  unfold set_prev_of. rewrite Hi. cbn. eexists. split; [done|]. split; [by rewrite length_insert|].
  split; [|split; [intros j Hj; by rewrite list_lookup_insert_ne|intros p l x; apply segment_frame]].
  split; [|by apply segment_frame]. apply list_lookup_insert_eq. by eapply lookup_lt_Some.
Qed.

(** Joining the neighbours of a cell takes it out of the list. *)
Lemma unlink_spec s a i k b :
  NoDup (a ++ (i, k) :: b).*1 -> segment (lhs_nodes s) None (a ++ (i, k) :: b) None ->
  lhs_head s = first (a ++ (i, k) :: b) None -> lhs_tail s = final None (a ++ (i, k) :: b) ->
  exists nodes, Lhs.unlink (final None a) (first b None) s
                = Some (nodes, first (a ++ b) None, final None (a ++ b))
    /\ segment nodes None (a ++ b) None /\ length nodes = length (lhs_nodes s)
    /\ nodes !! i = lhs_nodes s !! i.
Proof.
  intros Hnd [Ha [Hi Hb]]%segment_app Hh Ht. cbn in Hi.
  rewrite fmap_app, fmap_cons in Hnd. cbn in Hnd. apply NoDup_app in Hnd as (Na & Hd & Nb).
  apply NoDup_cons in Nb as [Hib Nb].
  assert (i ∉ a.*1) as Hia by (intros Hin; apply (Hd i Hin); by left).
  assert (forall j, j ∈ a.*1 -> j ∉ b.*1) as Hab by (intros j H1 H2; apply (Hd j H1); by right).
  unfold Lhs.unlink.
  assert (exists nodes1, match final None a with
      | Some p => nodes ← set_next_of p (first b None) (lhs_nodes s); Some (nodes, lhs_head s)
      | None => Some (lhs_nodes s, first b None)
      end = Some (nodes1, first (a ++ b) None)
    /\ segment nodes1 None a (first b None) /\ segment nodes1 (Some i) b None
    /\ length nodes1 = length (lhs_nodes s) /\ nodes1 !! i = lhs_nodes s !! i) as (nodes1 & E1 & Sa & Sb & L1 & I1).
  { destruct (list_snoc_case a) as [->|(a' & [p kp] & ->)].
    - exists (lhs_nodes s). done.
    - destruct (segment_set_next (lhs_nodes s) None a' p kp _ (first b None) Na Ha) as (n1 & E & L & S1 & O & F).
      exists n1. rewrite final_app. cbn. rewrite E. cbn. rewrite Hh, !first_app. cbn.
      assert (p ∈ (a' ++ [(p, kp)]).*1) as Hp by (rewrite fmap_app; apply elem_of_app; right; by left).
      split; [done|]. split; [done|]. split; [by apply F; [apply Hab|]|].
      split; [done|]. apply O. by intros ->. }
  rewrite E1. cbn [mbind option_bind].
  destruct b as [|[n kn] b'].
  - exists nodes1. by rewrite app_nil_r in *.
  - destruct (segment_set_prev nodes1 (Some i) n kn b' None (final None a) Nb Sb) as (n2 & E & L & S2 & O & F).
    exists n2. cbn [first]. rewrite E. cbn. split.
    + rewrite Ht, !final_app. rewrite final_cons. by rewrite (final_nonempty _ (final None a)).
    + split; [|split; [congruence|]].
      * apply segment_app. split; [|done]. apply F; [|done]. intros Hin. apply (Hab n Hin). by left.
      * rewrite O; [done|]. intros ->. apply Hib. by left.
Qed.

(** A cell that points at the front of the list becomes its front. *)
Lemma front_spec nodes i k l :
  NoDup l.*1 -> i ∉ l.*1 -> segment nodes None l None ->
  nodes !! i = Some (mkNode k (first l None) None) ->
  exists nodes', Lhs.link_front i (first l None) nodes (final None l)
                 = Some (nodes', final None ((i, k) :: l))
    /\ segment nodes' None ((i, k) :: l) None /\ length nodes' = length nodes.
Proof.
  intros Nl Hi Hl Hn. unfold Lhs.link_front. destruct l as [|[j kj] l'].
  - exists nodes. by split.
  - destruct (segment_set_prev nodes None j kj l' None (Some i) Nl Hl) as (n2 & E & L & S2 & O & _).
    exists n2. cbn [first]. rewrite E. cbn [mbind option_bind]. split; [by rewrite !final_cons|]. split; [|done].
    split; [|done]. rewrite O; [done|]. intros ->. apply Hi. by left.
Qed.

(** * The operations on lists *)

(** Keys, most recent first. *)
Definition without_key (k : u32) (l : list u32) : list u32 := filter (fun x => x <> k) l.

Definition lru_touch (k : u32) (l : list u32) : list u32 := k :: without_key k l.

Definition lru_victim (is_pinned : u32 -> bool) (l : list u32) : option u32 :=
  last (filter (fun k => is_pinned k = false) l).

Lemma without_key_split k a (i : nat) b :
  NoDup (a ++ (i, k) :: b).*2 -> without_key k (a ++ (i, k) :: b).*2 = (a ++ b).*2.
Proof.
  rewrite !fmap_app, fmap_cons. cbn. intros (Ha & Hd & [Hk Hb]%NoDup_cons)%NoDup_app.
  unfold without_key. rewrite filter_app, filter_cons_False by tauto.
  f_equal; apply list_filter_all; apply Forall_forall; intros x Hx ->; [|done].
  apply (Hd k Hx). by left.
Qed.

Section Cells.
Context (s : LinkedHashSet) (l : list (nat * u32)) (Hl : lists s l).

Lemma slots_nodup : NoDup l.*1.
Proof using Hl.
  assert (NoDup (l.*1 ++ lhs_free s)) as H.
  { rewrite (l_slots _ _ Hl). apply NoDup_seq. }
  by apply NoDup_app in H as [? _].
Qed.

Lemma lookup_cell k i : lhs_map s !! k = Some i ->
  exists a b, l = a ++ (i, k) :: b /\ lhs_nodes s !! i = Some (mkNode k (first b None) (final None a)).
Proof using Hl.
  intros H%(l_map _ _ Hl). apply list_elem_of_split in H as (a & b & ->). exists a, b. split; [done|].
  pose proof (l_segment _ _ Hl) as [_ [Hi _]]%segment_app. done.
Qed.

Lemma lookup_key k : is_Some (lhs_map s !! k) <-> k ∈ l.*2.
Proof using Hl.
  rewrite list_elem_of_fmap. split.
  - intros [i H%(l_map _ _ Hl)]. by exists (i, k).
  - intros ([i k'] & -> & H). exists i. by apply (l_map _ _ Hl).
Qed.

Lemma lists_contains k : Lhs.contains k s = bool_decide (k ∈ l.*2).
Proof using Hl. unfold Lhs.contains. apply bool_decide_ext, lookup_key. Qed.

Lemma lists_len : Lhs.len s = length l.*2.
Proof using Hl.
  unfold Lhs.len. rewrite <- size_dom.
  rewrite <- (size_list_to_set (C := gset u32)) by apply (l_keys _ _ Hl).
  f_equal. apply set_eq. intros k. rewrite elem_of_dom, elem_of_list_to_set. apply lookup_key.
Qed.

(** Taking a cell out, wherever its slot goes. *)
Lemma unlinked k i : lhs_map s !! k = Some i ->
  exists a b nodes, l = a ++ (i, k) :: b
    /\ lhs_nodes s !! i = Some (mkNode k (first b None) (final None a))
    /\ Lhs.unlink (final None a) (first b None) s = Some (nodes, first (a ++ b) None, final None (a ++ b))
    /\ segment nodes None (a ++ b) None /\ length nodes = length (lhs_nodes s)
    /\ nodes !! i = lhs_nodes s !! i
    /\ NoDup ((a ++ b).*1) /\ (i ∉ (a ++ b).*1) /\ NoDup ((a ++ b).*2) /\ (k ∉ (a ++ b).*2)
    /\ (a ++ b).*2 = without_key k l.*2.
Proof using Hl.
  intros H. pose proof slots_nodup as Hs. pose proof (l_keys _ _ Hl) as Hk.
  destruct (lookup_cell k i H) as (a & b & -> & Hn).
  destruct (unlink_spec s a i k b Hs (l_segment _ _ Hl) (l_head _ _ Hl) (l_tail _ _ Hl)) as (nodes & E & Sg & L & I).
  exists a, b, nodes. rewrite (without_key_split k a i b Hk).
  rewrite fmap_app, fmap_cons, <- Permutation_middle in Hs.
  rewrite fmap_app, fmap_cons, <- Permutation_middle in Hk.
  rewrite !fmap_app. apply NoDup_cons in Hs as [Hi Hs], Hk as [Hkk Hk]. done.
Qed.

End Cells.

Lemma remove_spec s l k :
  lists s l ->
  match lhs_map s !! k with
  | None => Lhs.remove k s = Some (Err KeyNotFound, s)
  | Some _ => exists s' l', Lhs.remove k s = Some (Ok tt, s') /\ lists s' l' /\ l'.*2 = without_key k l.*2
  end.
Proof.
  intros Hl. unfold Lhs.remove. destruct (lhs_map s !! k) as [i|] eqn:E; [|done].
  destruct (unlinked s l Hl k i E) as (a & b & nodes & -> & Hn & Eu & Sg & L & I & N1 & Hi & N2 & Hk & Hw).
  rewrite Hn. cbn [mbind option_bind n_prev n_next]. rewrite Eu. cbn [mbind option_bind].
  eexists _, (a ++ b). split; [done|]. split; [|done].
  constructor; cbn; try done.
  - rewrite L, <- (l_slots _ _ Hl). rewrite !fmap_app, fmap_cons. cbn. solve_Permutation.
  - intros x j. rewrite lookup_delete_Some, (l_map _ _ Hl). split.
    + intros [Hne H]. set_solver.
    + intros H. split; [|set_solver]. intros ->. apply Hk. apply list_elem_of_fmap. by exists (j, x).
Qed.

Lemma move_to_front_spec s l k :
  lists s l ->
  match lhs_map s !! k with
  | None => Lhs.move_to_front k s = Some (Err KeyNotFound, s)
  | Some _ => exists s' l', Lhs.move_to_front k s = Some (Ok tt, s') /\ lists s' l' /\ l'.*2 = lru_touch k l.*2
  end.
Proof.
  intros Hl. unfold Lhs.move_to_front. destruct (lhs_map s !! k) as [i|] eqn:E; [|done].
  destruct (unlinked s l Hl k i E) as (a & b & nodes & -> & Hn & Eu & Sg & L & I & N1 & Hi & N2 & Hk & Hw).
  rewrite Hn. cbn [mbind option_bind n_prev n_next]. rewrite Eu. cbn [mbind option_bind].
  unfold set_prev_of, set_next_of. rewrite I, Hn. cbn [mbind option_bind n_key n_next].
  assert (i < length nodes) as Hlt by (rewrite L; by eapply lookup_lt_Some).
  rewrite list_lookup_insert_eq by done. cbn [mbind option_bind n_key n_prev].
  rewrite list_insert_insert_eq.
  edestruct (front_spec (<[i:=mkNode k (first (a ++ b) None) None]> nodes) i k (a ++ b)) as (n2 & Ef & Sg' & L').
  { done. } { done. } { by apply segment_frame. } { by apply list_lookup_insert_eq. }
  rewrite Ef. cbn [mbind option_bind]. eexists _, ((i, k) :: a ++ b). split; [done|].
  split; [|unfold lru_touch; by rewrite <- Hw].
  rewrite length_insert in L'. constructor; cbn [lhs_nodes lhs_head lhs_tail lhs_free lhs_map]; try done.
  - rewrite L', L, <- (l_slots _ _ Hl). rewrite fmap_cons, !fmap_app, fmap_cons. cbn. solve_Permutation.
  - rewrite fmap_cons. by apply NoDup_cons.
  - intros x j. rewrite (l_map _ _ Hl). set_solver.
Qed.

Lemma pop_slot_spec free :
  match pop_slot free with Some (i, rest) => free = rest ++ [i] | None => free = [] end.
Proof.
  unfold pop_slot. destruct (last free) as [i|] eqn:E; cbn; [|by apply last_None].
  apply last_Some in E as [r ->]. rewrite length_app. cbn. by rewrite Nat.add_sub, take_app_length.
Qed.

Lemma insert_spec s l k :
  lists s l ->
  exists s' l', Lhs.insert k s = Some (Ok tt, s') /\ lists s' l' /\ l'.*2 = lru_touch k l.*2.
Proof.
  intros Hl. unfold Lhs.insert. pose proof (move_to_front_spec s l k Hl) as Hm.
  pose proof (lists_contains s l Hl k) as Hc. unfold Lhs.contains in *.
  destruct (lhs_map s !! k) as [i|] eqn:E; [done|]. rewrite bool_decide_false in * by (by intros []).
  symmetry in Hc. apply bool_decide_eq_false in Hc.
  assert (exists i nodes free, match pop_slot (lhs_free s) with
      | Some (slot, free) =>
          nodes ← set_node slot (mkNode k (lhs_head s) None) (lhs_nodes s); Some (slot, nodes, free)
      | None => Some (length (lhs_nodes s), lhs_nodes s ++ [mkNode k (lhs_head s) None], lhs_free s)
      end = Some (i, nodes, free)
    /\ segment nodes None l None /\ nodes !! i = Some (mkNode k (first l None) None)
    /\ (i ∉ l.*1) /\ i :: l.*1 ++ free ≡ₚ seq 0 (length nodes)) as (i & nodes & free & Es & Sg & Hn & Hi & Hp).
  { rewrite (l_head _ _ Hl). pose proof (l_slots _ _ Hl) as Hp. pose proof (l_segment _ _ Hl) as Sg.
    assert (forall i, i ∈ l.*1 ++ lhs_free s <-> i < length (lhs_nodes s)) as Hin.
    { intros i. rewrite Hp, elem_of_seq. lia. }
    assert (NoDup (l.*1 ++ lhs_free s)) as Hnd by (rewrite Hp; apply NoDup_seq).
    pose proof (pop_slot_spec (lhs_free s)) as Hf. destruct (pop_slot (lhs_free s)) as [[i rest]|].
    - unfold set_node. rewrite Hf in *.
      assert (i ∉ l.*1) as Hi by (apply NoDup_app in Hnd as (_ & Hd & _); intros H; apply (Hd i H); set_solver).
      assert (i < length (lhs_nodes s)) as Hlt by (apply Hin; set_solver).
      rewrite decide_True by done. cbn [mbind option_bind]. eexists i, _, rest. split; [done|].
      split; [by apply segment_frame|]. split; [by apply list_lookup_insert_eq|]. split; [done|].
      rewrite length_insert, <- Hp. solve_Permutation.
    - eexists _, _, _. split; [done|]. split; [by apply segment_grow|].
      split; [by rewrite lookup_app_r, Nat.sub_diag|]. split.
      + intros H. assert (length (lhs_nodes s) < length (lhs_nodes s)); [|lia]. apply Hin. set_solver.
      + rewrite length_app, seq_app, <- Hp. cbn. solve_Permutation. }
  rewrite Es. cbn [mbind option_bind]. rewrite (l_head _ _ Hl), (l_tail _ _ Hl).
  destruct (front_spec nodes i k l (slots_nodup s l Hl) Hi Sg Hn) as (n2 & Ef & Sg' & L').
  rewrite Ef. cbn [mbind option_bind]. eexists _, ((i, k) :: l). split; [done|]. split.
  - constructor; cbn [lhs_nodes lhs_head lhs_tail lhs_free lhs_map]; try done.
    + by rewrite L'.
    + rewrite fmap_cons. apply NoDup_cons. split; [done|apply (l_keys _ _ Hl)].
    + intros x j. rewrite lookup_insert_Some, (l_map _ _ Hl), elem_of_cons. split.
      * intros [[-> ->]|[_ H]]; auto.
      * intros [[= -> ->]|H]; [auto|]. right. split; [|done]. intros ->.
        apply Hc, list_elem_of_fmap. by exists (j, x).
  - unfold lru_touch, without_key. rewrite fmap_cons. cbn. f_equal. symmetry. apply list_filter_all.
    apply Forall_forall. intros x Hx ->. done.
Qed.

Lemma without_last k l' : NoDup (l' ++ [k]) -> without_key k (l' ++ [k]) = l'.
Proof.
  intros (H1 & H2 & _)%NoDup_app. unfold without_key. rewrite filter_app, filter_cons_False by tauto.
  rewrite filter_nil, app_nil_r. apply list_filter_all, Forall_forall. intros x Hx ->.
  apply (H2 k Hx). by left.
Qed.

Lemma pop_back_spec s l :
  lists s l ->
  match last l.*2 with
  | None => Lhs.pop_back s = Some (Err EmptyList, s)
  | Some k => exists s' l', Lhs.pop_back s = Some (Ok k, s') /\ lists s' l' /\ l'.*2 = without_key k l.*2
  end.
Proof.
  intros Hl. unfold Lhs.pop_back. rewrite (l_tail _ _ Hl). unfold final. rewrite fmap_last.
  destruct (list_snoc_case l) as [->|(a & [i k] & ->)]; [done|]. rewrite last_snoc. cbn [fmap option_fmap option_map snd].
  assert (lhs_map s !! k = Some i) as E by (apply (l_map _ _ Hl); set_solver).
  pose proof (remove_spec s _ k Hl) as Hr. rewrite E in Hr. destruct Hr as (s' & l' & Er & Hl' & Hw).
  pose proof (l_segment _ _ Hl) as [_ [Hn _]]%segment_app. cbn [first] in Hn.
  destruct (unlink_spec s a i k [] (slots_nodup _ _ Hl) (l_segment _ _ Hl) (l_head _ _ Hl) (l_tail _ _ Hl))
    as (nodes & Eu & _ & _ & I).
  exists s', l'. split; [|done]. unfold Lhs.remove in Er. rewrite E, Hn in Er. rewrite Hn.
  cbn [mbind option_bind n_prev n_next first] in *. rewrite Eu in Er. injection Er as <-.
  unfold Lhs.unlink in Eu.
  destruct (match final None a with Some _ => _ | None => _ end) as [[nodes1 hd]|]; [|done].
  cbn [mbind option_bind first] in *. injection Eu as -> -> _. by rewrite I, Hn, app_nil_r.
Qed.

(** The scan from the back of [a], everything behind it being pinned, returns
    the last unpinned key and takes it out; it needs one turn per cell. *)
Lemma scan_spec s l is_pinned :
  lists s l ->
  forall fuel a b, l = a ++ b -> length a <= fuel ->
  match lru_victim is_pinned a.*2 with
  | None => Lhs.scan fuel is_pinned (final None a) s = Some (None, s)
  | Some k => exists s' l', Lhs.scan fuel is_pinned (final None a) s = Some (Some k, s')
                /\ lists s' l' /\ l'.*2 = without_key k l.*2
  end.
Proof.
  intros Hl fuel. induction fuel as [|fuel IH]; intros a b -> Hf.
  - by destruct a; [|cbn in Hf; lia].
  - destruct (list_snoc_case a) as [->|(a' & [i k] & ->)]; [done|].
    unfold final. rewrite last_snoc. cbn [Lhs.scan].
    pose proof (l_segment _ _ Hl) as Sg. rewrite <- app_assoc in Sg. apply segment_app in Sg as [_ [Hn _]].
    rewrite Hn. cbn [mbind option_bind n_key n_prev].
    unfold lru_victim. rewrite fmap_app, filter_app. cbn [fmap list_fmap snd]. rewrite length_app in Hf. cbn in Hf.
    destruct (is_pinned k) eqn:Hp; cbn [negb].
    + rewrite filter_cons_False by congruence. rewrite app_nil_r. apply (IH a' ([(i, k)] ++ b)); [|lia].
      by rewrite app_assoc.
    + rewrite filter_cons_True by done. rewrite filter_nil, last_snoc.
      assert (lhs_map s !! k = Some i) as E by (apply (l_map _ _ Hl); set_solver).
      pose proof (remove_spec s _ k Hl) as Hr. rewrite E in Hr. destruct Hr as (s' & l' & -> & Hl' & Hw).
      by exists s', l'.
Qed.

Lemma check_unpinned_spec s l is_pinned :
  lists s l ->
  match lru_victim is_pinned l.*2 with
  | None => Lhs.check_unpinned is_pinned s = Some (None, s)
  | Some k => exists s' l', Lhs.check_unpinned is_pinned s = Some (Some k, s')
                /\ lists s' l' /\ l'.*2 = without_key k l.*2
  end.
Proof.
  intros Hl. unfold Lhs.check_unpinned. rewrite (l_tail _ _ Hl).
  apply (scan_spec s l is_pinned Hl _ l []); [by rewrite app_nil_r|].
  pose proof (Permutation_length (l_slots _ _ Hl)) as H. rewrite length_app, length_fmap, length_seq in H. lia.
Qed.
