(* ===== verification/Recency.v ===== *)
(** What the replacement policy asks of a recency list, as an interface, with
    its two instances: the linked hash set of the buffer pool and the plain list
    of keys it stands for. [Refines] says that two instances cannot be told
    apart, and the linked hash set refines the list. *)
From S2P Require Import Prelude Eff Bytes Errors LinkedHashSet.

Class Recency (S : Type) := {
  r_new : S;
  r_contains : u32 -> S -> bool;
  r_len : S -> nat;
  r_insert : u32 -> Mut S (Result FerroError unit);
  r_remove : u32 -> Mut S (Result FerroError unit);
  r_pop_back : Mut S (Result FerroError u32);
  r_move_to_front : u32 -> Mut S (Result FerroError unit);
  r_check_unpinned : (u32 -> bool) -> Mut S (option u32)
}.

#[export] Instance lhs_recency : Recency LinkedHashSet := {|
  r_new := Lhs.new;
  r_contains := Lhs.contains;
  r_len := Lhs.len;
  r_insert := Lhs.insert;
  r_remove := Lhs.remove;
  r_pop_back := Lhs.pop_back;
  r_move_to_front := Lhs.move_to_front;
  r_check_unpinned := Lhs.check_unpinned
|}.

(** Keys, most recent first. *)
#[export] Instance list_recency : Recency (list u32) := {|
  r_new := [];
  r_contains k l := bool_decide (k ∈ l);
  r_len := length;
  r_insert k l := Some (Ok tt, lru_touch k l);
  r_remove k l := Some (if bool_decide (k ∈ l) then (Ok tt, without_key k l) else (Err KeyNotFound, l));
  r_pop_back l := Some (match last l with Some k => (Ok k, without_key k l) | None => (Err EmptyList, l) end);
  r_move_to_front k l := Some (if bool_decide (k ∈ l) then (Ok tt, lru_touch k l) else (Err KeyNotFound, l));
  r_check_unpinned pinned l :=
    Some (match lru_victim pinned l with Some k => (Some k, without_key k l) | None => (None, l) end)
|}.

Class Refines {S T : Type} `{!Recency S, !Recency T} (R : S -> T -> Prop) : Prop := {
  new_refines : R r_new r_new;
  contains_refines s t k : R s t -> r_contains k s = r_contains k t;
  len_refines s t : R s t -> r_len s = r_len t;
  insert_refines k : sim R (r_insert k) (r_insert k);
  remove_refines k : sim R (r_remove k) (r_remove k);
  pop_back_refines : sim R r_pop_back r_pop_back;
  move_to_front_refines k : sim R (r_move_to_front k) (r_move_to_front k);
  check_unpinned_refines pinned : sim R (r_check_unpinned pinned) (r_check_unpinned pinned)
}.

(** The linked hash set holds the keys [l]. *)
Definition holds (s : LinkedHashSet) (l : list u32) : Prop := exists c, lists s c /\ c.*2 = l.

Lemma lists_new : lists Lhs.new [].
Proof.
  constructor; try done; [by apply NoDup_nil|]. intros k i.
  change (lhs_map Lhs.new) with (∅ : gmap u32 nat). rewrite lookup_empty.
  split; [done|]. by intros ?%not_elem_of_nil.
Qed.

(** Closes a simulation of an operation whose effect on the cells is known. *)
Lemma agree_holds {A : Type} (m : option (A * LinkedHashSet)) (a : A) s c l :
  m = Some (a, s) -> lists s c -> c.*2 = l -> agree holds m (Some (a, l)).
Proof. intros -> H ?. exists s. split; [done|]. by exists c. Qed.

Lemma found s c k : lists s c ->
  bool_decide (k ∈ c.*2) = match lhs_map s !! k with Some _ => true | None => false end.
Proof.
  intros Hc. destruct (lhs_map s !! k) eqn:E.
  - apply bool_decide_eq_true, (lookup_key s c Hc). eauto.
  - apply bool_decide_eq_false. rewrite <- (lookup_key s c Hc), E. by intros [].
Qed.

#[export] Instance lhs_refines_list : Refines holds.
Proof.
  split.
  - exists []. split; [apply lists_new|done].
  - intros s l k (c & Hc & <-). apply (lists_contains s c Hc).
  - intros s l (c & Hc & <-). apply (lists_len s c Hc).
  - intros k s l (c & Hc & <-). destruct (insert_spec s c k Hc) as (s' & c' & E & Hc' & Hk).
    by eapply agree_holds.
  - intros k s l (c & Hc & <-). pose proof (remove_spec s c k Hc) as H. cbn. rewrite (found s c k Hc).
    destruct (lhs_map s !! k); [destruct H as (s' & c' & E & Hc' & Hk)|]; by eapply agree_holds.
  - intros s l (c & Hc & <-). pose proof (pop_back_spec s c Hc) as H. cbn.
    destruct (last c.*2); [destruct H as (s' & c' & E & Hc' & Hk)|]; by eapply agree_holds.
  - intros k s l (c & Hc & <-). pose proof (move_to_front_spec s c k Hc) as H. cbn. rewrite (found s c k Hc).
    destruct (lhs_map s !! k); [destruct H as (s' & c' & E & Hc' & Hk)|]; by eapply agree_holds.
  - intros pinned s l (c & Hc & <-). pose proof (check_unpinned_spec s c pinned Hc) as H. cbn.
    destruct (lru_victim pinned c.*2); [destruct H as (s' & c' & E & Hc' & Hk)|]; by eapply agree_holds.
Qed.

(** * Runs *)

Inductive Op : Type :=
| Insert (k : u32)
| Remove (k : u32)
| PopBack
| MoveToFront (k : u32)
| CheckUnpinned (is_pinned : u32 -> bool).

Inductive Answer : Type :=
| Done (r : Result FerroError unit)
| Popped (r : Result FerroError u32)
| Victim (r : option u32).

Definition run_op {S : Type} `{!Recency S} (o : Op) : Mut S Answer :=
  match o with
  | Insert k => r ← r_insert k; mret (Done r)
  | Remove k => r ← r_remove k; mret (Done r)
  | PopBack => r ← r_pop_back; mret (Popped r)
  | MoveToFront k => r ← r_move_to_front k; mret (Done r)
  | CheckUnpinned is_pinned => r ← r_check_unpinned is_pinned; mret (Victim r)
  end.

Fixpoint run_ops {S : Type} `{!Recency S} (os : list Op) : Mut S (list Answer) :=
  match os with
  | [] => mret []
  | o :: os => a ← run_op o; rest ← run_ops os; mret (a :: rest)
  end.

Lemma run_op_refines {S T : Type} `{!Recency S, !Recency T} (R : S -> T -> Prop) `{!Refines R} o :
  sim R (run_op o) (run_op o).
Proof.
  destruct o; (apply sim_bind; [|intros r; apply sim_ret]).
  - apply insert_refines.
  - apply remove_refines.
  - apply pop_back_refines.
  - apply move_to_front_refines.
  - apply check_unpinned_refines.
Qed.

Lemma run_ops_refines {S T : Type} `{!Recency S, !Recency T} (R : S -> T -> Prop) `{!Refines R} os :
  sim R (run_ops os) (run_ops os).
Proof.
  induction os as [|o os IH]; [apply sim_ret|].
  apply sim_bind; [by apply run_op_refines|]. intros a. apply sim_bind; [done|]. intros r. apply sim_ret.
Qed.

Lemma list_ops_run os (l : list u32) : is_Some (run_ops os l).
Proof.
  revert l. induction os as [|o os IH]; intros l; [done|]. cbn [run_ops].
  assert (exists a l', run_op o l = Some (a, l')) as (a & l' & E).
  { destruct o; cbn [run_op]; unfold mbind, mut_bind; cbn; eauto; case_goal; eauto. }
  unfold mbind, mut_bind. rewrite E. destruct (IH l') as [[r l''] ->]. done.
Qed.

(** C30: the linked hash set is the recency list. From an empty set, whatever the
    operations, none panics (every link followed is in range, and every
    [unwrap] succeeds); they return, one by one, what the same operations return
    on a plain list of keys with the most recent first; and afterwards the set
    has that list's keys and length, and every slot of its vector is either
    linked or free to be used again. *)
Theorem linked_hash_set_is_a_list (os : list Op) :
  exists answers (s : LinkedHashSet) (l : list u32),
    run_ops os Lhs.new = Some (answers, s) /\ run_ops os [] = Some (answers, l)
    /\ NoDup l /\ Lhs.len s = length l
    /\ (forall k, Lhs.contains k s = bool_decide (k ∈ l))
    /\ length (lhs_nodes s) = length l + length (lhs_free s).
Proof.
  pose proof (run_ops_refines holds os Lhs.new [] new_refines) as H.
  destruct (list_ops_run os []) as [[answers l] E']. rewrite E' in H. destruct H as (s & E & c & Hc & <-).
  exists answers, s, c.*2. split_and!; [done|done| | | |].
  - apply (l_keys _ _ Hc).
  - apply (lists_len s c Hc).
  - apply (lists_contains s c Hc).
  - pose proof (Permutation_length (l_slots _ _ Hc)) as H. rewrite length_app, length_seq in H.
    rewrite <- H. by rewrite !length_fmap.
Qed.
