(* ===== verification/Arc.v ===== *)
(** The replacement policy of the buffer pool: [src/src/buffer/arc.rs]. Resident
    pages are in [t1] (seen once) and [t2] (seen again), pages lately evicted in
    the ghost lists [b1] and [b2], and [p] is the size the policy aims at for
    [t1]. The code is written against the interface of a recency list, so that
    one set of definitions is both the program, over linked hash sets, and its
    reference, over lists. *)
From S2P Require Import Prelude Eff Bytes Errors LinkedHashSet Recency.

Record ArcCache (S : Type) := mkArc {
  capacity : nat;
  p : nat;
  t1 : S;
  t2 : S;
  b1 : S;
  b2 : S
}.
Arguments mkArc {S} _ _ _ _ _ _.
Arguments capacity {S} _.
Arguments p {S} _.
Arguments t1 {S} _.
Arguments t2 {S} _.
Arguments b1 {S} _.
Arguments b2 {S} _.

#[export] Instance arc_eta {S} : Eta (ArcCache S) :=
  fun c => mkArc (capacity c) (p c) (t1 c) (t2 c) (b1 c) (b2 c).
#[export] Instance set_p {S} : Setter (@p S). Proof. build_setter. Defined.
#[export] Instance set_t1 {S} : Setter (@t1 S). Proof. build_setter. Defined.
#[export] Instance set_t2 {S} : Setter (@t2 S). Proof. build_setter. Defined.
#[export] Instance set_b1 {S} : Setter (@b1 S). Proof. build_setter. Defined.
#[export] Instance set_b2 {S} : Setter (@b2 S). Proof. build_setter. Defined.

Inductive ArcResult : Type :=
| Hit
| MissEvict (victim : u32)
| MissNoEvict
| PoolFull.

Module Arc.

Section Policy.
Context {S : Type} `{!Recency S}.

Abbreviation M := (Mut (ArcCache S)).

Definition new (cap : nat) : ArcCache S := mkArc cap 0 r_new r_new r_new r_new.

Definition reinstate (page_id : u32) : M unit :=
  c ← mget;
  if r_contains page_id (b2 c) then
    _ ← on_field b2 (r_remove page_id);
    _ ← on_field t2 (r_insert page_id);
    mret tt
  else
    _ ← on_field b1 (r_remove page_id);
    _ ← on_field t1 (r_insert page_id);
    mret tt.

Definition touch (page_id : u32) : M bool :=
  c ← mget;
  if r_contains page_id (t1 c) then
    _ ← on_field t1 (r_remove page_id);
    _ ← on_field t2 (r_insert page_id);
    mret true
  else if r_contains page_id (t2 c) then
    _ ← on_field t2 (r_move_to_front page_id);
    mret true
  else mret false.

(** The two orders [replace] tries the lists in. *)
Definition evict_t1 (is_pinned : u32 -> bool) : M (option u32) :=
  victim ← on_field t1 (r_check_unpinned is_pinned);
  match victim with
  | Some v => _ ← on_field b1 (must (r_insert v)); mret (Some v)
  | None => mret None
  end.

Definition evict_t2 (is_pinned : u32 -> bool) : M (option u32) :=
  victim ← on_field t2 (r_check_unpinned is_pinned);
  match victim with
  | Some v => _ ← on_field b2 (must (r_insert v)); mret (Some v)
  | None => mret None
  end.

Definition or_else (m m' : M (option u32)) : M (option u32) :=
  r ← m;
  match r with Some v => mret (Some v) | None => m' end.

Definition replace (incoming : u32) (is_pinned : u32 -> bool) : M (option u32) :=
  c ← mget;
  if r_len (t1 c) + r_len (t2 c) =? 0 then mret None
  else if (0 <? r_len (t1 c))
          && ((p c <? r_len (t1 c)) || (r_contains incoming (b2 c) && (r_len (t1 c) =? p c)))
  then or_else (evict_t1 is_pinned) (evict_t2 is_pinned)
  else or_else (evict_t2 is_pinned) (evict_t1 is_pinned).

Definition miss (evicted : option u32) : ArcResult :=
  match evicted with Some id => MissEvict id | None => MissNoEvict end.

Definition full (c : ArcCache S) : bool := r_len (t1 c) + r_len (t2 c) =? capacity c.

Definition total (c : ArcCache S) : nat := r_len (t1 c) + r_len (t2 c) + r_len (b1 c) + r_len (b2 c).

(** Cases 2 and 3 after [p] has moved: make room, then bring the page from the
    ghost list [ghost] into [t2]. *)
Definition ghost_hit (ghost : ArcCache S -> S) `{!Setter ghost} (page_id : u32) (is_pinned : u32 -> bool) :
    M ArcResult :=
  evicted ← replace page_id is_pinned;
  c ← mget;
  if full c && bool_decide (evicted = None) then mret PoolFull
  else
    _ ← on_field ghost (must (r_remove page_id));
    _ ← on_field t2 (must (r_insert page_id));
    mret (miss evicted).

(** The end of case 4: the page enters [t1] unless there is no room for it. *)
Definition settle (page_id : u32) (evicted : option u32) : M ArcResult :=
  c ← mget;
  if bool_decide (evicted = None) && full c then mret PoolFull
  else
    _ ← on_field t1 (must (r_insert page_id));
    mret (miss evicted).

(** Case 4. *)
Definition complete_miss (page_id : u32) (is_pinned : u32 -> bool) : M ArcResult :=
  c ← mget;
  evicted ←
    (if r_len (b1 c) + r_len (t1 c) =? capacity c then
       if r_len (t1 c) <? capacity c then
         _ ← on_field b1 r_pop_back;
         replace page_id is_pinned
       else on_field t1 (r_check_unpinned is_pinned)
     else if capacity c <=? total c then
       _ ← (if total c =? 2 * capacity c then on_field b2 r_pop_back ≫= fun _ => mret tt else mret tt);
       replace page_id is_pinned
     else mret None);
  settle page_id evicted.

Definition request (page_id : u32) (is_pinned : u32 -> bool) : M ArcResult :=
  c ← mget;
  if r_contains page_id (t1 c) then
    _ ← on_field t1 (must (r_remove page_id));
    _ ← on_field t2 (must (r_insert page_id));
    mret Hit
  else if r_contains page_id (t2 c) then
    _ ← on_field t2 (must (r_move_to_front page_id));
    mret Hit
  else if r_contains page_id (b1 c) then
    let delta := max 1 (r_len (b2 c) / max (r_len (b1 c)) 1) in
    _ ← mset (fun c => c <| p := min (p c + delta) (capacity c) |>);
    ghost_hit b1 page_id is_pinned
  else if r_contains page_id (b2 c) then
    let delta := max 1 (r_len (b1 c) / max 1 (r_len (b2 c))) in
    _ ← mset (fun c => c <| p := p c - delta |>);
    ghost_hit b2 page_id is_pinned
  else complete_miss page_id is_pinned.

Definition remove (page_id : u32) : M (Result FerroError unit) :=
  c ← mget;
  if r_contains page_id (t1 c) then on_field t1 (r_remove page_id)
  else if r_contains page_id (t2 c) then on_field t2 (r_remove page_id)
  else if r_contains page_id (b1 c) then on_field b1 (r_remove page_id)
  else if r_contains page_id (b2 c) then on_field b2 (r_remove page_id)
  else mret (Ok tt).

(** The closure of [fault_in] ([src/src/buffer/buffer_pool.rs]): a fault that
    could not take its victim gives it back, if it is still resident, and takes
    back the claim of the page that will not arrive. *)
Definition give_back (victim page_id : u32) (declined : bool) : M unit :=
  _ ← (if declined then reinstate victim else mret tt);
  _ ← remove page_id;
  mret tt.

End Policy.

End Arc.
