(* ===== verification/ArcProps.v ===== *)
(** The replacement policy keeps its books: over any use of it by the pool, a
    page is in at most one of the four lists, the lists stay within the sizes
    the policy is defined by, and the verdict on a request is right. The
    arguments are about lists; the policy over linked hash sets follows because
    a linked hash set refines a list. *)
From S2P Require Import Prelude Eff Bytes Errors LinkedHashSet Recency Arc.

Create HintDb sim.

(** * The policy over one representation simulates the policy over another *)

Section Simulation.
Context {S T : Type} `{!Recency S, !Recency T} (R : S -> T -> Prop) `{!Refines R}.

Record arc_rel (c : ArcCache S) (d : ArcCache T) : Prop := {
  ar_capacity : capacity c = capacity d;
  ar_p : p c = p d;
  ar_t1 : R (t1 c) (t1 d);
  ar_t2 : R (t2 c) (t2 d);
  ar_b1 : R (b1 c) (b1 d);
  ar_b2 : R (b2 c) (b2 d)
}.

Ltac sim_field f g :=
  intros H c d Hcd; pose proof Hcd as []; unfold on_field;
  match goal with m' : Mut T _ |- _ =>
    specialize (H (f c) (g d)); destruct (m' (g d)) as [[a s']|]; [|done];
    destruct H as (s & -> & Hs); [done|]; eexists; by split
  end.

Lemma sim_t1 {A : Type} (m : Mut S A) (m' : Mut T A) :
  sim R m m' -> sim arc_rel (on_field t1 m) (on_field t1 m').
Proof using Type. sim_field (t1 (S := S)) (t1 (S := T)). Qed.

Lemma sim_t2 {A : Type} (m : Mut S A) (m' : Mut T A) :
  sim R m m' -> sim arc_rel (on_field t2 m) (on_field t2 m').
Proof using Type. sim_field (t2 (S := S)) (t2 (S := T)). Qed.

Lemma sim_b1 {A : Type} (m : Mut S A) (m' : Mut T A) :
  sim R m m' -> sim arc_rel (on_field b1 m) (on_field b1 m').
Proof using Type. sim_field (b1 (S := S)) (b1 (S := T)). Qed.

Lemma sim_b2 {A : Type} (m : Mut S A) (m' : Mut T A) :
  sim R m m' -> sim arc_rel (on_field b2 m) (on_field b2 m').
Proof using Type. sim_field (b2 (S := S)) (b2 (S := T)). Qed.

Lemma sim_set_p (f : ArcCache S -> nat) (g : ArcCache T -> nat) :
  (forall c d, arc_rel c d -> f c = g d) ->
  sim arc_rel (mset (fun c => c <| p := f c |>)) (mset (fun d => d <| p := g d |>)).
Proof using Type. intros H. apply sim_set. intros c d Hc. pose proof Hc as []. constructor; try done. by apply H. Qed.

#[local] Hint Resolve sim_t1 sim_t2 sim_b1 sim_b2 sim_ret sim_must : sim.
#[local] Hint Resolve insert_refines remove_refines pop_back_refines move_to_front_refines : sim.
#[local] Hint Resolve check_unpinned_refines : sim.

(** What the code reads of two related caches is the same. *)
Ltac same_reading Hc :=
  pose proof Hc as [];
  rewrite ?(ar_capacity _ _ Hc), ?(ar_p _ _ Hc),
    ?(contains_refines _ _ _ (ar_t1 _ _ Hc)), ?(contains_refines _ _ _ (ar_t2 _ _ Hc)),
    ?(contains_refines _ _ _ (ar_b1 _ _ Hc)), ?(contains_refines _ _ _ (ar_b2 _ _ Hc)),
    ?(len_refines _ _ (ar_t1 _ _ Hc)), ?(len_refines _ _ (ar_t2 _ _ Hc)),
    ?(len_refines _ _ (ar_b1 _ _ Hc)), ?(len_refines _ _ (ar_b2 _ _ Hc)).

(** Walks two copies of the same code: binds, readings of the state, branches on
    what the two readings agree on. *)
Ltac sim_walk :=
  repeat first
    [ solve [eauto with sim]
    | match goal with |- sim _ (mget ≫= _) _ =>
        let c := fresh "c" in let d := fresh "d" in let Hc := fresh "Hc" in
        apply sim_get; intros c d Hc; cbv zeta; same_reading Hc end
    | match goal with |- sim _ (_ ≫= _) _ => apply sim_bind; [|intros ?a] end
    | match goal with |- sim _ (if ?b then _ else _) (if ?b then _ else _) => destruct b end
    | match goal with |- sim _ (match ?b with Some _ => _ | None => _ end) _ => destruct b end
    | match goal with |- sim _ (mset _) (mset _) =>
        let Hc := fresh "Hc" in apply sim_set_p; intros ? ? Hc; by same_reading Hc end ].

Lemma sim_evict_t1 pinned : sim arc_rel (Arc.evict_t1 pinned) (Arc.evict_t1 pinned).
Proof using Type*. unfold Arc.evict_t1. sim_walk. Qed.

Lemma sim_evict_t2 pinned : sim arc_rel (Arc.evict_t2 pinned) (Arc.evict_t2 pinned).
Proof using Type*. unfold Arc.evict_t2. sim_walk. Qed.
#[local] Hint Resolve sim_evict_t1 sim_evict_t2 : sim.

Lemma sim_replace k pinned : sim arc_rel (Arc.replace k pinned) (Arc.replace k pinned).
Proof using Type*. unfold Arc.replace, Arc.or_else. sim_walk. Qed.
#[local] Hint Resolve sim_replace : sim.

Lemma sim_full c d : arc_rel c d -> Arc.full c = Arc.full d.
Proof using Type*. intros Hc. unfold Arc.full. by same_reading Hc. Qed.

Lemma sim_request k pinned : sim arc_rel (Arc.request k pinned) (Arc.request k pinned).
Proof using Type*.
  unfold Arc.request, Arc.complete_miss, Arc.settle, Arc.ghost_hit, Arc.full, Arc.total. sim_walk.
Qed.

Lemma sim_touch k : sim arc_rel (Arc.touch k) (Arc.touch k).
Proof using Type*. unfold Arc.touch. sim_walk. Qed.

Lemma sim_remove k : sim arc_rel (Arc.remove k) (Arc.remove k).
Proof using Type*. unfold Arc.remove. sim_walk. Qed.
#[local] Hint Resolve sim_request sim_touch sim_remove : sim.

Lemma sim_give_back v k declined : sim arc_rel (Arc.give_back v k declined) (Arc.give_back v k declined).
Proof using Type*. unfold Arc.give_back, Arc.reinstate. sim_walk. Qed.

End Simulation.

(** * The policy over lists *)

Abbreviation cache := (ArcCache (list u32)) (only parsing).

#[local] Arguments lru_victim : simpl never.
#[local] Arguments lru_touch : simpl never.
#[local] Arguments without_key : simpl never.

(** The pages in the pool, and all the pages the policy knows. *)
Definition res (c : cache) : list u32 := t1 c ++ t2 c.
Definition pages (c : cache) : list u32 := t1 c ++ t2 c ++ b1 c ++ b2 c.

Record arc_ok (c : cache) : Prop := {
  ok_pages : NoDup (pages c);
  ok_res : length (t1 c) + length (t2 c) <= capacity c;
  ok_recent : length (t1 c) + length (b1 c) <= capacity c;
  ok_total : length (t1 c) + length (t2 c) + length (b1 c) + length (b2 c) <= 2 * capacity c;
  ok_p : p c <= capacity c
}.

#[local] Instance set_unfold_without k l x P :
  SetUnfoldElemOf x l P -> SetUnfoldElemOf x (without_key k l) (P /\ x <> k).
Proof. intros [H]. constructor. unfold without_key. rewrite list_elem_of_filter, H. tauto. Qed.

#[local] Instance set_unfold_touch k l x P :
  SetUnfoldElemOf x l P -> SetUnfoldElemOf x (lru_touch k l) (x = k \/ P).
Proof.
  intros H. constructor. unfold lru_touch. rewrite elem_of_cons, (set_unfold_elem_of _ (without_key k l) _).
  destruct (decide (x = k)); tauto.
Qed.

Lemma NoDup_without k l : NoDup l -> NoDup (without_key k l).
Proof. apply NoDup_filter. Qed.

Lemma NoDup_touch k l : NoDup l -> NoDup (lru_touch k l).
Proof. intros H. apply NoDup_cons. split; [set_solver|by apply NoDup_without]. Qed.

Lemma length_without k l : k ∈ l -> NoDup l -> length l = S (length (without_key k l)).
Proof.
  intros (a & b & ->)%list_elem_of_split (Ha & Hd & [Hv Hb]%NoDup_cons)%NoDup_app.
  unfold without_key. rewrite filter_app, filter_cons_False by tauto. rewrite !length_app. cbn.
  rewrite !list_filter_all; [lia| |]; apply Forall_forall; intros x Hx ->; [done|].
  apply (Hd k Hx). by left.
Qed.

Lemma length_touch k l : k ∉ l -> length (lru_touch k l) = S (length l).
Proof.
  intros H. unfold lru_touch, without_key. cbn. f_equal. rewrite list_filter_all; [done|].
  apply Forall_forall. by intros x Hx ->.
Qed.

Lemma length_touch_in k l : k ∈ l -> NoDup l -> length (lru_touch k l) = length l.
Proof. intros H Hn. rewrite (length_without k l) by done. done. Qed.
#[local] Hint Resolve NoDup_without NoDup_touch : core.

Lemma victim_spec pinned (l : list u32) :
  match lru_victim pinned l with
  | Some v => v ∈ l /\ pinned v = false
  | None => forall x, x ∈ l -> pinned x = true
  end.
Proof.
  unfold lru_victim. destruct (last _) as [v|] eqn:E.
  - apply last_Some_elem_of, list_elem_of_filter in E as [? ?]. done.
  - apply last_None in E. intros x Hx. apply not_false_iff_true. intros Hp.
    apply (not_elem_of_nil x). rewrite <- E. by apply list_elem_of_filter.
Qed.

Lemma replace_list cap q (T1 T2 B1 B2 : list u32) k pinned :
  let c := mkArc cap q T1 T2 B1 B2 in
  (Arc.replace k pinned c = Some (None, c) /\ (forall x, x ∈ T1 ++ T2 -> pinned x = true))
  \/ (exists v, v ∈ T1 /\ pinned v = false
       /\ Arc.replace k pinned c = Some (Some v, mkArc cap q (without_key v T1) T2 (lru_touch v B1) B2))
  \/ (exists v, v ∈ T2 /\ pinned v = false
       /\ Arc.replace k pinned c = Some (Some v, mkArc cap q T1 (without_key v T2) B1 (lru_touch v B2))).
Proof.
  intros c. pose proof (victim_spec pinned T1) as H1. pose proof (victim_spec pinned T2) as H2.
  unfold Arc.replace. rewrite mget_bind. cbn [r_len r_contains list_recency t1 t2 b2 c p].
  destruct (Nat.eqb_spec (length T1 + length T2) 0) as [Hz|Hz].
  { left. split; [done|]. destruct T1, T2; try (cbn in Hz; lia). by intros x ?%not_elem_of_nil. }
  assert (forall x, lru_victim pinned T1 = None -> lru_victim pinned T2 = None ->
          x ∈ T1 ++ T2 -> pinned x = true) as Hall.
  { intros x E1 E2. rewrite E1 in H1. rewrite E2 in H2. rewrite elem_of_app. intros [?|?]; auto. }
  destruct (_ && _); unfold Arc.or_else, Arc.evict_t1, Arc.evict_t2, mbind, mut_bind, on_field, must, c; cbn;
    destruct (lru_victim pinned T1) as [v1|] eqn:E1; destruct (lru_victim pinned T2) as [v2|] eqn:E2;
    cbn; rewrite ?E1, ?E2; cbn; destruct_and?; eauto 6.
Qed.

(** What a verdict says of the pages in the pool before and after it. A victim
    is either in a ghost list afterwards or was taken for a page now in [t1],
    which is what giving it back relies on. *)
Definition verdict_ok (k : u32) (pinned : u32 -> bool) (c c' : cache) (r : ArcResult) : Prop :=
  match r with
  | Hit => k ∈ res c /\ (forall x, x ∈ res c' <-> x ∈ res c)
  | PoolFull => (k ∉ res c) /\ length (res c) = capacity c /\ (forall x, x ∈ res c -> pinned x = true)
                /\ (forall x, x ∈ res c' <-> x ∈ res c)
  | MissEvict v => (k ∉ res c) /\ v ∈ res c /\ pinned v = false
                   /\ (forall x, x ∈ res c' <-> x = k \/ (x ∈ res c /\ x <> v))
                   /\ (v ∈ b1 c' ++ b2 c' \/ k ∈ t1 c')
  | MissNoEvict => (k ∉ res c) /\ length (res c) < capacity c
                   /\ (forall x, x ∈ res c' <-> x = k \/ x ∈ res c)
  end.

Lemma disjoint_parts (T1 T2 B1 B2 : list u32) :
  NoDup (T1 ++ T2 ++ B1 ++ B2) <->
  NoDup T1 /\ NoDup T2 /\ NoDup B1 /\ NoDup B2
  /\ (forall x, x ∈ T1 -> (x ∉ T2) /\ (x ∉ B1) /\ (x ∉ B2))
  /\ (forall x, x ∈ T2 -> (x ∉ B1) /\ (x ∉ B2)) /\ (forall x, x ∈ B1 -> (x ∉ B2)).
Proof. rewrite !NoDup_app. set_solver. Qed.

(** Bringing a page in from a ghost list. *)
Lemma enter_b1 cap q (T1 T2 B1 B2 : list u32) k r :
  k ∈ B1 ->
  (on_field b1 (must (r_remove k)) ≫= fun _ =>
     on_field t2 (must (r_insert k)) ≫= fun _ => (mret r : Mut cache ArcResult))
    (mkArc cap q T1 T2 B1 B2) = Some (r, mkArc cap q T1 (lru_touch k T2) (without_key k B1) B2).
Proof. intros H. unfold mbind, mut_bind, on_field, must. cbn. by rewrite bool_decide_true. Qed.

Lemma enter_b2 cap q (T1 T2 B1 B2 : list u32) k r :
  k ∈ B2 ->
  (on_field b2 (must (r_remove k)) ≫= fun _ =>
     on_field t2 (must (r_insert k)) ≫= fun _ => (mret r : Mut cache ArcResult))
    (mkArc cap q T1 T2 B1 B2) = Some (r, mkArc cap q T1 (lru_touch k T2) B1 (without_key k B2)).
Proof. intros H. unfold mbind, mut_bind, on_field, must. cbn. by rewrite bool_decide_true. Qed.

(** The sizes of lists after [without_key] and [lru_touch], for [lia]. *)
Ltac sizes :=
  repeat match goal with
  | H : ?k ∈ ?l |- context [length (lru_touch ?k ?l)] => rewrite (length_touch_in k l H) by auto
  | |- context [length (lru_touch ?k ?l)] => rewrite (length_touch k l) by set_solver
  | |- context [length (without_key ?k ?l)] =>
      let H := fresh in assert (length l = S (length (without_key k l))) as H
        by (apply length_without; [set_solver|auto]);
      revert H; generalize (length (without_key k l)); intros ? H;
      try rewrite (length_touch _ _) in H by set_solver
  end; lia.

Ltac arc_ok_by :=
  constructor; unfold pages; cbn [t1 t2 b1 b2 capacity p];
  [apply disjoint_parts; split_and!; [auto|auto|auto|auto|set_solver|set_solver|set_solver]|sizes..].

(** A page found in a ghost list, [enter] being the lemma that brings it in. *)
Ltac ghost_by enter :=
  intros c Hok Hk; pose proof Hok as [Nd H1 H2 H3 H4]; unfold pages in Nd; cbn [t1 t2 b1 b2 capacity p c] in *;
  apply disjoint_parts in Nd as (N1 & N2 & N3 & N4 & D1 & D2 & D3);
  match goal with c' := mkArc ?cap ?q ?T1 ?T2 ?B1 ?B2 |- context [Arc.ghost_hit _ ?k ?pinned _] =>
  assert (k ∉ T1 ++ T2) as Hkr by set_solver;
  destruct (replace_list cap q T1 T2 B1 B2 k pinned) as [[E Hp]|[(v & Hv & Hp & E)|(v & Hv & Hp & E)]];
    unfold Arc.ghost_hit; rewrite (mut_bind_run _ _ _ _ _ E), mget_bind; unfold Arc.full;
    cbn [r_len list_recency t1 t2 capacity];
  [destruct (Nat.eqb_spec (length T1 + length T2) cap) as [Hf|Hf]; cbn [andb];
   [exists PoolFull, c; split; [done|]; split; [done|]; unfold res, c; cbn; rewrite length_app; by auto|]
  |rewrite bool_decide_false, andb_false_r by done..]
  end;
  rewrite enter by set_solver; eexists _, _; (split; [done|]); (split; [arc_ok_by|]);
  unfold res, c; cbn; rewrite ?length_app; split_and?; try (done || lia || set_solver); left; set_solver.

Lemma ghost_b1 cap q (T1 T2 B1 B2 : list u32) k pinned :
  let c := mkArc cap q T1 T2 B1 B2 in
  arc_ok c -> k ∈ B1 ->
  exists r c', Arc.ghost_hit b1 k pinned c = Some (r, c') /\ arc_ok c' /\ verdict_ok k pinned c c' r.
Proof. ghost_by enter_b1. Qed.

Lemma ghost_b2 cap q (T1 T2 B1 B2 : list u32) k pinned :
  let c := mkArc cap q T1 T2 B1 B2 in
  arc_ok c -> k ∈ B2 ->
  exists r c', Arc.ghost_hit b2 k pinned c = Some (r, c') /\ arc_ok c' /\ verdict_ok k pinned c c' r.
Proof. ghost_by enter_b2. Qed.

Lemma settle_miss cap q (T1 T2 B1 B2 : list u32) k evicted :
  (evicted = None -> length T1 + length T2 <> cap) ->
  Arc.settle k evicted (mkArc cap q T1 T2 B1 B2)
  = Some (Arc.miss evicted, mkArc cap q (lru_touch k T1) T2 B1 B2).
Proof.
  intros H. unfold Arc.settle. rewrite mget_bind. unfold Arc.full. cbn [r_len list_recency t1 t2 capacity].
  case_bool_decide as He; cbn [andb]; [|done]. by rewrite (proj2 (Nat.eqb_neq _ _) (H He)).
Qed.

Lemma settle_full cap q (T1 T2 B1 B2 : list u32) k :
  length T1 + length T2 = cap ->
  Arc.settle k None (mkArc cap q T1 T2 B1 B2) = Some (PoolFull, mkArc cap q T1 T2 B1 B2).
Proof.
  intros H. unfold Arc.settle. rewrite mget_bind. unfold Arc.full. cbn [r_len list_recency t1 t2 capacity].
  by rewrite (proj2 (Nat.eqb_eq _ _) H).
Qed.

(** A miss that makes room by [replace], the ghost lists having room for the
    page and its victim. *)
Lemma miss_replace cap q (T1 T2 B1 B2 : list u32) k pinned :
  let c := mkArc cap q T1 T2 B1 B2 in
  arc_ok c -> (k ∉ pages c) -> length T1 + length B1 < cap ->
  length T1 + length T2 + length B1 + length B2 < 2 * cap ->
  exists r c', (Arc.replace k pinned ≫= Arc.settle k) c = Some (r, c')
    /\ arc_ok c' /\ verdict_ok k pinned c c' r.
Proof.
  intros c Hok Hk R1 R2. pose proof Hok as [Nd H1 H2 H3 H4]. unfold pages in *. cbn [t1 t2 b1 b2 capacity p c] in *.
  apply disjoint_parts in Nd as (N1 & N2 & N3 & N4 & D1 & D2 & D3).
  destruct (replace_list cap q T1 T2 B1 B2 k pinned) as [[E Hp]|[(v & Hv & Hp & E)|(v & Hv & Hp & E)]];
    rewrite (mut_bind_run _ _ _ _ _ E).
  - destruct (decide (length T1 + length T2 = cap)) as [Hf|Hf].
    + rewrite settle_full by done. exists PoolFull, c. split; [done|]. split; [done|].
      unfold res, c. cbn. rewrite length_app. split_and!; [set_solver|done|done|done].
    + rewrite settle_miss by done. eexists _, _. split; [done|]. split; [arc_ok_by|].
      unfold res, c. cbn. rewrite length_app. split_and!; [set_solver|lia|set_solver].
  - rewrite settle_miss by done. eexists _, _. split; [done|]. split; [arc_ok_by|].
    unfold res, c. cbn. split_and!; [set_solver|set_solver|done|set_solver|set_solver].
  - rewrite settle_miss by done. eexists _, _. split; [done|]. split; [arc_ok_by|].
    unfold res, c. cbn. split_and!; [set_solver|set_solver|done|set_solver|set_solver].
Qed.

(** A miss that evicts from a [t1] that fills the pool. *)
Lemma miss_direct cap q (T1 T2 B1 B2 : list u32) k pinned :
  let c := mkArc cap q T1 T2 B1 B2 in
  arc_ok c -> (k ∉ pages c) -> length T1 = cap ->
  exists r c', (on_field t1 (r_check_unpinned pinned) ≫= Arc.settle k) c = Some (r, c')
    /\ arc_ok c' /\ verdict_ok k pinned c c' r.
Proof.
  intros c Hok Hk Hc. pose proof Hok as [Nd H1 H2 H3 H4]. unfold pages in *. cbn [t1 t2 b1 b2 capacity p c] in *.
  apply disjoint_parts in Nd as (N1 & N2 & N3 & N4 & D1 & D2 & D3).
  assert (T2 = []) as -> by (destruct T2; [done|cbn in *; lia]).
  pose proof (victim_spec pinned T1) as Hv.
  destruct (lru_victim pinned T1) as [v|] eqn:Ev.
  - destruct Hv as [Hv Hp].
    rewrite (mut_bind_run _ _ _ (Some v) (mkArc cap q (without_key v T1) [] B1 B2))
      by (unfold on_field; cbn; by rewrite Ev).
    rewrite settle_miss by done. eexists _, _. split; [done|]. split; [arc_ok_by|].
    unfold res, c. cbn. rewrite !app_nil_r. split_and!; [set_solver|set_solver|done|set_solver|set_solver].
  - rewrite (mut_bind_run _ _ _ None c) by (unfold on_field; cbn; by rewrite Ev).
    unfold c at 1. rewrite settle_full by (cbn; lia). exists PoolFull, c. split; [done|]. split; [done|].
    unfold res, c. cbn. rewrite app_nil_r. split_and!; [set_solver|done|done|done].
Qed.

(** A ghost entry dropped from the back leaves the rest in order. *)
Lemma drop_ghosts cap q (T1 T2 B1 B2 B1' B2' : list u32) :
  arc_ok (mkArc cap q T1 T2 B1 B2) -> NoDup B1' -> NoDup B2' ->
  (forall x, x ∈ B1' -> x ∈ B1) -> (forall x, x ∈ B2' -> x ∈ B2) ->
  length B1' <= length B1 -> length B2' <= length B2 -> arc_ok (mkArc cap q T1 T2 B1' B2').
Proof.
  intros [Nd H1 H2 H3 H4] N1' N2' I1 I2 L1 L2. unfold pages in Nd. cbn [t1 t2 b1 b2 capacity p] in *.
  apply disjoint_parts in Nd as (N1 & N2 & N3 & N4 & D1 & D2 & D3).
  constructor; unfold pages; cbn [t1 t2 b1 b2 capacity p]; try lia.
  apply disjoint_parts. split_and!; [done|done|done|done|set_solver|set_solver|set_solver].
Qed.

Lemma pop_nonempty (l : list u32) : NoDup l -> 0 < length l ->
  exists w, r_pop_back l = Some (Ok w, without_key w l) /\ w ∈ l /\ length l = S (length (without_key w l)).
Proof.
  intros Hn Hl. cbn. destruct (last l) as [w|] eqn:E; [|apply last_None in E; subst; cbn in Hl; lia].
  apply last_Some_elem_of in E. exists w. split_and!; [done|done|by apply length_without].
Qed.

Lemma complete_miss_list cap q (T1 T2 B1 B2 : list u32) k pinned :
  let c := mkArc cap q T1 T2 B1 B2 in
  arc_ok c -> (k ∉ pages c) ->
  exists r c', Arc.complete_miss k pinned c = Some (r, c') /\ arc_ok c' /\ verdict_ok k pinned c c' r.
Proof.
  intros c Hok Hk. pose proof Hok as [Nd H1 H2 H3 H4]. unfold pages in *. cbn [t1 t2 b1 b2 capacity p c] in *.
  apply disjoint_parts in Nd as (N1 & N2 & N3 & N4 & D1 & D2 & D3).
  unfold Arc.complete_miss. rewrite mget_bind. unfold Arc.total, c. cbn [r_len list_recency t1 t2 b1 b2 capacity].
  destruct (Nat.eqb_spec (length B1 + length T1) cap) as [Ha|Ha].
  - destruct (Nat.ltb_spec (length T1) cap) as [Hb|Hb].
    + destruct (pop_nonempty B1 N3) as (w & Ew & Hw & Lw); [lia|].
      destruct (miss_replace cap q T1 T2 (without_key w B1) B2 k pinned) as (r & c' & E & Hok' & Hv);
        [eapply drop_ghosts; [exact Hok|auto|done|set_solver|done|lia|done]|unfold pages; cbn; set_solver|lia|lia|].
      exists r, c'. split; [|by split]. rewrite <- E. unfold mbind, mut_bind, on_field. cbn [b1]. by rewrite Ew.
    + apply miss_direct; [done|done|lia].
  - destruct (Nat.leb_spec cap (length T1 + length T2 + length B1 + length B2)) as [Hb|Hb].
    + destruct (Nat.eqb_spec (length T1 + length T2 + length B1 + length B2) (2 * cap)) as [Hc|Hc].
      * destruct (pop_nonempty B2 N4) as (w & Ew & Hw & Lw); [lia|].
        destruct (miss_replace cap q T1 T2 B1 (without_key w B2) k pinned) as (r & c' & E & Hok' & Hv);
          [eapply drop_ghosts; [exact Hok|done|auto|done|set_solver|done|lia]|unfold pages; cbn; set_solver|lia|lia|].
        exists r, c'. split; [|by split]. rewrite <- E. unfold mbind, mut_bind, on_field. cbn [b2]. by rewrite Ew.
      * destruct (miss_replace cap q T1 T2 B1 B2 k pinned) as (r & c' & E & Hok' & Hv); [done|done|lia|lia|].
        exists r, c'. by split.
    + rewrite (mut_bind_run _ _ _ None c) by done. unfold c at 1. rewrite settle_miss by (intros _; lia).
      eexists _, _. split; [done|]. split; [arc_ok_by|].
      unfold res. cbn. rewrite length_app. split_and!; [set_solver|lia|set_solver].
Qed.

Lemma request_list (c : cache) k pinned :
  arc_ok c -> exists r c', Arc.request k pinned c = Some (r, c') /\ arc_ok c' /\ verdict_ok k pinned c c' r.
Proof.
  destruct c as [cap q T1 T2 B1 B2]. intros Hok. pose proof Hok as [Nd H1 H2 H3 H4].
  unfold pages in *. cbn [t1 t2 b1 b2 capacity p] in *. unfold Arc.request. rewrite mget_bind.
  cbn [r_contains r_len list_recency t1 t2 b1 b2 capacity]. pose proof Nd as Nd'.
  apply disjoint_parts in Nd as (N1 & N2 & N3 & N4 & D1 & D2 & D3).
  case_bool_decide as E1.
  { eexists Hit, (mkArc cap q (without_key k T1) (lru_touch k T2) B1 B2).
    split; [unfold mbind, mut_bind, on_field, must; cbn; by rewrite bool_decide_true|]. split; [arc_ok_by|].
    unfold res. cbn. split; [set_solver|]. intros x. rewrite !elem_of_app. set_unfold.
    destruct (decide (x = k)) as [->|]; tauto. }
  case_bool_decide as E2.
  { eexists Hit, (mkArc cap q T1 (lru_touch k T2) B1 B2).
    split; [unfold mbind, mut_bind, on_field, must; cbn; by rewrite bool_decide_true|].
    split; [arc_ok_by|]. unfold res. cbn. split; [set_solver|]. intros x. rewrite !elem_of_app. set_unfold.
    destruct (decide (x = k)) as [->|]; tauto. }
  case_bool_decide as E3.
  { destruct (ghost_b1 cap (Nat.min (q + Nat.max 1 (length B2 / Nat.max (length B1) 1)) cap) T1 T2 B1 B2 k pinned)
      as (r & c' & E & Hok' & Hv); [constructor; try done; cbn [p capacity]; lia|done|].
    exists r, c'. split; [exact E|by split]. }
  case_bool_decide as E4.
  { destruct (ghost_b2 cap (q - Nat.max 1 (length B1 / Nat.max 1 (length B2))) T1 T2 B1 B2 k pinned)
      as (r & c' & E & Hok' & Hv); [constructor; try done; cbn [p capacity]; lia|done|].
    exists r, c'. split; [exact E|by split]. }
  apply complete_miss_list; [done|]. unfold pages. cbn. set_solver.
Qed.

Ltac same_pages k :=
  let x := fresh "x" in intros x; unfold res, pages; cbn [t1 t2 b1 b2]; rewrite ?elem_of_app; set_unfold;
  destruct (decide (x = k)) as [->|]; tauto.

Lemma touch_list (c : cache) k :
  arc_ok c -> exists c', Arc.touch k c = Some (bool_decide (k ∈ res c), c') /\ arc_ok c'
    /\ (forall x, x ∈ res c' <-> x ∈ res c).
Proof.
  destruct c as [cap q T1 T2 B1 B2]. intros Hok. pose proof Hok as [Nd H1 H2 H3 H4].
  unfold pages in *. cbn [t1 t2 b1 b2 capacity p] in *. unfold Arc.touch. rewrite mget_bind.
  cbn [r_contains list_recency t1 t2]. apply disjoint_parts in Nd as (N1 & N2 & N3 & N4 & D1 & D2 & D3).
  case_bool_decide as E1; [|case_bool_decide as E2].
  - rewrite bool_decide_true by (unfold res; set_solver).
    eexists (mkArc cap q (without_key k T1) (lru_touch k T2) B1 B2).
    split; [unfold mbind, mut_bind, on_field; cbn; by rewrite bool_decide_true|]. split; [arc_ok_by|same_pages k].
  - rewrite bool_decide_true by (unfold res; set_solver). eexists (mkArc cap q T1 (lru_touch k T2) B1 B2).
    split; [unfold mbind, mut_bind, on_field; cbn; by rewrite bool_decide_true|]. split; [arc_ok_by|same_pages k].
  - rewrite bool_decide_false by (unfold res; set_solver). eexists _. done.
Qed.

(** [remove] takes the page out of the list it is in. It is stated without the
    bound on the pool, which a page given back exceeds until the claim it
    replaces is removed. *)
Lemma remove_run cap q (T1 T2 B1 B2 : list u32) k :
  Arc.remove k (mkArc cap q T1 T2 B1 B2) = Some (Ok tt,
    if decide (k ∈ T1) then mkArc cap q (without_key k T1) T2 B1 B2
    else if decide (k ∈ T2) then mkArc cap q T1 (without_key k T2) B1 B2
    else if decide (k ∈ B1) then mkArc cap q T1 T2 (without_key k B1) B2
    else if decide (k ∈ B2) then mkArc cap q T1 T2 B1 (without_key k B2)
    else mkArc cap q T1 T2 B1 B2).
Proof.
  unfold Arc.remove. rewrite mget_bind. unfold on_field. cbn [r_contains r_remove list_recency t1 t2 b1 b2].
  repeat case_bool_decide; repeat case_decide; try done; tauto.
Qed.

Lemma remove_list (c : cache) k :
  arc_ok c -> exists c', Arc.remove k c = Some (Ok tt, c') /\ arc_ok c'
    /\ (forall x, x ∈ pages c' <-> x ∈ pages c /\ x <> k) /\ (forall x, x ∈ res c' <-> x ∈ res c /\ x <> k).
Proof.
  destruct c as [cap q T1 T2 B1 B2]. intros Hok. pose proof Hok as [Nd H1 H2 H3 H4].
  unfold pages in Nd. cbn [t1 t2 b1 b2 capacity p] in *. eexists. split; [apply remove_run|].
  apply disjoint_parts in Nd as (N1 & N2 & N3 & N4 & D1 & D2 & D3).
  pose proof (D1 k) as D1k. pose proof (D2 k) as D2k. pose proof (D3 k) as D3k.
  repeat case_decide; (split; [first [done|arc_ok_by]|split; same_pages k]).
Qed.

Lemma give_back_list (c : cache) v k :
  arc_ok c -> (v ∉ res c) -> k ∈ res c -> (v ∈ b1 c ++ b2 c \/ k ∈ t1 c) ->
  exists c', Arc.give_back v k true c = Some (tt, c') /\ arc_ok c'
    /\ (forall x, x ∈ res c' <-> (x ∈ res c /\ x <> k) \/ x = v).
Proof.
  destruct c as [cap q T1 T2 B1 B2]. intros Hok Hv Hk Hg. pose proof Hok as [Nd H1 H2 H3 H4].
  unfold pages, res in *. cbn [t1 t2 b1 b2 capacity p] in *.
  apply disjoint_parts in Nd as (N1 & N2 & N3 & N4 & D1 & D2 & D3).
  assert (v <> k) as Hvk by set_solver. assert (k <> v) as Hkv by done.
  pose proof (D1 k) as D1k. pose proof (D2 k) as D2k.
  assert (exists T1' T2' B1' B2',
    Arc.reinstate v (mkArc cap q T1 T2 B1 B2) = Some (tt, mkArc cap q T1' T2' B1' B2')
    /\ ((v ∈ B2 /\ T1' = T1 /\ T2' = lru_touch v T2 /\ B1' = B1 /\ B2' = without_key v B2)
        \/ (v ∈ B1 /\ T1' = lru_touch v T1 /\ T2' = T2 /\ B1' = without_key v B1 /\ B2' = B2)
        \/ ((v ∉ B2) /\ (v ∉ B1) /\ T1' = lru_touch v T1 /\ T2' = T2 /\ B1' = B1 /\ B2' = B2)))
    as (T1' & T2' & B1' & B2' & E & Hc).
  { unfold Arc.reinstate. rewrite mget_bind. unfold mbind, mut_bind, on_field. cbn.
    case_bool_decide as Hb2; [|case_bool_decide as Hb1].
    - exists T1, (lru_touch v T2), B1, (without_key v B2). split; [by rewrite bool_decide_true|]. left. by split_and!.
    - exists (lru_touch v T1), T2, (without_key v B1), B2. split; [done|]. right. left. by split_and!.
    - exists (lru_touch v T1), T2, B1, B2. split; [done|]. right. right. by split_and!. }
  unfold Arc.give_back. rewrite (mut_bind_run _ _ _ _ _ E), (mut_bind_run _ _ _ _ _ (remove_run _ _ _ _ _ _ _)).
  eexists. split; [done|].
  destruct Hc as [(Hb & -> & -> & -> & ->)|[(Hb & -> & -> & -> & ->)|(Hb2 & Hb1 & -> & -> & -> & ->)]].
  - destruct (decide (k ∈ T1)) as [K1|K1]; [|rewrite decide_True by set_solver].
    + split; [arc_ok_by|same_pages k].
    + split; [arc_ok_by|same_pages k].
  - destruct (decide (k ∈ lru_touch v T1)) as [K1|K1]; [|rewrite decide_True by set_solver].
    + split; [arc_ok_by|same_pages k].
    + split; [arc_ok_by|same_pages k].
  - rewrite decide_True by set_solver. split; [arc_ok_by|same_pages k].
Qed.
