(* ===== verification/ArcRuns.v ===== *)
(** The replacement policy as the pool uses it ([fault_in] of
    [src/src/buffer/buffer_pool.rs]): runs of requests, hits, removals and
    evictions the pool had to decline, over linked hash sets. *)
From S2P Require Import Prelude Eff Bytes Errors LinkedHashSet Recency Arc ArcProps.

(** One use of the policy. [Refused] is a request whose victim the pool could
    not take: if there was one, it is given back. *)
Inductive Use : Type :=
| Request (k : u32) (is_pinned : u32 -> bool)
| Touch (k : u32)
| Forget (k : u32)
| Refused (k : u32) (is_pinned : u32 -> bool) (declined : bool).

Definition use {S : Type} `{!Recency S} (u : Use) : Mut (ArcCache S) unit :=
  match u with
  | Request k is_pinned => _ ← Arc.request k is_pinned; mret tt
  | Touch k => _ ← Arc.touch k; mret tt
  | Forget k => _ ← Arc.remove k; mret tt
  | Refused k is_pinned declined =>
      r ← Arc.request k is_pinned;
      match r with
      | MissEvict victim => Arc.give_back victim k declined
      | _ => mret tt
      end
  end.

Fixpoint uses {S : Type} `{!Recency S} (us : list Use) : Mut (ArcCache S) unit :=
  match us with
  | [] => mret tt
  | u :: us => _ ← use u; uses us
  end.

Lemma uses_snoc {S : Type} `{!Recency S} us u (c c1 : ArcCache S) :
  uses us c = Some (tt, c1) -> uses (us ++ [u]) c = use u c1.
Proof.
  revert c. induction us as [|x us IH]; intros c; cbn [uses app].
  - intros [= <-]. unfold mbind, mut_bind. by destruct (use u c) as [[[] ?]|].
  - unfold mbind, mut_bind. destruct (use x c) as [[[] c2]|]; [apply IH|done].
Qed.

Lemma sim_use {S T : Type} `{!Recency S, !Recency T} (R : S -> T -> Prop) `{!Refines R} u :
  sim (arc_rel R) (use u) (use u).
Proof.
  destruct u; cbn [use]; apply sim_bind.
  - by apply sim_request.
  - intros. apply sim_ret.
  - by apply sim_touch.
  - intros. apply sim_ret.
  - by apply sim_remove.
  - intros. apply sim_ret.
  - by apply sim_request.
  - intros []; try apply sim_ret. by apply sim_give_back.
Qed.

Lemma sim_uses {S T : Type} `{!Recency S, !Recency T} (R : S -> T -> Prop) `{!Refines R} us :
  sim (arc_rel R) (uses us) (uses us).
Proof.
  induction us as [|u us IH]; [apply sim_ret|]. apply sim_bind; [by apply sim_use|done].
Qed.

Lemma use_list u (c : cache) : arc_ok c -> exists c', use u c = Some (tt, c') /\ arc_ok c'.
Proof.
  intros Hok. destruct u as [k pinned|k|k|k pinned declined]; cbn [use].
  - destruct (request_list c k pinned Hok) as (r & c' & E & Hok' & _).
    rewrite (mut_bind_run _ _ _ _ _ E). by exists c'.
  - destruct (touch_list c k Hok) as (c' & E & Hok' & _). rewrite (mut_bind_run _ _ _ _ _ E). by exists c'.
  - destruct (remove_list c k Hok) as (c' & E & Hok' & _). rewrite (mut_bind_run _ _ _ _ _ E). by exists c'.
  - destruct (request_list c k pinned Hok) as (r & c' & E & Hok' & Hv). rewrite (mut_bind_run _ _ _ _ _ E).
    destruct r as [|v| |]; try by exists c'. destruct Hv as (Hk & Hin & _ & Hx & Hg). destruct declined.
    + destruct (give_back_list c' v k) as (c2 & E2 & Hok2 & _); [done|..|by exists c2].
      * rewrite Hx. intros [->|[_ []]]; done.
      * apply Hx. by left.
      * done.
    + unfold Arc.give_back. rewrite (mut_bind_run _ _ c' tt c') by done.
      destruct (remove_list c' k Hok') as (c2 & E2 & Hok2 & _). rewrite (mut_bind_run _ _ _ _ _ E2). by exists c2.
Qed.

Lemma uses_list us (c : cache) : arc_ok c -> exists c', uses us c = Some (tt, c') /\ arc_ok c'.
Proof.
  revert c. induction us as [|u us IH]; intros c Hok; [by exists c|]. cbn [uses].
  destruct (use_list u c Hok) as (c1 & E & Hok1). rewrite (mut_bind_run _ _ _ _ _ E). by apply IH.
Qed.

(** * The capacity is fixed *)

Section Capacity.
Context {S : Type} `{!Recency S}.

Definition fixed {A : Type} (m : Mut (ArcCache S) A) : Prop :=
  forall c a c', m c = Some (a, c') -> capacity c' = capacity c.

Lemma fixed_ret {A : Type} (a : A) : fixed (mret a).
Proof. by intros c a' c' [= _ <-]. Qed.

Lemma fixed_get : fixed mget.
Proof. by intros c a' c' [= _ <-]. Qed.

Lemma fixed_set_p f : fixed (mset (fun c => c <| p := f c |>)).
Proof. by intros c a' c' [= _ <-]. Qed.

Lemma fixed_bind {A B : Type} (m : Mut (ArcCache S) A) (k : A -> Mut (ArcCache S) B) :
  fixed m -> (forall a, fixed (k a)) -> fixed (m ≫= k).
Proof.
  intros Hm Hk c b c'. unfold mbind, mut_bind. destruct (m c) as [[a c1]|] eqn:E; [|done].
  intros E'. rewrite (Hk _ _ _ _ E'). by eapply Hm.
Qed.

Lemma fixed_fields {A : Type} (m : Mut S A) :
  fixed (on_field t1 m) /\ fixed (on_field t2 m) /\ fixed (on_field b1 m) /\ fixed (on_field b2 m).
Proof. unfold on_field. split_and!; intros c a c'; case_goal; [|done| |done| |done| |done]; by case_goal; intros [= _ <-]. Qed.

Ltac fixed_walk :=
  repeat first
    [ apply fixed_ret | apply fixed_get | apply fixed_set_p | apply fixed_fields
    | apply fixed_bind; [|intros ?a]
    | match goal with |- fixed (if ?b then _ else _) => destruct b end
    | match goal with |- fixed (match ?b with Some _ => _ | None => _ end) => destruct b end ].

Lemma fixed_request k pinned : fixed (Arc.request k pinned).
Proof.
  unfold Arc.request, Arc.complete_miss, Arc.settle, Arc.ghost_hit, Arc.replace, Arc.or_else, Arc.evict_t1, Arc.evict_t2.
  fixed_walk.
Qed.

Lemma fixed_uses us : fixed (uses us).
Proof.
  induction us as [|[] us IH]; [apply fixed_ret|..]; (apply fixed_bind; [|done]);
    cbn [use]; unfold Arc.touch, Arc.remove, Arc.give_back, Arc.reinstate;
    (apply fixed_bind; [first [apply fixed_request|fixed_walk]|intros []]); fixed_walk.
Qed.

End Capacity.

Lemma arc_ok_new cap : arc_ok (Arc.new cap).
Proof. constructor; [apply NoDup_nil_2|cbn; lia..]. Qed.

Lemma arc_rel_new cap : arc_rel holds (Arc.new cap) (Arc.new cap).
Proof. by constructor; try apply (new_refines (R := holds)). Qed.

(** The pool's cache after any use, with the list it stands for. *)
Lemma reach cap us : exists (c : ArcCache LinkedHashSet) (d : cache),
  uses us (Arc.new cap) = Some (tt, c) /\ arc_rel holds c d /\ arc_ok d.
Proof.
  destruct (uses_list us _ (arc_ok_new cap)) as (d & E & Hok).
  pose proof (sim_uses holds us _ _ (arc_rel_new cap)) as H. rewrite E in H. destruct H as (c & Ec & Hr).
  by exists c, d.
Qed.

(** * Properties *)

(** Is the page in the pool, and how many pages are. *)
Definition resident (k : u32) (c : ArcCache LinkedHashSet) : bool :=
  Lhs.contains k (t1 c) || Lhs.contains k (t2 c).
Definition occupancy (c : ArcCache LinkedHashSet) : nat := Lhs.len (t1 c) + Lhs.len (t2 c).

Lemma resident_res c d k : arc_rel holds c d -> resident k c = bool_decide (k ∈ res d).
Proof.
  intros []. unfold resident, res.
  pose proof (contains_refines _ _ k ar_t1) as C1. pose proof (contains_refines _ _ k ar_t2) as C2.
  cbn in C1, C2. rewrite C1, C2. apply eq_bool_prop_intro. rewrite orb_True, !bool_decide_spec, elem_of_app. done.
Qed.

Lemma occupancy_res c d : arc_rel holds c d -> occupancy c = length (res d).
Proof.
  intros []. unfold occupancy, res. rewrite length_app.
  pose proof (len_refines _ _ ar_t1). pose proof (len_refines _ _ ar_t2). cbn in *. lia.
Qed.


(** C32: the verdict on a request is right. For a cache in any state the pool can
    bring it to, [request] returns [Hit] exactly on a resident page; it names a
    victim only if that page is resident and unpinned, and then exactly the
    victim leaves and the requested page enters; it reports a miss without
    eviction only when the pool has a frame to spare; and it reports a full pool
    only when every frame holds a pinned page, leaving the residents alone. *)
Theorem arc_request_verdict (cap : nat) (us : list Use) (k : u32) (is_pinned : u32 -> bool) :
  exists (c c' : ArcCache LinkedHashSet) (r : ArcResult),
    uses us (Arc.new cap) = Some (tt, c) /\ Arc.request k is_pinned c = Some (r, c')
    /\ match r with
       | Hit => resident k c = true /\ (forall x, resident x c' = resident x c)
       | MissEvict v => resident k c = false /\ resident v c = true /\ is_pinned v = false
           /\ (forall x, resident x c' = true <-> x = k \/ (resident x c = true /\ x <> v))
       | MissNoEvict => resident k c = false /\ occupancy c < cap
           /\ (forall x, resident x c' = true <-> x = k \/ resident x c = true)
       | PoolFull => resident k c = false /\ occupancy c = cap
           /\ (forall x, resident x c = true -> is_pinned x = true)
           /\ (forall x, resident x c' = resident x c)
       end.
Proof.
  destruct (reach cap us) as (c & d & E & Hr & Hok). pose proof (fixed_uses us _ _ _ E) as Hcap. cbn in Hcap.
  destruct (request_list d k is_pinned Hok) as (r & d' & Ed & _ & Hv).
  pose proof (sim_request holds k is_pinned c d Hr) as H. rewrite Ed in H. destruct H as (c' & Ec & Hr').
  exists c, c', r. split; [done|]. split; [done|].
  assert (capacity d = cap) as Hd by (rewrite <- (ar_capacity _ _ _ Hr); done).
  assert (forall x, resident x c = bool_decide (x ∈ res d)) as R by (intros; by apply resident_res).
  assert (forall x, resident x c' = bool_decide (x ∈ res d')) as R' by (intros; by apply resident_res).
  assert ((forall x, x ∈ res d' <-> x ∈ res d) -> forall x, resident x c' = resident x c) as Same.
  { intros Hx x. rewrite R, R'. by apply bool_decide_ext. }
  rewrite (occupancy_res c d Hr).
  destruct r as [|v| |]; cbn in Hv; rewrite ?Hd in Hv; rewrite ?R.
  - destruct Hv as [Hk Hx]. split; [by apply bool_decide_true|auto].
  - destruct Hv as (Hk & Hv & Hp & Hx & _). split_and!; [by apply bool_decide_false|by apply bool_decide_true|done|].
    intros x. rewrite R, R', !bool_decide_eq_true. apply Hx.
  - destruct Hv as (Hk & Hl & Hx). split_and!; [by apply bool_decide_false|done|].
    intros x. rewrite R, R', !bool_decide_eq_true. apply Hx.
  - destruct Hv as (Hk & Hl & Hp & Hx). split_and!; [by apply bool_decide_false|done| |auto].
    intros x. rewrite R, bool_decide_eq_true. apply Hp.
Qed.

(** An eviction the pool declines costs nothing. When a request names a
    victim that turns out to be pinned or dirty again, giving it back leaves in
    the cache exactly the pages that were resident before the request: the
    victim can be chosen again, and the page that did not arrive is not
    counted. *)
Theorem declined_eviction_restores (cap : nat) (us : list Use) (k : u32) (is_pinned : u32 -> bool) :
  exists c c' : ArcCache LinkedHashSet,
    uses us (Arc.new cap) = Some (tt, c) /\ uses (us ++ [Refused k is_pinned true]) (Arc.new cap) = Some (tt, c')
    /\ (forall v c1, Arc.request k is_pinned c = Some (MissEvict v, c1) ->
          forall x, resident x c' = resident x c).
Proof.
  destruct (reach cap us) as (c & d & E & Hr & Hok). destruct (use_list (Refused k is_pinned true) d Hok) as (d' & Ed & _).
  pose proof (sim_use holds (Refused k is_pinned true) c d Hr) as Hs. rewrite Ed in Hs. destruct Hs as (c' & Ec & Hr'). exists c, c'.
  split; [done|]. split; [by rewrite (uses_snoc _ _ _ _ E)|].
  intros v c1 Eq x. rewrite (resident_res c d x Hr), (resident_res c' d' x Hr'). apply bool_decide_ext.
  destruct (request_list d k is_pinned Hok) as (r & d1 & Ed1 & Hok1 & Hv).
  pose proof (sim_request holds k is_pinned c d Hr) as H. rewrite Ed1 in H. destruct H as (c2 & Ec2 & _).
  rewrite Eq in Ec2. injection Ec2 as <- <-. destruct Hv as (Hk & Hin & _ & Hx & Hg).
  destruct (give_back_list d1 v k) as (d2 & E2 & _ & H2); [done|rewrite Hx; intros [->|[_ []]]; done|apply Hx; by left|done|].
  cbn [use] in Ed. rewrite (mut_bind_run _ _ _ _ _ Ed1), E2 in Ed. injection Ed as <-.
  rewrite H2, Hx. clear -Hk Hin. destruct (decide (x = v)) as [->|]; [tauto|]. destruct (decide (x = k)) as [->|]; tauto.
Qed.
