(* ===== verification/Keys.v ===== *)
(** Byte strings in the order of Rust's slices, and what the trees build on it:
    lists of pairs sorted by key, looked up by key, and the bisection
    ([Node::search] of [src/src/cow/node.rs], [slice::binary_search_by]) that
    finds a key or the place for it. *)
From Stdlib Require Import Orders OrdersTac.
From S2P Require Import Prelude Bytes.

Abbreviation key := (list byte) (only parsing).

(** [Ord] of [[u8]]: lexicographic, a prefix first. *)
Fixpoint kcmp (a b : key) : comparison :=
  match a, b with
  | [], [] => Eq
  | [], _ :: _ => Lt
  | _ :: _, [] => Gt
  | x :: a, y :: b =>
      match N.compare (byteN x) (byteN y) with
      | Eq => kcmp a b
      | c => c
      end
  end.

Definition klt (a b : key) : Prop := kcmp a b = Lt.
Definition kltb (a b : key) : bool := match kcmp a b with Lt => true | _ => false end.
Definition kleb (a b : key) : bool := match kcmp a b with Gt => false | _ => true end.

Lemma kcmp_refl a : kcmp a a = Eq.
Proof. induction a as [|x a IH]; [done|]. cbn. by rewrite N.compare_refl. Qed.

Lemma kcmp_eq a b : kcmp a b = Eq <-> a = b.
Proof.
  split; [|intros ->; apply kcmp_refl]. revert b.
  induction a as [|x a IH]; intros [|y b]; cbn; try done.
  destruct (N.compare_spec (byteN x) (byteN y)) as [E| |]; try done. intros H%IH.
  apply byteN_inj in E. by subst.
Qed.

Lemma kcmp_opp a b : kcmp b a = CompOpp (kcmp a b).
Proof.
  revert b. induction a as [|x a IH]; intros [|y b]; cbn; try done.
  rewrite (N.compare_antisym (byteN x) (byteN y)). destruct (N.compare _ _); cbn; auto.
Qed.

Lemma klt_trans a b c : klt a b -> klt b c -> klt a c.
Proof.
  unfold klt. revert b c. induction a as [|x a IH]; intros [|y b] [|z c]; cbn; try done.
  destruct (N.compare_spec (byteN x) (byteN y)), (N.compare_spec (byteN y) (byteN z)),
    (N.compare_spec (byteN x) (byteN z)); try done; try lia.
  intros Hab Hbc. by eapply IH.
Qed.

Lemma klt_irrefl a : ~ klt a a.
Proof. unfold klt. by rewrite kcmp_refl. Qed.

#[export] Instance klt_strict : StrictOrder klt.
Proof. split; [exact klt_irrefl|exact klt_trans]. Qed.

#[export] Instance klt_dec a b : Decision (klt a b).
Proof. unfold klt. apply _. Defined.

Lemma kcmp_gt a b : kcmp a b = Gt <-> klt b a.
Proof. unfold klt. rewrite (kcmp_opp a b). by destruct (kcmp a b). Qed.

Lemma klt_total a b : klt a b \/ a = b \/ klt b a.
Proof.
  destruct (kcmp a b) eqn:E; [right; left; by apply kcmp_eq|by left|right; right; by apply kcmp_gt].
Qed.

Lemma kltb_lt a b : kltb a b = true <-> klt a b.
Proof. unfold kltb, klt. by destruct (kcmp a b). Qed.

Lemma kleb_le a b : kleb a b = true <-> ~ klt b a.
Proof. unfold kleb. rewrite <- kcmp_gt. by destruct (kcmp a b). Qed.

Lemma not_klt_trans a b c : ~ klt b a -> ~ klt c b -> ~ klt c a.
Proof.
  intros H1 H2 H3. destruct (klt_total a b) as [H| [->|H]]; [|done|done].
  apply H2. by eapply klt_trans.
Qed.

(** [k] is below [k'] at most: what a [klt_trans] with a weak side needs. *)
Lemma kle_lt_trans a b c : ~ klt b a -> klt b c -> klt a c.
Proof. intros H1 H2. destruct (klt_total a b) as [H| [->|H]]; [by eapply klt_trans|done|done]. Qed.

Lemma klt_le_trans a b c : klt a b -> ~ klt c b -> klt a c.
Proof. intros H1 H2. destruct (klt_total b c) as [H| [<-|H]]; [by eapply klt_trans|done|done]. Qed.

(** Order facts on keys, by the standard library's decision procedure. *)
Module KeyOrder <: TotalOrder.
Definition t : Type := key.
Definition eq : key -> key -> Prop := @Logic.eq key.
Definition lt : key -> key -> Prop := klt.
Definition le (a b : key) : Prop := lt a b \/ eq a b.
Definition eq_equiv : Equivalence eq := eq_equivalence.
Definition lt_strorder : StrictOrder lt := klt_strict.
#[export] Instance lt_compat : Proper (eq ==> eq ==> iff) lt.
Proof. intros ? ? -> ? ? ->. done. Qed.
Definition le_lteq a b : le a b <-> lt a b \/ eq a b := conj (fun x => x) (fun x => x).
Definition lt_total (a b : key) : lt a b \/ eq a b \/ lt b a := klt_total a b.
End KeyOrder.
Module KeyTac := !MakeOrderTac KeyOrder KeyOrder.

Lemma kltb_nlt a b : kltb a b = false <-> ~ klt a b.
Proof. rewrite <- kltb_lt. by destruct (kltb a b). Qed.
Lemma kleb_nle a b : kleb a b = false <-> klt b a.
Proof. unfold kleb. destruct (kcmp a b) eqn:E; rewrite <- kcmp_gt, E; done. Qed.

Ltac key_norm :=
  repeat match goal with
  | H : kltb _ _ = true |- _ => apply kltb_lt in H
  | H : kltb _ _ = false |- _ => apply kltb_nlt in H
  | H : kleb _ _ = true |- _ => apply kleb_le in H
  | H : kleb _ _ = false |- _ => apply kleb_nle in H
  | |- kltb _ _ = true => apply kltb_lt
  | |- kltb _ _ = false => apply kltb_nlt
  | |- kleb _ _ = true => apply kleb_le
  | |- kleb _ _ = false => apply kleb_nle
  end.
Ltac key_order :=
  key_norm; change klt with KeyOrder.lt in *; change (@Logic.eq key) with KeyOrder.eq in *;
  change (@Logic.eq (list byte)) with KeyOrder.eq in *; KeyTac.order.

Lemma sorted_snoc {A : Type} (R : A -> A -> Prop) l a :
  StronglySorted R l -> (forall x, x ∈ l -> R x a) -> StronglySorted R (l ++ [a]).
Proof.
  induction 1 as [|x l Hs IH Hx]; intros H; cbn; [repeat constructor|]. constructor.
  - apply IH. intros y Hy. apply H. by right.
  - apply Forall_app. split; [done|]. constructor; [apply H; by left|done].
Qed.

(** * Lists sorted by key *)

Section assoc.
Context {V : Type}.
Implicit Types l : list (key * V).

Definition ksorted (l : list (key * V)) : Prop := StronglySorted klt l.*1.

(** The value at a key: of the first pair that has it. *)
Fixpoint kget (k : key) (l : list (key * V)) : option V :=
  match l with
  | [] => None
  | (k', v) :: l => match kcmp k k' with Eq => Some v | _ => kget k l end
  end.

Lemma kget_app k l l' : kget k (l ++ l') = match kget k l with Some v => Some v | None => kget k l' end.
Proof. induction l as [|[k' v] l IH]; [done|]. cbn. by destruct (kcmp k k'). Qed.

Lemma kget_None k l : kget k l = None <-> k ∉ l.*1.
Proof.
  induction l as [|[k' v] l IH]; cbn; [split; [intros _ []%not_elem_of_nil|done]|].
  rewrite not_elem_of_cons, <- IH. destruct (kcmp k k') eqn:E.
  - apply kcmp_eq in E as ->. split; [done|tauto].
  - assert (k <> k') by (intros ->; by rewrite kcmp_refl in E). tauto.
  - assert (k <> k') by (intros ->; by rewrite kcmp_refl in E). tauto.
Qed.

Lemma ksorted_app l l' :
  ksorted (l ++ l') <->
  ksorted l /\ ksorted l' /\ (forall a b, a ∈ l.*1 -> b ∈ l'.*1 -> klt a b).
Proof.
  unfold ksorted. rewrite fmap_app. induction l as [|[k v] l IH]; cbn.
  - split; [intros H; split; [constructor|split; [done|by intros a b ?%not_elem_of_nil]]|tauto].
  - split.
    + intros H. inversion_clear H as [|? ? Hs Hf]. apply IH in Hs as (H1 & H2 & H3).
      apply Forall_app in Hf as [F1 F2]. rewrite Forall_forall in F2. split; [by constructor|]. split; [done|].
      intros a b [->|Ha]%elem_of_cons Hb; auto.
    + intros (H1 & H2 & H3). inversion_clear H1 as [|? ? Hs Hf]. constructor.
      * apply IH. split; [done|]. split; [done|]. intros a b Ha. apply H3. by right.
      * apply Forall_app. split; [done|]. apply Forall_forall. intros b Hb. apply H3; [by left|done].
Qed.

Lemma ksorted_cons k v l : ksorted ((k, v) :: l) <-> ksorted l /\ (forall b, b ∈ l.*1 -> klt k b).
Proof.
  change ((k, v) :: l) with ([(k, v)] ++ l). rewrite ksorted_app. split.
  - intros (_ & H1 & H2). split; [done|]. intros b. apply H2. by left.
  - intros [H1 H2]. split; [repeat constructor|]. split; [done|].
    intros a b [->|[]%not_elem_of_nil]%elem_of_cons Hb. auto.
Qed.

Lemma ksorted_nodup l : ksorted l -> NoDup l.*1.
Proof.
  unfold ksorted. induction 1 as [|a l' _ IH Ha]; [constructor|]. constructor; [|done].
  intros Hin. rewrite Forall_forall in Ha. by apply (klt_irrefl a), Ha.
Qed.

Lemma kget_Some k v l : ksorted l -> kget k l = Some v <-> (k, v) ∈ l.
Proof.
  induction l as [|[k' v'] l IH]; intros Hs; cbn; [split; [done|by intros ?%not_elem_of_nil]|].
  apply ksorted_cons in Hs as [Hs Hk]. rewrite elem_of_cons. destruct (kcmp k k') eqn:E.
  - apply kcmp_eq in E as ->. split; [intros [= ->]; by left|]. intros [[= ->]|Hin]; [done|].
    destruct (klt_irrefl k'). apply Hk. apply list_elem_of_fmap. by exists (k', v).
  - rewrite IH by done. split; [by right|]. intros [[= -> ->]|?]; [by rewrite kcmp_refl in E|done].
  - rewrite IH by done. split; [by right|]. intros [[= -> ->]|?]; [by rewrite kcmp_refl in E|done].
Qed.

(** Filtering by a test on keys. *)
Lemma kget_filter (P : key -> bool) k l :
  kget k (filter (fun '(k, _) => Is_true (P k)) l) = if P k then kget k l else None.
Proof.
  induction l as [|[k' v] l IH]; [by destruct (P k)|]. rewrite filter_cons.
  case_decide as D; cbn [kget]; rewrite IH; destruct (kcmp k k') eqn:E; try done.
  - apply kcmp_eq in E as ->. by destruct (P k').
  - apply kcmp_eq in E as ->. by destruct (P k').
Qed.

Lemma ksorted_filter (P : key -> bool) l : ksorted l -> ksorted (filter (fun '(k, _) => Is_true (P k)) l).
Proof.
  induction l as [|[k v] l IH]; [done|]. intros [Hs Hk]%ksorted_cons. rewrite filter_cons.
  case_decide; [|auto]. apply ksorted_cons. split; [auto|]. intros b Hb. apply Hk.
  apply list_elem_of_fmap in Hb as (x & -> & [_ Hx]%list_elem_of_filter). by apply list_elem_of_fmap_2.
Qed.

End assoc.

(** * Bisection *)

(** [while lo < hi] over the keys, the window halving every turn: [Ok(i)] at the
    key, [Err(i)] at the place for it. *)
Fixpoint search_loop (fuel lo hi : nat) (keys : list key) (k : key) : Result nat nat :=
  match fuel with
  | O => Err lo
  | S fuel =>
      if lo <? hi then
        let mid := (lo + hi) / 2 in
        match keys !! mid with
        | None => Err lo
        | Some m =>
            match kcmp m k with
            | Lt => search_loop fuel (mid + 1) hi keys k
            | Gt => search_loop fuel lo mid keys k
            | Eq => Ok mid
            end
        end
      else Err lo
  end.

Definition search (keys : list key) (k : key) : Result nat nat :=
  search_loop (S (length keys)) 0 (length keys) keys k.

Lemma search_loop_spec keys k : StronglySorted klt keys ->
  forall fuel lo hi, hi - lo < fuel -> lo <= hi -> hi <= length keys ->
  (forall i m, i < lo -> keys !! i = Some m -> klt m k) ->
  (forall i m, hi <= i -> keys !! i = Some m -> klt k m) ->
  match search_loop fuel lo hi keys k with
  | Ok i => keys !! i = Some k
  | Err i => i <= length keys /\ (forall j m, j < i -> keys !! j = Some m -> klt m k)
             /\ (forall j m, i <= j -> keys !! j = Some m -> klt k m)
  end.
Proof.
  intros Hs. assert (forall i j a b, i < j -> keys !! i = Some a -> keys !! j = Some b -> klt a b) as Hlt.
  { intros i j a b. by apply sorted_lookup. }
  induction fuel as [|fuel IH]; intros lo hi Hf Hlh Hhi Hlo Hup; [lia|]. cbn [search_loop].
  destruct (Nat.ltb_spec lo hi) as [Hw|Hw].
  2: { assert (lo = hi) as -> by lia. split; [lia|]. done. }
  pose proof (Nat.div_mod_eq (lo + hi) 2) as Hm. pose proof (Nat.mod_upper_bound (lo + hi) 2).
  set (mid := (lo + hi) / 2) in *. clearbody mid. assert (lo <= mid < hi) as Hmid by lia.
  destruct (keys !! mid) as [m|] eqn:Em; [|apply lookup_ge_None in Em; lia].
  destruct (kcmp m k) eqn:Ec.
  - by apply kcmp_eq in Ec as ->.
  - apply IH; try lia; [|done]. intros i x Hi Hx. destruct (decide (i = mid)) as [->|]; [congruence|].
    eapply klt_trans; [|exact Ec]. eapply (Hlt i mid); [lia|done|done].
  - apply kcmp_gt in Ec. apply IH; try lia; [done|]. intros i x Hi Hx.
    destruct (decide (i = mid)) as [->|]; [congruence|].
    eapply klt_trans; [exact Ec|]. eapply (Hlt mid i); [lia|done|done].
Qed.

(** Bisection of sorted keys finds the key, or the number of keys below it. *)
Lemma search_spec keys k : StronglySorted klt keys ->
  match search keys k with
  | Ok i => keys !! i = Some k
  | Err i => i <= length keys /\ (forall j m, j < i -> keys !! j = Some m -> klt m k)
             /\ (forall j m, i <= j -> keys !! j = Some m -> klt k m)
  end.
Proof.
  intros Hs. apply search_loop_spec; [done|lia|lia|done|lia|].
  intros i m Hi Hm. apply lookup_lt_Some in Hm. lia.
Qed.

(** * Ordered maps *)

(** [BTreeMap::insert] on the map as its pairs in order. *)
Fixpoint kput {V : Type} (k : key) (v : V) (l : list (key * V)) : list (key * V) :=
  match l with
  | [] => [(k, v)]
  | (k', v') :: l' =>
      match kcmp k k' with
      | Lt => (k, v) :: l
      | Eq => (k', v) :: l'
      | Gt => (k', v') :: kput k v l'
      end
  end.

(** [collect()] into a map: a later pair replaces an earlier one. *)
Definition kcollect {V : Type} (l : list (key * V)) : list (key * V) :=
  foldl (fun m '(k, v) => kput k v m) [] l.

(** [sort] followed by [dedup]: the distinct keys in order. *)
Definition ksort_dedup (l : list key) : list key := (kcollect (map (fun k => (k, tt)) l)).*1.

Section ordered_map.
Context {V : Type}.
Implicit Types l : list (key * V).

Lemma kput_keys k v l x : x ∈ (kput k v l).*1 <-> x = k \/ x ∈ l.*1.
Proof.
  induction l as [|[k' v'] l IH]; cbn; [by rewrite elem_of_cons|].
  destruct (kcmp k k') eqn:E; cbn; rewrite ?elem_of_cons, ?IH; try tauto.
  apply kcmp_eq in E as ->. tauto.
Qed.

Lemma kput_sorted k v l : ksorted l -> ksorted (kput k v l).
Proof.
  induction l as [|[k' v'] l IH]; intros Hs; cbn; [repeat constructor|].
  apply ksorted_cons in Hs as [Hs Hk]. destruct (kcmp k k') eqn:E.
  - by apply ksorted_cons.
  - apply ksorted_cons. split; [by apply ksorted_cons|]. intros b. cbn.
    intros [->|Hb]%elem_of_cons; [done|]. eapply klt_trans; [exact E|auto].
  - apply ksorted_cons. split; [auto|]. intros b [->|Hb]%kput_keys; [by apply kcmp_gt|auto].
Qed.

Lemma kget_kput k v l k' : kget k' (kput k v l) = if decide (k' = k) then Some v else kget k' l.
Proof.
  assert (forall a b, kcmp a b = Eq -> a = b) as He by (intros; by apply kcmp_eq).
  induction l as [|[x w] l IH]; cbn.
  - case_decide as D; [subst; by rewrite kcmp_refl|]. destruct (kcmp k' k) eqn:E; [by apply He in E|done|done].
  - destruct (kcmp k x) eqn:E; cbn.
    + apply He in E as ->. case_decide as D; [subst; by rewrite kcmp_refl|].
      destruct (kcmp k' x) eqn:E'; [by apply He in E'|done|done].
    + case_decide as D; [subst; by rewrite kcmp_refl|]. destruct (kcmp k' k) eqn:E'; [by apply He in E'|done|done].
    + rewrite IH. case_decide as D; [subst; by rewrite E|done].
Qed.

Lemma foldl_kput_sorted l m : ksorted m -> ksorted (foldl (fun m '(k, v) => kput k v m) m l).
Proof. revert m. induction l as [|[k v] l IH]; intros m Hm; [done|]. by apply IH, kput_sorted. Qed.

Lemma foldl_kput_keys l m x :
  x ∈ (foldl (fun m '(k, v) => kput k v m) m l).*1 <-> x ∈ l.*1 \/ x ∈ m.*1.
Proof.
  revert m. induction l as [|[k v] l IH]; intros m; cbn.
  - split; [by right|]. by intros [?%not_elem_of_nil|?].
  - rewrite IH, kput_keys, elem_of_cons. tauto.
Qed.

Lemma kcollect_sorted l : ksorted (kcollect l).
Proof. apply foldl_kput_sorted. constructor. Qed.

Lemma kcollect_keys l x : x ∈ (kcollect l).*1 <-> x ∈ l.*1.
Proof. unfold kcollect. rewrite foldl_kput_keys. cbn. split; [|tauto]. by intros [?|?%not_elem_of_nil]. Qed.

(** Collecting sorted pairs loses and moves nothing. *)
Lemma kget_kcollect l k : ksorted l -> kget k (kcollect l) = kget k l.
Proof.
  assert (forall m, NoDup l.*1 -> kget k (foldl (fun m '(k, v) => kput k v m) m l)
    = match kget k l with Some v => Some v | None => kget k m end) as H.
  { induction l as [|[k' v] l IH]; intros m; [done|]. cbn. intros [Hk Hn]%NoDup_cons. rewrite IH by done.
    rewrite kget_kput. destruct (kcmp k k') eqn:E.
    - apply kcmp_eq in E as ->. rewrite decide_True by done. by rewrite (proj2 (kget_None k' l) Hk).
    - rewrite decide_False; [done|]. intros ->. by rewrite kcmp_refl in E.
    - rewrite decide_False; [done|]. intros ->. by rewrite kcmp_refl in E. }
  intros Hs. unfold kcollect. rewrite H by by apply ksorted_nodup. by destruct (kget k l).
Qed.

End ordered_map.

Lemma ksort_dedup_sorted l : StronglySorted klt (ksort_dedup l).
Proof. exact (kcollect_sorted _). Qed.

Lemma ksort_dedup_elem l k : k ∈ ksort_dedup l <-> k ∈ l.
Proof. unfold ksort_dedup. rewrite kcollect_keys, <- list_fmap_compose. by rewrite list_fmap_id. Qed.
