(* ===== verification/Chunker.v ===== *)
(** Where a leaf ends: [src/src/cow/chunker.rs], with the sizes of entries and
    the byte-balanced split of [src/src/cow/node.rs]. A boundary is a property of
    one entry (its key's hash against its size); [leaf_cuts] cuts a run of
    entries at its boundaries and re-cuts, at a finer target, what still does
    not fit a page. *)
From S2P Require Import Prelude Bytes Keys.

(** * Sizes *)

Definition PAGE_SIZE : N := 4096.
Definition PAGE_HEADER_SIZE : N := 24.
Definition PAYLOAD_LEN : N := PAGE_SIZE - PAGE_HEADER_SIZE.
Definition SLOT_BASE : N := 12.
Definition SLOT_SIZE : N := 8.
Definition NODE_CAPACITY : N := PAYLOAD_LEN - SLOT_BASE.
Definition MAX_ENTRY_BYTES : N := NODE_CAPACITY / 4.

Definition leaf_entry_bytes (k v : list byte) : N := SLOT_SIZE + 4 + blen k + blen v.
Definition INTERNAL_ENTRY_OVERHEAD : N := SLOT_SIZE + 4 + 4.
Definition internal_entry_bytes (k : list byte) : N := INTERNAL_ENTRY_OVERHEAD + blen k.
Definition SEPARATOR_SUFFIX_BYTES : N := 1.
Definition separator_entry_bytes (k : list byte) : N := internal_entry_bytes k + SEPARATOR_SUFFIX_BYTES.
Definition MAX_KEY_BYTES : N := MAX_ENTRY_BYTES - INTERNAL_ENTRY_OVERHEAD - SEPARATOR_SUFFIX_BYTES.

(** [sizes.iter().sum()]. *)
Definition total (sizes : list N) : N := foldr N.add 0%N sizes.

(** The loop of [split_point] from index [i] with [acc] bytes behind it. *)
Fixpoint split_loop (all acc : N) (i n : nat) (sizes : list N) : option nat :=
  match sizes with
  | [] => None
  | s :: sizes =>
      let acc := (acc + s)%N in
      if (all <=? acc * 2)%N && (i + 1 <? n) then Some (i + 1)
      else split_loop all acc (i + 1) n sizes
  end.

Definition split_point (sizes : list N) : nat :=
  match split_loop (total sizes) 0 0 (length sizes) sizes with
  | Some i => i
  | None => max (length sizes - 1) 1
  end.

(** * The hash *)

Definition CHUNK_SHIFT : N := 3.
Definition TARGET_CHUNK_BYTES : N := N.shiftr NODE_CAPACITY CHUNK_SHIFT.

Definition golden : N := 11400714819323198485.

(** One splitmix64 output. *)
Definition splitmix (state : N) : N :=
  let z := state in
  let z := wmul64 (N.lxor z (N.shiftr z 30)) 13787848793156543929 in
  let z := wmul64 (N.lxor z (N.shiftr z 27)) 10723151780598845931 in
  N.lxor z (N.shiftr z 31).

Fixpoint build_table (n : nat) (state : N) : list N :=
  match n with
  | O => []
  | S n => let state := wadd64 state golden in N.shiftr (splitmix state) 32 :: build_table n state
  end.

Definition TABLE : list N := Eval vm_compute in build_table 256 golden.

(** [x.rotate_left(r)] on [u32]. *)
Definition rotl32 (x r : N) : N :=
  let r := (r mod 32)%N in
  N.lor (N.shiftl x r mod 4294967296) (N.shiftr x (32 - r)).

Definition table (b : byte) : N := default 0%N (TABLE !! N.to_nat (byteN b)).

Definition push (h : N) (b : byte) : N := N.lxor (rotl32 h 1) (table b).
Definition push_all (h : N) (bytes : list byte) : N := foldl push h bytes.
Definition roll (h : N) (out inp : byte) (window : N) : N :=
  N.lxor (N.lxor (rotl32 h 1) (rotl32 (table out) window)) (table inp).

Definition key_hash (k : list byte) : N := push_all 0 k.

(** * Boundaries and cuts *)

Definition boundary_from (hash size target : N) : bool :=
  (hash * N.max target 1 <=? N.shiftl size 32)%N.

Definition is_boundary_at (k v : list byte) (target : N) : bool :=
  boundary_from (key_hash k) (leaf_entry_bytes k v) target.

Definition is_boundary (k v : list byte) : bool := is_boundary_at k v TARGET_CHUNK_BYTES.

(** Each cut halves the run, so its length is fuel enough. *)
Fixpoint balanced_cuts (fuel : nat) (sizes : list N) (capacity : N) (base : nat) : list nat :=
  match fuel with
  | O => []
  | S fuel =>
      if length sizes <? 2 then []
      else if (total sizes <=? capacity)%N then []
      else
        let s := split_point sizes in
        balanced_cuts fuel (take s sizes) capacity base
        ++ [base + s]
        ++ balanced_cuts fuel (drop s sizes) capacity (base + s)
  end.

(** Does a chunk end with entry [i]? *)
Definition ends_at (target : N) (sizes hashes : list N) (i : nat) : bool :=
  match sizes !! i, hashes !! i with
  | Some s, Some h => boundary_from h s target
  | _, _ => false
  end.

(** [starts]: zero, and the index behind every boundary but one at the end. *)
Definition chunk_starts (target : N) (sizes hashes : list N) : list nat :=
  0 :: map S (filter (fun i => Is_true (ends_at target sizes hashes i)) (seq 0 (length sizes - 1))).

(** The loop over [starts]: a cut before every piece but the first, and the cuts
    [body] makes inside each. *)
Fixpoint each_piece (body : nat -> nat -> list nat) (base n : nat) (first : bool) (starts : list nat) : list nat :=
  match starts with
  | [] => []
  | s :: rest =>
      let e := match rest with e :: _ => e | [] => n end in
      (if first then [] else [base + s]) ++ body s e ++ each_piece body base n false rest
  end.

(** The target halves from turn to turn, so its bits are fuel enough. *)
Fixpoint cut_at_target (fuel : nat) (target : N) (sizes hashes : list N) (capacity : N) (base : nat) : list nat :=
  let n := length sizes in
  if n <? 2 then []
  else
    each_piece (fun s e =>
      let szs := take (e - s) (drop s sizes) in
      let hs := take (e - s) (drop s hashes) in
      if (total szs <=? capacity)%N then []
      else if (1 <? target)%N then
        match fuel with
        | O => []
        | S fuel => cut_at_target fuel (target / 2) szs hs capacity (base + s)
        end
      else balanced_cuts (length szs) szs capacity (base + s))
      base n true (chunk_starts target sizes hashes).

Definition target_bits : nat := 9.

Definition leaf_cuts (sizes hashes : list N) (capacity : N) : list nat :=
  cut_at_target target_bits TARGET_CHUNK_BYTES sizes hashes capacity 0.

(** * Properties *)

(** Cutting [sizes], whose first entry has index [base], at [cuts] leaves no
    piece empty and none above [cap]. *)
Fixpoint covers (cap : N) (sizes : list N) (base : nat) (cuts : list nat) : Prop :=
  match cuts with
  | [] => (total sizes <= cap)%N
  | c :: cuts =>
      base < c < base + length sizes /\ (total (take (c - base) sizes) <= cap)%N
      /\ covers cap (drop (c - base) sizes) c cuts
  end.

Lemma total_app a b : total (a ++ b) = (total a + total b)%N.
Proof. induction a as [|x a IH]; [done|]. cbn in *. unfold total in *. lia. Qed.

Lemma covers_app cap sizes base s cuts1 cuts2 :
  0 < s < length sizes ->
  covers cap (take s sizes) base cuts1 -> covers cap (drop s sizes) (base + s) cuts2 ->
  covers cap sizes base (cuts1 ++ (base + s) :: cuts2).
Proof.
  revert sizes base s. induction cuts1 as [|c cuts1 IH]; intros sizes base s Hs H1 H2; cbn in *.
  - split; [lia|]. replace (base + s - base) with s by lia. done.
  - destruct H1 as (Hc & Ht & H1). rewrite length_take in Hc. split; [lia|]. rewrite take_take in Ht.
    split; [by replace (min (c - base) s) with (c - base) in Ht by lia|].
    replace (base + s) with (c + (s - (c - base))) by lia. apply IH.
    + rewrite length_drop. lia.
    + rewrite skipn_firstn_comm in H1. done.
    + rewrite drop_drop. replace (c - base + (s - (c - base))) with s by lia.
      by replace (c + (s - (c - base))) with (base + s) by lia.
Qed.

Lemma split_loop_range all acc i n sizes r :
  split_loop all acc i n sizes = Some r -> i < r < n.
Proof.
  revert acc i. induction sizes as [|s sizes IH]; intros acc i; cbn; [done|].
  destruct (_ && _) eqn:E.
  - intros [= <-]. apply andb_true_iff in E as [_ E]. apply Nat.ltb_lt in E. lia.
  - intros H%IH. lia.
Qed.

Lemma split_point_range sizes : 2 <= length sizes -> 0 < split_point sizes < length sizes.
Proof.
  intros H. unfold split_point. destruct (split_loop _ _ _ _ _) eqn:E; [by apply split_loop_range in E|lia].
Qed.

Lemma balanced_cuts_cover cap fuel sizes base :
  length sizes <= fuel -> Forall (fun s => (s <= cap)%N) sizes ->
  covers cap sizes base (balanced_cuts fuel sizes cap base).
Proof.
  revert sizes base. induction fuel as [|fuel IH]; intros sizes base Hf Hs.
  { destruct sizes; [cbn; lia|cbn in Hf; lia]. }
  cbn [balanced_cuts]. destruct (Nat.ltb_spec (length sizes) 2) as [Hn|Hn].
  { cbn. destruct Hs as [|x l Hx Hs]; [cbn; lia|]. destruct Hs; [cbn; lia|cbn in Hn; lia]. }
  destruct (N.leb_spec (total sizes) cap) as [Ht|Ht]; [done|].
  pose proof (split_point_range sizes Hn) as Hp. apply covers_app; [done| |].
  - apply IH; [rewrite length_take; lia|by apply Forall_take].
  - apply IH; [rewrite length_drop; lia|by apply Forall_drop].
Qed.

(** Consecutive pieces, each cut by [body] on its own. *)
Lemma each_piece_covers cap (body : nat -> nat -> list nat) base sizes : forall rest s,
  StronglySorted lt (s :: rest) -> Forall (fun x => x < length sizes) (s :: rest) ->
  (forall s e, s < e <= length sizes -> covers cap (take (e - s) (drop s sizes)) (base + s) (body s e)) ->
  covers cap (drop s sizes) (base + s)
    (body s (match rest with e :: _ => e | [] => length sizes end) ++ each_piece body base (length sizes) false rest).
Proof.
  induction rest as [|s1 rest IH]; intros s Hs Hn Hb.
  - cbn. rewrite app_nil_r. apply Forall_inv in Hn. specialize (Hb s (length sizes) ltac:(lia)).
    by rewrite take_ge in Hb by (rewrite length_drop; lia).
  - apply StronglySorted_inv in Hs as [Hs Hlt]. apply Forall_inv in Hlt.
    apply Forall_inv_tail in Hn as Hn'. apply Forall_inv in Hn' as Hn1. cbn [each_piece app].
    replace (base + s1) with (base + s + (s1 - s)) by lia. apply covers_app.
    + rewrite length_drop. lia.
    + apply Hb. lia.
    + rewrite drop_drop. replace (s + (s1 - s)) with s1 by lia.
      replace (base + s + (s1 - s)) with (base + s1) by lia. by apply IH.
Qed.

Lemma each_piece_all cap (body : nat -> nat -> list nat) base sizes rest :
  StronglySorted lt (0 :: rest) -> Forall (fun x => x < length sizes) (0 :: rest) ->
  (forall s e, s < e <= length sizes -> covers cap (take (e - s) (drop s sizes)) (base + s) (body s e)) ->
  covers cap sizes base (each_piece body base (length sizes) true (0 :: rest)).
Proof.
  intros Hs Hf Hb. pose proof (each_piece_covers cap body base sizes rest 0 Hs Hf Hb) as H.
  by rewrite Nat.add_0_r in H.
Qed.

Lemma chunk_starts_sorted target sizes hashes :
  2 <= length sizes ->
  exists rest, chunk_starts target sizes hashes = 0 :: rest
    /\ StronglySorted lt (0 :: rest) /\ Forall (fun x => x < length sizes) (0 :: rest).
Proof.
  intros Hn. eexists. split; [done|].
  set (l := filter _ (seq 0 (length sizes - 1))).
  assert (StronglySorted lt l /\ Forall (fun x => x < length sizes - 1) l) as [Hs Hf].
  { subst l. split.
    - generalize (length sizes - 1) as m. generalize 0 as a.
      intros a m. revert a. induction m as [|m IH]; intros a; [constructor|]. cbn [seq]. rewrite filter_cons.
      case_decide; [|apply IH]. constructor; [apply IH|].
      apply Forall_forall. intros x [_ H']%list_elem_of_filter. apply elem_of_seq in H'. lia.
    - apply Forall_forall. intros x [_ H]%list_elem_of_filter. apply elem_of_seq in H. lia. }
  clearbody l. split.
  - constructor.
    + induction Hs as [|x l Hs IH Hx]; [constructor|]. apply Forall_inv_tail in Hf. constructor; [by apply IH|].
      rewrite Forall_forall in *. intros y (z & -> & Hz)%list_elem_of_fmap. specialize (Hx z Hz). lia.
    + apply Forall_forall. intros y (z & -> & Hz)%list_elem_of_fmap. lia.
  - constructor; [lia|]. rewrite Forall_forall in *. intros y (z & -> & Hz)%list_elem_of_fmap.
    specialize (Hf z Hz). cbn in Hf. lia.
Qed.

Lemma short_covers cap sizes base :
  length sizes < 2 -> Forall (fun s => (s <= cap)%N) sizes -> covers cap sizes base [].
Proof.
  intros Hn Hs. cbn. destruct Hs as [|x l Hx Hs]; [cbn; lia|]. destruct Hs; [cbn; lia|cbn in Hn; lia].
Qed.

Lemma cut_at_target_covers cap fuel target sizes hashes base :
  (target < 2 ^ N.of_nat fuel)%N -> Forall (fun s => (s <= cap)%N) sizes ->
  covers cap sizes base (cut_at_target fuel target sizes hashes cap base).
Proof.
  revert target sizes hashes base. induction fuel as [|fuel IH]; intros target sizes hashes base Ht Hs.
  all: cbn [cut_at_target]; destruct (Nat.ltb_spec (length sizes) 2) as [Hn|Hn]; [by apply short_covers|].
  all: destruct (chunk_starts_sorted target sizes hashes Hn) as (rest & -> & Hso & Hf).
  all: apply each_piece_all; [done|done|]; intros s e Hse; cbv zeta.
  all: assert (Forall (fun s => (s <= cap)%N) (take (e - s) (drop s sizes))) as Hp
    by (by apply Forall_take, Forall_drop).
  all: destruct (N.leb_spec (total (take (e - s) (drop s sizes))) cap) as [Hc|Hc]; [done|].
  - destruct (N.ltb_spec 1 target) as [H1|H1]; [cbn in Ht; lia|]. by apply balanced_cuts_cover.
  - destruct (N.ltb_spec 1 target) as [H1|H1]; [|by apply balanced_cuts_cover].
    apply IH; [|done]. rewrite Nat2N.inj_succ, N.pow_succ_r' in Ht. apply N.Div0.div_lt_upper_bound. lia.
Qed.

Lemma covers_bounds cap sizes base cuts :
  covers cap sizes base cuts ->
  StronglySorted lt cuts /\ Forall (fun c => base < c < base + length sizes) cuts.
Proof.
  revert sizes base. induction cuts as [|c cuts IH]; intros sizes base; [by repeat constructor|].
  intros (Hc & _ & H). apply IH in H as [Hs Hf]. rewrite length_drop in Hf. split.
  - constructor; [done|]. eapply Forall_impl; [exact Hf|]. cbn. lia.
  - constructor; [done|]. eapply Forall_impl; [exact Hf|]. cbn. lia.
Qed.

(** C39: whatever the keys hash to, the cuts of a run of entries that each fit a
    page fall strictly inside the run, in order, and leave no piece that
    overflows a page: re-cutting at ever finer targets ends in pieces that
    fit. *)
Theorem leaf_cuts_fit (sizes hashes : list N) (capacity : N) :
  Forall (fun s => (s <= capacity)%N) sizes ->
  StronglySorted lt (leaf_cuts sizes hashes capacity)
  /\ Forall (fun c => 0 < c < length sizes) (leaf_cuts sizes hashes capacity)
  /\ covers capacity sizes 0 (leaf_cuts sizes hashes capacity).
Proof.
  intros Hs. assert (covers capacity sizes 0 (leaf_cuts sizes hashes capacity)) as H
    by (apply cut_at_target_covers; [done|done]).
  destruct (covers_bounds _ _ _ _ H) as [Ho Hb]. by split_and!.
Qed.

Lemma leaf_cuts_fit_witness :
  let sizes := [400; 300; 200; 500; 300; 300; 200]%N in
  let hashes := [4294967295; 4294967295; 0; 4294967295; 4294967295; 4294967295; 4294967295]%N in
  leaf_cuts sizes hashes 1000 = [3; 4; 5; 6] /\ covers 1000 sizes 0 (leaf_cuts sizes hashes 1000).
Proof.
  split; [by vm_compute|]. refine (proj2 (proj2 (leaf_cuts_fit _ _ 1000 _))). repeat constructor; lia.
Defined.
