(* ===== verification/CowStore.v ===== *)
(** The copy-on-write page store: [src/src/cow/store.rs] over the page header of
    [src/src/cow/page_header.rs] and the reclamation rule of
    [src/src/branch/record.rs]. A page is kept decoded, as the node it holds with
    its birth epoch and arena; what the layout on the page allows is decided by
    sizes ([Chunker]). The buffer pool under the store is its map of pages, and a
    page that was never formatted fails its checksum. The disk manager's
    allocator is not modelled: [disk] is what it will answer, refusals
    included. *)
From S2P Require Import Prelude Eff Bytes Errors Keys Chunker.

Abbreviation PageId := N (only parsing).
Abbreviation Epoch := N (only parsing).
Abbreviation ArenaId := N (only parsing).

Record BranchId := mkBranchId { id : u64; generation : u32 }.

#[export] Instance BranchId_eq_dec : EqDecision BranchId.
Proof. solve_decision. Defined.
#[export] Program Instance BranchId_countable : Countable BranchId :=
  inj_countable' (fun b => (id b, generation b)) (fun p => mkBranchId p.1 p.2) _.
Next Obligation. by intros []. Qed.

Definition TRUNK : BranchId := mkBranchId 0 0.
Definition is_trunk (b : BranchId) : bool := (id b =? 0)%N.

Inductive PageType : Type :=
| Meta | BTreeInternal | BTreeLeaf | Heap | Overflow | BranchCatalog | FreeLog | Provenance | Free.

#[export] Instance PageType_eq_dec : EqDecision PageType.
Proof. solve_decision. Defined.

Abbreviation LeafEntries := (list (key * list byte)) (only parsing).
Abbreviation InternalEntries := (list (key * PageId)) (only parsing).

(** What a page holds, by its type: [NodeShape] of [src/src/cow/cid.rs] for the
    two kinds of node. *)
Inductive Content : Type :=
| LeafNode (es : LeafEntries)
| InternalNode (leftmost : PageId) (es : InternalEntries)
| NotANode (ty : PageType).

Record Page := mkPage { birth_epoch : Epoch; arena_id : ArenaId; content : Content }.

Definition page_type (p : Page) : PageType :=
  match content p with
  | LeafNode _ => BTreeLeaf
  | InternalNode _ _ => BTreeInternal
  | NotANode ty => ty
  end.

(** A zeroed payload under a header of the type. *)
Definition zeroed (ty : PageType) : Content :=
  match ty with
  | BTreeLeaf => LeafNode []
  | BTreeInternal => InternalNode 0 []
  | ty => NotANode ty
  end.

(** * The store's state *)

Record ArenaExtent := mkExtent {
  x_owner : BranchId;
  start_page : PageId;
  page_count : u32;
  next_free : u32
}.

Record ExtentState := mkExtentState { extent : ArenaExtent; free_pages : list PageId }.

Record BranchMeta := mkMeta {
  parent : option BranchId;
  fork_epoch : Epoch;
  live_children : list Epoch;
  arenas : list ArenaId;
  current_arena : option ArenaId
}.

Definition meta_default : BranchMeta := mkMeta None 0 [] [] None.

Record PendingFree := mkPending {
  pf_page : PageId;
  pf_arena : ArenaId;
  pf_birth : Epoch;
  pf_free : Epoch;
  pf_owner : BranchId
}.

Record CowStore := mkStore {
  pages : gmap PageId Page;
  extents : gmap ArenaId ExtentState;
  free_extents : list (PageId * u32);
  branches : gmap BranchId BranchMeta;
  pending : list PendingFree;
  next_arena : ArenaId;
  extent_pages : u32;
  disk : list (Result FerroError PageId)
}.

#[export] Instance eta_CowStore : Eta CowStore := fun s =>
  mkStore (pages s) (extents s) (free_extents s) (branches s) (pending s) (next_arena s)
    (extent_pages s) (disk s).
#[export] Instance set_pages : Setter pages. Proof. build_setter. Defined.
#[export] Instance set_extents : Setter extents. Proof. build_setter. Defined.
#[export] Instance set_free_extents : Setter free_extents. Proof. build_setter. Defined.
#[export] Instance set_branches : Setter branches. Proof. build_setter. Defined.
#[export] Instance set_pending : Setter pending. Proof. build_setter. Defined.
#[export] Instance set_next_arena : Setter next_arena. Proof. build_setter. Defined.
#[export] Instance set_disk : Setter disk. Proof. build_setter. Defined.

#[export] Instance eta_BranchMeta : Eta BranchMeta := fun m =>
  mkMeta (parent m) (fork_epoch m) (live_children m) (arenas m) (current_arena m).
#[export] Instance set_live_children : Setter live_children. Proof. build_setter. Defined.
#[export] Instance set_arenas : Setter arenas. Proof. build_setter. Defined.
#[export] Instance set_current_arena : Setter current_arena. Proof. build_setter. Defined.

(** * Vectors *)

(** [Vec::pop]. *)
Definition vec_pop {A : Type} (l : list A) : option (A * list A) :=
  x ← last l; Some (x, take (length l - 1) l).

(** [partition_point] of a vector whose elements below the bound come first. *)
Fixpoint below (bound : N) (l : list N) : nat :=
  match l with
  | [] => 0
  | e :: l => if (e <? bound)%N then S (below bound l) else 0
  end.

(** [BranchRecord]'s rule: no live child forked in [[birth, freed)]. *)
Definition reclaimable (children : list Epoch) (birth freed : Epoch) : bool :=
  if (freed <=? birth)%N then true else below birth children =? below freed children.

(** * Bookkeeping *)

Definition unregistered (b : BranchId) : FerroError := Cow (BranchUnregistered (id b) (generation b)).

Definition meta (b : BranchId) : Eff CowStore BranchMeta :=
  s ← eget; lift (ok_or (branches s !! b) (unregistered b)).

Definition owner_of (s : CowStore) (a : ArenaId) : option BranchId :=
  st ← extents s !! a; Some (x_owner (extent st)).

Definition live_children_of (s : CowStore) (owner : BranchId) : list Epoch :=
  match branches s !! owner with Some m => live_children m | None => [] end.

Definition set_extent (a : ArenaId) (st : ExtentState) : Eff CowStore unit :=
  eset (fun s => s <| extents := <[a := st]> (extents s) |>).

Definition take_page (a : ArenaId) : Eff CowStore PageId :=
  s ← eget;
  st ← lift (ok_or (extents s !! a) (Branch (NoSuchArena a)));
  match vec_pop (free_pages st) with
  | Some (p, rest) => _ ← set_extent a (mkExtentState (extent st) rest); mret p
  | None =>
      let x := extent st in
      if (page_count x <=? next_free x)%N then throw (Branch (ArenaExhausted a))
      else
        _ ← set_extent a (mkExtentState
              (mkExtent (x_owner x) (start_page x) (page_count x) (next_free x + 1)) (free_pages st));
        mret (start_page x + next_free x)%N
  end.

Definition extent_contains (x : ArenaExtent) (p : PageId) : bool :=
  (start_page x <=? p)%N && (p <? start_page x + page_count x)%N.

Definition release_page (a : ArenaId) (p : PageId) : Eff CowStore unit :=
  s ← eget;
  st ← lift (ok_or (extents s !! a) (Branch (ReleaseIntoUnknownArena a)));
  if negb (extent_contains (extent st) p) then throw (Branch (PageNotInArena p a))
  else if bool_decide (p ∈ free_pages st) then throw (Branch (DoubleFree p))
  else set_extent a (mkExtentState (extent st) (free_pages st ++ [p])).

Definition has_capacity (s : CowStore) (a : ArenaId) : bool :=
  match extents s !! a with
  | Some st => negb (bool_decide (free_pages st = [])) || (next_free (extent st) <? page_count (extent st))%N
  | None => false
  end.

Definition live_pages (st : ExtentState) : u32 := (next_free (extent st) - blen (free_pages st))%N.

(** * Extents *)

(** [DiskManager::allocate]. *)
Definition allocate : Eff CowStore PageId :=
  s ← eget;
  match disk s with
  | [] => throw (Io DiskRefused)
  | r :: rest => _ ← eset (fun s => s <| disk := rest |>); lift r
  end.

(** The loop of [reserve_extent]: a turn either lengthens the run or restarts
    it, and it restarts at most four times. *)
Fixpoint reserve_loop (fuel : nat) (count start have attempts : N) : Eff CowStore PageId :=
  if (have <? count)%N then
    match fuel with
    | O => throw (Cow (NotContiguous count))
    | S fuel =>
        next ← allocate;
        if (next =? start + have)%N then reserve_loop fuel count start (have + 1) attempts
        else if (4 <? attempts + 1)%N then throw (Cow (NotContiguous count))
        else reserve_loop fuel count next 1 (attempts + 1)
    end
  else mret start.

Definition reserve_extent (count : u32) : Eff CowStore PageId :=
  start ← allocate;
  reserve_loop (5 * N.to_nat count) count start 1 0.

Definition alloc_arena (b : BranchId) : Eff CowStore ArenaId :=
  _ ← meta b;
  s ← eget;
  '(start, count) ← match vec_pop (free_extents s) with
                    | Some (e, rest) => _ ← eset (fun s => s <| free_extents := rest |>); mret e
                    | None => start ← reserve_extent (extent_pages s); mret (start, extent_pages s)
                    end;
  s ← eget;
  let a := next_arena s in
  _ ← eset (fun s => s <| next_arena := (a + 1)%N |>);
  _ ← set_extent a (mkExtentState (mkExtent b start count 0) []);
  s ← eget;
  m ← lift (ok_or (branches s !! b) (Cow ForgottenWhileAllocating));
  _ ← eset (fun s => s <| branches := <[b := m <| arenas := arenas m ++ [a] |> <| current_arena := Some a |>]> (branches s) |>);
  mret a.

Definition arena_for (b : BranchId) : Eff CowStore ArenaId :=
  m ← meta b;
  s ← eget;
  match current_arena m with
  | Some a => if has_capacity s a then mret a else alloc_arena b
  | None => alloc_arena b
  end.

(** * Pages *)

Definition read_page (p : PageId) : Eff CowStore Page :=
  s ← eget; lift (ok_or (pages s !! p) (Cow (TornPage p))).

Definition write_page (p : PageId) (pg : Page) : Eff CowStore unit :=
  eset (fun s => s <| pages := <[p := pg]> (pages s) |>).

Definition alloc_in_arena (a : ArenaId) (ty : PageType) (birth : Epoch) : Eff CowStore PageId :=
  p ← take_page a;
  _ ← write_page p (mkPage birth a (zeroed ty));
  mret p.

Definition alloc_for (b : BranchId) (ty : PageType) (epoch : Epoch) : Eff CowStore PageId :=
  a ← arena_for b;
  alloc_in_arena a ty epoch.

Definition privacy (s : CowStore) (pg : Page) (b : BranchId) (m : BranchMeta) (epoch : Epoch) : bool :=
  if negb (bool_decide (owner_of s (arena_id pg) = Some b)) then false
  else if (birth_epoch pg <? fork_epoch m)%N then false
  else reclaimable (live_children m) (birth_epoch pg) epoch.

Record CowPage := mkCowPage {
  cp_page : PageId;
  cp_previous : PageId;
  copied : bool;
  retire_previous : bool
}.

Definition cow_page (p : PageId) (b : BranchId) (epoch : Epoch) : Eff CowStore CowPage :=
  pg ← read_page p;
  m ← meta b;
  s ← eget;
  if privacy s pg b m epoch then mret (mkCowPage p p false false)
  else
    a ← arena_for b;
    new ← alloc_in_arena a (page_type pg) epoch;
    _ ← write_page new (mkPage epoch a (content pg));
    mret (mkCowPage new p true (bool_decide (owner_of s (arena_id pg) = Some b))).

Definition free_page (p : PageId) (free_epoch : Epoch) : Eff CowStore unit :=
  pg ← read_page p;
  s ← eget;
  owner ← lift (ok_or (owner_of s (arena_id pg)) (Cow (PageOfUnknownArena p (arena_id pg))));
  if reclaimable (live_children_of s owner) (birth_epoch pg) free_epoch
  then release_page (arena_id pg) p
  else eset (fun s => s <| pending := pending s ++ [mkPending p (arena_id pg) (birth_epoch pg) free_epoch owner] |>).

(** * Branches *)

(** The empty store with its trunk. *)
Definition with_extent_pages (answers : list (Result FerroError PageId)) (n : u32) : CowStore :=
  mkStore ∅ ∅ [] {[ TRUNK := meta_default ]} [] 1 (N.max n 1) answers.

(** [live_children.insert(partition_point(e < fork), fork)]. *)
Definition insert_sorted (e : Epoch) (l : list Epoch) : list Epoch :=
  take (below e l) l ++ e :: drop (below e l) l.

Definition register_branch (b : BranchId) (par : option BranchId) (fork : Epoch) : Eff CowStore unit :=
  s ← eget;
  match branches s !! b with
  | Some _ => throw (Cow (BranchAlreadyRegistered (id b) (generation b)))
  | None =>
      _ ← match par with
          | Some p =>
              pm ← lift (ok_or (branches s !! p) (unregistered p));
              eset (fun s => s <| branches := <[p := pm <| live_children := insert_sorted fork (live_children pm) |>]> (branches s) |>)
          | None => mret tt
          end;
      eset (fun s => s <| branches := <[b := mkMeta par fork [] [] None]> (branches s) |>)
  end.

Definition free_arena (a : ArenaId) : Eff CowStore u32 :=
  s ← eget;
  match extents s !! a with
  | None => mret 0%N
  | Some st =>
      let x := extent st in
      _ ← eset (fun s => s <| extents := delete a (extents s) |>
                           <| free_extents := free_extents s ++ [(start_page x, page_count x)] |>);
      _ ← match branches s !! x_owner x with
          | Some m =>
              let m := m <| arenas := filter (fun a' => a' <> a) (arenas m) |> in
              let m := if bool_decide (current_arena m = Some a) then m <| current_arena := None |> else m in
              eset (fun s => s <| branches := <[x_owner x := m]> (branches s) |>)
          | None => mret tt
          end;
      _ ← eset (fun s => s <| pending := filter (fun pf => pf_arena pf <> a) (pending s) |>);
      mret (live_pages st)
  end.

(** [Vec::swap_remove]. *)
Definition swap_remove {A : Type} (i : nat) (l : list A) : list A :=
  match last l with
  | Some x => take (length l - 1) (<[i := x]> l)
  | None => l
  end.

(** The loop of [drain_pending_free]: a turn either advances or shortens the
    log, so its length is fuel enough. *)
Fixpoint drain_loop (fuel i : nat) (released : u32) : Eff CowStore u32 :=
  s ← eget;
  match pending s !! i with
  | None => mret released
  | Some pf =>
      match fuel with
      | O => mret released
      | S fuel =>
          if negb (reclaimable (live_children_of s (pf_owner pf)) (pf_birth pf) (pf_free pf))
          then drain_loop fuel (i + 1) released
          else
            released ← match extents s !! pf_arena pf with
                       | Some _ => _ ← release_page (pf_arena pf) (pf_page pf); mret (released + 1)%N
                       | None => mret released
                       end;
            _ ← eset (fun s => s <| pending := swap_remove i (pending s) |>);
            drain_loop fuel i released
      end
  end.

Definition drain_pending_free : Eff CowStore u32 :=
  s ← eget; drain_loop (length (pending s)) 0 0.

Fixpoint free_arenas (l : list ArenaId) (reclaimed : u32) : Eff CowStore u32 :=
  match l with
  | [] => mret reclaimed
  | a :: l => n ← free_arena a; free_arenas l (reclaimed + n)%N
  end.

Definition forget_branch (b : BranchId) : Eff CowStore u32 :=
  if is_trunk b then throw (Cow TrunkForgotten)
  else
    m ← meta b;
    reclaimed ← free_arenas (arenas m) 0;
    _ ← eset (fun s => s <| branches := delete b (branches s) |>);
    s ← eget;
    _ ← match parent m with
        | Some p =>
            match branches s !! p with
            | Some pm =>
                let at_ := below (fork_epoch m) (live_children pm) in
                if bool_decide (live_children pm !! at_ = Some (fork_epoch m)) then
                  eset (fun s => s <| branches := <[p := pm <| live_children := delete at_ (live_children pm) |>]> (branches s) |>)
                else mret tt
            | None => mret tt
            end
        | None => mret tt
        end;
    n ← drain_pending_free;
    mret (reclaimed + n)%N.

(** * Running a bind *)

Lemma eff_run {S A B : Type} (m : Eff S A) (k : A -> Eff S B) s a s' :
  m s = Some (Ok a, s') -> (m ≫= k) s = k a s'.
Proof. intros E. unfold mbind, eff_bind. by rewrite E. Qed.

Lemma eff_run_err {S A B : Type} (m : Eff S A) (k : A -> Eff S B) s e s' :
  m s = Some (Err e, s') -> (m ≫= k) s = Some (Err e, s').
Proof. intros E. unfold mbind, eff_bind. by rewrite E. Qed.

Lemma eget_bind {S B : Type} (k : S -> Eff S B) s : (eget ≫= k) s = k s s.
Proof. done. Qed.

Lemma read_page_run p pg s : pages s !! p = Some pg -> read_page p s = Some (Ok pg, s).
Proof. intros E. unfold read_page. rewrite eget_bind, E. done. Qed.
