(* ===== verification/CowTree.v ===== *)
(** The copy-on-write B+tree: [src/src/cow/btree.rs] over the nodes of
    [src/src/cow/node.rs]. A write operation runs over the store together with
    its journal: the pages it may have to put back, and those it has taken out of
    the tree. *)
From S2P Require Import Prelude Eff Bytes Errors Keys Chunker CowStore.

(** * Nodes

    A cell is written behind the others, and behind the one it replaces, so the
    page takes it when the live cells and the new one fit together: a refusal
    comes only after the garbage has been dropped. *)

Definition leaf_sizes (es : LeafEntries) : list N := map (fun e => leaf_entry_bytes e.1 e.2) es.
Definition internal_sizes (es : InternalEntries) : list N := map (fun e => internal_entry_bytes e.1) es.

(** [v.insert(i, x)] and [v[i] = x]; an index out of range panics. *)
Definition vec_insert {A : Type} (i : nat) (x : A) (l : list A) : option (list A) :=
  if i <=? length l then Some (take i l ++ x :: drop i l) else None.
Definition vec_set {A : Type} (i : nat) (x : A) (l : list A) : option (list A) :=
  if i <? length l then Some (<[i := x]> l) else None.
(** [v[a..b]]. *)
Definition slice {A : Type} (a b : nat) (l : list A) : option (list A) :=
  if (a <=? b) && (b <=? length l) then Some (take (b - a) (drop a l)) else None.

(** [insert_cell_at] with room for one more slot, [replace_cell_at] without. *)
Definition insert_fits (sizes : list N) (entry : N) : bool := (total sizes + entry <=? NODE_CAPACITY)%N.
Definition replace_fits (sizes : list N) (entry : N) : bool :=
  (total sizes + (entry - SLOT_SIZE) <=? NODE_CAPACITY)%N.

(** How many entries [fill_leaf] and [fill_internal] write before the page
    overflows. *)
Fixpoint fill_count (room : N) (sizes : list N) : nat :=
  match sizes with
  | [] => 0
  | s :: sizes => if (s <=? room)%N then S (fill_count (room - s) sizes) else 0
  end.

Definition child_slot_for (leftmost : PageId) (es : InternalEntries) (k : key) :
    Result FerroError (option nat * PageId) :=
  match search es.*1 k with
  | Ok i => e ← ok_or (es !! i) (Cow (NodeSlotOutOfRange (N.of_nat i))); mret (Some i, e.2)
  | Err O => mret (None, leftmost)
  | Err (S i) => e ← ok_or (es !! i) (Cow (NodeSlotOutOfRange (N.of_nat i))); mret (Some i, e.2)
  end.

Definition all_children (leftmost : PageId) (es : InternalEntries) : list PageId := leftmost :: es.*2.

(** The smallest key above [k]. *)
Definition successor_of (k : key) : key := k ++ [u8 0].

(** * The journal *)

Record Writing := mkWriting {
  w_store : CowStore;
  undo : list (PageId * Page);
  retired : list PageId
}.

Definition W (A : Type) : Type := Eff Writing A.

#[export] Instance W_ret : MRet W := eff_ret.
#[export] Instance W_bind : MBind W := eff_bind.

Definition on_store {A : Type} (m : Eff CowStore A) : W A := fun w =>
  match m (w_store w) with
  | Some (r, s) => Some (r, mkWriting s (undo w) (retired w))
  | None => None
  end.

Definition MAX_DESCENT : nat := 64.

Definition DescentPath : Type := list (PageId * option nat).
Definition Split : Type := list (key * PageId).

(** [PageHandle::write] on a page in hand: its header stays. *)
Definition put_content (p : PageId) (c : Content) : W unit :=
  s ← on_store eget;
  pg ← at_index (pages s !! p);
  on_store (write_page p (mkPage (birth_epoch pg) (arena_id pg) c)).

Definition leaf_of (p : PageId) : W LeafEntries :=
  pg ← on_store (read_page p);
  match content pg with LeafNode es => mret es | _ => throw (Cow (NotABtreeNode p)) end.

Definition internal_of (p : PageId) : W (PageId * InternalEntries) :=
  pg ← on_store (read_page p);
  match content pg with InternalNode l es => mret (l, es) | _ => throw (Cow (NotABtreeNode p)) end.

Definition fill_leaf (p : PageId) (es : LeafEntries) : W unit :=
  let n := fill_count NODE_CAPACITY (leaf_sizes es) in
  _ ← put_content p (LeafNode (take n es));
  if n <? length es then throw (Cow LeafFillOverflow) else mret tt.

Definition fill_internal (p : PageId) (leftmost : PageId) (es : InternalEntries) : W unit :=
  let n := fill_count NODE_CAPACITY (internal_sizes es) in
  _ ← put_content p (InternalNode leftmost (take n es));
  if n <? length es then throw (Cow InternalFillOverflow) else mret tt.

(** [WriteJournal::record]: the bytes a page had before the operation. *)
Definition record_page (cp : CowPage) : W unit := fun w =>
  if copied cp || bool_decide (cp_page cp ∈ (undo w).*1) then Some (Ok tt, w)
  else
    match pages (w_store w) !! cp_page cp with
    | Some pg => Some (Ok tt, mkWriting (w_store w) (undo w ++ [(cp_page cp, pg)]) (retired w))
    | None => None
    end.

Definition retire (p : PageId) : W unit :=
  eset (fun w => mkWriting (w_store w) (undo w) (retired w ++ [p])).

Definition shadow (p : PageId) (b : BranchId) (epoch : Epoch) : W CowPage :=
  cp ← on_store (cow_page p b epoch);
  _ ← record_page cp;
  _ ← (if retire_previous cp then retire (cp_previous cp) else mret tt);
  mret cp.

(** * Reading *)

Module CowTree.

Definition create (b : BranchId) (epoch : Epoch) : Eff CowStore PageId :=
  a ← arena_for b;
  p ← alloc_in_arena a BTreeLeaf epoch;
  pg ← read_page p;
  _ ← write_page p (mkPage (birth_epoch pg) (arena_id pg) (LeafNode []));
  mret p.

Fixpoint get_loop (fuel : nat) (p : PageId) (k : key) : Eff CowStore (option (list byte)) :=
  match fuel with
  | O => throw (Cow DepthGuard)
  | S fuel =>
      pg ← read_page p;
      match content pg with
      | LeafNode es =>
          match search es.*1 k with
          | Ok i => e ← lift (ok_or (es !! i) (Cow (NodeSlotOutOfRange (N.of_nat i)))); mret (Some e.2)
          | Err _ => mret None
          end
      | InternalNode l es => '(_, c) ← lift (child_slot_for l es k); get_loop fuel c k
      | NotANode _ => throw (Cow (NotABtreeNode p))
      end
  end.

Definition get (root : PageId) (k : key) : Eff CowStore (option (list byte)) := get_loop MAX_DESCENT root k.

Fixpoint descend_loop (fuel : nat) (path : DescentPath) (p : PageId) (k : key) :
    Eff CowStore (DescentPath * PageId) :=
  match fuel with
  | O => throw (Cow DepthGuard)
  | S fuel =>
      pg ← read_page p;
      match content pg with
      | LeafNode _ => mret (path, p)
      | InternalNode l es =>
          '(slot, c) ← lift (child_slot_for l es k);
          descend_loop fuel (path ++ [(p, slot)]) c k
      | NotANode _ => throw (Cow (NotABtreeNode p))
      end
  end.

Definition descend (root : PageId) (k : key) : Eff CowStore (DescentPath * PageId) :=
  descend_loop MAX_DESCENT [] root k.

Fixpoint leftmost_loop (fuel : nat) (p : PageId) : Eff CowStore PageId :=
  match fuel with
  | O => throw (Cow DepthGuard)
  | S fuel =>
      pg ← read_page p;
      match content pg with
      | LeafNode _ => mret p
      | InternalNode l _ => leftmost_loop fuel l
      | NotANode _ => throw (Cow (NotABtreeNode p))
      end
  end.

Definition leftmost_leaf (p : PageId) : Eff CowStore PageId := leftmost_loop MAX_DESCENT p.

(** The path from its deepest node up. *)
Fixpoint neighbour_loop (up : DescentPath) : Eff CowStore (option PageId) :=
  match up with
  | [] => mret None
  | (parent_id, slot) :: up =>
      pg ← read_page parent_id;
      match content pg with
      | InternalNode l es =>
          let taken := match slot with None => 0 | Some i => i + 1 end in
          match all_children l es !! (taken + 1) with
          | Some c => q ← leftmost_leaf c; mret (Some q)
          | None => neighbour_loop up
          end
      | _ => throw (Cow (NotABtreeNode parent_id))
      end
  end.

Definition right_neighbour (path : DescentPath) : Eff CowStore (option PageId) := neighbour_loop (rev path).

(** * Writing *)

Definition check_entry (k v : list byte) : Result FerroError unit :=
  _ ← refuse_if (MAX_ENTRY_BYTES <? leaf_entry_bytes k v)%N (Cow (EntryTooLarge (leaf_entry_bytes k v)));
  refuse_if (MAX_KEY_BYTES <? blen k)%N (Cow (KeyTooLarge (blen k))).

(** The pieces behind the first: one page each, with the separator that leads
    to it. *)
Fixpoint spill_leaves (es : LeafEntries) (cuts : list nat) (b : BranchId) (epoch : Epoch) : W Split :=
  match cuts with
  | [] => mret []
  | start :: rest =>
      let end_ := match rest with e :: _ => e | [] => length es end in
      p ← on_store (alloc_for b BTreeLeaf epoch);
      piece ← at_index (slice start end_ es);
      _ ← fill_leaf p piece;
      before ← at_index (es !! (start - 1));
      promoted ← spill_leaves es rest b epoch;
      mret ((successor_of before.1, p) :: promoted)
  end.

Definition write_leaf_chunked (p : PageId) (es : LeafEntries) (b : BranchId) (epoch : Epoch) : W (Split * bool) :=
  let unterminated := match last es with Some (k, v) => negb (is_boundary k v) | None => false end in
  let cuts := leaf_cuts (leaf_sizes es) (map (fun e => key_hash e.1) es) NODE_CAPACITY in
  match cuts with
  | [] => _ ← fill_leaf p es; mret ([], unterminated)
  | c0 :: _ =>
      promoted ← spill_leaves es cuts b epoch;
      first ← at_index (slice 0 c0 es);
      _ ← fill_leaf p first;
      mret (promoted, unterminated)
  end.

(** An entry in place of the one at its key, or at its place. *)
Definition upsert (es : LeafEntries) (k v : list byte) : option LeafEntries :=
  match search es.*1 k with
  | Ok i => vec_set i (k, v) es
  | Err i => vec_insert i (k, v) es
  end.

Definition leaf_put (p : PageId) (b : BranchId) (epoch : Epoch) (k v : list byte) : W (Split * bool) :=
  es ← leaf_of p;
  let found := search es.*1 k in
  let at_ := match found with Ok i => i | Err i => i end in
  let fits := match found with
              | Ok _ => replace_fits (leaf_sizes es) (leaf_entry_bytes k v)
              | Err _ => insert_fits (leaf_sizes es) (leaf_entry_bytes k v)
              end in
  es' ← at_index (upsert es k v);
  if fits then
    _ ← put_content p (LeafNode es');
    let last_ := length es' - 1 in
    interior ← (if at_ =? last_ then
                  if 2 <=? length es' then
                    e ← at_index (es' !! (last_ - 1)); mret (is_boundary e.1 e.2)
                  else mret false
                else mret (is_boundary k v));
    if (negb interior : bool) then
      e ← at_index (es' !! last_);
      mret ([], negb (is_boundary e.1 e.2))
    else write_leaf_chunked p es' b epoch
  else write_leaf_chunked p es' b epoch.

(** The separators that fit, at consecutive slots from [at_]; the rest is for
    the split. *)
Fixpoint place (at_ : nat) (promoted : Split) (es : InternalEntries) : option (InternalEntries * Split) :=
  match promoted with
  | [] => Some (es, [])
  | (sep, child) :: rest =>
      if insert_fits (internal_sizes es) (internal_entry_bytes sep) then
        es ← vec_insert at_ (sep, child) es;
        place (at_ + 1) rest es
      else Some (es, promoted)
  end.

Fixpoint insert_all (at_ : nat) (rest : Split) (es : InternalEntries) : option InternalEntries :=
  match rest with
  | [] => Some es
  | e :: rest => es ← vec_insert at_ e es; insert_all (at_ + 1) rest es
  end.

Fixpoint spill_internals (es : InternalEntries) (cuts : list nat) (b : BranchId) (epoch : Epoch) : W Split :=
  match cuts with
  | [] => mret []
  | s :: rest =>
      let end_ := match rest with e :: _ => e | [] => length es end in
      middle ← at_index (es !! s);
      p ← on_store (alloc_for b BTreeInternal epoch);
      piece ← at_index (slice (s + 1) end_ es);
      _ ← fill_internal p middle.2 piece;
      promoted ← spill_internals es rest b epoch;
      mret ((middle.1, p) :: promoted)
  end.

Definition internal_relink (p : PageId) (slot : option nat) (child : PageId) (promoted : Split)
    (b : BranchId) (epoch : Epoch) : W Split :=
  let at_ := match slot with None => 0 | Some i => i + 1 end in
  if existsb (fun sp => (MAX_ENTRY_BYTES <? internal_entry_bytes sp.1)%N) promoted
  then throw (Cow SeparatorTooLarge)
  else
    '(l, es) ← internal_of p;
    '(l, es) ← match slot with
               | None => mret (child, es)
               | Some i =>
                   e ← lift (ok_or (es !! i) (Cow (NodeSlotOutOfRange (N.of_nat i))));
                   mret (l, <[i := (e.1, child)]> es)
               end;
    '(placed, rest) ← at_index (place at_ promoted es);
    _ ← put_content p (InternalNode l placed);
    match rest with
    | [] => mret []
    | _ =>
        es ← at_index (insert_all (at_ + (length promoted - length rest)) rest placed);
        let cuts := balanced_cuts (length es) (internal_sizes es) NODE_CAPACITY 0 in
        match cuts with
        | [] => _ ← fill_internal p l es; mret []
        | c0 :: _ =>
            out ← spill_internals es cuts b epoch;
            first ← at_index (slice 0 c0 es);
            _ ← fill_internal p l first;
            mret out
        end
    end.

(** The path from its deepest node up; the root the operation started from is
    returned where nothing above needs to change. *)
Fixpoint relink_loop (root : PageId) (up : DescentPath) (child_old child_new : PageId) (promoted : Split)
    (b : BranchId) (epoch : Epoch) : W PageId :=
  match up with
  | (parent_id, slot) :: up =>
      if (child_new =? child_old)%N && bool_decide (promoted = []) then mret root
      else
        cp ← shadow parent_id b epoch;
        promoted ← internal_relink (cp_page cp) slot child_new promoted b epoch;
        relink_loop root up parent_id (cp_page cp) promoted b epoch
  | [] =>
      match promoted with
      | [] => if (child_new =? child_old)%N then mret root else mret child_new
      | _ =>
          a ← on_store (arena_for b);
          new_root ← on_store (alloc_in_arena a BTreeInternal epoch);
          _ ← fill_internal new_root child_new promoted;
          mret new_root
      end
  end.

Definition relink_up (root : PageId) (path : DescentPath) (child_old child_new : PageId) (promoted : Split)
    (b : BranchId) (epoch : Epoch) : W PageId :=
  relink_loop root (rev path) child_old child_new promoted b epoch.

(** [remove_at] of a slot in range. *)
Definition remove_at (i : nat) (es : InternalEntries) : Result FerroError InternalEntries :=
  if i <? length es then Ok (delete i es) else Err (Cow (NodeSlotOutOfRange (N.of_nat i))).

Fixpoint unlink_loop (root : PageId) (up : DescentPath) (doomed : PageId) (b : BranchId) (epoch : Epoch) : W PageId :=
  match up with
  | [] =>
      _ ← retire doomed;
      on_store (create b epoch)
  | (parent_id, slot) :: up =>
      cp ← shadow parent_id b epoch;
      '(l, es) ← internal_of (cp_page cp);
      childless ← match slot with
                  | Some i =>
                      es ← lift (remove_at i es);
                      _ ← put_content (cp_page cp) (InternalNode l es);
                      mret false
                  | None =>
                      match es with
                      | [] => mret true
                      | (_, c) :: es => _ ← put_content (cp_page cp) (InternalNode c es); mret false
                      end
                  end;
      _ ← retire doomed;
      if (childless : bool) then unlink_loop root up (cp_page cp) b epoch
      else relink_loop root up parent_id (cp_page cp) [] b epoch
  end.

Definition unlink_up (root : PageId) (path : DescentPath) (doomed : PageId) (b : BranchId) (epoch : Epoch) : W PageId :=
  unlink_loop root (rev path) doomed b epoch.

Definition merge_right (root : PageId) (key_in_left : key) (b : BranchId) (epoch : Epoch) : W PageId :=
  '(path_l, _) ← on_store (descend root key_in_left);
  neighbour ← on_store (right_neighbour path_l);
  match neighbour with
  | None => mret root
  | Some r_id =>
      r_entries ← leaf_of r_id;
      match r_entries with
      | [] => mret root
      | (r_first, _) :: _ =>
          '(path_r, r_live) ← on_store (descend root r_first);
          cpr ← shadow r_live b epoch;
          root ← unlink_up root path_r (cp_page cpr) b epoch;
          '(path_l, l_live) ← on_store (descend root key_in_left);
          cpl ← shadow l_live b epoch;
          l_entries ← leaf_of (cp_page cpl);
          '(promoted, _) ← write_leaf_chunked (cp_page cpl) (l_entries ++ r_entries) b epoch;
          relink_up root path_l l_live (cp_page cpl) promoted b epoch
      end
  end.

Definition insert_within (root : PageId) (b : BranchId) (epoch : Epoch) (k v : list byte) : W PageId :=
  _ ← lift (check_entry k v);
  '(path, leaf_id) ← on_store (descend root k);
  cp ← shadow leaf_id b epoch;
  '(split, unterminated) ← leaf_put (cp_page cp) b epoch k v;
  root ← relink_up root path leaf_id (cp_page cp) split b epoch;
  if (unterminated : bool) then merge_right root k b epoch else mret root.

Definition delete_within (root : PageId) (b : BranchId) (epoch : Epoch) (k : key) : W PageId :=
  '(path, leaf_id) ← on_store (descend root k);
  es ← leaf_of leaf_id;
  match search es.*1 k with
  | Err _ => mret root
  | Ok i =>
      cp ← shadow leaf_id b epoch;
      let es := delete i es in
      _ ← put_content (cp_page cp) (LeafNode es);
      match es with
      | [] =>
          match path with
          | [] => relink_up root path leaf_id (cp_page cp) [] b epoch
          | _ => unlink_up root path (cp_page cp) b epoch
          end
      | (first_key, _) :: _ =>
          last_ ← at_index (last es);
          root ← relink_up root path leaf_id (cp_page cp) [] b epoch;
          if negb (is_boundary last_.1 last_.2) then merge_right root first_key b epoch else mret root
      end
  end.

(** * Commit and rollback *)

Definition rollback (w : Writing) : CowStore :=
  foldl (fun s '(p, pg) => s <| pages := <[p := pg]> (pages s) |>) (w_store w) (undo w).

(** Every page is attempted; an error leaks the page and no more. *)
Definition free_all (ps : list PageId) (epoch : Epoch) (s : CowStore) : option CowStore :=
  foldl (fun os p => s ← os; '(_, s) ← free_page p epoch s; Some s) (Some s) ps.

Definition finish (m : W PageId) (epoch : Epoch) : Eff CowStore PageId := fun s =>
  '(outcome, w) ← m (mkWriting s [] []);
  match outcome with
  | Ok new_root => s ← free_all (retired w) epoch (w_store w); Some (Ok new_root, s)
  | Err e => Some (Err e, rollback w)
  end.

Definition insert (root : PageId) (b : BranchId) (epoch : Epoch) (k v : list byte) : Eff CowStore PageId :=
  finish (insert_within root b epoch k v) epoch.

Definition delete (root : PageId) (b : BranchId) (epoch : Epoch) (k : key) : Eff CowStore PageId :=
  finish (delete_within root b epoch k) epoch.

End CowTree.
