(* ===== verification/CowRead.v ===== *)
(** Reading the copy-on-write tree. [look] is the value a well-formed tree gives
    a key, by routing alone; [CowTree.get] computes it. *)
From S2P Require Import Prelude Eff Bytes Errors Keys Chunker CowStore CowTree.

(** The child a key belongs to: that of the last separator at or below it. *)
Fixpoint route {T : Type} (l : T) (es : list (key * T)) (k : key) : T :=
  match es with
  | [] => l
  | (s, c) :: es => if kltb k s then l else route c es k
  end.

Lemma route_index {T : Type} (l : T) (es : list (key * T)) k i :
  i <= length es ->
  (forall j m, j < i -> es.*1 !! j = Some m -> ~ klt k m) ->
  (forall j m, i <= j -> es.*1 !! j = Some m -> klt k m) ->
  Some (route l es k) = match i with O => Some l | S i => es.*2 !! i end.
Proof.
  revert l i. induction es as [|[s c] es IH]; intros l i Hi H1 H2; cbn in *.
  { by assert (i = 0) as -> by lia. }
  destruct i as [|i].
  - rewrite (proj2 (kltb_lt k s)); [done|]. by apply (H2 0); [lia|].
  - assert (kltb k s = false) as ->.
    { apply not_true_iff_false. rewrite kltb_lt. by apply (H1 0); [lia|]. }
    rewrite (IH c i); [by destruct i|lia| |].
    + intros j m Hj. apply (H1 (S j)). lia.
    + intros j m Hj. apply (H2 (S j)). lia.
Qed.

(** What a bisection of the separators finds is what routing finds. *)
Lemma search_route {T : Type} (l : T) (es : list (key * T)) k :
  ksorted es ->
  match search es.*1 k with
  | Ok i => es.*2 !! i
  | Err O => Some l
  | Err (S i) => es.*2 !! i
  end = Some (route l es k).
Proof.
  intros Hs. pose proof (search_spec es.*1 k Hs) as H. destruct (search es.*1 k) as [i|i].
  - symmetry. apply (route_index l es k (S i)).
    + apply lookup_lt_Some in H. rewrite length_fmap in H. lia.
    + intros j m Hj Hm. destruct (decide (j = i)) as [->|].
      * rewrite H in Hm. injection Hm as ->. apply klt_irrefl.
      * intros Hlt. destruct (klt_irrefl k). eapply klt_trans; [exact Hlt|].
        eapply (sorted_lookup klt es.*1 j i); [done|lia|done|done].
    + intros j m Hj Hm. eapply (sorted_lookup klt es.*1 i j); [done|lia|done|done].
  - destruct H as (Hi & H1 & H2). rewrite length_fmap in Hi. symmetry.
    rewrite (route_index l es k i); [by destruct i|done| |done].
    intros j m Hj Hm Hlt. destruct (klt_irrefl k). eapply klt_trans; [exact Hlt|by eapply H1].
Qed.

Lemma child_slot_route l es k :
  ksorted es -> exists slot, child_slot_for l es k = Ok (slot, route l es k).
Proof.
  intros Hs. pose proof (search_route l es k Hs) as H. unfold child_slot_for.
  destruct (search es.*1 k) as [i|[|i]]; cbn.
  - rewrite list_lookup_fmap in H. destruct (es !! i) as [e|]; [|done]. injection H as <-. by exists (Some i).
  - injection H as <-. by exists None.
  - rewrite list_lookup_fmap in H. destruct (es !! i) as [e|]; [|done]. injection H as <-. by exists (Some i).
Qed.

(** * Well-formed trees *)

(** Every page down from [p] is a node with its keys in order, at most [n]
    levels deep. *)
Inductive wf_tree (s : CowStore) : nat -> PageId -> Prop :=
| wf_leaf n p pg es :
    pages s !! p = Some pg -> content pg = LeafNode es -> ksorted es -> (p < 4294967296)%N ->
    wf_tree s (S n) p
| wf_node n p pg l es :
    pages s !! p = Some pg -> content pg = InternalNode l es -> ksorted es -> (p < 4294967296)%N ->
    wf_tree s n l -> (forall c, c ∈ es.*2 -> wf_tree s n c) -> wf_tree s (S n) p.

Fixpoint look (s : CowStore) (n : nat) (p : PageId) (k : key) : option (list byte) :=
  match n with
  | O => None
  | S n =>
      match content <$> pages s !! p with
      | Some (LeafNode es) => kget k es
      | Some (InternalNode l es) => look s n (route l es k) k
      | _ => None
      end
  end.

Lemma route_elem {T : Type} (P : T -> Prop) l (es : list (key * T)) k :
  P l -> (forall c, c ∈ es.*2 -> P c) -> P (route l es k).
Proof.
  revert l. induction es as [|[s c] es IH]; intros l Hl H; [done|]. cbn in *.
  destruct (kltb k s); [done|]. apply IH; [apply H; by left|]. intros c' Hc'. apply H. by right.
Qed.

Lemma wf_tree_mono s n p m : wf_tree s n p -> n <= m -> wf_tree s m p.
Proof.
  intros H. revert m. revert p H. induction n as [|n IH]; intros p H m Hm; inversion H; subst.
  - destruct m as [|m]; [lia|]. by eapply wf_leaf.
  - destruct m as [|m]; [lia|]. eapply wf_node; try done; [apply IH; [done|lia]|].
    intros c Hc. apply IH; [auto|lia].
Qed.

Lemma look_mono s n p k m : wf_tree s n p -> n <= m -> look s m p k = look s n p k.
Proof.
  revert p m. induction n as [|n IH]; intros p m H Hm; inversion H; subst; (destruct m as [|m]; [lia|]);
    cbn [look]; match goal with E : pages s !! p = _ |- _ => rewrite E end; cbn;
    match goal with E : content _ = _ |- _ => rewrite E end; [done|].
  apply IH; [|lia]. by apply route_elem.
Qed.

Lemma search_kget (es : LeafEntries) k : ksorted es ->
  match search es.*1 k with Ok i => exists e, es !! i = Some e /\ kget k es = Some e.2 | Err _ => kget k es = None end.
Proof.
  intros Hs. pose proof (search_spec es.*1 k Hs) as H. destruct (search es.*1 k) as [i|i].
  - rewrite list_lookup_fmap in H. destruct (es !! i) as [[k' v]|] eqn:E; [|done]. injection H as ->.
    exists (k, v). split; [done|]. apply kget_Some; [done|]. apply list_elem_of_lookup. eauto.
  - destruct H as (_ & H1 & H2). apply kget_None. intros (j & Hj)%list_elem_of_lookup.
    destruct (decide (j < i)); [by apply (klt_irrefl k), (H1 j)|]. apply (klt_irrefl k), (H2 j); [lia|done].
Qed.

(** Well-formedness as a test. *)
Fixpoint sortedb (ks : list key) : bool :=
  match ks with [] => true | a :: ks => forallb (kltb a) ks && sortedb ks end.

Fixpoint wf_treeb (s : CowStore) (n : nat) (p : PageId) : bool :=
  match n with
  | O => false
  | S n =>
      (p <? 4294967296)%N &&
      match content <$> pages s !! p with
      | Some (LeafNode es) => sortedb es.*1
      | Some (InternalNode l es) => sortedb es.*1 && wf_treeb s n l && forallb (wf_treeb s n) es.*2
      | _ => false
      end
  end.

Lemma sortedb_sound ks : sortedb ks = true -> StronglySorted klt ks.
Proof.
  induction ks as [|a ks IH]; [constructor|]. cbn. intros [H1 H2]%andb_true_iff. constructor; [auto|].
  rewrite forallb_True in H1 || (apply Is_true_true in H1; rewrite forallb_True in H1).
  eapply Forall_impl; [exact H1|]. intros x Hx%Is_true_true. by apply kltb_lt.
Qed.

Lemma wf_treeb_sound s n p : wf_treeb s n p = true -> wf_tree s n p.
Proof.
  revert p. induction n as [|n IH]; intros p; cbn [wf_treeb]; [done|]. intros [Hp%N.ltb_lt H]%andb_true_iff.
  destruct (pages s !! p) as [pg|] eqn:E; [|done]. cbn in H. destruct (content pg) as [es|l es|ty] eqn:Ec; [| |done].
  - eapply wf_leaf; try done. by apply sortedb_sound.
  - apply andb_true_iff in H as [[Hs Hl]%andb_true_iff Hc]. eapply wf_node; try done; [by apply sortedb_sound|auto|].
    intros c Hc'. apply IH. apply Is_true_true in Hc. rewrite forallb_True, Forall_forall in Hc. by apply Is_true_true, Hc.
Qed.

(** [get] reads what routing gives, on every tree it has the depth for. *)
Lemma get_loop_look s fuel n p k :
  wf_tree s n p -> n <= fuel -> CowTree.get_loop fuel p k s = Some (Ok (look s n p k), s).
Proof.
  revert n p. induction fuel as [|fuel IH]; intros n p H Hn; [inversion H; lia|].
  cbn [CowTree.get_loop].
  inversion H as [n' ? pg es E Ec Hs|n' ? pg l es E Ec Hs Hp Hl Hes]; subst;
    rewrite (eff_run _ _ _ _ _ (read_page_run _ _ _ E)), Ec; cbn [look]; rewrite E; cbn [fmap option_fmap option_map];
    rewrite Ec.
  - pose proof (search_kget es k Hs) as Hk. destruct (search es.*1 k) as [i|i].
    + destruct Hk as (e & -> & ->). done.
    + by rewrite Hk.
  - destruct (child_slot_route l es k Hs) as [slot ->]. apply IH; [by apply route_elem|lia].
Qed.

(** C34: a point lookup returns, on every well-formed tree within the depth guard,
    the value routing by the separators leads to; it never fails and never
    changes the store. *)
Theorem get_follows_the_separators (s : CowStore) (root : PageId) (k : key) :
  wf_tree s MAX_DESCENT root ->
  CowTree.get root k s = Some (Ok (look s MAX_DESCENT root k), s).
Proof. intros H. by apply get_loop_look. Qed.
