(* ===== verification/CowLogic.v ===== *)
(** A program logic for the effects of the tree: symbolic execution of a run,
    and an invariant rule that lifts a property of the store's primitives to
    whole insertions and deletions. *)
From S2P Require Import Prelude Eff Bytes Errors Keys Chunker CowStore CowTree.

(** * Reading changes nothing *)

Lemma eff_reads_page p : reads (read_page p).
Proof. intros s. unfold read_page. by run. Qed.
Create HintDb cow_reads.
#[export] Hint Resolve eff_reads_lift eff_reads_throw eff_reads_ret eff_reads_page : cow_reads.

Ltac reads := repeat (first [solve [eauto with cow_reads] | apply eff_reads_bind; [|intros] | case_goal]).

Lemma descend_loop_reads fuel path p k : reads (CowTree.descend_loop fuel path p k).
Proof. revert path p. induction fuel as [|fuel IH]; intros path p; cbn [CowTree.descend_loop]; reads. Qed.
Lemma descend_reads root k : reads (CowTree.descend root k).
Proof. apply descend_loop_reads. Qed.
Lemma leftmost_loop_reads fuel p : reads (CowTree.leftmost_loop fuel p).
Proof. revert p. induction fuel as [|fuel IH]; intros p; cbn [CowTree.leftmost_loop]; reads. Qed.
#[export] Hint Resolve descend_reads leftmost_loop_reads : cow_reads.
Lemma right_neighbour_reads path : reads (CowTree.right_neighbour path).
Proof.
  unfold CowTree.right_neighbour. induction (rev path) as [|[q slot] up IH]; cbn [CowTree.neighbour_loop]; [reads|].
  unfold CowTree.leftmost_leaf. reads.
Qed.
#[export] Hint Resolve right_neighbour_reads : cow_reads.

(** * Invariants of a write *)

Section stretches.
Context (J : Writing -> Prop) (can : Writing -> PageId -> Prop).

(** A stretch of the operation: it keeps the invariant, and every page that
    could be written still can. *)
Definition stretch (w w' : Writing) : Prop := J w' /\ forall p, can w p -> can w' p.

Definition wt {A : Type} (w : Writing) (m : W A) (Q : A -> Writing -> Prop) : Prop :=
  runs m w (fun r w' => stretch w w' /\ forall a, r = Ok a -> Q a w').

Lemma stretch_refl w : J w -> stretch w w.
Proof. by split. Qed.
Lemma stretch_trans w1 w2 w3 : stretch w1 w2 -> stretch w2 w3 -> stretch w1 w3.
Proof. intros [_ H1] [H2 H3]. split; auto. Qed.

Lemma wt_bind {A B : Type} w (m : W A) (k : A -> W B) Q R :
  wt w m Q -> (forall a w', stretch w w' -> Q a w' -> wt w' (k a) R) -> wt w (m ≫= k) R.
Proof.
  intros Hm Hk. apply runs_bind. eapply runs_mono; [|exact Hm]. intros [a|e] w' [Hs Hq]; [|split; [done|]; by intros].
  eapply runs_mono; [|apply Hk; [exact Hs|auto]]. intros r w2 [Hs2 Hr]. split; [by eapply stretch_trans|done].
Qed.

Lemma wt_ret {A : Type} w (a : A) (Q : A -> Writing -> Prop) : J w -> Q a w -> wt w (mret a) Q.
Proof. intros Hf Hq. split; [by apply stretch_refl|]. by intros ? [= <-]. Qed.
Lemma wt_throw {A : Type} w e (Q : A -> Writing -> Prop) : J w -> wt w (throw e) Q.
Proof. intros Hf. split; [by apply stretch_refl|done]. Qed.
Lemma wt_lift {A : Type} w (r : Result FerroError A) : J w -> wt w (lift r) (fun a _ => r = Ok a).
Proof. intros Hf. split; [by apply stretch_refl|]. by intros a ->. Qed.
Lemma wt_at {A : Type} w (o : option A) : J w -> wt w (at_index o) (fun a _ => o = Some a).
Proof. intros Hf. apply runs_at. intros a ->. split; [by apply stretch_refl|]. by intros ? [= <-]. Qed.
Lemma wt_mono {A : Type} w (m : W A) (Q R : A -> Writing -> Prop) :
  (forall a w', Q a w' -> R a w') -> wt w m Q -> wt w m R.
Proof. intros H. apply runs_mono. intros r w' [Hs Hq]. split; [done|]. eauto. Qed.

Lemma runs_on_store {A : Type} (m : Eff CowStore A) w Φ :
  runs m (w_store w) (fun r s' => Φ r (mkWriting s' (undo w) (retired w))) -> runs (on_store m) w Φ.
Proof. unfold runs, on_store. by destruct (m (w_store w)) as [[r s']|]. Qed.

Lemma wt_reads {A : Type} w (m : Eff CowStore A) : reads m -> J w -> wt w (on_store m) (fun _ _ => True).
Proof.
  intros Hm Hf. apply runs_on_store. eapply runs_mono; [|apply Hm]. intros r s' ->. split; [|done].
  destruct w. by apply stretch_refl.
Qed.

(** What the primitives promise. [wt] of a page in hand says that it may be
    written from then on. *)
Class WriteLogic (b : BranchId) (epoch : Epoch) : Prop := {
  wl_put w p c : J w -> can w p -> wt w (put_content p c) (fun _ _ => True);
  wl_shadow w p : J w -> wt w (shadow p b epoch) (fun cp w' => can w' (cp_page cp));
  wl_retire w p : J w -> wt w (retire p) (fun _ _ => True);
  wl_alloc_for w ty : J w -> wt w (on_store (alloc_for b ty epoch)) (fun p w' => can w' p);
  wl_alloc_in w a ty : J w -> wt w (on_store (alloc_in_arena a ty epoch)) (fun p w' => can w' p);
  wl_arena w : J w -> wt w (on_store (arena_for b)) (fun _ _ => True);
  wl_create w : J w -> wt w (on_store (CowTree.create b epoch)) (fun _ _ => True)
}.

Context (b : BranchId) (epoch : Epoch) `{!WriteLogic b epoch}.

Create HintDb cow_wt.
Hint Resolve wt_lift wt_at wl_put wl_shadow wl_retire wl_alloc_for wl_alloc_in wl_arena wl_create : cow_wt.

(** Carry what is can across a stretch. *)
Ltac carry Hw := repeat match goal with H : can _ _ |- _ => apply Hw in H end.
Ltac wt_leaf := first [apply wt_ret; [assumption|done] | apply wt_throw; assumption | solve [eauto with cow_wt cow_reads]
                      | apply wt_reads; [solve [eauto with cow_reads]|assumption]].
Ltac wt_intro :=
  let a := fresh "a" in let w' := fresh "w" in let Hf := fresh "Hf" in let Hw := fresh "Hw" in let HQ := fresh "HQ" in
  intros a w' [Hf Hw] HQ; carry Hw; clear Hw.
Ltac wt_go :=
  cbn beta iota zeta;
  repeat (first
    [ wt_leaf
    | eapply wt_bind; [wt_leaf|wt_intro]
    | case_goal
    | eapply (wt_bind _ _ _ (fun _ _ => True)); [solve [wt_go]|wt_intro] ];
    cbn beta iota zeta).

Lemma wt_leaf_of w p : J w -> wt w (leaf_of p) (fun _ _ => True).
Proof using WriteLogic0. intros Hf. unfold leaf_of. wt_go. Qed.
Lemma wt_internal_of w p : J w -> wt w (internal_of p) (fun _ _ => True).
Proof using WriteLogic0. intros Hf. unfold internal_of. wt_go. Qed.
Lemma wt_fill_leaf w p es : J w -> can w p -> wt w (fill_leaf p es) (fun _ _ => True).
Proof using WriteLogic0. intros Hf Hp. unfold fill_leaf. wt_go. Qed.
Lemma wt_fill_internal w p l es : J w -> can w p -> wt w (fill_internal p l es) (fun _ _ => True).
Proof using WriteLogic0. intros Hf Hp. unfold fill_internal. wt_go. Qed.
Hint Resolve wt_leaf_of wt_internal_of wt_fill_leaf wt_fill_internal : cow_wt.

Lemma wt_spill_leaves w es cuts : J w -> wt w (CowTree.spill_leaves es cuts b epoch) (fun _ _ => True).
Proof using WriteLogic0. revert w. induction cuts as [|c cuts IH]; intros w Hf; cbn [CowTree.spill_leaves]; wt_go. Qed.
Lemma wt_spill_internals w es cuts : J w -> wt w (CowTree.spill_internals es cuts b epoch) (fun _ _ => True).
Proof using WriteLogic0. revert w. induction cuts as [|c cuts IH]; intros w Hf; cbn [CowTree.spill_internals]; wt_go. Qed.
Hint Resolve wt_spill_leaves wt_spill_internals : cow_wt.

Lemma wt_write_leaf_chunked w p es : J w -> can w p ->
  wt w (CowTree.write_leaf_chunked p es b epoch) (fun _ _ => True).
Proof using WriteLogic0. intros Hf Hp. unfold CowTree.write_leaf_chunked. wt_go. Qed.
Hint Resolve wt_write_leaf_chunked : cow_wt.

Lemma wt_leaf_put w p k v : J w -> can w p -> wt w (CowTree.leaf_put p b epoch k v) (fun _ _ => True).
Proof using WriteLogic0. intros Hf Hp. unfold CowTree.leaf_put. wt_go. Qed.

Lemma wt_internal_relink w p slot child promoted : J w -> can w p ->
  wt w (CowTree.internal_relink p slot child promoted b epoch) (fun _ _ => True).
Proof using WriteLogic0. intros Hf Hp. unfold CowTree.internal_relink. wt_go. Qed.
Hint Resolve wt_leaf_put wt_internal_relink : cow_wt.

Lemma wt_relink_loop w root up old new promoted : J w ->
  wt w (CowTree.relink_loop root up old new promoted b epoch) (fun _ _ => True).
Proof using WriteLogic0.
  revert w old new promoted.
  induction up as [|[q slot] up IH]; intros w old new promoted Hf; cbn [CowTree.relink_loop]; wt_go.
Qed.
Lemma wt_relink_up w root path old new promoted : J w ->
  wt w (CowTree.relink_up root path old new promoted b epoch) (fun _ _ => True).
Proof using WriteLogic0. apply wt_relink_loop. Qed.
Hint Resolve wt_relink_loop wt_relink_up : cow_wt.

Lemma wt_unlink_up w root path doomed : J w ->
  wt w (CowTree.unlink_up root path doomed b epoch) (fun _ _ => True).
Proof using WriteLogic0.
  unfold CowTree.unlink_up. revert w doomed.
  induction (rev path) as [|[q slot] up IH]; intros w doomed Hf; cbn [CowTree.unlink_loop]; wt_go.
Qed.
Hint Resolve wt_unlink_up : cow_wt.

Lemma wt_merge_right w root k : J w -> wt w (CowTree.merge_right root k b epoch) (fun _ _ => True).
Proof using WriteLogic0. intros Hf. unfold CowTree.merge_right. wt_go. Qed.
Hint Resolve wt_merge_right : cow_wt.

Lemma wt_insert_within w root k v : J w -> wt w (CowTree.insert_within root b epoch k v) (fun _ _ => True).
Proof using WriteLogic0. intros Hf. unfold CowTree.insert_within. wt_go. Qed.
Lemma wt_delete_within w root k : J w -> wt w (CowTree.delete_within root b epoch k) (fun _ _ => True).
Proof using WriteLogic0. intros Hf. unfold CowTree.delete_within. wt_go. Qed.

End stretches.
