(* ===== verification/CowFrame.v ===== *)
(** What an operation of the copy-on-write tree may touch. A page that no
    allocation can hand out is written only when the journal holds its bytes,
    and the journal only ever holds pages private to the writing branch. Hence
    a failed write puts every page back, and no write changes what another
    branch reads. *)
From S2P Require Import Prelude Eff Bytes Errors Keys Chunker CowStore CowTree CowRead CowLogic.

#[local] Arguments lookup : simpl never.
#[local] Arguments insert : simpl never.

(** * What an allocation may hand out *)

Definition unissued (x : ArenaExtent) (p : PageId) : Prop :=
  (start_page x + next_free x <= p < start_page x + page_count x)%N.

Definition avail (s : CowStore) (p : PageId) : Prop :=
  (exists a st, extents s !! a = Some st /\ (p ∈ free_pages st \/ unissued (extent st) p))
  \/ (exists start count, (start, count) ∈ free_extents s /\ (start <= p < start + count)%N)
  \/ Ok p ∈ disk s.

(** What a branch's fork rules depend on. *)
Definition lineage (s : CowStore) (b : BranchId) : option (option BranchId * Epoch * list Epoch) :=
  (fun m => (parent m, fork_epoch m, live_children m)) <$> branches s !! b.

Definition arenas_known (s : CowStore) : Prop := forall a st, extents s !! a = Some st -> (a < next_arena s)%N.

(** The books after some allocations: nothing new became available, no branch
    changed its lineage, and arenas kept their owners. *)
Record books (s s' : CowStore) : Prop := mkBooks {
  books_avail p : avail s' p -> avail s p;
  books_lineage b : lineage s' b = lineage s b;
  books_arena : (next_arena s <= next_arena s')%N;
  books_owner a o : owner_of s a = Some o -> owner_of s' a = Some o;
  books_new a o : owner_of s' a = Some o -> owner_of s a = Some o \/ (next_arena s <= a)%N;
  books_known : arenas_known s';
  books_pending : pending s' = pending s
}.

Lemma books_refl s : arenas_known s -> books s s.
Proof. intros H. by split; auto. Qed.

Lemma books_trans s1 s2 s3 : books s1 s2 -> books s2 s3 -> books s1 s3.
Proof.
  intros [A1 L1 N1 O1 W1 K1 E1] [A2 L2 N2 O2 W2 K2 E2]. split; auto; [..|congruence].
  - intros b. by rewrite L2, L1.
  - lia.
  - intros a o [H|H]%W2; [auto|]. right. lia.
Qed.

(** Allocation also leaves every page alone that it could not hand out. *)
Definition evolves (s s' : CowStore) : Prop :=
  books s s' /\ forall p, pages s' !! p = pages s !! p \/ avail s p.

Lemma evolves_refl s : arenas_known s -> evolves s s.
Proof. intros H. split; [by apply books_refl|auto]. Qed.

Lemma evolves_trans s1 s2 s3 : evolves s1 s2 -> evolves s2 s3 -> evolves s1 s3.
Proof.
  intros [B1 P1] [B2 P2]. split; [by eapply books_trans|]. intros p.
  destruct (P2 p) as [->|H]; [auto|]. right. by apply (books_avail _ _ B1).
Qed.

(** Writing a page an earlier state could hand out. *)
Lemma evolves_write s s' p pg : evolves s s' -> avail s p -> evolves s (s' <| pages := <[p := pg]> (pages s') |>).
Proof.
  intros [B P] H. split.
  - destruct B as [A L N O W K E]. split; auto.
  - intros q. cbn. destruct (decide (q = p)) as [->|]; [auto|]. rewrite lookup_insert_ne by done. apply P.
Qed.

(** * Allocation *)

(** Changing one extent without widening it. *)
Lemma evolves_extent s a st st' :
  arenas_known s -> extents s !! a = Some st -> x_owner (extent st') = x_owner (extent st) ->
  (forall p, p ∈ free_pages st' \/ unissued (extent st') p -> p ∈ free_pages st \/ unissued (extent st) p) ->
  evolves s (s <| extents := <[a := st']> (extents s) |>).
Proof.
  intros Hk E Ho Hp. split; [|auto]. split; cbn; auto.
  - intros p [(a' & st2 & E' & H)|H]; [|by right]. left. cbn in E'. destruct (decide (a' = a)) as [->|Hne].
    + rewrite lookup_insert_eq in E'. injection E' as <-. eauto.
    + rewrite lookup_insert_ne in E' by done. eauto.
  - intros a' o. unfold owner_of. cbn. destruct (decide (a' = a)) as [->|Hne].
    + rewrite lookup_insert_eq, E. cbn. by rewrite Ho.
    + by rewrite lookup_insert_ne.
  - intros a' o. unfold owner_of. cbn. destruct (decide (a' = a)) as [->|Hne].
    + rewrite lookup_insert_eq, E. cbn. rewrite Ho. auto.
    + rewrite lookup_insert_ne by done. auto.
  - intros a' st2. cbn. destruct (decide (a' = a)) as [->|Hne]; [intros _; by eapply Hk|].
    rewrite lookup_insert_ne by done. apply Hk.
Qed.

Lemma vec_pop_Some {A : Type} (l : list A) x r : vec_pop l = Some (x, r) -> l = r ++ [x].
Proof.
  unfold vec_pop. destruct (last l) as [y|] eqn:E; cbn; [|done]. intros [= <- <-].
  apply last_Some in E as (l' & ->). rewrite length_app. cbn. rewrite Nat.add_sub. by rewrite take_app_length.
Qed.

Lemma take_page_runs s a : arenas_known s ->
  runs (take_page a) s (fun r s' => evolves s s' /\ pages s' = pages s /\ forall p, r = Ok p -> avail s p).
Proof.
  intros Hk. unfold take_page. run.
  destruct (extents s !! a) as [st|] eqn:E; cbn [ok_or]; [|split; [by apply evolves_refl|done]].
  destruct (vec_pop (free_pages st)) as [[p rest]|] eqn:Ep.
  - apply vec_pop_Some in Ep. unfold set_extent. run. split_and!; [|done|].
    + eapply evolves_extent; [done|done|done|]. cbn. intros q [H|H]; [|auto]. left. rewrite Ep. set_solver.
    + intros q [= <-]. left. exists a, st. split; [done|]. left. rewrite Ep. set_solver.
  - destruct (_ <=? _)%N eqn:El; [run; split; [by apply evolves_refl|done]|]. apply N.leb_gt in El.
    unfold set_extent. run. split_and!; [|done|].
    + eapply evolves_extent; [done|done|done|]. unfold unissued. cbn. intros q [H|H]; [auto|]. right. lia.
    + intros q [= <-]. left. exists a, st. split; [done|]. right. unfold unissued. lia.
Qed.

Lemma allocate_runs s : arenas_known s ->
  runs allocate s (fun r s' => evolves s s' /\ forall p, r = Ok p -> avail s p).
Proof.
  intros Hk. unfold allocate. run. destruct (disk s) as [|r rest] eqn:E.
  { run. split; [by apply evolves_refl|done]. }
  run. split.
  - split; [|auto]. split; cbn; auto. intros p [H|[H|H]]; [by left|by right; left|]. right. right. rewrite E. by right.
  - intros p ->. right. right. rewrite E. by left.
Qed.

Lemma reserve_loop_runs s count fuel : forall start have attempts s1,
  evolves s s1 -> (forall p, (start <= p < start + have)%N -> avail s p) ->
  runs (reserve_loop fuel count start have attempts) s1 (fun r s' =>
    evolves s s' /\ forall st, r = Ok st -> forall p, (st <= p < st + count)%N -> avail s p).
Proof.
  induction fuel as [|fuel IH]; intros start have attempts s1 He Hp; cbn [reserve_loop];
    destruct (have <? count)%N eqn:El.
  - run. done.
  - apply N.ltb_ge in El. run. split; [done|]. intros st [= <-] p H. apply Hp. lia.
  - run. eapply runs_mono; [|apply allocate_runs; by destruct He as [[] _]].
    intros [next|e] s2 [He2 Hn].
    + assert (evolves s s2) as He' by (by eapply evolves_trans).
      assert (avail s next) as Hav by (apply (books_avail s s1 (proj1 He)); auto).
      destruct (next =? start + have)%N eqn:En.
      * apply N.eqb_eq in En as ->. apply IH; [done|]. intros p H.
        destruct (decide (p = start + have)%N) as [->|]; [done|]. apply Hp. lia.
      * destruct (4 <? attempts + 1)%N; [run; done|]. apply IH; [done|]. intros p H.
        by replace p with next by lia.
    + split; [by eapply evolves_trans|done].
  - apply N.ltb_ge in El. run. split; [done|]. intros st [= <-] p H. apply Hp. lia.
Qed.

Lemma reserve_extent_runs s count : arenas_known s ->
  runs (reserve_extent count) s (fun r s' =>
    evolves s s' /\ forall st, r = Ok st -> forall p, (st <= p < st + count)%N -> avail s p).
Proof.
  intros Hk. unfold reserve_extent. run. eapply runs_mono; [|by apply allocate_runs].
  intros [start|e] s1 [He Hp]; [|done]. apply reserve_loop_runs; [done|]. intros p H.
  replace p with start by lia. auto.
Qed.

(** Putting pages that were all available into a new extent. *)
Lemma books_new_extent s s1 b start count :
  books s s1 -> (forall p, (start <= p < start + count)%N -> avail s p) ->
  books s (s1 <| next_arena := (next_arena s1 + 1)%N |>
              <| extents := <[next_arena s1 := mkExtentState (mkExtent b start count 0) []]> (extents s1) |>).
Proof.
  intros [A L N O W K Ep] Hp.
  assert (extents s1 !! next_arena s1 = None) as Hf.
  { destruct (extents s1 !! next_arena s1) as [st|] eqn:E; [|done]. apply K in E. lia. }
  split; cbn; auto.
  - intros p [(a & st & E & H)|H]; [|apply A; by right]. cbn in E. destruct (decide (a = next_arena s1)) as [->|Hne].
    + rewrite lookup_insert_eq in E. injection E as <-. destruct H as [H|H]; [by apply not_elem_of_nil in H|].
      apply Hp. unfold unissued in H. cbn in H. lia.
    + rewrite lookup_insert_ne in E by done. apply A. left. eauto.
  - lia.
  - intros a o Ho. specialize (O a o Ho). unfold owner_of in *. cbn. rewrite lookup_insert_ne; [done|].
    intros <-. by rewrite Hf in O.
  - intros a o. unfold owner_of at 1. cbn. destruct (decide (a = next_arena s1)) as [->|Hne].
    + intros _. by right.
    + rewrite lookup_insert_ne by done. apply W.
  - intros a st. cbn. destruct (decide (a = next_arena s1)) as [->|Hne]; [intros _; lia|].
    rewrite lookup_insert_ne by done. intros ?%K. lia.
Qed.

Lemma evolves_meta s s1 b m m' :
  evolves s s1 -> branches s1 !! b = Some m ->
  (parent m', fork_epoch m', live_children m') = (parent m, fork_epoch m, live_children m) ->
  evolves s (s1 <| branches := <[b := m']> (branches s1) |>).
Proof.
  intros [[A L N O W K Ep] P] E Hm. split; [|done]. split; auto. intros b'. rewrite <- (L b'). unfold lineage. cbn.
  destruct (decide (b' = b)) as [->|]; [|by rewrite lookup_insert_ne].
  rewrite lookup_insert_eq, E. cbn. by rewrite Hm.
Qed.

Lemma alloc_arena_runs s b : arenas_known s ->
  runs (alloc_arena b) s (fun r s' => evolves s s').
Proof.
  intros Hk. unfold alloc_arena, meta. run. destruct (branches s !! b); cbn [ok_or]; [|by apply evolves_refl].
  run. eapply (runs_mono _ _ (fun r s' => evolves s s' /\
    forall e, r = Ok e -> forall p, (e.1 <= p < e.1 + e.2)%N -> avail s p)).
  - intros [[start count]|e] s1 [He Hp]; [|done]. unfold set_extent. run. cbn [branches].
    assert (evolves s (s1 <| next_arena := (next_arena s1 + 1)%N |>
      <| extents := <[next_arena s1 := mkExtentState (mkExtent b start count 0) []]> (extents s1) |>)) as He'.
    { split; [|apply He]. apply books_new_extent; [apply He|]. by apply (Hp (start, count)). }
    match goal with |- context [ok_or ?x _] => destruct x as [m|] eqn:Eb end; cbn [ok_or]; [|done].
    run. by eapply evolves_meta.
  - destruct (vec_pop (free_extents s)) as [[e rest]|] eqn:Ee.
    + apply vec_pop_Some in Ee. run. split.
      * split; [|auto]. split; cbn; auto. intros p [H|[(st & c & H & Hp)|H]]; [by left| |by right; right].
        right. left. exists st, c. split; [|done]. rewrite Ee. cbn in H. set_solver.
      * intros e' [= <-] p H. right. left. exists e.1, e.2. split; [|done]. rewrite Ee, <- surjective_pairing. set_solver.
    + run_step. eapply runs_mono; [|by apply reserve_extent_runs]. intros [st|e] s1 [He Hp]; [|done].
      run. split; [done|]. intros e [= <-]. by apply Hp.
Qed.

Lemma arena_for_runs s b : arenas_known s -> runs (arena_for b) s (fun r s' => evolves s s').
Proof.
  intros Hk. unfold arena_for, meta. run. destruct (branches s !! b) as [m|]; cbn [ok_or]; [|by apply evolves_refl].
  run. destruct (current_arena m) as [a|]; [|by apply alloc_arena_runs].
  destruct (has_capacity s a); [by apply evolves_refl|by apply alloc_arena_runs].
Qed.

Lemma evolves_known s s' : evolves s s' -> arenas_known s'.
Proof. by intros [[] _]. Qed.

Lemma alloc_in_arena_runs s s1 a ty birth : evolves s s1 ->
  runs (alloc_in_arena a ty birth) s1 (fun r s' => evolves s s' /\ forall p, r = Ok p -> avail s p).
Proof.
  intros He. unfold alloc_in_arena. run_step. eapply runs_mono; [|apply take_page_runs; by eapply evolves_known].
  intros [p|e] s2 (He2 & _ & Hp); cbn; [|split; [by eapply evolves_trans|done]]. unfold write_page. run.
  assert (avail s p) as Hav by (apply (books_avail _ _ (proj1 He)); auto).
  split; [|by intros q [= <-]]. apply evolves_write; [by eapply evolves_trans|done].
Qed.

Lemma alloc_for_runs s b ty epoch : arenas_known s ->
  runs (alloc_for b ty epoch) s (fun r s' => evolves s s' /\ forall p, r = Ok p -> avail s p).
Proof.
  intros Hk. unfold alloc_for. run_step. eapply runs_mono; [|by apply arena_for_runs].
  intros [a|e] s1 He; [|done]. by apply alloc_in_arena_runs.
Qed.

Lemma create_runs s b epoch : arenas_known s -> runs (CowTree.create b epoch) s (fun r s' => evolves s s').
Proof.
  intros Hk. unfold CowTree.create. run_step. eapply runs_mono; [|by apply arena_for_runs].
  intros [a|e] s1 He; [|done]. cbn. run_step. eapply runs_mono; [|by apply alloc_in_arena_runs].
  intros [p|e] s2 [He2 Hp]; [|done]. unfold read_page. run. destruct (pages s2 !! p); cbn [ok_or]; [|done].
  unfold write_page. run. apply evolves_write; auto.
Qed.

(** A page is private to a branch by the rule [privacy] reads off the store. *)
Definition private (s : CowStore) (b : BranchId) (epoch : Epoch) (pg : Page) : Prop :=
  exists m, branches s !! b = Some m /\ privacy s pg b m epoch = true.

Lemma cow_page_runs s p b epoch : arenas_known s ->
  runs (cow_page p b epoch) s (fun r s' => evolves s s' /\ forall cp, r = Ok cp ->
    if copied cp then avail s (cp_page cp)
    else s' = s /\ exists pg, pages s !! cp_page cp = Some pg /\ private s b epoch pg).
Proof.
  intros Hk. unfold cow_page, read_page, meta. run. destruct (pages s !! p) as [pg|] eqn:Ep; cbn [ok_or];
    [|split; [by apply evolves_refl|done]].
  run. destruct (branches s !! b) as [m|] eqn:Eb; cbn [ok_or]; [|split; [by apply evolves_refl|done]].
  run. destruct (privacy s pg b m epoch) eqn:Epr.
  { run. split; [by apply evolves_refl|]. intros cp [= <-]. cbn. split; [done|]. exists pg. split; [done|]. by exists m. }
  run_step. eapply runs_mono; [|by apply arena_for_runs]. intros [a|e] s1 He; [|done]. cbn. run_step.
  eapply runs_mono; [|by apply alloc_in_arena_runs]. intros [new|e] s2 [He2 Hp]; cbn; [|done].
  unfold write_page. run. split; [apply evolves_write; auto|]. intros cp [= <-]. cbn. auto.
Qed.

(** * The frame of a write *)

Section frame.
Context (s0 : CowStore) (b : BranchId) (epoch : Epoch).

Record framed (w : Writing) : Prop := mkFramed {
  fr_books : books s0 (w_store w);
  fr_pages p : pages (w_store w) !! p = pages s0 !! p \/ avail s0 p \/ p ∈ (undo w).*1;
  fr_undo p pg : (p, pg) ∈ undo w ->
    avail s0 p \/ (pages s0 !! p = Some pg /\ (private s0 b epoch pg \/ (next_arena s0 <= arena_id pg)%N));
  fr_nodup : NoDup (undo w).*1
}.

Definition writable (w : Writing) (p : PageId) : Prop := p ∈ (undo w).*1 \/ avail s0 p.

Lemma framed_evolves w s' : framed w -> evolves (w_store w) s' -> stretch framed writable w (mkWriting s' (undo w) (retired w)).
Proof.
  intros [B P U N] [B' P']. split; [|done]. split; cbn; try done; [by eapply books_trans|].
  intros p. destruct (P' p) as [->|H]; [done|]. right. left. by apply (books_avail _ _ B).
Qed.

Lemma wt_evolves {A : Type} w (m : Eff CowStore A) (Q : A -> Prop) :
  framed w -> runs m (w_store w) (fun r s' => evolves (w_store w) s' /\ forall a, r = Ok a -> Q a) ->
  wt framed writable w (on_store m) (fun a _ => Q a).
Proof.
  intros Hf Hm. apply runs_on_store. eapply runs_mono; [|exact Hm]. intros r s' [He Hq].
  split; [by apply framed_evolves|done].
Qed.

Lemma framed_known w : framed w -> arenas_known (w_store w).
Proof. by intros [[] _ _ _]. Qed.
Lemma framed_avail w p : framed w -> avail (w_store w) p -> avail s0 p.
Proof. intros [[] _ _ _]. auto. Qed.

Lemma wt_put w p c : framed w -> writable w p -> wt framed writable w (put_content p c) (fun _ _ => True).
Proof.
  intros Hf Hp. unfold put_content. eapply wt_bind; [by apply wt_reads|]. intros s w' [Hf' Hw] _.
  eapply wt_bind; [by apply wt_at|]. intros pg w2 [Hf2 Hw2] _. apply runs_on_store. unfold write_page. run.
  split; [|done]. split; [|done]. destruct Hf2 as [B P U N]. split; cbn; try done.
  - destruct B as [A L Nx O Wn K Ep]. split; auto.
  - intros q. destruct (decide (q = p)) as [->|]; [|rewrite lookup_insert_ne by done; apply P].
    right. apply or_comm. by apply Hw2, Hw.
Qed.

(** The journal takes a page in its state of [s0], and only a private one. *)
Lemma wt_record w cp :
  framed w -> (if copied cp then avail s0 (cp_page cp)
               else exists pg, pages (w_store w) !! cp_page cp = Some pg /\ private (w_store w) b epoch pg) ->
  wt framed writable w (record_page cp) (fun _ w' => writable w' (cp_page cp)).
Proof.
  intros Hf Hcp. unfold record_page, wt, runs. destruct (copied cp) eqn:Ec; cbn.
  { split; [by apply stretch_refl|]. intros. by right. }
  case_bool_decide as Hin; [split; [by apply stretch_refl|]; intros; by left|].
  destruct Hcp as (pg & Epg & m & Em & Hpr). rewrite Epg.
  split; [|intros; left; cbn; rewrite fmap_app; set_solver].
  split; [|intros q [H|H]; [left|by right]; cbn; rewrite fmap_app; set_solver].
  destruct Hf as [B P U N]. split; cbn; try done.
  - intros q. destruct (P q) as [H|[H|H]]; auto. right. right. rewrite fmap_app. set_solver.
  - intros q pg' [H|[= -> ->]%list_elem_of_singleton]%elem_of_app; [auto|].
    destruct (P (cp_page cp)) as [E|[H|H]]; [|auto|done]. right. rewrite <- E. split; [done|].
    unfold privacy in Hpr. case_bool_decide as Ho; cbn in Hpr; [|done].
    destruct (books_new _ _ B _ _ Ho) as [Ho'|]; [left|auto].
    pose proof (books_lineage _ _ B b) as Hl. unfold lineage in Hl. rewrite Em in Hl. cbn in Hl.
    destruct (branches s0 !! b) as [m0|] eqn:Em0; cbn in Hl; [|done]. injection Hl as Hl1 Hl2 Hl3.
    exists m0. split; [done|]. unfold privacy. rewrite bool_decide_true by done. cbn. by rewrite <- Hl2, <- Hl3.
  - rewrite fmap_app. apply NoDup_app. split; [done|]. split; [|repeat constructor; by intros ?%not_elem_of_nil].
    by intros q Hq ->%list_elem_of_singleton.
Qed.

Lemma wt_retire w p : framed w -> wt framed writable w (retire p) (fun _ _ => True).
Proof. intros Hf. split; [|done]. split; [|done]. by destruct Hf; split. Qed.

Lemma wt_shadow w p : framed w -> wt framed writable w (shadow p b epoch) (fun cp w' => writable w' (cp_page cp)).
Proof.
  intros Hf. unfold shadow.
  eapply (wt_bind _ _ _ _ _ (fun cp w' => if copied cp then avail s0 (cp_page cp)
    else exists pg, pages (w_store w') !! cp_page cp = Some pg /\ private (w_store w') b epoch pg)).
  { apply runs_on_store. eapply runs_mono; [|apply cow_page_runs; by eapply framed_known].
    intros r s' [He Hcp]. split; [by apply framed_evolves|]. intros cp Hr. specialize (Hcp cp Hr).
    destruct (copied cp); [by eapply framed_avail|]. by destruct Hcp as [-> Hpg]. }
  intros cp w1 [Hf1 _] Hcp. eapply wt_bind; [by apply wt_record|]. intros _ w2 [Hf2 _] Hw2.
  eapply (wt_bind _ _ _ _ _ (fun _ _ => True)).
  - destruct (retire_previous cp); [by apply wt_retire|by apply wt_ret].
  - intros _ w3 [Hf3 Hw3] _. apply wt_ret; auto.
Qed.

Lemma wt_alloc_for w ty : framed w -> wt framed writable w (on_store (alloc_for b ty epoch)) (fun p w' => writable w' p).
Proof.
  intros Hf. eapply wt_mono; [|apply (wt_evolves w _ (avail s0)); [done|]]; [by right|].
  eapply runs_mono; [|apply alloc_for_runs; by eapply framed_known]. intros r s' [He Hp]. split; [done|].
  intros p Hr. eapply framed_avail; eauto.
Qed.

Lemma wt_alloc_in w a ty : framed w -> wt framed writable w (on_store (alloc_in_arena a ty epoch)) (fun p w' => writable w' p).
Proof.
  intros Hf. eapply wt_mono; [|apply (wt_evolves w _ (avail s0)); [done|]]; [by right|].
  eapply runs_mono; [|apply alloc_in_arena_runs, evolves_refl; by eapply framed_known].
  intros r s' [He Hp]. split; [done|]. intros p Hr. eapply framed_avail; eauto.
Qed.

Lemma wt_arena w : framed w -> wt framed writable w (on_store (arena_for b)) (fun _ _ => True).
Proof.
  intros Hf. apply (wt_evolves w _ (fun _ => True)); [done|].
  eapply runs_mono; [|apply arena_for_runs; by eapply framed_known]. auto.
Qed.

Lemma wt_create w : framed w -> wt framed writable w (on_store (CowTree.create b epoch)) (fun _ _ => True).
Proof.
  intros Hf. apply (wt_evolves w _ (fun _ => True)); [done|].
  eapply runs_mono; [|apply create_runs; by eapply framed_known]. auto.
Qed.

#[export] Instance frame_logic : WriteLogic framed writable b epoch.
Proof. split; auto using wt_put, wt_shadow, wt_retire, wt_alloc_for, wt_alloc_in, wt_arena, wt_create. Qed.

End frame.
