(* ===== verification/CowIsolation.v ===== *)
(** Failure atomicity and branch isolation of the tree's writes: consequences of
    the frame of [CowFrame] once the operation has committed or rolled back. *)
From S2P Require Import Prelude Eff Bytes Errors Keys Chunker CowStore CowTree CowRead CowLogic CowFrame.

#[local] Arguments lookup : simpl never.
#[local] Arguments insert : simpl never.

(** The two writes of the tree. *)
Inductive Write : Type := Put (k v : list byte) | Del (k : key).

Definition run_write (op : Write) (root : PageId) (b : BranchId) (epoch : Epoch) : Eff CowStore PageId :=
  match op with
  | Put k v => CowTree.insert root b epoch k v
  | Del k => CowTree.delete root b epoch k
  end.

(** * Ending an operation *)

Lemma rollback_pages w p :
  NoDup (undo w).*1 ->
  (forall pg, (p, pg) ∈ undo w -> pages (CowTree.rollback w) !! p = Some pg)
  /\ (p ∉ (undo w).*1 -> pages (CowTree.rollback w) !! p = pages (w_store w) !! p).
Proof.
  unfold CowTree.rollback. generalize (w_store w). induction (undo w) as [|[q pq] u IH]; intros s Hn; cbn.
  { split; [by intros pg ?%not_elem_of_nil|done]. }
  apply NoDup_cons in Hn as [Hq Hn]. destruct (IH (s <| pages := <[q := pq]> (pages s) |>) Hn) as [H1 H2]. split.
  - intros pg [[= -> ->]|H]%elem_of_cons; [|auto]. rewrite H2 by done. cbn. apply lookup_insert_eq.
  - intros [Hne H]%not_elem_of_cons. rewrite H2 by done. cbn. by rewrite lookup_insert_ne.
Qed.

Lemma rollback_books s0 w : books s0 (w_store w) -> books s0 (CowTree.rollback w).
Proof.
  unfold CowTree.rollback. generalize (w_store w). induction (undo w) as [|[q pq] u IH]; intros s Hb; cbn; [done|].
  apply IH. destruct Hb as [A L N O W K E]. by split.
Qed.

Lemma free_page_pages p epoch s : runs (free_page p epoch) s (fun _ s' => pages s' = pages s).
Proof.
  unfold free_page, read_page. run. destruct (pages s !! p) as [pg|]; cbn [ok_or]; [|done]. run.
  destruct (owner_of s (arena_id pg)) as [o|]; cbn [ok_or]; [|done]. destruct (reclaimable _ _ _); [|by run].
  unfold release_page. run. destruct (extents s !! arena_id pg) as [st|]; cbn [ok_or]; [|done].
  destruct (negb _); [done|]. case_bool_decide; [done|]. unfold set_extent. by run.
Qed.

Lemma free_all_pages ps epoch s s' : CowTree.free_all ps epoch s = Some s' -> pages s' = pages s.
Proof.
  unfold CowTree.free_all. revert s. induction ps as [|p ps IH]; intros s; cbn; [by intros [= ->]|].
  pose proof (free_page_pages p epoch s) as Hp. unfold runs in Hp. destruct (free_page p epoch s) as [[r s1]|]; cbn.
  - intros H%IH. congruence.
  - intros H. exfalso. clear IH Hp. induction ps; cbn in H; [done|auto].
Qed.

Lemma framed_start s b epoch : arenas_known s -> framed s b epoch (mkWriting s [] []).
Proof.
  intros Hk. split; cbn; [by apply books_refl|auto|by intros ? ? ?%not_elem_of_nil|constructor].
Qed.

(** Every run of a write ends in a frame, rolled back or committed. *)
Lemma run_write_framed op root b epoch s r s' : arenas_known s -> run_write op root b epoch s = Some (r, s') ->
  exists w, framed s b epoch w /\
    match r with Ok _ => pages s' = pages (w_store w) | Err _ => s' = CowTree.rollback w end.
Proof.
  intros Hk Hrun.
  assert (exists m : W PageId, (run_write op root b epoch = CowTree.finish m epoch)
    /\ wt (framed s b epoch) (writable s) (mkWriting s [] []) m (fun _ _ => True)) as (m & Em & Hwt).
  { destruct op as [k v|k]; cbn.
    - exists (CowTree.insert_within root b epoch k v). split; [done|]. apply wt_insert_within; [apply _|by apply framed_start].
    - exists (CowTree.delete_within root b epoch k). split; [done|]. apply wt_delete_within; [apply _|by apply framed_start]. }
  rewrite Em in Hrun. unfold CowTree.finish in Hrun. unfold wt, runs in Hwt.
  destruct (m (mkWriting s [] [])) as [[[p|e] w]|]; cbn in Hrun; [| |done].
  - destruct (CowTree.free_all (retired w) epoch (w_store w)) as [s2|] eqn:Ef; cbn in Hrun; [|done].
    injection Hrun as <- <-. exists w. split; [apply Hwt|]. by eapply free_all_pages.
  - injection Hrun as <- <-. exists w. split; [apply Hwt|done].
Qed.

Lemma failed_write_pages op root b epoch s e s' p :
  arenas_known s -> run_write op root b epoch s = Some (Err e, s') -> ~ avail s p -> pages s' !! p = pages s !! p.
Proof.
  intros Hk Hrun Hp. destruct (run_write_framed _ _ _ _ _ _ _ Hk Hrun) as (w & [B P U N] & ->).
  destruct (rollback_pages w p N) as [H1 H2]. destruct (decide (p ∈ (undo w).*1)) as [Hin|Hin].
  - apply list_elem_of_fmap in Hin as ([q pg] & Eq & Hin). cbn in Eq. subst q. rewrite (H1 pg Hin).
    by destruct (U p pg Hin) as [?|[-> _]].
  - rewrite H2 by done. by destruct (P p) as [?|[?|?]].
Qed.

Lemma write_pages op root b epoch s r s' p pg :
  arenas_known s -> run_write op root b epoch s = Some (r, s') ->
  pages s !! p = Some pg -> ~ avail s p -> (arena_id pg < next_arena s)%N -> ~ private s b epoch pg ->
  pages s' !! p = Some pg.
Proof.
  intros Hk Hrun Hpg Hp Ha Hpr. destruct r as [root'|e].
  - destruct (run_write_framed _ _ _ _ _ _ _ Hk Hrun) as (w & [B P U N] & ->).
    destruct (P p) as [->|[H|H]]; [done|done|]. apply list_elem_of_fmap in H as ([q pq] & -> & Hin). cbn in *.
    destruct (U q pq Hin) as [?|[E [H|H]]]; [done|..]; exfalso; rewrite E in Hpg; injection Hpg as ->; [done|lia].
  - by erewrite failed_write_pages.
Qed.

(** * Lookups through a root *)

(** The pages a lookup can visit. *)
Fixpoint pages_of (s : CowStore) (n : nat) (p : PageId) : list PageId :=
  match n with
  | O => []
  | S n =>
      p :: match content <$> pages s !! p with
           | Some (InternalNode l es) => pages_of s n l ++ flat_map (pages_of s n) es.*2
           | _ => []
           end
  end.

Lemma look_frame s s' n r :
  wf_tree s n r -> (forall p, p ∈ pages_of s n r -> pages s' !! p = pages s !! p) ->
  wf_tree s' n r /\ forall k, look s' n r k = look s n r k.
Proof.
  intros H. revert r H. induction n as [|n IH]; intros r H Hp; [inversion H|]. cbn [pages_of] in Hp.
  pose proof (Hp r (ltac:(by left))) as Er.
  inversion H as [? ? pg es E Ec Hs Hr|? ? pg l es E Ec Hs Hr Hl Hes]; subst; rewrite E in Er, Hp; cbn in Hp; rewrite Ec in Hp.
  - split; [by eapply wf_leaf|]. intros k. cbn [look]. rewrite Er, E. cbn. by rewrite Ec.
  - assert (forall c, c = l \/ c ∈ es.*2 -> wf_tree s' n c /\ forall k, look s' n c k = look s n c k) as Hc.
    { intros c Hc. apply IH; [destruct Hc as [->|]; auto|]. intros q Hq. apply Hp. right. apply elem_of_app.
      destruct Hc as [->|Hc]; [by left|]. right. apply list_elem_of_In, in_flat_map. exists c.
      by rewrite <- !list_elem_of_In. }
    split; [eapply wf_node; try done; [by apply Hc; left|]; intros c Hin; apply Hc; by right|].
    intros k. cbn [look]. rewrite Er, E. cbn. rewrite Ec.
    apply (route_elem (fun c => look s' n c k = look s n c k)); [apply Hc; by left|]. intros c Hin. apply Hc. by right.
Qed.

Lemma pages_of_present s n r p : wf_tree s n r -> p ∈ pages_of s n r -> exists pg, pages s !! p = Some pg.
Proof.
  intros H. revert r H. induction n as [|n IH]; intros r H Hin; [by apply not_elem_of_nil in Hin|]. cbn [pages_of] in Hin.
  inversion H as [? ? pg es E Ec Hs Hr|? ? pg l es E Ec Hs Hr Hl Hes]; subst; rewrite E in Hin; cbn in Hin; rewrite Ec in Hin;
    apply elem_of_cons in Hin as [->|Hin]; eauto.
  - by apply not_elem_of_nil in Hin.
  - apply elem_of_app in Hin as [Hin|Hin]; [eauto|]. apply list_elem_of_In, in_flat_map in Hin as (c & Hc & Hin).
    rewrite <- list_elem_of_In in Hc, Hin. eauto.
Qed.

Lemma get_frame s s' r k :
  wf_tree s MAX_DESCENT r -> (forall p, p ∈ pages_of s MAX_DESCENT r -> pages s' !! p = pages s !! p) ->
  exists v, CowTree.get r k s = Some (Ok v, s) /\ CowTree.get r k s' = Some (Ok v, s').
Proof.
  intros Hw Hp. destruct (look_frame _ _ _ _ Hw Hp) as [Hw' Hl]. exists (look s MAX_DESCENT r k). split.
  - by apply get_loop_look.
  - rewrite <- Hl. by apply get_loop_look.
Qed.

(** C36: an insertion or deletion that fails, wherever it fails, leaves every page
    that was in use exactly as it was: all lookups through all roots answer as
    before, no page in use became available for allocation, and every branch
    keeps its lineage. *)
Theorem failed_write_restores (op : Write) (root : PageId) (b : BranchId) (epoch : Epoch) (s s' : CowStore) (e : FerroError) :
  arenas_known s -> run_write op root b epoch s = Some (Err e, s') ->
  (forall p, ~ avail s p -> pages s' !! p = pages s !! p /\ ~ avail s' p)
  /\ (forall c, lineage s' c = lineage s c)
  /\ (forall r k, wf_tree s MAX_DESCENT r -> (forall p, p ∈ pages_of s MAX_DESCENT r -> ~ avail s p) ->
       exists v, CowTree.get r k s = Some (Ok v, s) /\ CowTree.get r k s' = Some (Ok v, s')).
Proof.
  intros Hk Hrun. assert (books s s') as Hb.
  { destruct (run_write_framed _ _ _ _ _ _ _ Hk Hrun) as (w & [B _ _ _] & ->). by apply rollback_books. }
  split_and!.
  - intros p Hp. split; [by eapply failed_write_pages|]. intros H. by apply Hp, (books_avail _ _ Hb).
  - apply (books_lineage _ _ Hb).
  - intros r k Hr Hp. apply get_frame; [done|]. intros p Hin. eapply failed_write_pages; eauto.
Qed.

(** C37: a write made for one branch, whether it commits or fails, changes no answer
    of a tree none of whose pages is private to that branch at that epoch, that
    is, of any tree read by another branch or by a child forked from it. *)
Theorem writes_stay_private (op : Write) (root : PageId) (b : BranchId) (epoch : Epoch) (s s' : CowStore)
    (res : Result FerroError PageId) (r : PageId) (k : key) :
  arenas_known s -> wf_tree s MAX_DESCENT r ->
  (forall p pg, p ∈ pages_of s MAX_DESCENT r -> pages s !! p = Some pg ->
     ~ avail s p /\ (arena_id pg < next_arena s)%N /\ ~ private s b epoch pg) ->
  run_write op root b epoch s = Some (res, s') ->
  exists v, CowTree.get r k s = Some (Ok v, s) /\ CowTree.get r k s' = Some (Ok v, s').
Proof.
  intros Hk Hr Hp Hrun. apply get_frame; [done|]. intros p Hin. destruct (pages_of_present _ _ _ _ Hr Hin) as [pg Hpg].
  destruct (Hp p pg Hin Hpg) as (? & ? & ?). rewrite Hpg. by eapply write_pages.
Qed.

(** * The hypotheses as tests *)

Definition availb (s : CowStore) (p : PageId) : bool :=
  existsb (fun e => bool_decide (p ∈ free_pages e.2)
    || (start_page (extent e.2) + next_free (extent e.2) <=? p)%N && (p <? start_page (extent e.2) + page_count (extent e.2))%N)
    (map_to_list (extents s))
  || existsb (fun e => (e.1 <=? p)%N && (p <? e.1 + e.2)%N) (free_extents s)
  || existsb (fun r => match r with Ok q => (q =? p)%N | Err _ => false end) (disk s).

Lemma availb_complete s p : avail s p -> availb s p = true.
Proof.
  unfold availb. rewrite !orb_true_iff, !existsb_exists.
  intros [(a & st & E & H)|[(start & count & Hin & H)|H]]; [left; left|left; right|right].
  - exists (a, st). rewrite <- list_elem_of_In, elem_of_map_to_list. split; [done|]. cbn.
    rewrite orb_true_iff, andb_true_iff, bool_decide_eq_true, N.leb_le, N.ltb_lt. unfold unissued in H. tauto.
  - exists (start, count). rewrite <- list_elem_of_In, andb_true_iff, N.leb_le, N.ltb_lt. done.
  - exists (Ok p). rewrite <- list_elem_of_In, N.eqb_eq. done.
Qed.

Definition arenas_knownb (s : CowStore) : bool := forallb (fun e => (e.1 <? next_arena s)%N) (map_to_list (extents s)).

Lemma arenas_knownb_sound s : arenas_knownb s = true -> arenas_known s.
Proof.
  unfold arenas_knownb. rewrite forallb_forall. intros H a st E. apply N.ltb_lt, (H (a, st)).
  by rewrite <- list_elem_of_In, elem_of_map_to_list.
Qed.

(** No page of the tree is available or private to the branch. *)
Definition out_of_reachb (s : CowStore) (b : BranchId) (epoch : Epoch) (r : PageId) : bool :=
  forallb (fun p =>
    match pages s !! p with
    | Some pg => negb (availb s p) && (arena_id pg <? next_arena s)%N
                 && match branches s !! b with Some m => negb (privacy s pg b m epoch) | None => true end
    | None => true
    end) (pages_of s MAX_DESCENT r).

Lemma out_of_reachb_sound s b epoch r : out_of_reachb s b epoch r = true ->
  forall p pg, p ∈ pages_of s MAX_DESCENT r -> pages s !! p = Some pg ->
  ~ avail s p /\ (arena_id pg < next_arena s)%N /\ ~ private s b epoch pg.
Proof.
  unfold out_of_reachb. rewrite forallb_forall. intros H p pg Hin Hpg. apply list_elem_of_In, H in Hin.
  rewrite Hpg in Hin. apply andb_true_iff in Hin as [[Ha Hn%N.ltb_lt]%andb_true_iff Hpr]. split_and!; [|done|].
  - intros Hav%availb_complete. by rewrite Hav in Ha.
  - intros (m & Em & Hm). by rewrite Em, Hm in Hpr.
Qed.
