(* ===== verification/CowBooks.v ===== *)
(** The books of the copy-on-write store: which pages exist, which arena each
    belongs to and which are handed out. No page is in two places, free lists
    hold issued pages of their own extent without repetition, branches own the
    arenas they list, and every registered fork is counted by its parent. *)
From S2P Require Import Prelude Eff Bytes Errors Keys Chunker CowStore CowTree CowRead CowLogic CowFrame.

#[local] Arguments lookup : simpl never.
#[local] Arguments insert : simpl never.
#[local] Arguments delete : simpl never.

(** * The footprint *)

Definition range (start count : N) : list PageId := map (fun i => (start + N.of_nat i)%N) (seq 0 (N.to_nat count)).

Lemma elem_of_range start count p : p ∈ range start count <-> (start <= p < start + count)%N.
Proof.
  unfold range. rewrite list_elem_of_fmap. split.
  - intros (i & -> & Hi%elem_of_seq). lia.
  - intros H. exists (N.to_nat (p - start)). rewrite elem_of_seq. lia.
Qed.

Lemma range_one start : range start 1 = [start].
Proof. unfold range. change (N.to_nat 1) with 1. cbn [seq map N.of_nat]. by rewrite N.add_0_r. Qed.

Lemma range_snoc start count : range start (count + 1) = range start count ++ [(start + count)%N].
Proof.
  unfold range. rewrite N2Nat.inj_add, Nat.add_1_r, seq_S, map_app. cbn. by rewrite N2Nat.id.
Qed.

Definition oks (l : list (Result FerroError PageId)) : list PageId :=
  flat_map (fun r => match r with Ok p => [p] | Err _ => [] end) l.

Definition extent_pages_of (m : gmap ArenaId ExtentState) : list PageId :=
  flat_map (fun e => range (start_page (extent e.2)) (page_count (extent e.2))) (map_to_list m).

Definition footprint (s : CowStore) : list PageId :=
  extent_pages_of (extents s) ++ flat_map (fun e => range e.1 e.2) (free_extents s) ++ oks (disk s).

(** Pages named once, in the width of a page id. *)
Definition tidy (l : list PageId) : Prop := NoDup l /\ Forall (fun p => (p < 4294967296)%N) l.

Lemma tidy_sub l l' : tidy l -> l' ⊆+ l -> tidy l'.
Proof.
  intros [Hn Hf] [k Hk]%submseteq_Permutation. rewrite Hk in Hn, Hf. split.
  - by apply NoDup_app in Hn as [? _].
  - by apply Forall_app in Hf as [? _].
Qed.

#[export] Instance tidy_perm : Proper ((≡ₚ) ==> iff) tidy.
Proof. intros l l' Hp. unfold tidy. by rewrite Hp. Qed.

Lemma extent_pages_insert m a st :
  m !! a = None -> extent_pages_of (<[a := st]> m) ≡ₚ range (start_page (extent st)) (page_count (extent st)) ++ extent_pages_of m.
Proof.
  intros H. unfold extent_pages_of. pose proof (map_to_list_insert m a st H) as Hp.
  by rewrite (Permutation_flat_map _ Hp).
Qed.

Lemma extent_pages_delete m a st :
  m !! a = Some st -> extent_pages_of m ≡ₚ range (start_page (extent st)) (page_count (extent st)) ++ extent_pages_of (delete a m).
Proof.
  intros H. rewrite <- (extent_pages_insert (delete a m) a st) by apply lookup_delete_eq.
  by rewrite insert_delete_id.
Qed.

(** Replacing an extent by one with the same bounds. *)
Lemma extent_pages_replace m a st st' :
  m !! a = Some st -> start_page (extent st') = start_page (extent st) -> page_count (extent st') = page_count (extent st) ->
  extent_pages_of (<[a := st']> m) ≡ₚ extent_pages_of m.
Proof.
  intros H Hs Hc. rewrite (extent_pages_delete m a st H), <- insert_delete_eq.
  rewrite extent_pages_insert by apply lookup_delete_eq. by rewrite Hs, Hc.
Qed.

Lemma extent_pages_elem m a st p :
  m !! a = Some st -> p ∈ range (start_page (extent st)) (page_count (extent st)) -> p ∈ extent_pages_of m.
Proof. intros H Hp. rewrite (extent_pages_delete m a st H). set_solver. Qed.

(** * The invariant *)

Record extent_ok (st : ExtentState) : Prop := mkExtentOk {
  xo_next : (next_free (extent st) <= page_count (extent st))%N;
  xo_nodup : NoDup (free_pages st);
  xo_range p : p ∈ free_pages st -> (start_page (extent st) <= p < start_page (extent st) + next_free (extent st))%N
}.

Definition times (f : Epoch) (l : list Epoch) : nat := length (filter (fun e => e = f) l).

(** The registered branches forked from [q] at epoch [f]. *)
Definition forked_at (q : BranchId) (f : Epoch) (m : BranchMeta) : Prop := parent m = Some q /\ fork_epoch m = f.
#[export] Instance forked_at_dec q f m : Decision (forked_at q f m).
Proof. unfold forked_at. apply _. Defined.

Definition forks (br : gmap BranchId BranchMeta) (q : BranchId) (f : Epoch) : nat :=
  length (filter (fun e => forked_at q f e.2) (map_to_list br)).

(** A page of an arena lies below the mark of the arena's extent. *)
Definition placed (s : CowStore) (a : ArenaId) (p : PageId) : Prop :=
  (a < next_arena s)%N /\ forall st, extents s !! a = Some st ->
    (start_page (extent st) <= p < start_page (extent st) + next_free (extent st))%N.

Record store_ok (s : CowStore) : Prop := mkStoreOk {
  so_known : arenas_known s;
  so_foot : tidy (footprint s);
  so_extent a st : extents s !! a = Some st -> extent_ok st;
  so_arenas b m a : branches s !! b = Some m -> a ∈ arenas m -> owner_of s a = Some b;
  so_current b m a : branches s !! b = Some m -> current_arena m = Some a -> owner_of s a = Some b;
  so_children b m : branches s !! b = Some m -> StronglySorted N.le (live_children m);
  so_forks q m f : branches s !! q = Some m -> forks (branches s) q f <= times f (live_children m);
  so_tags p pg : pages s !! p = Some pg -> placed s (arena_id pg) p;
  so_pending pf : pf ∈ pending s -> placed s (pf_arena pf) (pf_page pf)
}.

(** A page handed out: in its extent, below the mark, and not given back. *)
Definition issued (s : CowStore) (a : ArenaId) (p : PageId) : Prop :=
  exists st, extents s !! a = Some st /\ (start_page (extent st) <= p < start_page (extent st) + next_free (extent st))%N
             /\ p ∉ free_pages st.

Lemma footprint_extent_once s a a' st st' p :
  NoDup (footprint s) -> extents s !! a = Some st -> extents s !! a' = Some st' ->
  p ∈ range (start_page (extent st)) (page_count (extent st)) ->
  p ∈ range (start_page (extent st')) (page_count (extent st')) -> a = a'.
Proof.
  intros Hn E E' Hp Hp'. destruct (decide (a = a')) as [|Hne]; [done|]. exfalso.
  unfold footprint in Hn. rewrite (extent_pages_delete _ _ _ E), <- app_assoc in Hn.
  apply NoDup_app in Hn as (_ & Hn & _). apply (Hn p Hp). apply elem_of_app. left.
  eapply extent_pages_elem; [|exact Hp']. by rewrite lookup_delete_ne.
Qed.

(** Counting forks over changes of one branch. *)
Lemma forks_insert br c m q f :
  br !! c = None -> forks (<[c := m]> br) q f = (if decide (forked_at q f m) then 1 else 0) + forks br q f.
Proof.
  intros H. unfold forks. rewrite (map_to_list_insert br c m H), filter_cons. cbn. by case_decide.
Qed.

Lemma forks_delete br c m q f :
  br !! c = Some m -> forks br q f = (if decide (forked_at q f m) then 1 else 0) + forks (delete c br) q f.
Proof. intros H. rewrite <- (forks_insert (delete c br) c m) by apply lookup_delete_eq. by rewrite insert_delete_id. Qed.

Lemma forks_replace br c m m' q f :
  br !! c = Some m -> parent m' = parent m -> fork_epoch m' = fork_epoch m -> forks (<[c := m']> br) q f = forks br q f.
Proof.
  intros H Hp Hf. rewrite (forks_delete br c m) by done. rewrite <- insert_delete_eq, forks_insert by apply lookup_delete_eq.
  assert (forked_at q f m' <-> forked_at q f m) by (unfold forked_at; by rewrite Hp, Hf). repeat case_decide; tauto.
Qed.

Lemma forks_pos br c m q f : br !! c = Some m -> forked_at q f m -> 0 < forks br q f.
Proof. intros H Hm. rewrite (forks_delete br c m) by done. rewrite decide_True by done. lia. Qed.

Lemma times_pos f l : f ∈ l <-> 0 < times f l.
Proof.
  unfold times. split.
  - intros H. destruct (filter _ l) eqn:E; [|cbn; lia]. exfalso.
    assert (f ∈ filter (fun e => e = f) l) as Hin by (by apply list_elem_of_filter). rewrite E in Hin. by apply not_elem_of_nil in Hin.
  - intros H. destruct (filter _ l) as [|x l'] eqn:E; [cbn in H; lia|].
    assert (x ∈ filter (fun e => e = f) l) as Hin by (rewrite E; by left).
    by apply list_elem_of_filter in Hin as [-> ?].
Qed.

(** What is handed out is not available. *)
Lemma issued_not_avail s a p : store_ok s -> issued s a p -> ~ avail s p.
Proof.
  intros Hok (st & E & Hr & Hnf). pose proof (so_extent s Hok a st E) as [Hn _ _].
  assert (p ∈ range (start_page (extent st)) (page_count (extent st))) as Hp by (apply elem_of_range; lia).
  destruct (so_foot s Hok) as [Hfoot _].
  intros [(a' & st' & E' & Hav)|H].
  - pose proof (so_extent s Hok a' st' E') as [Hn' _ Hr'].
    assert (p ∈ range (start_page (extent st')) (page_count (extent st'))) as Hp'.
    { apply elem_of_range. destruct Hav as [Hav|Hav]; [apply Hr' in Hav; lia|]. unfold unissued in Hav. lia. }
    rewrite (footprint_extent_once s a a' st st' p Hfoot E E' Hp Hp') in E. rewrite E' in E. injection E as ->.
    destruct Hav as [Hav|Hav]; [done|]. unfold unissued in Hav. lia.
  - unfold footprint in Hfoot. apply NoDup_app in Hfoot as (_ & Hd & _). apply (Hd p); [by eapply extent_pages_elem|].
    apply elem_of_app. destruct H as [(start & count & Hin & H)|H]; [left|right]; apply list_elem_of_In, in_flat_map.
    + exists (start, count). rewrite <- !list_elem_of_In, elem_of_range. done.
    + exists (Ok p). rewrite <- list_elem_of_In. split; [done|by left].
Qed.

Lemma issued_width s a p : store_ok s -> issued s a p -> (p < 4294967296)%N.
Proof.
  intros Hok (st & E & Hr & _). destruct (so_foot s Hok) as [_ Hw]. rewrite Forall_forall in Hw. apply Hw.
  apply elem_of_app. left. eapply extent_pages_elem; [done|]. apply elem_of_range.
  pose proof (xo_next _ (so_extent s Hok a st E)). lia.
Qed.

(** * Growth *)

(** Extents keep their place and only issue more; new ones have new names. *)
Definition grows (s s' : CowStore) : Prop :=
  (next_arena s <= next_arena s')%N
  /\ forall a st', extents s' !! a = Some st' ->
       (exists st, extents s !! a = Some st /\ start_page (extent st') = start_page (extent st)
                  /\ (next_free (extent st) <= next_free (extent st'))%N)
       \/ (next_arena s <= a)%N.

Lemma grows_refl s : grows s s.
Proof. split; [lia|]. intros a st H. left. exists st. split_and!; [done|done|lia]. Qed.

Lemma grows_trans s1 s2 s3 : grows s1 s2 -> grows s2 s3 -> grows s1 s3.
Proof.
  intros [N1 G1] [N2 G2]. split; [lia|]. intros a st3 [(st2 & E2 & H2 & H2')|H]%G2; [|right; lia].
  destruct (G1 _ _ E2) as [(st1 & E1 & H1 & H1')|H]; [|by right]. left. exists st1. split_and!; [done|congruence|lia].
Qed.

Lemma placed_grows s s' a p : grows s s' -> placed s a p -> placed s' a p.
Proof.
  intros [N G] [Ha Hp]. split; [lia|]. intros st' [(st & E & H & H')|H]%G; [|lia]. specialize (Hp st E). lia.
Qed.

Definition keeps (s s' : CowStore) : Prop := store_ok s' /\ grows s s'.

Lemma keeps_refl s : store_ok s -> keeps s s.
Proof. intros H. split; [done|apply grows_refl]. Qed.
Lemma keeps_trans s1 s2 s3 : keeps s1 s2 -> keeps s2 s3 -> keeps s1 s3.
Proof. intros [_ G1] [H G2]. split; [done|by eapply grows_trans]. Qed.

(** Replacing an extent in place. *)
Lemma keeps_extent s a st st' :
  store_ok s -> extents s !! a = Some st -> x_owner (extent st') = x_owner (extent st) ->
  start_page (extent st') = start_page (extent st) -> page_count (extent st') = page_count (extent st) ->
  (next_free (extent st) <= next_free (extent st'))%N -> extent_ok st' ->
  keeps s (s <| extents := <[a := st']> (extents s) |>).
Proof.
  intros [K F X A C Ch Fo T P] E Ho Hs Hc Hn Hx.
  assert (forall c, owner_of (s <| extents := <[a := st']> (extents s) |>) c = owner_of s c) as Hown.
  { intros c. unfold owner_of. cbn. destruct (decide (c = a)) as [->|]; [|by rewrite lookup_insert_ne].
    rewrite lookup_insert_eq, E. cbn. by rewrite Ho. }
  assert (grows s (s <| extents := <[a := st']> (extents s) |>)) as Hg.
  { split; cbn; [lia|]. intros c stc Hst. left. destruct (decide (c = a)) as [->|Hne].
    - rewrite lookup_insert_eq in Hst. injection Hst as <-. eauto.
    - rewrite lookup_insert_ne in Hst by done. exists stc. split_and!; [done|done|lia]. }
  split; [|done]. split; cbn; try done.
  - intros c stc. cbn. destruct (decide (c = a)) as [->|Hne]; [intros _; by eapply K|].
    rewrite lookup_insert_ne by done. apply K.
  - unfold footprint. cbn. by rewrite extent_pages_replace.
  - intros c stc. destruct (decide (c = a)) as [->|Hne]; [rewrite lookup_insert_eq; by intros [= <-]|].
    rewrite lookup_insert_ne by done. apply X.
  - intros b m c. rewrite Hown. apply A.
  - intros b m c. rewrite Hown. apply C.
  - intros p pg Hp. eapply placed_grows; [done|by apply T].
  - intros pf Hpf. eapply placed_grows; [done|by apply P].
Qed.

(** Writing a page where its arena has it. *)
Lemma keeps_write s s1 p pg : keeps s s1 -> placed s1 (arena_id pg) p -> keeps s (s1 <| pages := <[p := pg]> (pages s1) |>).
Proof.
  intros [[K F X A C Ch Fo T P] G] Hp. split; [|done]. split; try done.
  intros q pq. cbn. destruct (decide (q = p)) as [->|]; [rewrite lookup_insert_eq; by intros [= <-]|].
  rewrite lookup_insert_ne by done. apply T.
Qed.

Lemma take_page_keeps s a : store_ok s ->
  runs (take_page a) s (fun r s' => keeps s s' /\ pages s' = pages s /\ forall p, r = Ok p -> placed s' a p).
Proof.
  intros Hok. unfold take_page. run.
  destruct (extents s !! a) as [st|] eqn:E; cbn [ok_or]; [|split; [by apply keeps_refl|done]].
  pose proof (so_extent s Hok a st E) as [Hx1 Hx2 Hx3]. pose proof (so_known s Hok a st E) as Hka.
  destruct (vec_pop (free_pages st)) as [[p rest]|] eqn:Ep.
  - apply vec_pop_Some in Ep. unfold set_extent. run. rewrite Ep in Hx2, Hx3. split_and!; [|done|].
    + eapply keeps_extent; try done. split; cbn; [done| |].
      * by apply NoDup_app in Hx2 as [? _].
      * intros q Hq. apply Hx3. set_solver.
    + intros q [= <-]. split; [done|]. cbn. intros st'. rewrite lookup_insert_eq. intros [= <-]. cbn. apply Hx3. set_solver.
  - destruct (_ <=? _)%N eqn:El; [run; split; [by apply keeps_refl|done]|]. apply N.leb_gt in El.
    unfold set_extent. run. split_and!; [|done|].
    + eapply keeps_extent; try done; [cbn; lia|]. split; cbn; [lia|done|]. intros q Hq%Hx3. lia.
    + intros q [= <-]. split; [done|]. cbn. intros st'. rewrite lookup_insert_eq. intros [= <-]. cbn. lia.
Qed.

Lemma alloc_in_arena_keeps s s1 a ty birth : keeps s s1 ->
  runs (alloc_in_arena a ty birth) s1 (fun r s' => keeps s s' /\ forall p, r = Ok p -> placed s' a p).
Proof.
  intros Hk. unfold alloc_in_arena. run_step. eapply runs_mono; [|apply take_page_keeps; apply Hk].
  intros [p|e] s2 (Hk2 & _ & Hp); cbn; [|split; [by eapply keeps_trans|done]]. unfold write_page. run.
  split; [|intros q [= <-]; by apply Hp]. apply keeps_write; [by eapply keeps_trans|by apply Hp].
Qed.

(** * Extents from the disk *)

(** The answers taken so far, and what is left of the disk. *)
Definition drawn (s s' : CowStore) (used : list PageId) : Prop :=
  exists d, s' = s <| disk := d |> /\ oks (disk s) = used ++ oks d.

Lemma allocate_drawn s s1 used : drawn s s1 used ->
  runs allocate s1 (fun r s' => match r with Ok p => drawn s s' (used ++ [p]) | Err _ => drawn s s' used end).
Proof.
  intros (d & -> & Hd). unfold allocate. run. cbn [disk set_disk set_field]. destruct d as [|r rest] eqn:E.
  { run. exists []. done. }
  run. destruct r as [p|e]; exists rest; (split; [done|]); rewrite Hd; cbn; by rewrite <- ?app_assoc.
Qed.

Lemma reserve_loop_drawn s count fuel : forall start have attempts s1 used,
  drawn s s1 used -> range start have ⊆+ used ->
  runs (reserve_loop fuel count start have attempts) s1 (fun r s' =>
    exists used, drawn s s' used /\ forall st, r = Ok st -> range st count ⊆+ used).
Proof.
  assert (forall start have, (count <= have)%N -> range start count ⊆+ range start have) as Hle.
  { intros start have H. unfold range. apply fmap_submseteq. replace (N.to_nat have) with (N.to_nat count + (N.to_nat have - N.to_nat count)) by lia.
    rewrite seq_app. apply submseteq_inserts_r. done. }
  induction fuel as [|fuel IH]; intros start have attempts s1 used Hd Hr; cbn [reserve_loop];
    destruct (have <? count)%N eqn:El.
  - run. by exists used.
  - apply N.ltb_ge in El. run. exists used. split; [done|]. intros st [= <-]. by etrans; [apply Hle|].
  - run_step. eapply runs_mono; [|by apply allocate_drawn]. intros [next|e] s2 Hd2.
    + destruct (next =? start + have)%N eqn:En.
      * apply N.eqb_eq in En as ->. eapply IH; [done|]. rewrite range_snoc. by apply submseteq_skips_r.
      * destruct (4 <? attempts + 1)%N; [run; by eexists|]. eapply IH; [done|].
        rewrite range_one. by apply submseteq_inserts_l.
    + by eexists.
  - apply N.ltb_ge in El. run. exists used. split; [done|]. intros st [= <-]. by etrans; [apply Hle|].
Qed.

Lemma reserve_extent_drawn s count :
  runs (reserve_extent count) s (fun r s' => exists used, drawn s s' used /\ forall st, r = Ok st -> range st count ⊆+ used).
Proof.
  unfold reserve_extent. run_step. eapply runs_mono; [|apply (allocate_drawn s s []); exists (disk s); by destruct s].
  intros [start|e] s1 Hd; [|by exists []]. eapply reserve_loop_drawn; [done|].
  by rewrite range_one.
Qed.

(** A store that differs in what is left to hand out. *)
Lemma keeps_less s s' :
  store_ok s -> pages s' = pages s -> extents s' = extents s -> branches s' = branches s -> pending s' = pending s ->
  next_arena s' = next_arena s -> footprint s' ⊆+ footprint s -> keeps s s'.
Proof.
  intros [K F X A C Ch Fo T P] Hp He Hb Hpe Hn Hf.
  assert (grows s s') as Hg.
  { split; [lia|]. intros a st E. left. rewrite He in E. exists st. split_and!; [done|done|lia]. }
  split; [|done]. split.
  - intros a st. rewrite He, Hn. apply K.
  - by eapply tidy_sub.
  - intros a st. rewrite He. apply X.
  - intros b m a. rewrite Hb. unfold owner_of. rewrite He. apply A.
  - intros b m a. rewrite Hb. unfold owner_of. rewrite He. apply C.
  - intros b m. rewrite Hb. apply Ch.
  - intros q m f. rewrite Hb. rewrite ?Hb. apply Fo.
  - intros p pg. rewrite Hp. intros ?%T. by eapply placed_grows.
  - intros pf. rewrite Hpe. intros ?%P. by eapply placed_grows.
Qed.

(** A new extent of pages the footprint has, recorded with its owner. *)
Lemma keeps_new_extent s b m start count :
  store_ok s -> branches s !! b = Some m -> tidy (range start count ++ footprint s) ->
  keeps s (s <| next_arena := (next_arena s + 1)%N |>
             <| extents := <[next_arena s := mkExtentState (mkExtent b start count 0) []]> (extents s) |>
             <| branches := <[b := m <| arenas := arenas m ++ [next_arena s] |> <| current_arena := Some (next_arena s) |>]> (branches s) |>).
Proof.
  intros [K F X A C Ch Fo T P] Eb Hfoot. set (s' := s <| next_arena := _ |> <| extents := _ |> <| branches := _ |>).
  assert (extents s !! next_arena s = None) as Hf.
  { destruct (extents s !! next_arena s) as [st|] eqn:E; [|done]. apply K in E. lia. }
  assert (grows s s') as Hg.
  { split; [cbn; lia|]. intros a st. unfold s'. cbn. destruct (decide (a = next_arena s)) as [->|Hne]; [right; lia|].
    rewrite lookup_insert_ne by done. intros E. left. exists st. split_and!; [done|done|lia]. }
  assert (forall c o, owner_of s c = Some o -> owner_of s' c = Some o) as Hown.
  { intros c o. unfold owner_of, s'. cbn. destruct (decide (c = next_arena s)) as [->|]; [by rewrite Hf|by rewrite lookup_insert_ne]. }
  assert (owner_of s' (next_arena s) = Some b) as Hnew by (unfold owner_of, s'; cbn; by rewrite lookup_insert_eq).
  split; [|done]. split.
  - intros a st. unfold s'. cbn. destruct (decide (a = next_arena s)) as [->|Hne]; [lia|].
    rewrite lookup_insert_ne by done. intros ?%K. lia.
  - unfold footprint, s'. cbn. rewrite extent_pages_insert by done. cbn. by rewrite <- app_assoc.
  - intros a st. unfold s'. cbn. destruct (decide (a = next_arena s)) as [->|Hne].
    + rewrite lookup_insert_eq. intros [= <-]. split; cbn; [lia|constructor|by intros ? ?%not_elem_of_nil].
    + rewrite lookup_insert_ne by done. apply X.
  - intros c mc a. unfold s' at 1. cbn. destruct (decide (c = b)) as [->|]; [rewrite lookup_insert_eq|rewrite lookup_insert_ne by done; eauto].
    intros [= <-]. cbn. intros [H| ->%list_elem_of_singleton]%elem_of_app; eauto.
  - intros c mc a. unfold s' at 1. cbn. destruct (decide (c = b)) as [->|]; [rewrite lookup_insert_eq|rewrite lookup_insert_ne by done; eauto].
    intros [= <-]. cbn. by intros [= <-].
  - intros c mc. unfold s'. cbn. destruct (decide (c = b)) as [->|]; [rewrite lookup_insert_eq|rewrite lookup_insert_ne by done; eauto].
    intros [= <-]. cbn. eauto.
  - intros q mq f. unfold s'. cbn. rewrite (forks_replace _ b m) by done.
    destruct (decide (q = b)) as [->|]; [rewrite lookup_insert_eq|rewrite lookup_insert_ne by done; eauto].
    intros [= <-]. cbn. eauto.
  - intros p pg H. eapply placed_grows; [done|by apply T].
  - intros pf H. eapply placed_grows; [done|by apply P].
Qed.

Lemma alloc_arena_keeps s b : store_ok s -> runs (alloc_arena b) s (fun r s' => keeps s s' /\ forall a, r = Ok a -> owner_of s' a = Some b).
Proof.
  intros Hok. unfold alloc_arena, meta. run. destruct (branches s !! b) as [m|] eqn:Eb; cbn [ok_or];
    [|split; [by apply keeps_refl|done]].
  run. eapply (runs_mono _ _ (fun r s' => keeps s s' /\ branches s' = branches s /\
    forall e, r = Ok e -> tidy (range e.1 e.2 ++ footprint s'))).
  - intros [[start count]|e] s1 (Hk & Hb & Hp); [|done]. unfold set_extent. run. cbn [branches].
    replace (branches (_ <| next_arena := _ |> <| extents := _ |>)) with (branches s) by (by rewrite <- Hb).
    rewrite Eb. cbn [ok_or]. run. split.
    + eapply keeps_trans; [done|]. rewrite <- Hb in Eb. apply (keeps_new_extent s1 b m start count); [apply Hk|done|]. by apply (Hp (start, count)).
    + intros a [= <-]. unfold owner_of. cbn. by rewrite lookup_insert_eq.
  - destruct (vec_pop (free_extents s)) as [[e rest]|] eqn:Ee.
    + apply vec_pop_Some in Ee. run.
      assert (range e.1 e.2 ++ footprint (s <| free_extents := rest |>) ≡ₚ footprint s) as Hperm.
      { unfold footprint. cbn. rewrite Ee, flat_map_app. cbn. rewrite app_nil_r. solve_Permutation. }
      split_and!; [|done|].
      * apply keeps_less; try done. rewrite <- Hperm. by apply submseteq_inserts_l.
      * intros e' [= <-]. rewrite Hperm. by apply so_foot.
    + run_step. eapply runs_mono; [|by apply reserve_extent_drawn]. intros r s1 (used & (d & -> & Hd) & Hr).
      assert (used ++ footprint (s <| disk := d |>) ≡ₚ footprint s) as Hperm.
      { unfold footprint. cbn. rewrite Hd. solve_Permutation. }
      assert (keeps s (s <| disk := d |>)) as Hk.
      { apply keeps_less; try done. rewrite <- Hperm. by apply submseteq_inserts_l. }
      destruct r as [st|e]; [|done]. run. split_and!; [done|done|]. intros e [= <-]. cbn.
      eapply tidy_sub; [apply (so_foot s Hok)|]. rewrite <- Hperm. apply submseteq_skips_r. by apply Hr.
Qed.

(** * The operations on pages *)

Lemma arena_for_keeps s b : store_ok s ->
  runs (arena_for b) s (fun r s' => keeps s s' /\ forall a, r = Ok a -> owner_of s' a = Some b).
Proof.
  intros Hok. unfold arena_for, meta. run. destruct (branches s !! b) as [m|] eqn:Eb; cbn [ok_or];
    [|split; [by apply keeps_refl|done]].
  run. destruct (current_arena m) as [a|] eqn:Ea; [|by apply alloc_arena_keeps].
  destruct (has_capacity s a); [|by apply alloc_arena_keeps]. run. split; [by apply keeps_refl|].
  intros a' [= <-]. by eapply so_current.
Qed.

Lemma alloc_for_keeps s b ty epoch : store_ok s -> runs (alloc_for b ty epoch) s (fun _ s' => keeps s s').
Proof.
  intros Hok. unfold alloc_for. run_step. eapply runs_mono; [|by apply arena_for_keeps].
  intros [a|e] s1 [Hk _]; [|done]. eapply runs_mono; [|by apply alloc_in_arena_keeps]. by intros r s2 [? _].
Qed.

Lemma create_keeps s b epoch : store_ok s -> runs (CowTree.create b epoch) s (fun _ s' => keeps s s').
Proof.
  intros Hok. unfold CowTree.create. run_step. eapply runs_mono; [|by apply arena_for_keeps].
  intros [a|e] s1 [Hk _]; [|done]. cbn. run_step. eapply runs_mono; [|by apply alloc_in_arena_keeps].
  intros [p|e] s2 [Hk2 Hp]; [|done]. unfold read_page. run. destruct (pages s2 !! p) as [pg|] eqn:Ep; cbn [ok_or]; [|done].
  unfold write_page. run. apply keeps_write; [done|]. cbn. eapply so_tags; [apply Hk2|done].
Qed.

Lemma cow_page_keeps s p b epoch : store_ok s -> runs (cow_page p b epoch) s (fun _ s' => keeps s s').
Proof.
  intros Hok. unfold cow_page, read_page, meta. run. destruct (pages s !! p) as [pg|]; cbn [ok_or]; [|by apply keeps_refl].
  run. destruct (branches s !! b) as [m|]; cbn [ok_or]; [|by apply keeps_refl].
  run. destruct (privacy s pg b m epoch); [by apply keeps_refl|].
  run_step. eapply runs_mono; [|by apply arena_for_keeps]. intros [a|e] s1 [Hk _]; [|done]. cbn. run_step.
  eapply runs_mono; [|by apply alloc_in_arena_keeps]. intros [new|e] s2 [Hk2 Hp]; cbn; [|done].
  unfold write_page. run. apply keeps_write; [done|]. by apply Hp.
Qed.

Lemma release_page_keeps s a p : store_ok s -> placed s a p -> runs (release_page a p) s (fun _ s' => keeps s s').
Proof.
  intros Hok [_ Hp]. unfold release_page. run. destruct (extents s !! a) as [st|] eqn:E; cbn [ok_or]; [|by apply keeps_refl].
  destruct (negb _); [by apply keeps_refl|]. case_bool_decide as Hin; [by apply keeps_refl|]. unfold set_extent. run.
  pose proof (so_extent s Hok a st E) as [H1 H2 H3]. eapply keeps_extent; try done. split; cbn; [done| |].
  - apply NoDup_app. split; [done|]. split; [|repeat constructor; by intros ?%not_elem_of_nil].
    by intros q Hq ->%list_elem_of_singleton.
  - intros q [?| ->%list_elem_of_singleton]%elem_of_app; auto.
Qed.

(** Changing the log of pending frees. *)
Lemma keeps_pending s l : store_ok s -> (forall pf, pf ∈ l -> placed s (pf_arena pf) (pf_page pf)) ->
  keeps s (s <| pending := l |>).
Proof. intros [K F X A C Ch Fo T P] Hl. by split; [split|split; [cbn; lia|]; intros a st H; left; exists st; split_and!; [..|lia]]. Qed.

Lemma free_page_keeps s p epoch : store_ok s -> runs (free_page p epoch) s (fun _ s' => keeps s s').
Proof.
  intros Hok. unfold free_page, read_page. run. destruct (pages s !! p) as [pg|] eqn:Ep; cbn [ok_or]; [|by apply keeps_refl].
  run. destruct (owner_of s (arena_id pg)) as [o|]; cbn [ok_or]; [|by apply keeps_refl].
  pose proof (so_tags s Hok p pg Ep) as Hp. destruct (reclaimable _ _ _); [by apply release_page_keeps|].
  run. apply keeps_pending; [done|]. intros pf [H| ->%list_elem_of_singleton]%elem_of_app; [by apply so_pending|done].
Qed.

(** * Freeing arenas *)

(** A branch record that lists fewer arenas. *)
Definition thinner (a : ArenaId) (m m' : BranchMeta) : Prop :=
  parent m' = parent m /\ fork_epoch m' = fork_epoch m /\ live_children m' = live_children m
  /\ (forall c, c ∈ arenas m' -> c ∈ arenas m /\ c <> a)
  /\ (forall c, current_arena m' = Some c -> current_arena m = Some c /\ c <> a).

Lemma keeps_drop_extent s a st br' :
  store_ok s -> extents s !! a = Some st ->
  (forall b m', br' !! b = Some m' -> exists m, branches s !! b = Some m /\ thinner a m m') ->
  (forall q f, forks br' q f = forks (branches s) q f) ->
  keeps s (s <| extents := delete a (extents s) |>
             <| free_extents := free_extents s ++ [(start_page (extent st), page_count (extent st))] |>
             <| branches := br' |> <| pending := filter (fun pf => pf_arena pf <> a) (pending s) |>).
Proof.
  intros [K F X A C Ch Fo T P] E Hbr Hforks.
  set (s' := s <| extents := _ |> <| free_extents := _ |> <| branches := _ |> <| pending := _ |>).
  assert (grows s s') as Hg.
  { split; [cbn; lia|]. unfold s'. cbn. intros c stc. rewrite lookup_delete_Some. intros [_ Ec]. left. exists stc.
    split_and!; [done|done|lia]. }
  assert (forall c o, owner_of s c = Some o -> c <> a -> owner_of s' c = Some o) as Hown.
  { intros c o Ho Hne. unfold owner_of, s' in *. cbn. by rewrite lookup_delete_ne. }
  split; [|done]. split.
  - intros c stc. unfold s'. cbn. rewrite lookup_delete_Some. intros [_ ?]. by eapply K.
  - unfold footprint, s'. cbn. unfold footprint in F. rewrite (extent_pages_delete _ _ _ E) in F.
    rewrite flat_map_app. cbn. rewrite app_nil_r.
    eapply tidy_sub; [exact F|]. apply Permutation_submseteq. fold (oks (disk s)). solve_Permutation.
  - intros c stc. unfold s'. cbn. rewrite lookup_delete_Some. intros [_ ?]. by eapply X.
  - intros b m' c. unfold s' at 1. cbn. intros (m & Em & _ & _ & _ & Ha & _)%Hbr [Hc Hne]%Ha. eauto.
  - intros b m' c. unfold s' at 1. cbn. intros (m & Em & _ & _ & _ & _ & Ha)%Hbr [Hc Hne]%Ha. eauto.
  - intros b m'. unfold s'. cbn. intros (m & Em & _ & _ & -> & _)%Hbr. eauto.
  - intros q m' f. unfold s'. cbn. intros (m & Em & _ & _ & -> & _)%Hbr. rewrite Hforks. eauto.
  - intros p pg H. eapply placed_grows; [done|by apply T].
  - intros pf [_ H]%list_elem_of_filter. eapply placed_grows; [done|by apply P].
Qed.

(** What freeing arenas leaves alone. *)
Definition spared (gone : ArenaId -> Prop) (s s' : CowStore) : Prop :=
  (forall c, ~ gone c -> extents s' !! c = extents s !! c)
  /\ (forall b, lineage s' b = lineage s b) /\ pages s' = pages s
  /\ (forall pf, pf ∈ pending s' -> pf ∈ pending s).

Lemma spared_refl gone s : spared gone s s.
Proof. by split_and!. Qed.

Lemma free_arena_keeps s a : store_ok s ->
  runs (free_arena a) s (fun _ s' => keeps s s' /\ spared (fun c => c = a) s s').
Proof.
  intros Hok. unfold free_arena. run. destruct (extents s !! a) as [st|] eqn:E; [|split; [by apply keeps_refl|apply spared_refl]].
  assert (owner_of s a = Some (x_owner (extent st))) as Ho by (unfold owner_of; by rewrite E).
  assert (forall b m c, branches s !! b = Some m -> b <> x_owner (extent st) -> c ∈ arenas m \/ current_arena m = Some c -> c <> a) as Hoth.
  { intros b m c Em Hne Hc ->. assert (owner_of s a = Some b) as Hb by (destruct Hc; [by eapply so_arenas|by eapply so_current]).
    rewrite Ho in Hb. congruence. }
  assert (forall b m, branches s !! b = Some m -> b <> x_owner (extent st) -> thinner a m m) as Hthin.
  { intros b m Em Hne. split_and!; try done; intros c Hc; (split; [done|]); eapply Hoth; eauto. }
  run. destruct (branches s !! x_owner (extent st)) as [m|] eqn:Em.
  - set (m' := if bool_decide _ then _ else _).
    assert (thinner a m m') as Ht.
    { unfold m'. assert (forall c, c ∈ filter (fun a' => a' <> a) (arenas m) -> c ∈ arenas m /\ c <> a) as Hc
        by (intros c [? ?]%list_elem_of_filter; done).
      case_bool_decide as D; split_and!; try done; cbn in *; try done. intros c Hcur. split; [done|]. intros ->. done. }
    run. split.
    + apply (keeps_drop_extent s a st (<[x_owner (extent st) := m']> (branches s))); try done.
      * intros b mb. destruct (decide (b = x_owner (extent st))) as [->|Hne]; [rewrite lookup_insert_eq; intros [= <-]; eauto|].
        rewrite lookup_insert_ne by done. intros Emb. eauto.
      * intros q f. destruct Ht as (? & ? & _). by eapply forks_replace.
    + split_and!; cbn; [by intros c ?; rewrite lookup_delete_ne| |done|by intros pf [_ ?]%list_elem_of_filter].
      intros b. unfold lineage. cbn. destruct (decide (b = x_owner (extent st))) as [->|Hne]; [|by rewrite lookup_insert_ne].
      rewrite lookup_insert_eq, Em. destruct Ht as (H1 & H2 & H3 & _). clearbody m'. cbn. by rewrite H1, H2, H3.
  - run. split.
    + apply (keeps_drop_extent s a st (branches s)); try done. intros b mb Emb. exists mb. split; [done|].
      apply (Hthin b); [done|]. intros ->. congruence.
    + split_and!; cbn; [by intros c ?; rewrite lookup_delete_ne|done|done|by intros pf [_ ?]%list_elem_of_filter].
Qed.

Lemma free_arenas_keeps s l n : store_ok s ->
  runs (free_arenas l n) s (fun _ s' => keeps s s' /\ spared (fun c => c ∈ l) s s').
Proof.
  revert s n. induction l as [|a l IH]; intros s n Hok; cbn [free_arenas].
  { run. split; [by apply keeps_refl|apply spared_refl]. }
  run_step. eapply runs_mono; [|by apply free_arena_keeps].
  assert (forall s1 s2, spared (fun c => c = a) s s1 -> spared (fun c => c ∈ l) s1 s2 -> spared (fun c => c ∈ a :: l) s s2) as Hs.
  { intros s1 s2 (X1 & L1 & P1 & Q1) (X2 & L2 & P2 & Q2). split_and!; [|intros b; by rewrite L2|congruence|auto].
    intros c [Hc1 Hc2]%not_elem_of_cons. rewrite X2, X1; done. }
  intros [k|e] s1 [Hk1 H1].
  - cbn. eapply runs_mono; [|apply IH, Hk1]. intros r s2 [Hk2 H2]. split; [by eapply keeps_trans|by eapply Hs].
  - split; [done|]. eapply Hs; [done|apply spared_refl].
Qed.
