(* ===== verification/CowSnapshots.v ===== *)
(** What a fork may count on. While a branch and the branch it was forked from
    stay registered, no operation of the store or of a tree reissues or
    rewrites a page the fork can read, so the tree it was forked with answers
    every lookup as it did. *)
From S2P Require Import Prelude Eff Bytes Errors Keys Chunker CowStore CowTree CowRead CowLogic CowFrame CowIsolation CowBooks.

#[local] Arguments lookup : simpl never.
#[local] Arguments insert : simpl never.
#[local] Arguments delete : simpl never.
#[local] Arguments times : simpl never.
#[local] Arguments insert_sorted : simpl never.

(** * The fork rule *)

Lemma below_spec e l : StronglySorted N.le l ->
  (forall i x, i < below e l -> l !! i = Some x -> (x < e)%N) /\ (forall i x, below e l <= i -> l !! i = Some x -> (e <= x)%N)
  /\ below e l <= length l.
Proof.
  induction 1 as [|y l Hs IH Hy]; cbn; [split_and!; [lia|by intros i x _ ?|lia]|].
  destruct IH as (H1 & H2 & H3). destruct (y <? e)%N eqn:El.
  - apply N.ltb_lt in El. split_and!; [| |lia].
    + intros [|i] x Hi; [by intros [= <-]|]. apply H1. lia.
    + intros [|i] x Hi; [lia|]. apply H2. lia.
  - apply N.ltb_ge in El. split_and!; [lia| |lia]. intros [|i] x _; [by intros [= <-]|]. intros Hx.
    rewrite Forall_forall in Hy. etrans; [exact El|]. apply Hy. apply list_elem_of_lookup. by exists i.
Qed.

(** A live child forked between birth and free keeps a page. *)
Lemma reclaimable_child l birth freed f :
  StronglySorted N.le l -> f ∈ l -> (birth <= f)%N -> (f < freed)%N -> reclaimable l birth freed = false.
Proof.
  intros Hs (i & Hi)%list_elem_of_lookup Hb Hf. unfold reclaimable. destruct (_ <=? _)%N eqn:El; [apply N.leb_le in El; lia|].
  apply Nat.eqb_neq. intros E. destruct (below_spec birth l Hs) as (B1 & B2 & _), (below_spec freed l Hs) as (F1 & F2 & _).
  destruct (decide (i < below birth l)) as [Hlt|Hge].
  - specialize (B1 i f Hlt Hi). lia.
  - specialize (F2 i f ltac:(lia) Hi). lia.
Qed.

Section pins.
(** The branches that stay, and the last epoch at which one of them forked. *)
Context (K : BranchId -> Prop) (E : Epoch).

Record pin (s : CowStore) (p : PageId) (pg : Page) (c q : BranchId) (f : Epoch) : Prop := mkPin {
  pin_page : pages s !! p = Some pg;
  pin_issued : issued s (arena_id pg) p;
  pin_owner : owner_of s (arena_id pg) = Some q;
  pin_fork : exists kids, lineage s c = Some (Some q, f, kids);
  pin_parent : is_Some (lineage s q);
  pin_birth : (birth_epoch pg <= f)%N;
  pin_pending pf : pf ∈ pending s -> pf_page pf = p ->
    pf_owner pf = q /\ (pf_birth pf <= f)%N /\ (f < pf_free pf)%N
}.

Definition pinned (s : CowStore) (p : PageId) (pg : Page) : Prop :=
  exists c q f, K c /\ K q /\ (f <= E)%N /\ pin s p pg c q f.

Definition holds (s s' : CowStore) : Prop := keeps s s' /\ forall p pg, pinned s p pg -> pinned s' p pg.

Lemma holds_refl s : store_ok s -> holds s s.
Proof. intros H. split; [by apply keeps_refl|auto]. Qed.
Lemma holds_trans s1 s2 s3 : holds s1 s2 -> holds s2 s3 -> holds s1 s3.
Proof. intros [K1 H1] [K2 H2]. split; [by eapply keeps_trans|auto]. Qed.

(** The parent's record counts the fork, so the rule refuses the page. *)
Lemma pin_kept s p pg c q f birth freed :
  store_ok s -> pin s p pg c q f -> (birth <= f)%N -> (f < freed)%N ->
  reclaimable (live_children_of s q) birth freed = false.
Proof.
  intros Hok [_ _ _ [kids Hc] [lq Hq] _ _] Hb Hf. unfold lineage in Hc, Hq. unfold live_children_of.
  destruct (branches s !! c) as [mc|] eqn:Ec; [|done]. destruct (branches s !! q) as [mq|] eqn:Eq; [|done].
  cbn in Hc. injection Hc as Hpar Hfork _. apply (reclaimable_child _ _ _ f); [by eapply so_children| |done|done].
  apply times_pos. eapply Nat.lt_le_trans; [|by eapply so_forks]. by apply (forks_pos _ c mc).
Qed.

(** What an operation must not touch for the pins to survive it. *)
Lemma pins_survive s s' :
  keeps s s' ->
  (forall p pg c q f, K c -> K q -> pin s p pg c q f -> (f <= E)%N ->
    pages s' !! p = Some pg /\ issued s' (arena_id pg) p /\ owner_of s' (arena_id pg) = Some q
    /\ (exists kids, lineage s' c = Some (Some q, f, kids)) /\ is_Some (lineage s' q)
    /\ (forall pf, pf ∈ pending s' -> pf_page pf = p ->
         pf ∈ pending s \/ (pf_owner pf = q /\ (pf_birth pf <= f)%N /\ (f < pf_free pf)%N))) ->
  holds s s'.
Proof.
  intros Hk H. split; [done|]. intros p pg (c & q & f & Hc & Hq & Hf & Hpin).
  destruct (H p pg c q f Hc Hq Hpin Hf) as (H1 & H2 & H3 & H4 & H5 & H6). exists c, q, f. split_and!; try done.
  destruct Hpin. split; try done. intros pf Hin Hp. destruct (H6 pf Hin Hp); auto.
Qed.

(** Allocation hands out only what was not issued. *)
Lemma issued_books s s' a p : store_ok s -> keeps s s' -> books s s' -> issued s a p -> issued s' a p.
Proof.
  intros Hok [_ [_ Hg]] Hb Hi. pose proof (issued_not_avail s a p Hok Hi) as Hna. destruct Hi as (st & Es & Hr & Hf).
  assert (owner_of s' a = Some (x_owner (extent st))) as Ho by (apply (books_owner _ _ Hb); unfold owner_of; by rewrite Es).
  unfold owner_of in Ho. destruct (extents s' !! a) as [st'|] eqn:Es'; [|done]. exists st'. split; [done|].
  destruct (Hg a st' Es') as [(st1 & Es1 & Hs & Hn)|Ha]; [|apply (so_known s Hok) in Es; lia].
  rewrite Es in Es1. injection Es1 as <-. split; [lia|]. intros Hin. apply Hna, (books_avail _ _ Hb). left. eauto.
Qed.

Lemma books_hold s s' : store_ok s -> keeps s s' -> books s s' ->
  (forall p pg, pinned s p pg -> pages s' !! p = Some pg) -> holds s s'.
Proof.
  intros Hok Hk Hb Hp. apply pins_survive; [done|]. intros p pg c q f Hc Hq [H1 H2 H3 H4 H5 H6 H7] Hf. split_and!.
  - apply Hp. exists c, q, f. by split_and!.
  - by eapply issued_books.
  - by apply (books_owner _ _ Hb).
  - by rewrite (books_lineage _ _ Hb).
  - by rewrite (books_lineage _ _ Hb).
  - intros pf Hin _. left. by rewrite <- (books_pending _ _ Hb).
Qed.

Lemma evolves_hold s s' : store_ok s -> keeps s s' -> evolves s s' -> holds s s'.
Proof.
  intros Hok Hk [Hb Hpg]. apply books_hold; [done..|]. intros p pg (c & q & f & _ & _ & _ & [H1 H2 _ _ _ _ _]).
  destruct (Hpg p) as [->|Hav]; [done|]. destruct (issued_not_avail s _ p Hok H2 Hav).
Qed.

Lemma runs_both {S A : Type} (m : Eff S A) s (Φ Ψ : _ -> _ -> Prop) :
  runs m s Φ -> runs m s Ψ -> runs m s (fun r s' => Φ r s' /\ Ψ r s').
Proof. unfold runs. destruct (m s) as [[r s']|]; auto. Qed.

(** * Releasing and freeing *)

(** Releasing a page changes the standing of no other. *)
Lemma release_page_local s a p :
  runs (release_page a p) s (fun _ s' => pages s' = pages s /\ branches s' = branches s
    /\ pending s' = pending s /\ (forall c, owner_of s' c = owner_of s c)
    /\ forall c q, q <> p -> issued s c q -> issued s' c q).
Proof.
  unfold release_page. run. destruct (extents s !! a) as [st|] eqn:Es; cbn [ok_or]; [|by split_and!].
  destruct (negb _); [by run; split_and!|]. case_bool_decide as Hin; [by run; split_and!|]. unfold set_extent. run.
  split_and!; try done.
  - intros c. unfold owner_of. cbn. destruct (decide (c = a)) as [->|]; [|by rewrite lookup_insert_ne].
    by rewrite lookup_insert_eq, Es.
  - intros c q Hne (st1 & E1 & Hr & Hf). unfold issued. cbn. destruct (decide (c = a)) as [->|].
    + rewrite Es in E1. injection E1 as <-. eexists. rewrite lookup_insert_eq. split; [done|]. cbn. set_solver.
    + exists st1. by rewrite lookup_insert_ne.
Qed.

(** Releasing a page that no pin is on. *)
Lemma release_page_holds s a p : store_ok s -> placed s a p -> (forall pg, ~ pinned s p pg) ->
  runs (release_page a p) s (fun _ s' => holds s s').
Proof.
  intros Hok Hp Hno. eapply runs_mono; [|exact (runs_both _ _ _ _ (release_page_keeps s a p Hok Hp) (release_page_local s a p))].
  intros r s' (Hk & Hpg & Hbr & Hpe & Ho & Hi). apply pins_survive; [done|].
  intros q pg c o f Hc Hq Hpin Hf. pose proof Hpin as [H1 H2 H3 H4 H5 H6 H7].
  assert (q <> p) as Hne by (intros ->; apply (Hno pg); exists c, o, f; by split_and!).
  unfold lineage in *. rewrite Hpg, Ho, Hbr. split_and!; auto. intros pf Hin _. left. by rewrite <- Hpe.
Qed.

(** Changing the log by entries no pin minds. *)
Lemma pending_holds s l : store_ok s -> (forall pf, pf ∈ l -> placed s (pf_arena pf) (pf_page pf)) ->
  (forall p pg c q f, K c -> K q -> pin s p pg c q f -> (f <= E)%N -> forall pf, pf ∈ l -> pf_page pf = p ->
    pf ∈ pending s \/ (pf_owner pf = q /\ (pf_birth pf <= f)%N /\ (f < pf_free pf)%N)) ->
  holds s (s <| pending := l |>).
Proof.
  intros Hok Hl Hp. apply pins_survive; [by apply keeps_pending|]. intros p pg c q f Hc Hq Hpin Hf.
  pose proof Hpin as [H1 H2 H3 H4 H5 H6 H7].
  split_and!; [exact H1|exact H2|exact H3|exact H4|exact H5|]. exact (Hp p pg c q f Hc Hq Hpin Hf).
Qed.

Lemma free_page_holds s p epoch : store_ok s -> (forall c, K c -> (E < epoch)%N) -> runs (free_page p epoch) s (fun _ s' => holds s s').
Proof.
  intros Hok He. unfold free_page, read_page. run. destruct (pages s !! p) as [pg|] eqn:Ep; cbn [ok_or]; [|by apply holds_refl].
  run. destruct (owner_of s (arena_id pg)) as [o|] eqn:Eo; cbn [ok_or]; [|by apply holds_refl].
  pose proof (so_tags s Hok p pg Ep) as Hp.
  assert (forall pg' c q f, K c -> K q -> (f <= E)%N -> pin s p pg' c q f -> pg' = pg /\ q = o) as Hsame.
  { intros pg' c q f _ _ _ [H1 _ H3 _ _ _ _]. rewrite Ep in H1. injection H1 as <-. rewrite Eo in H3. by injection H3 as <-. }
  destruct (reclaimable _ _ _) eqn:Er.
  - apply release_page_holds; [done|done|]. intros pg' (c & q & f & Hc & Hq & Hf & Hpin).
    destruct (Hsame _ _ _ _ Hc Hq Hf Hpin) as [-> ->].
    specialize (He c Hc). rewrite (pin_kept s p pg c o f) in Er; [done|done|done|by destruct Hpin|lia].
  - run. apply pending_holds; [done| |].
    + intros pf [H| ->%list_elem_of_singleton]%elem_of_app; [by apply so_pending|done].
    + intros q pg' c o' f Hc Hq Hpin Hf pf [H| ->%list_elem_of_singleton]%elem_of_app; [by left|]. cbn. intros ->. right.
      destruct (Hsame _ _ _ _ Hc Hq Hf Hpin) as [-> ->]. destruct Hpin. specialize (He c Hc). split_and!; [done|done|lia].
Qed.

Lemma free_all_holds ps epoch s s' : store_ok s -> (forall c, K c -> (E < epoch)%N) -> CowTree.free_all ps epoch s = Some s' -> holds s s'.
Proof.
  intros Hok He. unfold CowTree.free_all. revert s Hok. induction ps as [|p ps IH]; intros s Hok; cbn.
  { intros [= <-]. by apply holds_refl. }
  pose proof (free_page_holds s p epoch Hok He) as Hp. unfold runs in Hp. destruct (free_page p epoch s) as [[r s1]|]; cbn.
  - intros H%IH; [by eapply holds_trans|apply Hp].
  - intros H. exfalso. clear IH. induction ps; cbn in H; [done|auto].
Qed.

(** Freeing arenas of a branch that does not stay. *)
Lemma spared_holds gone s s' : keeps s s' -> spared gone s s' ->
  (forall a q, gone a -> owner_of s a = Some q -> ~ K q) -> holds s s'.
Proof.
  intros Hk (Hx & Hl & Hpg & Hpe) Hg. apply pins_survive; [done|].
  intros p pg c q f Hc Hq [H1 H2 H3 H4 H5 H6 H7] Hf.
  assert (extents s' !! arena_id pg = extents s !! arena_id pg) as Ex by (apply Hx; intros Hgone; by apply (Hg _ _ Hgone H3)).
  rewrite Hpg, !Hl. unfold issued, owner_of in *. rewrite Ex. split_and!; auto.
Qed.

Lemma free_arena_holds s a : store_ok s -> (forall q, owner_of s a = Some q -> ~ K q) ->
  runs (free_arena a) s (fun _ s' => holds s s').
Proof.
  intros Hok Ha. eapply runs_mono; [|by apply free_arena_keeps]. intros _ s' [Hk Hs].
  eapply spared_holds; [done|done|]. intros a' q -> Ho. by apply Ha.
Qed.

(** * Draining the log *)

Lemma swap_remove_elem {A : Type} i (l : list A) x : x ∈ swap_remove i l -> x ∈ l.
Proof.
  unfold swap_remove. destruct (last l) as [y|] eqn:El; [|done]. intros H%elem_of_take. destruct H as (j & Hj & _).
  apply list_lookup_insert_Some in Hj as [(-> & -> & _)|(_ & Hj)].
  - apply last_Some in El as (l' & ->). set_solver.
  - apply list_elem_of_lookup. eauto.
Qed.

Lemma drain_loop_holds fuel : forall i n s, store_ok s -> runs (drain_loop fuel i n) s (fun _ s' => holds s s').
Proof.
  induction fuel as [|fuel IH]; intros i n s Hok; cbn [drain_loop]; run;
    destruct (pending s !! i) as [pf|] eqn:Ei; run; try by apply holds_refl.
  assert (pf ∈ pending s) as Hin by (apply list_elem_of_lookup; eauto).
  destruct (reclaimable _ _ _) eqn:Er; cbn [negb]; [|by apply IH].
  assert (forall pg, ~ pinned s (pf_page pf) pg) as Hno.
  { intros pg (c & q & f & Hc & Hq & Hf & Hpin). destruct (pin_pending _ _ _ _ _ _ Hpin pf Hin eq_refl) as (Ho & Hb & Hfr).
    rewrite Ho, (pin_kept s _ _ _ _ _ _ _ Hok Hpin Hb Hfr) in Er. done. }
  run_step. eapply (runs_mono _ _ (fun _ s' => holds s s')).
  - intros [n'|e] s1 Hs1; [|done]. run_step. run_step. eapply runs_mono; [|apply IH].
    + intros r s2 Hs2. eapply holds_trans; [exact Hs1|]. eapply holds_trans; [|exact Hs2].
      destruct Hs1 as [[Hok1 _] _]. apply pending_holds; [done| |].
      * intros pf' H%swap_remove_elem. by apply so_pending.
      * intros. left. by eapply swap_remove_elem.
    + destruct Hs1 as [[Hok1 _] _]. apply (keeps_pending s1); [done|]. intros pf' H%swap_remove_elem. by apply so_pending.
  - destruct (extents s !! pf_arena pf) as [st|]; [|run; by apply holds_refl]. run_step.
    eapply runs_mono; [|apply release_page_holds; [done|by apply so_pending|done]]. intros [[]|e] s1 Hs1; [by run|done].
Qed.

(** * Branches *)

Lemma branches_hold s br' : store_ok s ->
  (forall b m', br' !! b = Some m' ->
    ((exists m, branches s !! b = Some m /\ arenas m' = arenas m /\ current_arena m' = current_arena m)
     \/ (arenas m' = [] /\ current_arena m' = None)) /\ StronglySorted N.le (live_children m')
    /\ forall f, forks br' b f <= times f (live_children m')) ->
  (forall b m, K b -> branches s !! b = Some m ->
    exists m', br' !! b = Some m' /\ parent m' = parent m /\ fork_epoch m' = fork_epoch m) ->
  holds s (s <| branches := br' |>).
Proof.
  intros Hok Hbr HK. pose proof Hok as [Kn F X A C Ch Fo T P]. apply pins_survive.
  - split; [|split; [cbn; lia|]; intros a st H; left; exists st; split_and!; [done|done|lia]]. split; try done; cbn.
    + intros b m' a H Ha. destruct (Hbr b m' H) as ([(m & Em & Har & _)|[Har _]] & _); rewrite Har in Ha;
        [by eapply A|by apply not_elem_of_nil in Ha].
    + intros b m' a H Ha. destruct (Hbr b m' H) as ([(m & Em & _ & Har)|[_ Har]] & _); rewrite Har in Ha; [by eapply C|done].
    + intros b m' H. apply (Hbr b m' H).
    + intros b m' f H. apply (Hbr b m' H).
  - intros p pg c q f Hc Hq [H1 H2 H3 [kids H4] [lq H5] H6 H7] Hf.
    unfold lineage in H4, H5. destruct (branches s !! c) as [mc|] eqn:Ec; [|done].
    destruct (branches s !! q) as [mq|] eqn:Eq; [|done]. cbn in H4. injection H4 as Hpar Hfork _.
    destruct (HK c mc Hc Ec) as (mc' & Ec' & P1 & P2). destruct (HK q mq Hq Eq) as (mq' & Eq' & _ & _).
    split_and!; [exact H1|exact H2|exact H3| | |auto].
    + exists (live_children mc'). unfold lineage. cbn. rewrite Ec'. cbn. by rewrite P1, P2, Hpar, Hfork.
    + unfold lineage. cbn. rewrite Eq'. by eexists.
Qed.

Lemma times_app f l l' : times f (l ++ l') = times f l + times f l'.
Proof. unfold times. by rewrite filter_app, length_app. Qed.

Lemma insert_sorted_perm e l : insert_sorted e l ≡ₚ e :: l.
Proof. unfold insert_sorted. rewrite <- Permutation_middle. by rewrite take_drop. Qed.

Lemma insert_sorted_sorted e l : StronglySorted N.le l -> StronglySorted N.le (insert_sorted e l).
Proof.
  intros Hs. destruct (below_spec e l Hs) as (H1 & H2 & _). unfold insert_sorted.
  rewrite <- (take_drop (below e l) l) in Hs. apply StronglySorted_app in Hs as (H & Ht & Hd).
  apply StronglySorted_app. split_and!; [|done|].
  - intros x y Hx [->|Hy]%elem_of_cons; [|by apply H]. apply elem_of_take in Hx as (i & Hi & Hlt).
    specialize (H1 i x Hlt Hi). lia.
  - constructor; [done|]. apply Forall_forall. intros y Hy. apply list_elem_of_lookup in Hy as (i & Hi).
    rewrite lookup_drop in Hi. apply (H2 (below e l + i)); [lia|done].
Qed.

Lemma sorted_delete l i : StronglySorted N.le l -> StronglySorted N.le (delete i l).
Proof.
  intros Hs. rewrite delete_take_drop. rewrite <- (take_drop i l) in Hs. apply StronglySorted_app in Hs as (H & Ht & Hd).
  rewrite <- (take_drop 1 (drop i l)), drop_drop, Nat.add_1_r in Hd. apply StronglySorted_app in Hd as (_ & _ & Hd).
  apply StronglySorted_app. split_and!; [|done|done]. intros x y Hx Hy. apply H; [done|].
  rewrite <- (take_drop 1 (drop i l)), drop_drop, Nat.add_1_r. set_solver.
Qed.

Lemma times_cons f x l : times f (x :: l) = (if decide (x = f) then 1 else 0) + times f l.
Proof. unfold times. rewrite filter_cons. by case_decide. Qed.

Lemma times_delete f l i x : l !! i = Some x -> times f l = (if decide (x = f) then 1 else 0) + times f (delete i l).
Proof.
  intros Ei. rewrite <- (take_drop_middle l i x Ei) at 1. rewrite delete_take_drop, !times_app, times_cons. lia.
Qed.

Lemma times_perm f l l' : l ≡ₚ l' -> times f l = times f l'.
Proof. unfold times. by intros ->. Qed.

Definition fresh_id (s : CowStore) (b : BranchId) : Prop := forall c m, branches s !! c = Some m -> parent m <> Some b.

Lemma forks_fresh s b f : fresh_id s b -> forks (branches s) b f = 0.
Proof.
  intros Hf. unfold forks. rewrite list_filter_none; [done|]. apply Forall_forall. intros [c m] Hin%elem_of_map_to_list [Hp _].
  by apply (Hf c m).
Qed.

(** The parents' records once a fork of theirs is counted. *)
Definition counts_fork (s : CowStore) (mb : BranchMeta) (br : gmap BranchId BranchMeta) : Prop :=
  forall c m', br !! c = Some m' -> exists m, branches s !! c = Some m
    /\ arenas m' = arenas m /\ current_arena m' = current_arena m /\ parent m' = parent m /\ fork_epoch m' = fork_epoch m
    /\ StronglySorted N.le (live_children m')
    /\ forall f, (if decide (forked_at c f mb) then 1 else 0) + times f (live_children m) <= times f (live_children m').

Lemma register_holds s b mb br : store_ok s -> branches s !! b = None -> fresh_id s b ->
  parent mb <> Some b -> arenas mb = [] -> current_arena mb = None -> live_children mb = [] ->
  br !! b = None -> (forall q f, forks br q f = forks (branches s) q f) -> counts_fork s mb br ->
  (forall c m, branches s !! c = Some m -> exists m', br !! c = Some m' /\ parent m' = parent m /\ fork_epoch m' = fork_epoch m) ->
  holds s (s <| branches := <[b := mb]> br |>).
Proof.
  intros Hok Eb Hfr Hp Ha Hcu Hl Ebr Hfk Hc Hback. apply branches_hold; [done| |].
  - intros c m'. destruct (decide (c = b)) as [->|Hne].
    + rewrite lookup_insert_eq. intros [= <-]. rewrite Hl. split_and!; [auto|constructor|].
      intros f. rewrite forks_insert, Hfk, forks_fresh by done. rewrite decide_False; [done|]. by intros [? _].
    + rewrite lookup_insert_ne by done. intros E0. destruct (Hc c m' E0) as (m & Em & H1 & H2 & _ & _ & H5 & H6).
      split_and!; [left; eauto|done|]. intros f. rewrite forks_insert, Hfk by done.
      pose proof (so_forks s Hok c m f Em). specialize (H6 f). lia.
  - intros c m _ Em. destruct (Hback c m Em) as (m' & Em' & H). exists m'. split; [|done].
    rewrite lookup_insert_ne; [done|]. congruence.
Qed.

Lemma register_branch_holds s b par fork : store_ok s -> fresh_id s b ->
  runs (register_branch b par fork) s (fun _ s' => holds s s').
Proof.
  intros Hok Hfr. unfold register_branch. run. destruct (branches s !! b) as [m|] eqn:Eb; [run; by apply holds_refl|].
  destruct par as [q|].
  - run_step. run_step. run_step. destruct (branches s !! q) as [mq|] eqn:Eq; cbn [ok_or]; [|by apply holds_refl].
    assert (q <> b) as Hqb by congruence. run. cbn [branches set_branches set_field].
    apply (register_holds s b _ (<[q := mq <| live_children := insert_sorted fork (live_children mq) |>]> (branches s)));
      try done; cbn; [congruence|by rewrite lookup_insert_ne|intros; by eapply forks_replace| |].
    + intros c m'. destruct (decide (c = q)) as [->|Hne].
      * rewrite lookup_insert_eq. intros [= <-]. exists mq. split_and!; try done; cbn.
        { apply insert_sorted_sorted. by eapply so_children. }
        intros f. rewrite (times_perm f _ _ (insert_sorted_perm fork (live_children mq))), times_cons.
        unfold forked_at. repeat case_decide; cbn in *; [lia|intuition congruence|lia|lia].
      * rewrite lookup_insert_ne by done. intros Em. exists m'. split_and!; try done; [by eapply so_children|].
        intros f. rewrite decide_False; [lia|]. intros [[= ?] _]. congruence.
    + intros c m Em. destruct (decide (c = q)) as [->|Hne]; [|rewrite lookup_insert_ne by done; eauto].
      rewrite lookup_insert_eq. eexists. split; [done|]. rewrite Eq in Em. by injection Em as <-.
  - run. apply (register_holds s b _ (branches s)); try done; [|eauto].
    intros c m' Em. exists m'. split_and!; try done. by eapply so_children.
Qed.

(** Removing a branch, and its fork from the parent that counts it. *)
Lemma remove_branch_holds s b mb : store_ok s -> ~ K b -> branches s !! b = Some mb ->
  holds s (s <| branches := delete b (branches s) |>).
Proof.
  intros Hok Hb Eb. apply branches_hold; [done| |].
  - intros c m'. rewrite lookup_delete_Some. intros [_ Em]. split_and!; [left; eauto|by eapply so_children|].
    intros f. pose proof (so_forks s Hok c m' f Em). rewrite (forks_delete _ b mb) in H by done. lia.
  - intros c m Hc Em. exists m. rewrite lookup_delete_ne; [done|]. by intros ->.
Qed.

Lemma remove_fork_holds s b mb p pm i : store_ok s -> ~ K b -> branches s !! b = Some mb -> parent mb = Some p ->
  delete b (branches s) !! p = Some pm -> live_children pm !! i = Some (fork_epoch mb) ->
  holds s (s <| branches := <[p := pm <| live_children := delete i (live_children pm) |>]> (delete b (branches s)) |>).
Proof.
  intros Hok Hb Eb Hp Epm Ei. apply lookup_delete_Some in Epm as [Hbp Epm]. apply branches_hold; [done| |].
  - intros c m'. destruct (decide (c = p)) as [->|Hne].
    + rewrite lookup_insert_eq. intros [= <-]. cbn. split_and!; [left; eauto|apply sorted_delete; by eapply so_children|].
      intros f. rewrite (forks_replace _ p pm) by (try done; by rewrite lookup_delete_ne).
      pose proof (so_forks s Hok p pm f Epm) as H. rewrite (forks_delete _ b mb), (times_delete f _ i _ Ei) in H by done.
      unfold forked_at in H. repeat case_decide; intuition lia.
    + rewrite lookup_insert_ne, lookup_delete_Some by done. intros [_ Em]. split_and!; [left; eauto|by eapply so_children|].
      intros f. rewrite (forks_replace _ p pm) by (try done; by rewrite lookup_delete_ne).
      pose proof (so_forks s Hok c m' f Em) as H. rewrite (forks_delete _ b mb) in H by done. lia.
  - intros c m Hc Em. destruct (decide (c = p)) as [->|Hne].
    + rewrite lookup_insert_eq. eexists. split; [done|]. rewrite Epm in Em. by injection Em as <-.
    + exists m. rewrite lookup_insert_ne, lookup_delete_ne; [done| |done]. by intros ->.
Qed.

Lemma forget_branch_holds s b : store_ok s -> ~ K b -> runs (forget_branch b) s (fun _ s' => holds s s').
Proof.
  intros Hok Hb. unfold forget_branch. destruct (is_trunk b); [run; by apply holds_refl|]. unfold meta. run.
  destruct (branches s !! b) as [m|] eqn:Eb; cbn [ok_or]; [|by apply holds_refl]. run_step.
  eapply runs_mono; [|by apply free_arenas_keeps]. intros r s1 [Hk1 Hsp].
  assert (holds s s1) as Hs1.
  { eapply spared_holds; [done|done|]. cbn. intros a q Ha Ho. rewrite (so_arenas s Hok b m a Eb Ha) in Ho. by injection Ho as <-. }
  destruct r as [n|e]; [|done]. cbn beta iota.
  assert (exists m1, branches s1 !! b = Some m1 /\ parent m1 = parent m /\ fork_epoch m1 = fork_epoch m) as (m1 & Em1 & Hpar & Hfork).
  { destruct Hsp as (_ & Hl & _). specialize (Hl b). unfold lineage in Hl. rewrite Eb in Hl.
    destruct (branches s1 !! b) as [m1|]; [|done]. cbn in Hl. injection Hl as H1 H2 _. eauto. }
  destruct Hk1 as [Hok1 _]. run.
  eapply (runs_mono _ _ (fun _ s2 => holds s1 s2)).
  - intros r s2 Hs2. assert (holds s s2) as Hh by (by eapply holds_trans). destruct r as [[]|e]; [|done].
    run_step. unfold drain_pending_free. run_step. run_step. cbn beta iota.
    eapply runs_mono; [|apply drain_loop_holds, Hh]. intros [k|e] s3 Hs3; [run|]; by eapply holds_trans.
  - assert (holds s1 (s1 <| branches := delete b (branches s1) |>)) as Hrm by (by eapply remove_branch_holds).
    rewrite <- Hpar, <- Hfork. destruct (parent m1) as [p|] eqn:Ep; [|by run].
    match goal with |- context [branches ?x !! p] => change (branches x) with (delete b (branches s1)) end.
    destruct (delete b (branches s1) !! p) as [pm|] eqn:Epm; [|by run].
    case_bool_decide as Ei; [|by run]. run. by apply (remove_fork_holds s1 b m1 p pm).
Qed.

(** * Writes of a tree *)

(** Sound books all along a write, journal included. *)
Definition sound (s0 : CowStore) (w : Writing) : Prop :=
  keeps s0 (w_store w) /\ forall p pg, (p, pg) ∈ undo w -> placed (w_store w) (arena_id pg) p.

Definition any (w : Writing) (p : PageId) : Prop := True.

Lemma sound_keeps s0 w s' : sound s0 w -> keeps (w_store w) s' -> stretch (sound s0) any w (mkWriting s' (undo w) (retired w)).
Proof using.
  intros [Hk Hu] Hk'. split; [|done]. split; cbn; [by eapply keeps_trans|].
  intros p pg Hin. eapply placed_grows; [apply Hk'|by apply Hu].
Qed.

Lemma wt_keeps {A : Type} s0 w (m : Eff CowStore A) :
  sound s0 w -> runs m (w_store w) (fun _ s' => keeps (w_store w) s') -> wt (sound s0) any w (on_store m) (fun _ _ => True).
Proof using.
  intros Hs Hm. apply runs_on_store. eapply runs_mono; [|exact Hm]. intros r s' Hk. split; [by apply sound_keeps|done].
Qed.

Lemma sound_ok s0 w : sound s0 w -> store_ok (w_store w).
Proof using. by intros [[? _] _]. Qed.

Lemma wt_record_sound s0 w cp : sound s0 w -> wt (sound s0) any w (record_page cp) (fun _ _ => True).
Proof using.
  intros Hs. unfold record_page, wt, runs. destruct (_ || _); [split; [by apply stretch_refl|done]|].
  destruct (pages (w_store w) !! cp_page cp) as [pg|] eqn:Ep; [|done]. split; [|done]. split; [|done].
  destruct Hs as [Hk Hu]. split; cbn; [done|]. intros p pg' [H|[= -> ->]%list_elem_of_singleton]%elem_of_app; [auto|].
  by eapply so_tags; [apply Hk|].
Qed.

Lemma wt_put_sound s0 w p c : sound s0 w -> wt (sound s0) any w (put_content p c) (fun _ _ => True).
Proof using.
  intros Hs. apply runs_bind, runs_on_store. run. apply runs_at. intros pg Ep.
  apply runs_on_store. unfold write_page. run. split; [|done]. refine (sound_keeps s0 w _ Hs _).
  pose proof (sound_ok _ _ Hs) as Hok. apply keeps_write; [by apply keeps_refl|]. exact (so_tags _ Hok p pg Ep).
Qed.

#[export] Instance sound_logic s0 b epoch : WriteLogic (sound s0) any b epoch.
Proof using.
  assert (forall w p, sound s0 w -> wt (sound s0) any w (retire p) (fun _ _ => True)) as Hret by (by intros w p Hs; split).
  split; [intros; by apply wt_put_sound|intros w p Hs|done|intros w ty Hs|intros w a ty Hs|intros w Hs|intros w Hs].
  - unfold shadow. eapply wt_bind; [apply wt_keeps; [done|]; by apply cow_page_keeps, sound_ok with s0|].
    intros cp w1 [Hs1 _] _. eapply wt_bind; [by apply wt_record_sound|]. intros _ w2 [Hs2 _] _.
    eapply (wt_bind _ _ _ _ _ (fun _ _ => True)); [destruct (retire_previous cp); [by apply Hret|by apply wt_ret]|].
    intros _ w3 [Hs3 _] _. by apply wt_ret.
  - eapply wt_mono; [|apply wt_keeps; [done|]; by apply alloc_for_keeps, sound_ok with s0]. done.
  - eapply wt_mono; [|apply wt_keeps; [done|]]; [done|].
    eapply runs_mono; [|apply alloc_in_arena_keeps, keeps_refl; by apply sound_ok with s0]. by intros r s' [? _].
  - apply wt_keeps; [done|]. eapply runs_mono; [|by apply arena_for_keeps, sound_ok with s0]. by intros r s' [? _].
  - apply wt_keeps; [done|]. by apply create_keeps, sound_ok with s0.
Qed.

Lemma rollback_keeps s0 w : sound s0 w -> keeps s0 (CowTree.rollback w).
Proof using.
  unfold CowTree.rollback. intros [Hk Hu]. revert Hk Hu. generalize (w_store w).
  induction (undo w) as [|[q pq] u IH]; intros s Hk Hu; cbn; [done|]. apply IH.
  - apply keeps_write; [done|]. apply Hu. by left.
  - intros p pg Hin. apply (Hu p pg). by right.
Qed.

Lemma pin_not_private s p pg c q f b epoch :
  store_ok s -> pin s p pg c q f -> (f < epoch)%N -> ~ private s b epoch pg.
Proof using.
  intros Hok Hpin He (m & Em & Hpr). pose proof Hpin as [_ _ Ho _ _ Hb _]. unfold privacy in Hpr.
  case_bool_decide as Hob; [|done]. cbn in Hpr. rewrite Ho in Hob. injection Hob as ->.
  pose proof (pin_kept s p pg c b f _ _ Hok Hpin Hb He) as Hr. unfold live_children_of in Hr. rewrite Em in Hr.
  rewrite Hr in Hpr. by destruct (_ <? _)%N.
Qed.

Lemma run_write_holds op root b epoch s r s' :
  store_ok s -> (forall c, K c -> (E < epoch)%N) -> run_write op root b epoch s = Some (r, s') -> holds s s'.
Proof using.
  intros Hok He Hrun. pose proof (so_known s Hok) as Hk.
  assert (forall p pg, pinned s p pg -> pages s' !! p = Some pg) as Hpages.
  { intros p pg (c & q & f & Hc & _ & Hf & Hpin). pose proof Hpin as [H1 H2 _ _ _ _ _]. eapply write_pages; try done.
    - by eapply issued_not_avail.
    - by apply (so_tags s Hok p pg).
    - specialize (He c Hc). eapply pin_not_private; [done|done|lia]. }
  assert (exists m : W PageId, run_write op root b epoch = CowTree.finish m epoch
    /\ wt (sound s) any (mkWriting s [] []) m (fun _ _ => True)
    /\ wt (framed s b epoch) (writable s) (mkWriting s [] []) m (fun _ _ => True)) as (m & Em & Hwt & Hfr).
  { assert (sound s (mkWriting s [] [])) as H0 by (split; [by apply keeps_refl|by intros ? ? ?%not_elem_of_nil]).
    pose proof (framed_start s b epoch Hk) as H1. destruct op as [k v|k]; cbn.
    - exists (CowTree.insert_within root b epoch k v). split_and!; [done|..]; apply wt_insert_within; try done; apply _.
    - exists (CowTree.delete_within root b epoch k). split_and!; [done|..]; apply wt_delete_within; try done; apply _. }
  rewrite Em in Hrun. unfold CowTree.finish in Hrun. unfold wt, runs in Hwt, Hfr.
  destruct (m (mkWriting s [] [])) as [[[p|e] w]|]; cbn in Hrun; [| |done].
  - destruct (CowTree.free_all (retired w) epoch (w_store w)) as [s2|] eqn:Ef; cbn in Hrun; [|done]. injection Hrun as <- <-.
    destruct Hwt as [[Hs _] _], Hfr as [[Hf _] _]. assert (holds s (w_store w)) as Hh.
    { apply books_hold; [done|apply Hs|apply Hf|]. rewrite <- (free_all_pages _ _ _ _ Ef). done. }
    eapply holds_trans; [exact Hh|]. eapply free_all_holds; [apply Hs|done|done].
  - injection Hrun as <- <-. destruct Hwt as [[Hs _] _], Hfr as [[Hf _] _].
    apply books_hold; [done|by apply rollback_keeps|apply rollback_books, Hf|done].
Qed.

End pins.
