(* ===== verification/CowHistory.v ===== *)
(** Histories of the copy-on-write store: any sequence of operations by any
    branches, failed ones included. From an empty store every history keeps
    the books, and a history that keeps a fork and its parent registered keeps
    every answer of the tree the fork reads. *)
From S2P Require Import Prelude Eff Bytes Errors Keys Chunker CowStore CowTree CowRead CowLogic CowFrame CowIsolation CowBooks CowSnapshots.

#[local] Arguments lookup : simpl never.

Inductive StoreOp : Type :=
| Register (b : BranchId) (par : option BranchId) (fork : Epoch)
| Forget (b : BranchId)
| NewArena (b : BranchId)
| Alloc (a : ArenaId) (ty : PageType) (birth : Epoch)
| Copy (p : PageId) (b : BranchId) (epoch : Epoch)
| Free (p : PageId) (epoch : Epoch)
| FreeArena (a : ArenaId)
| Drain
| Create (b : BranchId) (epoch : Epoch)
| TreeWrite (op : Write) (root : PageId) (b : BranchId) (epoch : Epoch).

Definition run_op (op : StoreOp) : Eff CowStore unit :=
  match op with
  | Register b par fork => register_branch b par fork
  | Forget b => _ ← forget_branch b; mret tt
  | NewArena b => _ ← alloc_arena b; mret tt
  | Alloc a ty birth => _ ← alloc_in_arena a ty birth; mret tt
  | Copy p b epoch => _ ← cow_page p b epoch; mret tt
  | Free p epoch => free_page p epoch
  | FreeArena a => _ ← free_arena a; mret tt
  | Drain => _ ← drain_pending_free; mret tt
  | Create b epoch => _ ← CowTree.create b epoch; mret tt
  | TreeWrite op root b epoch => _ ← run_write op root b epoch; mret tt
  end.

(** What a history may do while the branches of [K], the last of them forked at
    [E], stay: a new branch has a name no record points at, branches that stay
    keep their arenas, and pages are written and freed at later epochs. *)
Definition allowed (K : BranchId -> Prop) (E : Epoch) (s : CowStore) (op : StoreOp) : Prop :=
  match op with
  | Register b _ _ => fresh_id s b
  | Forget b => ~ K b
  | FreeArena a => forall q, owner_of s a = Some q -> ~ K q
  | Free _ epoch | TreeWrite _ _ _ epoch => forall c, K c -> (E < epoch)%N
  | _ => True
  end.

Inductive history (K : BranchId -> Prop) (E : Epoch) : CowStore -> CowStore -> Prop :=
| history_nil s : history K E s s
| history_op s op r s1 s2 :
    allowed K E s op -> run_op op s = Some (r, s1) -> history K E s1 s2 -> history K E s s2.

Section histories.
Context (K : BranchId -> Prop) (E : Epoch).

Lemma runs_tt {A : Type} (m : Eff CowStore A) s (Φ : CowStore -> Prop) :
  runs m s (fun _ s' => Φ s') -> runs (_ ← m; mret tt) s (fun _ s' => Φ s').
Proof. intros H. apply runs_bind. eapply runs_mono; [|exact H]. by intros [a|e] s' Hs'. Qed.

Lemma run_op_holds op s : store_ok s -> allowed K E s op -> runs (run_op op) s (fun _ s' => holds K E s s').
Proof.
  intros Hok Ha. pose proof (so_known s Hok) as Hk.
  assert (forall A (m : Eff CowStore A), runs m s (fun _ s' => keeps s s') -> runs m s (fun _ s' => evolves s s') ->
    runs m s (fun _ s' => holds K E s s')) as Hev.
  { intros A m H1 H2. eapply runs_mono; [|exact (runs_both _ _ _ _ H1 H2)]. intros r s' [? ?]. by apply evolves_hold. }
  destruct op as [b par fork|b|b|a ty birth|p b epoch|p epoch|a| |b epoch|w root b epoch]; cbn in *.
  - by apply register_branch_holds.
  - by apply runs_tt, forget_branch_holds.
  - apply runs_tt, Hev; [|by apply alloc_arena_runs].
    eapply runs_mono; [|by apply alloc_arena_keeps]. by intros r s' [? _].
  - apply runs_tt, Hev; [eapply runs_mono; [|by apply alloc_in_arena_keeps, keeps_refl]|
      eapply runs_mono; [|by apply alloc_in_arena_runs, evolves_refl]]; by intros r s' [? _].
  - apply runs_tt, Hev; [by apply cow_page_keeps|]. eapply runs_mono; [|by apply cow_page_runs]. by intros r s' [? _].
  - by apply free_page_holds.
  - by apply runs_tt, free_arena_holds.
  - apply runs_tt. unfold drain_pending_free. run. by apply drain_loop_holds.
  - apply runs_tt, Hev; [by apply create_keeps|by apply create_runs].
  - apply runs_tt. unfold runs. destruct (run_write w root b epoch s) as [[r s']|] eqn:Er; [|done]. by eapply run_write_holds.
Qed.

Lemma history_holds s s' : history K E s s' -> store_ok s -> holds K E s s'.
Proof.
  induction 1 as [s|s op r s1 s2 Ha Hr _ IH]; intros Hok; [by apply holds_refl|].
  pose proof (run_op_holds op s Hok Ha) as Hh. unfold runs in Hh. rewrite Hr in Hh.
  eapply holds_trans; [done|]. apply IH, Hh.
Qed.

Lemma history_trans s1 s2 s3 : history K E s1 s2 -> history K E s2 s3 -> history K E s1 s3.
Proof. induction 1; [done|]. intros. econstructor; eauto. Qed.

End histories.

(** The empty store has sound books when the disk never repeats a page id. *)
Lemma genesis_ok answers n : tidy (oks answers) -> store_ok (with_extent_pages answers n).
Proof.
  intros Hn. split; cbn [with_extent_pages pages extents branches pending].
  - intros a st. cbn [with_extent_pages extents]. by rewrite lookup_empty.
  - unfold footprint, extent_pages_of. cbn [with_extent_pages extents free_extents disk]. by rewrite map_to_list_empty.
  - intros a st. by rewrite lookup_empty.
  - intros b m a [<- <-]%lookup_singleton_Some. cbn. by intros ?%not_elem_of_nil.
  - intros b m a [<- <-]%lookup_singleton_Some. done.
  - intros b m [<- <-]%lookup_singleton_Some. constructor.
  - intros q m f [<- <-]%lookup_singleton_Some. unfold forks. by rewrite map_to_list_singleton.
  - intros p pg. by rewrite lookup_empty.
  - by intros pf ?%not_elem_of_nil.
Qed.

(** C34: from an empty store, over any history of registrations, allocations,
    copies, writes, frees, drains and forgotten branches, failed operations
    included, the books balance: a page handed out belongs to one arena only,
    is not on a free list and cannot be handed out again, every free page lies
    in the issued part of its extent, branches own the arenas they list, and
    every registered fork is counted by the parent's record. *)
Theorem store_books_balance (answers : list (Result FerroError PageId)) (n : u32) (s : CowStore) :
  tidy (oks answers) -> history (fun _ => False) 0 (with_extent_pages answers n) s ->
  store_ok s /\ (forall a p, issued s a p -> ~ avail s p)
  /\ (forall a a' p, issued s a p -> issued s a' p -> a = a').
Proof.
  intros Hn Hh. assert (store_ok s) as Hok by (apply (history_holds _ _ _ _ Hh), genesis_ok; done).
  split_and!; [done|by intros; eapply issued_not_avail|].
  intros a a' p (st & E1 & H1 & _) (st' & E2 & H2 & _).
  pose proof (xo_next _ (so_extent s Hok a st E1)). pose proof (xo_next _ (so_extent s Hok a' st' E2)).
  apply (footprint_extent_once s a a' st st' p (proj1 (so_foot s Hok)) E1 E2); apply elem_of_range; lia.
Qed.

(** C33: a tree whose pages are pinned by forks that stay registered, with the
    branches they were forked from, answers every lookup the same before and
    after any history in which the other branches come, go, write and free at
    later epochs: copy-on-write isolates a fork for as long as it lives. *)
Theorem snapshots_hold (K : BranchId -> Prop) (E : Epoch) (s s' : CowStore) (r : PageId) (k : key) :
  store_ok s -> wf_tree s MAX_DESCENT r -> (forall p, p ∈ pages_of s MAX_DESCENT r -> exists pg, pinned K E s p pg) ->
  history K E s s' ->
  exists v, CowTree.get r k s = Some (Ok v, s) /\ CowTree.get r k s' = Some (Ok v, s').
Proof.
  intros Hok Hr Hp Hh. destruct (history_holds _ _ _ _ Hh Hok) as [_ Hpin]. apply get_frame; [done|].
  intros p Hin. destruct (Hp p Hin) as [pg Hpg]. pose proof (Hpin p pg Hpg) as Hpg'.
  destruct Hpg as (? & ? & ? & _ & _ & _ & [-> _ _ _ _ _ _]), Hpg' as (? & ? & ? & _ & _ & _ & [-> _ _ _ _ _ _]). done.
Qed.

(** * The hypotheses as tests *)

Definition pinb (s : CowStore) (c q : BranchId) (f : Epoch) (p : PageId) : bool :=
  match pages s !! p, branches s !! c, branches s !! q with
  | Some pg, Some mc, Some _ =>
      match extents s !! arena_id pg with
      | Some st =>
          (start_page (extent st) <=? p)%N && (p <? start_page (extent st) + next_free (extent st))%N
          && bool_decide (p ∉ free_pages st) && bool_decide (x_owner (extent st) = q)
      | None => false
      end
      && bool_decide (parent mc = Some q) && (fork_epoch mc =? f)%N && (birth_epoch pg <=? f)%N
      && forallb (fun pf => negb (pf_page pf =? p)%N) (pending s)
  | _, _, _ => false
  end.

Lemma pinb_sound (K : BranchId -> Prop) E s c q f p :
  K c -> K q -> (f <= E)%N -> pinb s c q f p = true -> exists pg, pinned K E s p pg.
Proof.
  intros Hc Hq Hf. unfold pinb. destruct (pages s !! p) as [pg|] eqn:Ep; [|done].
  destruct (branches s !! c) as [mc|] eqn:Ec; [|done]. destruct (branches s !! q) as [mq|] eqn:Eq; [|done].
  destruct (extents s !! arena_id pg) as [st|] eqn:Es; [|done].
  rewrite !andb_true_iff, !bool_decide_eq_true, !N.leb_le, N.ltb_lt, N.eqb_eq.
  intros (((((((H1 & H2) & H3) & H4) & H5) & H6) & H7) & H8). exists pg, c, q, f. split_and!; try done. split; try done.
  - exists st. by split_and!.
  - unfold owner_of. rewrite Es. cbn. by rewrite H4.
  - exists (live_children mc). unfold lineage. rewrite Ec. cbn. by rewrite H5, H6.
  - unfold lineage. rewrite Eq. by eexists.
  - intros pf Hin Hpf. rewrite forallb_forall in H8. apply list_elem_of_In, H8 in Hin. rewrite Hpf, N.eqb_refl in Hin. done.
Qed.

Definition fresh_idb (s : CowStore) (b : BranchId) : bool :=
  forallb (fun e => negb (bool_decide (parent e.2 = Some b))) (map_to_list (branches s)).

Lemma fresh_idb_sound s b : fresh_idb s b = true -> fresh_id s b.
Proof.
  unfold fresh_idb. rewrite forallb_forall. intros H c m Hc Hp. specialize (H (c, m)).
  rewrite <- list_elem_of_In, elem_of_map_to_list in H. specialize (H Hc). cbn in H. by rewrite bool_decide_true in H.
Qed.
