(* ===== verification/Merge3.v ===== *)
(** The structural three-way merge: [src/src/cow/merge3.rs], with the identities
    it compares subtrees by ([NodeIdentity] of [src/src/cow/diff.rs]). The three
    trees are descended together over ranges of keys; what is compared and
    skipped by identity is never read. *)
From S2P Require Import Prelude Eff Bytes Errors Keys Chunker CowStore CowTree.

Inductive IdentityProof : Type := Exact | Fingerprint.

(** [trait NodeIdentity]; [proof] is [Fingerprint] unless overridden. *)
Class NodeIdentity (I : Type) := {
  id_of : I -> PageId -> list byte;
  proof : I -> IdentityProof
}.

Inductive PageIdentity : Type := mkPageIdentity.

Definition TAG_PAGE : N := 1.
Definition page_id_identity (p : PageId) : list byte := u8 TAG_PAGE :: be_bytes 4 p ++ replicate 11 (u8 0).

#[export] Instance page_identity : NodeIdentity PageIdentity := {|
  id_of := fun _ => page_id_identity;
  proof := fun _ => Exact
|}.

Inductive ConflictKind : Type := BothModified | OursDeletedTheirsModified | OursModifiedTheirsDeleted.

Record Conflict := mkConflict {
  c_key : key;
  c_base : option (list byte);
  c_ours : option (list byte);
  c_theirs : option (list byte);
  c_kind : ConflictKind
}.

Inductive RootFastPath : Type := SidesAgree | OursUnchanged | TheirsUnchanged.

Record MergeStats := mkStats {
  nodes_read : nat;
  ids_compared : nat;
  skip_sides_agree : nat;
  skip_theirs_unchanged : nat;
  descend_ours_unchanged : nat;
  leaf_triples : nat;
  keys_compared : nat;
  edits_applied : nat;
  root_fast_path : option RootFastPath
}.

#[export] Instance eta_MergeStats : Eta MergeStats := fun m =>
  mkStats (nodes_read m) (ids_compared m) (skip_sides_agree m) (skip_theirs_unchanged m)
    (descend_ours_unchanged m) (leaf_triples m) (keys_compared m) (edits_applied m) (root_fast_path m).
#[export] Instance set_nodes_read : Setter nodes_read. Proof. build_setter. Defined.
#[export] Instance set_ids_compared : Setter ids_compared. Proof. build_setter. Defined.
#[export] Instance set_skip_sides_agree : Setter skip_sides_agree. Proof. build_setter. Defined.
#[export] Instance set_skip_theirs_unchanged : Setter skip_theirs_unchanged. Proof. build_setter. Defined.
#[export] Instance set_descend_ours_unchanged : Setter descend_ours_unchanged. Proof. build_setter. Defined.
#[export] Instance set_leaf_triples : Setter leaf_triples. Proof. build_setter. Defined.
#[export] Instance set_keys_compared : Setter keys_compared. Proof. build_setter. Defined.
#[export] Instance set_edits_applied : Setter edits_applied. Proof. build_setter. Defined.
#[export] Instance set_root_fast_path : Setter root_fast_path. Proof. build_setter. Defined.

Definition stats_default : MergeStats := mkStats 0 0 0 0 0 0 0 0 None.

Record MergeResult := mkMerge {
  merged_root : PageId;
  conflicts : list Conflict;
  stats : MergeStats;
  identity_proof : IdentityProof
}.

(** The edits are a [BTreeMap]: pairs in key order. *)
Record Plan := mkPlan { p_edits : list (key * option (list byte)); p_conflicts : list Conflict }.

(** * The cell rule *)

Definition resolve_cell (base ours theirs : option (list byte)) : Result ConflictKind (option (list byte)) :=
  if decide (ours = theirs) then Ok ours
  else if decide (ours = base) then Ok theirs
  else if decide (theirs = base) then Ok ours
  else Err (match ours, theirs with
            | None, Some _ => OursDeletedTheirsModified
            | Some _, None => OursModifiedTheirsDeleted
            | _, _ => BothModified
            end).

(** * The descent *)

Definition MAX_DEPTH : nat := 64.

Inductive NodeShape : Type :=
| Leaf (es : LeafEntries)
| Internal (leftmost : PageId) (seps : InternalEntries).

Definition read_node (s : CowStore) (p : PageId) : Result FerroError NodeShape :=
  pg ← ok_or (pages s !! p) (Cow (TornPage p));
  match content pg with
  | LeafNode es => Ok (Leaf es)
  | InternalNode l es => Ok (Internal l es)
  | NotANode _ => Err (Cow (NotABtreeNode p))
  end.

Definition child_for (v : NodeShape) (lo : option key) (self_page : PageId) : option PageId :=
  match v with
  | Leaf _ => Some self_page
  | Internal leftmost seps =>
      match lo with
      | None => Some leftmost
      | Some k =>
          match search seps.*1 k with
          | Ok i => seps.*2 !! i
          | Err O => Some leftmost
          | Err (S i) => seps.*2 !! i
          end
      end
  end.

Definition above (lo : option key) (k : key) : bool := match lo with Some l => kleb l k | None => true end.
Definition under (hi : option key) (k : key) : bool := match hi with Some h => kltb k h | None => true end.
Definition in_range (lo hi : option key) (k : key) : bool := above lo k && under hi k.

Definition merge_key (b o t : list (key * list byte)) (st : MergeStats * Plan) (k : key) : MergeStats * Plan :=
  let '(stats, plan) := st in
  let stats := stats <| keys_compared := keys_compared stats + 1 |> in
  let '(bv, ov, tv) := (kget k b, kget k o, kget k t) in
  match resolve_cell bv ov tv with
  | Ok v =>
      if decide (v = ov) then (stats, plan)
      else (stats, mkPlan (kput k v (p_edits plan)) (p_conflicts plan))
  | Err kind => (stats, mkPlan (p_edits plan) (p_conflicts plan ++ [mkConflict k bv ov tv kind]))
  end.

Definition merge_leaves (lo hi : option key) (base ours theirs : LeafEntries) (st : MergeStats * Plan) :
    MergeStats * Plan :=
  let idx e := kcollect (filter (fun '(k, _) => Is_true (in_range lo hi k)) e) in
  let '(b, o, t) := (idx base, idx ours, idx theirs) in
  foldl (merge_key b o t) st (ksort_dedup (b.*1 ++ o.*1 ++ t.*1)).

(** The separators of a node strictly inside the range. *)
Definition inner_seps (lo hi : option key) (v : NodeShape) : list key :=
  match v with
  | Leaf _ => []
  | Internal _ seps =>
      filter (fun k => Is_true ((match lo with Some l => kltb l k | None => true end) && under hi k)) seps.*1
  end.

(** The bands between consecutive cuts, from [from] to the last bound. *)
Fixpoint bands {A : Type} (visit : option key -> option key -> A -> Result FerroError A)
    (from : option key) (bounds : list (option key)) (st : A) : Result FerroError A :=
  match bounds with
  | [] => Ok st
  | upto :: bounds => st ← visit from upto st; bands visit upto bounds st
  end.

Section descent.
Context {I : Type} `{!NodeIdentity I} (ids : I) (s : CowStore).

(** The depth left before the guard. A missing child is an index out of range,
    which a search never returns. *)
Fixpoint descend (depth_left : nat) (lo hi : option key) (b o t : PageId) (st : MergeStats * Plan) :
    Result FerroError (MergeStats * Plan) :=
  match depth_left with
  | O => Err (Cow DepthGuard)
  | S depth_left =>
      let '(stats, plan) := st in
      let '(ib, io, it) := (id_of ids b, id_of ids o, id_of ids t) in
      let stats := stats <| ids_compared := ids_compared stats + 3 |> in
      if decide (io = it) then Ok (stats <| skip_sides_agree := skip_sides_agree stats + 1 |>, plan)
      else if decide (ib = it) then Ok (stats <| skip_theirs_unchanged := skip_theirs_unchanged stats + 1 |>, plan)
      else
        let stats := if decide (ib = io)
                     then stats <| descend_ours_unchanged := descend_ours_unchanged stats + 1 |> else stats in
        bv ← read_node s b;
        ov ← read_node s o;
        tv ← read_node s t;
        let distinct := 1 + (if (o =? b)%N then 0 else 1) + (if (t =? b)%N || (t =? o)%N then 0 else 1) in
        let stats := stats <| nodes_read := nodes_read stats + distinct |> in
        match bv, ov, tv with
        | Leaf be, Leaf oe, Leaf te =>
            Ok (merge_leaves lo hi be oe te (stats <| leaf_triples := leaf_triples stats + 1 |>, plan))
        | _, _, _ =>
            let cuts := ksort_dedup (inner_seps lo hi bv ++ inner_seps lo hi ov ++ inner_seps lo hi tv) in
            bands (fun l r st =>
              match child_for bv l b, child_for ov l o, child_for tv l t with
              | Some cb, Some co, Some ct => descend depth_left l r cb co ct st
              | _, _, _ => Err (Cow DepthGuard)
              end) lo (map Some cuts ++ [hi]) (stats, plan)
        end
  end.

(** [merge3] up to the loop that writes the edits: the tree to build on, and
    the plan. *)
Definition merge_plan (base ours theirs : PageId) : Result FerroError (PageId * MergeStats * Plan) :=
  let '(ib, io, it) := (id_of ids base, id_of ids ours, id_of ids theirs) in
  let st := stats_default <| ids_compared := 3 |> in
  if decide (io = it) then Ok (ours, st <| root_fast_path := Some SidesAgree |>, mkPlan [] [])
  else if decide (ib = io) then Ok (theirs, st <| root_fast_path := Some OursUnchanged |>, mkPlan [] [])
  else if decide (ib = it) then Ok (ours, st <| root_fast_path := Some TheirsUnchanged |>, mkPlan [] [])
  else
    '(st, plan) ← descend (S MAX_DEPTH) None None base ours theirs (st, mkPlan [] []);
    mret (ours, st, plan).

End descent.

(** The loop that writes the edits, in key order. *)
Fixpoint apply_edits (edits : list (key * option (list byte))) (root : PageId) (into : BranchId) (epoch : Epoch) :
    Eff CowStore PageId :=
  match edits with
  | [] => mret root
  | (k, Some v) :: edits => root ← CowTree.insert root into epoch k v; apply_edits edits root into epoch
  | (k, None) :: edits => root ← CowTree.delete root into epoch k; apply_edits edits root into epoch
  end.

Definition merge3 {I : Type} `{!NodeIdentity I} (ids : I) (base ours theirs : PageId)
    (into : BranchId) (epoch : Epoch) : Eff CowStore MergeResult :=
  s ← eget;
  '(root, st, plan) ← lift (merge_plan ids s base ours theirs);
  root ← apply_edits (p_edits plan) root into epoch;
  mret (mkMerge root (p_conflicts plan)
          (match root_fast_path st with None => st <| edits_applied := length (p_edits plan) |> | Some _ => st end)
          (proof ids)).
