(* ===== verification/Merge3Props.v ===== *)
(** The structural three-way merge against the cell rule. [merge_plan] walks
    three trees by key bands and prunes by node identity; these theorems show
    that what it plans is what [resolve_cell] says of every key, whatever the
    shapes of the three trees. *)
From S2P Require Import Prelude Eff Bytes Errors Keys Chunker CowStore CowTree CowRead Merge3.

(** What a descent may rely on: equal identities give equal lookups. *)
Class FaithfulIdentity {I : Type} `{!NodeIdentity I} (ids : I) (s : CowStore) : Prop :=
  faithful : forall n a b k, wf_tree s n a -> wf_tree s n b -> id_of ids a = id_of ids b -> look s n a k = look s n b k.

Lemma wf_tree_page s n p : wf_tree s n p -> (p < 4294967296)%N.
Proof. by destruct 1. Qed.

Lemma page_id_identity_inj a b :
  (a < 4294967296)%N -> (b < 4294967296)%N -> page_id_identity a = page_id_identity b -> a = b.
Proof.
  unfold page_id_identity. intros Ha Hb E. apply (f_equal tail), app_inj_1 in E as [E _];
    [|by rewrite !length_be_bytes].
  apply (f_equal of_be) in E. by rewrite !of_be_be_bytes_small in E.
Qed.

(** Page ids identify pages, so [PageIdentity] is faithful in every store. *)
#[export] Instance page_identity_faithful s : FaithfulIdentity mkPageIdentity s.
Proof.
  intros n a b k Ha Hb E. apply page_id_identity_inj in E; eauto using wf_tree_page. by subst.
Qed.

(** * The plan a descent owes *)

Definition edit_of (b o t : option (list byte)) : option (option (list byte)) :=
  match resolve_cell b o t with Ok v => if decide (v = o) then None else Some v | Err _ => None end.

Definition conflict_of (k : key) (b o t : option (list byte)) : option Conflict :=
  match resolve_cell b o t with Ok _ => None | Err kind => Some (mkConflict k b o t kind) end.

(** A cell theirs never moved, or both moved alike, leaves ours alone. *)
Lemma quiet_cell k b o t : o = t \/ b = t -> edit_of b o t = None /\ conflict_of k b o t = None.
Proof.
  unfold edit_of, conflict_of, resolve_cell. intros H.
  repeat case_decide; intuition congruence.
Qed.

Section cellwise.
(** The three views of the key space. *)
Context (B O T : key -> option (list byte)).

(** The plan decides exactly the keys of [P], in key order. *)
Record settled (P : key -> bool) (plan : Plan) : Prop := mkSettled {
  settled_sorted : ksorted (p_edits plan);
  settled_edit k : kget k (p_edits plan) = if P k then edit_of (B k) (O k) (T k) else None;
  settled_order : StronglySorted klt (map c_key (p_conflicts plan));
  settled_conflict c :
    c ∈ p_conflicts plan <-> P (c_key c) = true /\ conflict_of (c_key c) (B (c_key c)) (O (c_key c)) (T (c_key c)) = Some c
}.

Lemma settled_none : settled (fun _ => false) (mkPlan [] []).
Proof.
  split; cbn; [constructor|done|constructor|]. intros c. split; [by intros ?%not_elem_of_nil|by intros []].
Qed.

(** Keys with nothing to do may be counted as decided. *)
Lemma settled_ext P Q plan :
  (forall k, P k = Q k \/ (edit_of (B k) (O k) (T k) = None /\ conflict_of k (B k) (O k) (T k) = None)) ->
  settled P plan -> settled Q plan.
Proof.
  intros H [H1 H2 H3 H4]. split; [done| |done|].
  - intros k. rewrite H2. destruct (H k) as [->|[-> _]]; [done|]. by destruct (P k), (Q k).
  - intros c. rewrite H4. destruct (H (c_key c)) as [->|[_ ->]]; [done|]. by split; intros [].
Qed.

Lemma merge_key_settled P b o t st k :
  kget k b = B k -> kget k o = O k -> kget k t = T k ->
  P k = false -> (forall k', P k' = true -> klt k' k) -> settled P st.2 ->
  settled (fun x => P x || bool_decide (x = k)) (merge_key b o t st k).2.
Proof.
  intros Eb Eo Et Hk Hlt [H1 H2 H3 H4]. destruct st as [stats plan]. unfold merge_key. rewrite Eb, Eo, Et. cbn in *.
  assert (conflict_of k (B k) (O k) (T k) = None -> forall c, c ∈ p_conflicts plan <->
    P (c_key c) || bool_decide (c_key c = k) = true /\
    conflict_of (c_key c) (B (c_key c)) (O (c_key c)) (T (c_key c)) = Some c) as Hq.
  { intros Hn c. rewrite H4. case_bool_decide as D; [|by rewrite orb_false_r].
    rewrite D, Hn, Hk. by split; intros []. }
  assert (forall x, (if P x || bool_decide (x = k) then edit_of (B x) (O x) (T x) else None)
    = if decide (x = k) then edit_of (B k) (O k) (T k) else kget x (p_edits plan)) as He.
  { intros x. rewrite H2. case_decide as D; [subst; by rewrite Hk, bool_decide_true|].
    by rewrite bool_decide_false, orb_false_r. }
  unfold edit_of, conflict_of in *. destruct (resolve_cell (B k) (O k) (T k)) as [v|kind] eqn:Er.
  - case_decide as Hv; split; cbn.
    all: try done.
    + intros x. rewrite He. case_decide; [subst; by rewrite H2, Hk|done].
    + auto.
    + by apply kput_sorted.
    + intros x. rewrite He, kget_kput. done.
    + auto.
  - split; cbn; [done| | |].
    + intros x. rewrite He. case_decide; [subst; by rewrite H2, Hk|done].
    + rewrite map_app. cbn. apply sorted_snoc; [done|]. intros x Hx.
      apply list_elem_of_fmap in Hx as (c & -> & Hc). apply H4 in Hc as [Hc _]. by apply Hlt.
    + intros c. rewrite elem_of_app, list_elem_of_singleton, H4. case_bool_decide as D.
      * unfold conflict_of. rewrite D, Hk, orb_true_r, Er.
        split; [intros [[]| ->]; done|intros [_ [= <-]]; by right].
      * rewrite orb_false_r. split; [intros [?| ->]; [done|by destruct D]|by left].
Qed.

Lemma merge_keys_settled P b o t st keys :
  (forall k, k ∈ keys -> kget k b = B k /\ kget k o = O k /\ kget k t = T k /\ P k = false) ->
  (forall k k', k ∈ keys -> P k' = true -> klt k' k) -> StronglySorted klt keys -> settled P st.2 ->
  settled (fun x => P x || bool_decide (x ∈ keys)) (foldl (merge_key b o t) st keys).2.
Proof.
  intros Hk Hp Hs. revert P st Hk Hp. induction Hs as [|k keys Hs IH Hlt]; intros P st Hk Hp Hst; cbn.
  { eapply settled_ext; [|done]. intros k. left. rewrite bool_decide_false; [by rewrite orb_false_r|].
    apply not_elem_of_nil. }
  rewrite Forall_forall in Hlt. destruct (Hk k) as (? & ? & ? & ?); [by left|].
  eapply settled_ext; [|apply (IH (fun x => P x || bool_decide (x = k)))].
  - intros x. left. cbn. rewrite <- orb_assoc. f_equal. rewrite <- bool_decide_or. apply bool_decide_ext.
    by rewrite elem_of_cons.
  - intros x Hx. destruct (Hk x) as (? & ? & ? & ->); [by right|]. split_and!; try done. cbn.
    apply bool_decide_false. intros ->. by apply (klt_irrefl k), Hlt.
  - intros x k' Hx [?|?%bool_decide_eq_true]%orb_true_iff; [apply Hp; [by right|done]|]. subst. by apply Hlt.
  - apply merge_key_settled; try done. intros k' Hk'. apply Hp; [by left|done].
Qed.

(** * Bands *)

Definition below (lo : option key) (k : key) : bool := match lo with Some l => kltb k l | None => false end.

Lemma below_above lo k : below lo k = negb (above lo k).
Proof.
  destruct lo as [l|]; cbn; [|done]. unfold kltb, kleb. rewrite (kcmp_opp k l). by destruct (kcmp k l).
Qed.

Lemma idx_get lo hi (es : LeafEntries) k : ksorted es ->
  kget k (kcollect (filter (fun '(k, _) => Is_true (in_range lo hi k)) es)) = if in_range lo hi k then kget k es else None.
Proof. intros Hs. rewrite kget_kcollect by (by apply ksorted_filter). apply kget_filter. Qed.

(** A leaf triple settles its band. *)
Lemma merge_leaves_settled lo hi be oe te st :
  ksorted be -> ksorted oe -> ksorted te ->
  (forall k, in_range lo hi k = true -> kget k be = B k /\ kget k oe = O k /\ kget k te = T k) ->
  (forall k, below lo k = true -> under hi k = true) -> settled (below lo) st.2 ->
  settled (under hi) (merge_leaves lo hi be oe te st).2.
Proof.
  intros Hb Ho Ht Hv Hlohi Hst. unfold merge_leaves. set (keys := ksort_dedup _).
  set (b := kcollect _). set (o := kcollect _). set (t := kcollect _).
  assert (forall k, k ∈ keys <-> in_range lo hi k = true /\ (B k <> None \/ O k <> None \/ T k <> None)) as Hkeys.
  { intros k. unfold keys. rewrite ksort_dedup_elem, !elem_of_app.
    assert (forall es : LeafEntries, ksorted es ->
      k ∈ (kcollect (filter (fun '(k, _) => Is_true (in_range lo hi k)) es)).*1 <->
      in_range lo hi k = true /\ kget k es <> None) as Hi.
    { intros es Hs. transitivity (kget k (kcollect (filter (fun '(k, _) => Is_true (in_range lo hi k)) es)) <> None).
      { rewrite kget_None. split; [tauto|]. intros H. by apply dec_stable. }
      rewrite idx_get by done. destruct (in_range lo hi k); intuition congruence. }
    unfold b, o, t. rewrite !Hi by done. destruct (in_range lo hi k) eqn:E; [|intuition congruence].
    destruct (Hv k E) as (-> & -> & ->). tauto. }
  eapply settled_ext; [|apply (merge_keys_settled (below lo))].
  - intros k. cbn. destruct (bool_decide (k ∈ keys)) eqn:D.
    + left. rewrite orb_true_r. apply bool_decide_eq_true, Hkeys in D as [D _]. unfold in_range in D.
      apply andb_true_iff in D as [_ ->]. done.
    + rewrite orb_false_r. rewrite below_above. destruct (above lo k) eqn:Ea, (under hi k) eqn:Eu; auto.
      2: { specialize (Hlohi k). rewrite below_above, Ea, Eu in Hlohi. by specialize (Hlohi eq_refl). }
      right. apply bool_decide_eq_false in D. apply quiet_cell. rewrite Hkeys in D. unfold in_range in D.
      rewrite Ea, Eu in D. left. destruct (O k), (T k); try done; destruct D; auto.
  - intros k [Hr _]%Hkeys. destruct (Hv k Hr) as (<- & <- & <-). unfold b, o, t. rewrite !idx_get, Hr by done.
    split_and!; try done. rewrite below_above. unfold in_range in Hr. apply andb_true_iff in Hr as [-> _]. done.
  - intros k k' [Hr _]%Hkeys Hk'. unfold in_range in Hr. apply andb_true_iff in Hr as [Hr _].
    destruct lo as [l|]; cbn in *; [|done]. key_order.
  - apply ksort_dedup_sorted.
  - done.
Qed.

Lemma route_same {V : Type} (l : V) (es : list (key * V)) k k' :
  (forall x, x ∈ es.*1 -> kltb k x = kltb k' x) -> route l es k = route l es k'.
Proof.
  revert l. induction es as [|[x c] es IH]; intros l H; [done|]. cbn in *. rewrite (H x) by (by left).
  destruct (kltb k' x); [done|]. apply IH. intros y Hy. apply H. by right.
Qed.

Lemma route_least {V : Type} (l : V) (es : list (key * V)) k :
  (forall x, x ∈ es.*1 -> kltb k x = true) -> route l es k = l.
Proof. destruct es as [|[x c] es]; intros H; [done|]. cbn. rewrite (H x); [done|by left]. Qed.

(** Strictly inside a band. *)
Definition inside (lo hi : option key) (k : key) : bool :=
  (match lo with Some l => kltb l k | None => true end) && under hi k.

(** Where no separator falls strictly inside a band, its lower bound names the
    child of every key in it. *)
Lemma child_for_route l es lo hi p k :
  ksorted es -> (forall x, x ∈ es.*1 -> inside lo hi x = false) -> in_range lo hi k = true ->
  child_for (Internal l es) lo p = Some (route l es k).
Proof.
  intros Hs Hx [Ha Hu]%andb_true_iff. destruct lo as [lo|]; cbn [child_for].
  - rewrite (search_route l es lo Hs). f_equal. apply route_same. intros x Hin. specialize (Hx x Hin).
    cbn in Ha. unfold inside in Hx. destruct (kltb lo x) eqn:E1, (kltb k x) eqn:E2; try done.
    + cbn in Hx. destruct hi as [h|]; cbn in *; [|done]. exfalso. key_order.
    + exfalso. key_order.
  - f_equal. symmetry. apply route_least. intros x Hin. specialize (Hx x Hin). unfold inside in Hx. cbn in Hx.
    destruct hi as [h|]; cbn in *; [|done]. key_order.
Qed.

Definition at_or_after (from l : option key) : Prop :=
  match l with Some x => above from x = true | None => from = None end.

Lemma at_or_after_above from l k : at_or_after from l -> above l k = true -> above from k = true.
Proof. destruct l as [l|], from as [f|]; cbn; try done. intros. key_order. Qed.

Lemma at_or_after_trans a b c : at_or_after a b -> at_or_after b c -> at_or_after a c.
Proof. destruct c as [c|]; cbn; [apply at_or_after_above|]. by intros H ->. Qed.

(** Visiting the bands in turn carries an invariant from one end to the other. *)
Lemma bands_run {A : Type} visit (Q : (key -> bool) -> A -> Prop) cuts from hi st :
  StronglySorted klt cuts -> (forall c, c ∈ cuts -> inside from hi c = true) ->
  (forall k, below from k = true -> under hi k = true) ->
  (forall l r st, at_or_after from l -> (forall k, under r k = true -> under hi k = true) ->
    (forall k, below l k = true -> under r k = true) -> (forall c, c ∈ cuts -> inside l r c = false) ->
    Q (below l) st -> exists st', visit l r st = Ok st' /\ Q (under r) st') ->
  Q (below from) st -> exists st', bands visit from (map Some cuts ++ [hi]) st = Ok st' /\ Q (under hi) st'.
Proof.
  assert (forall f, at_or_after f f) as Hrefl by (intros [f|]; cbn; [key_order|done]).
  intros Hs. revert from st. induction Hs as [|c cuts Hs IH Hc]; intros from st Hin Hlt Hv Hq; cbn [bands map app].
  { destruct (Hv from hi st) as (st' & -> & H); try done; [by intros ? ?%not_elem_of_nil|]. by exists st'. }
  rewrite Forall_forall in Hc. pose proof (Hin c (ltac:(by left))) as Hci.
  apply andb_true_iff in Hci as [Hc1 Hc2].
  assert (at_or_after from (Some c)) as Hfc by (destruct from as [f|]; cbn in *; [key_order|done]).
  assert (forall k, klt k c -> under hi k = true) as Hck.
  { intros k Hk. destruct hi as [h|]; cbn in *; [key_order|done]. }
  destruct (Hv from (Some c) st) as (st' & -> & H); try done.
  - intros k Hk. apply Hck. by apply kltb_lt.
  - intros k Hk. destruct from as [f|]; cbn in *; [key_order|done].
  - intros x [->|Hx]%elem_of_cons; unfold inside; cbn; rewrite andb_false_iff; right; [key_order|].
    specialize (Hc x Hx). key_order.
  - cbn. apply IH; [| | |done].
    + intros x Hx. apply andb_true_iff. split; [apply kltb_lt; auto|].
      specialize (Hin x (ltac:(by right))). by apply andb_true_iff in Hin as [_ ?].
    + intros k Hk. apply Hck. by apply kltb_lt.
    + intros l r st2 Hl Hr Hlr Hno. apply Hv; [by eapply at_or_after_trans|done|done|].
      intros x [->|Hx]%elem_of_cons; [|auto]. destruct l as [l|]; cbn in Hl; [|done].
      unfold inside. cbn. rewrite andb_false_iff. left. key_order.
Qed.

(** * The descent *)

(** What reading a well-formed node tells of its lookups. *)
Definition node_view (s : CowStore) (n : nat) (p : PageId) (v : NodeShape) : Prop :=
  match v with
  | Leaf es => ksorted es /\ (forall m, wf_tree s (S m) p) /\ (forall m k, look s (S m) p k = kget k es)
  | Internal l es =>
      ksorted es /\ (forall k, wf_tree s n (route l es k)) /\ wf_tree s n l
      /\ (forall k, look s (S n) p k = look s n (route l es k) k)
  end.

Lemma wf_tree_view s n p : wf_tree s (S n) p -> exists v, read_node s p = Ok v /\ node_view s n p v.
Proof.
  intros H. inversion H as [? ? pg es E Ec Hs Hp|? ? pg l es E Ec Hs Hp Hl Hes]; subst;
    unfold read_node; rewrite E; cbn [ok_or mbind result_bind]; rewrite Ec; (eexists; split; [done|]); cbn [node_view look].
  - split; [done|]. split; [intros m; by eapply wf_leaf|]. intros m k. rewrite E. cbn. by rewrite Ec.
  - split; [done|]. split; [intros k; by apply route_elem|]. split; [done|]. intros k. rewrite E. cbn. by rewrite Ec.
Qed.

(** The side of a descent: a tree that gives its view's answers in the band. *)
Definition side (s : CowStore) (n : nat) (lo hi : option key) (F : key -> option (list byte)) (p : PageId) : Prop :=
  wf_tree s n p /\ forall k, in_range lo hi k = true -> look s n p k = F k.

Lemma side_child s n lo hi F p v l r :
  side s (S (S n)) lo hi F p -> node_view s (S n) p v -> at_or_after lo l ->
  (forall k, under r k = true -> under hi k = true) ->
  (forall x, x ∈ inner_seps lo hi v -> inside l r x = false) ->
  exists c, child_for v l p = Some c /\ side s (S n) l r F c.
Proof.
  intros [Hw HF] Hv Hl Hr Hx.
  assert (forall k, in_range l r k = true -> in_range lo hi k = true) as Hin.
  { intros k [Ha Hu]%andb_true_iff. apply andb_true_iff. split; [by eapply at_or_after_above|auto]. }
  destruct v as [es|lm es]; cbn [node_view] in Hv.
  - destruct Hv as (_ & Hwf & Hk). exists p. split; [done|]. split; [done|].
    intros k Hk'. rewrite <- (HF k), !Hk; auto.
  - destruct Hv as (Hs & Hwf & Hlm & Hk). exists (match l with Some x => route lm es x | None => lm end). split.
    + destruct l as [x|]; [|done]. cbn. by apply search_route.
    + split; [destruct l; auto|]. intros k Hk'. rewrite <- (HF k), Hk by auto. f_equal.
      assert (forall x, x ∈ es.*1 -> inside l r x = false) as Hno.
      { intros x Hin'. destruct (inside l r x) eqn:E; [|done]. rewrite <- E. apply Hx. cbn.
        apply list_elem_of_filter. split; [|done]. apply Is_true_true. apply andb_true_iff in E as [E1 E2].
        apply andb_true_iff. split; [|auto]. destruct l as [l|], lo as [lo|]; cbn in *; try done. key_order. }
      pose proof (child_for_route lm es l r p k Hs Hno Hk') as Hc.
      destruct l as [x|]; cbn [child_for] in Hc; [rewrite (search_route lm es x Hs) in Hc|]; congruence.
Qed.

Context {I : Type} `{!NodeIdentity I} (ids : I) (s : CowStore) `{!FaithfulIdentity ids s}.

(** Bands with nothing to do in them are settled as they are. *)
Lemma settled_quiet lo hi plan :
  (forall k, below lo k = true -> under hi k = true) ->
  (forall k, in_range lo hi k = true -> O k = T k \/ B k = T k) ->
  settled (below lo) plan -> settled (under hi) plan.
Proof using.
  intros Hlt Hq. apply settled_ext. intros k. specialize (Hlt k). specialize (Hq k).
  unfold in_range in Hq. rewrite below_above in *. destruct (above lo k), (under hi k); cbn in *; auto.
  - right. apply quiet_cell. tauto.
  - by specialize (Hlt eq_refl).
Qed.

(** Cutting a band at the separators of any of the three nodes, and visiting
    the children of each piece. *)
Lemma bands_settle n lo hi b o t bv ov tv visit st :
  side s (S (S n)) lo hi B b -> side s (S (S n)) lo hi O o -> side s (S (S n)) lo hi T t ->
  node_view s (S n) b bv -> node_view s (S n) o ov -> node_view s (S n) t tv ->
  (forall k, below lo k = true -> under hi k = true) ->
  (forall l r b o t st, side s (S n) l r B b -> side s (S n) l r O o -> side s (S n) l r T t ->
    (forall k, below l k = true -> under r k = true) -> settled (below l) st.2 ->
    exists st', visit l r b o t st = Ok st' /\ settled (under r) st'.2) ->
  settled (below lo) st.2 ->
  exists st' : MergeStats * Plan,
    bands (fun l r st =>
      match child_for bv l b, child_for ov l o, child_for tv l t with
      | Some cb, Some co, Some ct => visit l r cb co ct st
      | _, _, _ => Err (Cow DepthGuard)
      end) lo (map Some (ksort_dedup (inner_seps lo hi bv ++ inner_seps lo hi ov ++ inner_seps lo hi tv)) ++ [hi]) st
    = Ok st' /\ settled (under hi) st'.2.
Proof using.
  intros Hb Ho Ht Vb Vo Vt Hlt Hvisit Hst. set (cuts := ksort_dedup _).
  assert (forall x, x ∈ cuts <-> x ∈ inner_seps lo hi bv \/ x ∈ inner_seps lo hi ov \/ x ∈ inner_seps lo hi tv) as Hc.
  { intros x. unfold cuts. by rewrite ksort_dedup_elem, !elem_of_app. }
  apply (bands_run _ (fun P st => settled P st.2)); [apply ksort_dedup_sorted| |done| |done].
  - assert (forall v x, x ∈ inner_seps lo hi v -> inside lo hi x = true) as Hi.
    { intros [es|lm es] x; cbn; [by intros ?%not_elem_of_nil|]. by intros [?%Is_true_true _]%list_elem_of_filter. }
    intros x [H|[H|H]]%Hc; by eapply Hi.
  - intros l r st2 Hl Hr Hlr Hno Hst2.
    destruct (side_child s n lo hi B b bv l r) as (cb & -> & Sb); try done; [intros; apply Hno, Hc; auto|].
    destruct (side_child s n lo hi O o ov l r) as (co & -> & So); try done; [intros; apply Hno, Hc; auto|].
    destruct (side_child s n lo hi T t tv l r) as (ct & -> & Sct); try done; [intros; apply Hno, Hc; auto|].
    by apply Hvisit.
Qed.

Lemma node_view_height n p v : node_view s n p v -> match v with Leaf _ => True | Internal _ _ => 0 < n end.
Proof using. destruct v as [es|l es]; [done|]. intros (_ & _ & H & _). inversion H; lia. Qed.

Lemma descend_settles fuel : forall n lo hi b o t st,
  n <= fuel -> side s n lo hi B b -> side s n lo hi O o -> side s n lo hi T t ->
  (forall k, below lo k = true -> under hi k = true) -> settled (below lo) st.2 ->
  exists st', descend ids s fuel lo hi b o t st = Ok st' /\ settled (under hi) st'.2.
Proof using FaithfulIdentity0.
  induction fuel as [|fuel IH]; intros n lo hi b o t [stats plan] Hn Hb Ho Ht Hlt Hst.
  { destruct Hb as [Hb _]. inversion Hb; lia. }
  destruct n as [|n]; [by destruct Hb as [Hb _]; inversion Hb|]. cbn [descend].
  case_decide as D1.
  { eexists. split; [done|]. apply (settled_quiet lo); [done| |done]. intros k Hk. left.
    rewrite <- (proj2 Ho k Hk), <- (proj2 Ht k Hk). eapply faithful; [apply Ho|apply Ht|done]. }
  case_decide as D2.
  { eexists. split; [done|]. apply (settled_quiet lo); [done| |done]. intros k Hk. right.
    rewrite <- (proj2 Hb k Hk), <- (proj2 Ht k Hk). eapply faithful; [apply Hb|apply Ht|done]. }
  set (stats1 := if decide (id_of ids b = id_of ids o) then _ else _).
  destruct (wf_tree_view s n b) as (bv & -> & Vb); [apply Hb|]. destruct (wf_tree_view s n o) as (ov & -> & Vo); [apply Ho|].
  destruct (wf_tree_view s n t) as (tv & -> & Vt); [apply Ht|]. cbn [mbind result_bind].
  set (stats2 := _ <| nodes_read := _ |>).
  assert (0 < n -> forall st, settled (below lo) st.2 -> exists st' : MergeStats * Plan,
    bands (fun l r st => match child_for bv l b, child_for ov l o, child_for tv l t with
      | Some cb, Some co, Some ct => descend ids s fuel l r cb co ct st | _, _, _ => Err (Cow DepthGuard) end)
      lo (map Some (ksort_dedup (inner_seps lo hi bv ++ inner_seps lo hi ov ++ inner_seps lo hi tv)) ++ [hi]) st
    = Ok st' /\ settled (under hi) st'.2) as Hbands.
  { intros Hn0 st' Hst'. destruct n as [|n]; [lia|]. eapply bands_settle; try done. intros. eapply IH; [|done..]. lia. }
  pose proof (node_view_height _ _ _ Vb). pose proof (node_view_height _ _ _ Vo). pose proof (node_view_height _ _ _ Vt).
  destruct bv as [be|], ov as [oe|], tv as [te|]; try by apply Hbands.
  eexists. split; [done|]. destruct Vb as (? & _ & Vb), Vo as (? & _ & Vo), Vt as (? & _ & Vt).
  apply merge_leaves_settled; try done. intros k Hk.
  rewrite <- (Vb n k), <- (Vo n k), <- (Vt n k). split_and!; [by apply Hb|by apply Ho|by apply Ht].
Qed.

End cellwise.

(** * The merge *)

(** What a key holds once the plan is written on top of [root]. *)
Definition planned (s : CowStore) (root : PageId) (plan : Plan) (k : key) : option (list byte) :=
  default (look s MAX_DESCENT root k) (kget k (p_edits plan)).

(** The truth table, key by key. *)
Definition cellwise (s : CowStore) (base ours theirs root : PageId) (plan : Plan) : Prop :=
  forall k, let b := look s MAX_DESCENT base k in let o := look s MAX_DESCENT ours k in
  let t := look s MAX_DESCENT theirs k in
  match resolve_cell b o t with
  | Ok v => planned s root plan k = v /\ k ∉ map c_key (p_conflicts plan)
  | Err kind => planned s root plan k = o /\ mkConflict k b o t kind ∈ p_conflicts plan
  end.

Lemma settled_cellwise s base ours theirs plan :
  settled (look s MAX_DESCENT base) (look s MAX_DESCENT ours) (look s MAX_DESCENT theirs) (fun _ => true) plan ->
  cellwise s base ours theirs ours plan.
Proof.
  intros [_ He _ Hc]. unfold cellwise, planned. intros k. rewrite He. unfold edit_of, conflict_of in *. cbn zeta.
  destruct (resolve_cell _ _ _) as [v|kind] eqn:E.
  - split; [by case_decide|]. intros (c & -> & [_ Hin]%Hc)%list_elem_of_fmap. by rewrite E in Hin.
  - split; [done|]. apply Hc. cbn [c_key]. by rewrite E.
Qed.

Lemma fast_path_cellwise s base ours theirs root :
  (forall k, resolve_cell (look s MAX_DESCENT base k) (look s MAX_DESCENT ours k) (look s MAX_DESCENT theirs k)
             = Ok (look s MAX_DESCENT root k)) ->
  cellwise s base ours theirs root (mkPlan [] []).
Proof. intros H. unfold cellwise. intros k. cbn zeta. rewrite H. split; [done|]. apply not_elem_of_nil. Qed.

(** C38: over three well-formed trees of any shapes, and any identity under which
    equal nodes give equal answers, the merge's descent ends without an error
    and plans, for every key, exactly what the cell rule says of the three
    values: the ruled value and no conflict, or ours and one conflict carrying
    the three values; conflicts come in strictly increasing key order. *)
Theorem structural_merge_is_cellwise {I : Type} `{!NodeIdentity I} (ids : I) (s : CowStore) (base ours theirs : PageId) :
  FaithfulIdentity ids s -> wf_tree s MAX_DESCENT base -> wf_tree s MAX_DESCENT ours -> wf_tree s MAX_DESCENT theirs ->
  exists root st plan, merge_plan ids s base ours theirs = Ok (root, st, plan)
    /\ cellwise s base ours theirs root plan
    /\ ksorted (p_edits plan) /\ StronglySorted klt (map c_key (p_conflicts plan)).
Proof.
  intros Hf Hb Ho Ht. unfold merge_plan.
  assert (forall a b, wf_tree s MAX_DESCENT a -> wf_tree s MAX_DESCENT b -> id_of ids a = id_of ids b ->
    forall k, look s MAX_DESCENT a k = look s MAX_DESCENT b k) as Hid by (intros; by eapply Hf).
  assert (forall root (st : MergeStats), cellwise s base ours theirs root (mkPlan [] []) -> exists root' st' plan,
    @Ok FerroError _ (root, st, mkPlan [] []) = Ok (root', st', plan) /\ cellwise s base ours theirs root' plan
    /\ ksorted (p_edits plan) /\ StronglySorted klt (map c_key (p_conflicts plan))) as Hfast.
  { intros root st H. exists root, st, (mkPlan [] []). repeat split; try done; constructor. }
  case_decide as D1; [|case_decide as D2; [|case_decide as D3]].
  1-3: apply Hfast, fast_path_cellwise; intros k; unfold resolve_cell.
  - rewrite decide_True by auto. done.
  - case_decide as E; [by rewrite E|]. rewrite decide_True; [done|]. symmetry. auto.
  - case_decide; [done|]. pose proof (Hid _ _ Hb Ht D3 k). case_decide; [congruence|]. by rewrite decide_True.
  - edestruct (descend_settles (look s MAX_DESCENT base) (look s MAX_DESCENT ours) (look s MAX_DESCENT theirs) ids s
      (S MAX_DEPTH) MAX_DESCENT None None base ours theirs) as ([st plan] & -> & Hs).
    6: { apply settled_none. }
    all: try done.
    { unfold MAX_DESCENT, MAX_DEPTH. lia. }
    exists ours, st, plan. split; [done|]. split; [by apply settled_cellwise|]. by destruct Hs.
Qed.
