(* ===== verification/CowShape.v ===== *)
(** The shape of a search tree on pages: every key lies in the range its
    ancestors' separators leave to its node, and no page occurs twice. A run of
    subtrees with separators between them, the form in which a split hands its
    pieces to the parent, is a [kids]. *)
From S2P Require Import Prelude Eff Bytes Errors Keys Chunker CowStore CowTree CowRead CowIsolation Merge3 Merge3Props.

#[local] Arguments lookup : simpl never.

(** * Ranges *)

Ltac bounds :=
  unfold in_range, inside in *;
  repeat match goal with
  | H : _ && _ = true |- _ => apply andb_true_iff in H as [? ?]
  | |- _ && _ = true => apply andb_true_iff; split
  | lo : option (list byte) |- _ => destruct lo
  end; cbn [above under] in *; try done; key_order.

Lemma in_range_split lo hi m k : inside lo hi m = true ->
  in_range lo hi k = if kltb k m then in_range lo (Some m) k else in_range (Some m) hi k.
Proof.
  intros Hm. destruct (kltb k m) eqn:E; unfold in_range; cbn; rewrite ?E; apply eq_true_iff_eq; rewrite !andb_true_iff.
  - split; [tauto|]. intros [? _]. split; [done|]. unfold inside in Hm. apply andb_true_iff in Hm as [_ Hm].
    destruct hi; cbn in *; [key_order|done].
  - split; intros [H1 H2]; (split; [|done]).
    + key_order.
    + unfold inside in Hm. apply andb_true_iff in Hm as [Hm _]. destruct lo; cbn in *; [key_order|done].
Qed.

(** * Subtrees *)

Section kids.
Context (T : option key -> option key -> PageId -> list PageId -> Prop).

Fixpoint kids (lo hi : option key) (l : PageId) (es : list (key * PageId)) (ps : list PageId) : Prop :=
  match es with
  | [] => T lo hi l ps
  | (m, c) :: es =>
      exists ps1 ps2, ps = ps1 ++ ps2 /\ T lo (Some m) l ps1 /\ inside lo hi m = true /\ kids (Some m) hi c es ps2
  end.

Lemma kids_join lo hi m l es1 ps1 c es2 ps2 :
  kids lo (Some m) l es1 ps1 -> inside lo hi m = true -> kids (Some m) hi c es2 ps2 ->
  kids lo hi l (es1 ++ (m, c) :: es2) (ps1 ++ ps2).
Proof.
  revert lo l ps1. induction es1 as [|[m1 c1] es1 IH]; intros lo l ps1; cbn [kids app].
  - intros H1 Hm H2. by exists ps1, ps2.
  - intros (p1 & p2 & -> & H1 & Hm1 & H2) Hm H3. exists p1, (p2 ++ ps2). rewrite app_assoc. split_and!; [done|done| |].
    + bounds.
    + apply IH; [done| |done]. bounds.
Qed.

Lemma kids_split lo hi m l es1 c es2 ps :
  kids lo hi l (es1 ++ (m, c) :: es2) ps ->
  exists ps1 ps2, ps = ps1 ++ ps2 /\ kids lo (Some m) l es1 ps1 /\ inside lo hi m = true /\ kids (Some m) hi c es2 ps2.
Proof.
  revert lo l ps. induction es1 as [|[m1 c1] es1 IH]; intros lo l ps; cbn [kids app]; [done|].
  intros (p1 & p2 & -> & H1 & Hm1 & H2). destruct (IH _ _ _ H2) as (q1 & q2 & -> & H3 & Hm & H4).
  exists (p1 ++ q1), q2. rewrite app_assoc. split_and!; [done| | |done].
  - exists p1, q1. split_and!; [done|done| |done]. bounds.
  - bounds.
Qed.

Lemma kids_inside lo hi l es ps : kids lo hi l es ps -> forall m, m ∈ es.*1 -> inside lo hi m = true.
Proof.
  revert lo l ps. induction es as [|[m1 c1] es IH]; intros lo l ps; cbn [kids]; [by intros _ m ?%not_elem_of_nil|].
  intros (p1 & p2 & _ & _ & Hm & H) m [->|Hin]%elem_of_cons; [done|]. pose proof (IH _ _ _ H m Hin). bounds.
Qed.

Lemma kids_sorted lo hi l es ps : kids lo hi l es ps -> ksorted es.
Proof.
  revert lo l ps. induction es as [|[m1 c1] es IH]; intros lo l ps; cbn [kids]; [constructor|].
  intros (p1 & p2 & _ & _ & Hm & H). apply ksorted_cons. split; [by eapply IH|].
  intros b Hb. pose proof (kids_inside _ _ _ _ _ H b Hb) as Hi. apply andb_true_iff in Hi as [Hi _]. by apply kltb_lt.
Qed.

End kids.

Lemma kids_mono (T T' : option key -> option key -> PageId -> list PageId -> Prop) lo hi l es ps :
  (forall lo hi c ps', (forall p, p ∈ ps' -> p ∈ ps) -> T lo hi c ps' -> T' lo hi c ps') ->
  kids T lo hi l es ps -> kids T' lo hi l es ps.
Proof.
  revert lo l ps. induction es as [|[m1 c1] es IH]; intros lo l ps HT; cbn [kids]; [by apply HT|].
  intros (p1 & p2 & -> & H1 & Hm & H2). exists p1, p2. split_and!; [done| |done|].
  - apply HT; [set_solver|done].
  - eapply IH; [|done]. intros lo' hi' c ps' Hsub. apply HT. set_solver.
Qed.

(** The route through a run of subtrees joined at a separator. *)
Lemma route_join {V : Type} (l : V) es1 m c es2 k :
  (forall x, x ∈ es1.*1 -> klt x m) ->
  route l (es1 ++ (m, c) :: es2) k = if kltb k m then route l es1 k else route c es2 k.
Proof.
  revert l. induction es1 as [|[m1 c1] es1 IH]; intros l H; cbn; [done|].
  destruct (kltb k m1) eqn:E1.
  - pose proof (H m1 (ltac:(by left))) as Hm. assert (kltb k m = true) as -> by key_order. done.
  - apply IH. intros x Hx. apply H. by right.
Qed.

(** Every entry fits a page. *)
Definition leaf_fits (es : LeafEntries) : Prop := Forall (fun e => (leaf_entry_bytes e.1 e.2 <= NODE_CAPACITY)%N) es.
Definition node_fits (es : InternalEntries) : Prop := Forall (fun e => (internal_entry_bytes e.1 <= NODE_CAPACITY)%N) es.

Fixpoint shaped (s : CowStore) (n : nat) (lo hi : option key) (p : PageId) (ps : list PageId) : Prop :=
  match n with
  | O => False
  | S n =>
      (p < 4294967296)%N /\ exists pg, pages s !! p = Some pg /\
      match content pg with
      | LeafNode es => ps = [p] /\ ksorted es /\ (forall k, k ∈ es.*1 -> in_range lo hi k = true) /\ leaf_fits es
      | InternalNode l es => exists ps', ps = p :: ps' /\ node_fits es /\ kids (shaped s n) lo hi l es ps'
      | NotANode _ => False
      end
  end.

Lemma shaped_node s n lo hi p pg l es ps :
  (p < 4294967296)%N -> pages s !! p = Some pg -> content pg = InternalNode l es -> node_fits es ->
  kids (shaped s n) lo hi l es ps -> shaped s (S n) lo hi p (p :: ps).
Proof. intros Hp E Ec Hf H. split; [done|]. exists pg. split; [done|]. rewrite Ec. eauto. Qed.

Lemma shaped_leaf s n lo hi p pg es :
  (p < 4294967296)%N -> pages s !! p = Some pg -> content pg = LeafNode es -> ksorted es ->
  (forall k, k ∈ es.*1 -> in_range lo hi k = true) -> leaf_fits es -> shaped s (S n) lo hi p [p].
Proof. intros Hp E Ec H1 H2 H3. split; [done|]. exists pg. split; [done|]. rewrite Ec. eauto. Qed.

Lemma shaped_self s n lo hi p ps : shaped s n lo hi p ps -> p ∈ ps.
Proof.
  destruct n as [|n]; [done|]. intros (_ & pg & _ & H). destruct (content pg).
  - destruct H as [-> _]. by left.
  - destruct H as (ps' & -> & _). by left.
  - done.
Qed.

(** A tree depends on its own pages only. *)
Lemma shaped_frame s s' n lo hi p ps :
  (forall q, q ∈ ps -> pages s' !! q = pages s !! q) -> shaped s n lo hi p ps -> shaped s' n lo hi p ps.
Proof.
  revert lo hi p ps. induction n as [|n IH]; intros lo hi p ps Hf H; [done|]. pose proof (shaped_self _ _ _ _ _ _ H) as Hp.
  destruct H as (Hw & pg & E & H). split; [done|]. exists pg. rewrite Hf by done. split; [done|].
  destruct (content pg) as [es|l es|]; [done| |done]. destruct H as (ps' & -> & Hfit & H). exists ps'. split_and!; [done|done|].
  eapply kids_mono; [|exact H]. intros lo' hi' c ps2 Hsub. apply IH. intros q Hq. apply Hf. right. auto.
Qed.

Lemma shaped_taller s n n' lo hi p ps : n <= n' -> shaped s n lo hi p ps -> shaped s n' lo hi p ps.
Proof.
  revert n' lo hi p ps. induction n as [|n IH]; intros n' lo hi p ps Hn H; [done|]. destruct n' as [|n']; [lia|].
  destruct H as (Hw & pg & E & H). split; [done|]. exists pg. split; [done|].
  destruct (content pg) as [es|l es|]; [done| |done]. destruct H as (ps' & -> & Hfit & H). exists ps'. split_and!; [done|done|].
  eapply kids_mono; [|exact H]. intros. apply IH; [lia|done].
Qed.

Lemma kids_child {V : Type} T lo hi l es ps (P : PageId -> Prop) (v : V) :
  kids T lo hi l es ps -> (forall lo hi c ps', T lo hi c ps' -> P c) -> P l /\ forall c, c ∈ es.*2 -> P c.
Proof.
  revert lo l ps. induction es as [|[m1 c1] es IH]; intros lo l ps; cbn [kids].
  - intros H HP. split; [by eapply HP|]. by intros c ?%not_elem_of_nil.
  - intros (p1 & p2 & _ & H1 & _ & H2) HP. destruct (IH _ _ _ H2 HP) as [Hc Hes]. split; [by eapply HP|].
    intros c [->|Hin]%elem_of_cons; auto.
Qed.

Lemma shaped_wf s n lo hi p ps : shaped s n lo hi p ps -> wf_tree s n p.
Proof.
  revert lo hi p ps. induction n as [|n IH]; intros lo hi p ps H; [done|]. destruct H as (Hw & pg & E & H).
  destruct (content pg) as [es|l es|] eqn:Ec; [| |done].
  - destruct H as (_ & Hs & _). by eapply wf_leaf.
  - destruct H as (ps' & _ & _ & H). pose proof (kids_sorted _ _ _ _ _ _ H) as Hs.
    destruct (kids_child _ _ _ _ _ _ (wf_tree s n) tt H) as [Hl Hc]; [eauto|]. by eapply wf_node.
Qed.

Lemma look_frame_shaped s s' n lo hi p ps k :
  (forall q, q ∈ ps -> pages s' !! q = pages s !! q) -> shaped s n lo hi p ps -> look s' n p k = look s n p k.
Proof.
  revert lo hi p ps. induction n as [|n IH]; intros lo hi p ps Hf H; [done|]. pose proof (shaped_self _ _ _ _ _ _ H) as Hp.
  destruct H as (Hw & pg & E & H). cbn [look]. rewrite (Hf p Hp), E. cbn. destruct (content pg) as [es|l es|]; [done| |done].
  destruct H as (ps' & -> & _ & H).
  apply (kids_mono _ (fun lo hi c ps2 => shaped s n lo hi c ps2 /\ forall p, p ∈ ps2 -> p ∈ ps')) in H; [|auto].
  destruct (kids_child _ _ _ _ _ _ (fun c => look s' n c k = look s n c k) tt H) as [Hl Hc].
  { intros lo' hi' c ps2 [Hc Hsub]. eapply IH; [|exact Hc]. intros q Hq. apply Hf. right. auto. }
  by apply (route_elem (fun c => look s' n c k = look s n c k)).
Qed.

(** * A node with a hole *)

Definition LeftPart : Type := option (PageId * list (key * PageId) * key).

Definition left_part T (lo lo' hi : option key) (L : LeftPart) (ps : list PageId) : Prop :=
  match L with
  | None => lo' = lo /\ ps = []
  | Some (l, es, m) => lo' = Some m /\ inside lo hi m = true /\ kids T lo (Some m) l es ps
  end.

Definition right_part T (lo' hi' hi : option key) (R : list (key * PageId)) (ps : list PageId) : Prop :=
  match R with
  | [] => hi' = hi /\ ps = []
  | (m, c) :: es => hi' = Some m /\ inside lo' hi m = true /\ kids T (Some m) hi c es ps
  end.

(** The node with a run of subtrees in the hole. *)
Definition plug (L : LeftPart) (c : PageId) (run R : list (key * PageId)) : PageId * list (key * PageId) :=
  match L with
  | None => (c, run ++ R)
  | Some (l, es, m) => (l, es ++ (m, c) :: run ++ R)
  end.

Definition slot_of (L : LeftPart) : option nat :=
  match L with None => None | Some (_, es, _) => Some (length es) end.

Lemma plug_kids T lo lo' hi' hi L R c run ps1 ps ps2 :
  left_part T lo lo' hi L ps1 -> right_part T lo' hi' hi R ps2 -> kids T lo' hi' c run ps ->
  kids T lo hi (plug L c run R).1 (plug L c run R).2 (ps1 ++ ps ++ ps2).
Proof.
  intros HL HR Hc.
  assert (kids T lo' hi c (run ++ R) (ps ++ ps2)) as H.
  { destruct R as [|[m c2] es2]; cbn in HR.
    - destruct HR as [-> ->]. by rewrite !app_nil_r.
    - destruct HR as (-> & Hm & Hk). by apply kids_join. }
  destruct L as [[[l es] m]|]; cbn in *.
  - destruct HL as (-> & Hm & Hk). by apply kids_join.
  - destruct HL as [-> ->]. done.
Qed.

(** Routing to the hole, and past it. *)
Definition past (L : LeftPart) (R : list (key * PageId)) (k : key) : PageId :=
  let on_right := match R with (m, c) :: es => route c es k | [] => 0%N end in
  match L with
  | Some (l, es, m) => if kltb k m then route l es k else on_right
  | None => on_right
  end.

Lemma kids_under T lo m l es ps : kids T lo (Some m) l es ps -> forall x, x ∈ es.*1 -> klt x m.
Proof.
  intros H x Hx. pose proof (kids_inside _ _ _ _ _ _ H x Hx) as Hi. apply andb_true_iff in Hi as [_ Hi]. by apply kltb_lt.
Qed.

Lemma plug_route T lo lo' hi' hi L R c run ps1 ps2 k :
  left_part T lo lo' hi L ps1 -> right_part T lo' hi' hi R ps2 ->
  (forall m, hi' = Some m -> forall x, x ∈ run.*1 -> klt x m) -> in_range lo hi k = true ->
  route (plug L c run R).1 (plug L c run R).2 k = if in_range lo' hi' k then route c run k else past L R k.
Proof.
  intros HL HR Hc Hk.
  assert (above lo' k = true -> route c (run ++ R) k =
    if in_range lo' hi' k then route c run k else match R with (m, c) :: es => route c es k | [] => 0%N end) as H.
  { intros Ha. destruct R as [|[m c2] es2]; cbn in HR.
    - destruct HR as [-> _]. rewrite app_nil_r. unfold in_range. rewrite Ha. by apply andb_true_iff in Hk as [_ ->].
    - destruct HR as (-> & Hm & _). rewrite route_join by (by apply Hc). unfold in_range. rewrite Ha. done. }
  destruct L as [[[l es] m]|]; cbn in *.
  - destruct HL as (-> & Hm & Hks). rewrite route_join by (by eapply kids_under).
    destruct (kltb k m) eqn:E.
    + assert (in_range (Some m) hi' k = false) as ->; [|done]. unfold in_range. cbn. apply andb_false_iff. left. key_order.
    + apply H. cbn. key_order.
  - destruct HL as [-> _]. apply H. by apply andb_true_iff in Hk as [? _].
Qed.

(** Opening a node at the slot a lookup takes. *)
Lemma plug_open T lo hi l es ps k slot c :
  kids T lo hi l es ps -> in_range lo hi k = true -> child_slot_for l es k = Ok (slot, c) ->
  exists L R lo' hi' ps1 psc ps2, plug L c [] R = (l, es) /\ slot_of L = slot /\ ps = ps1 ++ psc ++ ps2
    /\ left_part T lo lo' hi L ps1 /\ right_part T lo' hi' hi R ps2 /\ T lo' hi' c psc /\ in_range lo' hi' k = true.
Proof.
  intros Hk Hin Hs. pose proof (kids_sorted _ _ _ _ _ _ Hk) as Hsort.
  pose proof (search_spec es.*1 k Hsort) as Hspec. unfold child_slot_for in Hs.
  assert (forall i, (forall j m, j <= i -> es.*1 !! j = Some m -> ~ klt k m) ->
    (forall j m, i < j -> es.*1 !! j = Some m -> klt k m) ->
    (e ← ok_or (es !! i) (Cow (NodeSlotOutOfRange (N.of_nat i))); mret (Some i, e.2)) = Ok (slot, c) ->
    exists L R lo' hi' ps1 psc ps2, plug L c [] R = (l, es) /\ slot_of L = slot /\ ps = ps1 ++ psc ++ ps2
    /\ left_part T lo lo' hi L ps1 /\ right_part T lo' hi' hi R ps2 /\ T lo' hi' c psc /\ in_range lo' hi' k = true) as Hat.
  { intros i H1 H2. destruct (es !! i) as [[m c']|] eqn:Ei; cbn; [|done]. intros [= <- <-].
    pose proof (take_drop_middle es i _ Ei) as Ees. rewrite <- Ees in Hk.
    destruct (kids_split _ _ _ _ _ _ _ _ _ Hk) as (p1 & p2 & -> & Hl & Hm & Hr).
    assert (kleb m k = true) as Hmk.
    { apply kleb_le. apply (H1 i m); [lia|]. rewrite list_lookup_fmap, Ei. done. }
    assert (slot_of (Some (l, take i es, m)) = Some i) as Hslot.
    { cbn. rewrite length_take. apply lookup_lt_Some in Ei. f_equal. lia. }
    destruct (drop (S i) es) as [|[m2 c2] es2] eqn:Ed.
    - exists (Some (l, take i es, m)), [], (Some m), hi, p1, p2, []. split_and!; try done.
      + cbn. by rewrite <- Ees at 2.
      + by rewrite app_nil_r.
      + bounds.
    - destruct Hr as (q1 & q2 & -> & Hc & Hm2 & Hr2).
      exists (Some (l, take i es, m)), ((m2, c2) :: es2), (Some m), (Some m2), p1, q1, q2. split_and!; try done.
      + cbn. by rewrite <- Ees at 2.
      + assert (klt k m2) as Hlt.
        { apply (H2 (S i) m2); [lia|]. rewrite list_lookup_fmap. pose proof (lookup_drop es (S i) 0) as E0.
          rewrite Ed in E0. cbn in E0. rewrite Nat.add_0_r in E0. by rewrite <- E0. }
        bounds. }
  destruct (search es.*1 k) as [i|[|i]] eqn:Es.
  - apply (Hat i); [| |exact Hs].
    + intros j m Hj Hm Hlt. destruct (decide (j = i)) as [->|]; [rewrite Hspec in Hm; injection Hm as ->; by apply (klt_irrefl m)|].
      pose proof (sorted_lookup klt es.*1 j i m k Hsort ltac:(lia) Hm Hspec). key_order.
    + intros j m Hj Hm. exact (sorted_lookup klt es.*1 i j k m Hsort Hj Hspec Hm).
  - injection Hs as <- <-. destruct Hspec as (_ & _ & H2). destruct es as [|[m2 c2] es2].
    + exists None, [], lo, hi, [], ps, []. split_and!; try done. by rewrite app_nil_r.
    + destruct Hk as (q1 & q2 & -> & Hc & Hm2 & Hr2).
      exists None, ((m2, c2) :: es2), lo, (Some m2), [], q1, q2. split_and!; try done.
      assert (klt k m2) as Hlt by (apply (H2 0 m2); [lia|done]). bounds.
  - destruct Hspec as (_ & H1 & H2). apply (Hat i); [| |exact Hs].
    + intros j m Hj Hm Hlt. specialize (H1 j m ltac:(lia) Hm). key_order.
    + intros j m Hj Hm. apply (H2 j m); [lia|done].
Qed.

(** * The way down a tree

    The ancestors of a node with, at each, the siblings the descent passed.
    Rewriting the subtree at the end of the way rewrites the answers of its range
    and no others. *)

#[local] Arguments lookup : simpl never.

(** [way up n lo hi c rest]: from [root], the path [up] (deepest first) leads to
    the child [c], which covers [lo, hi); [rest] are the pages of the tree that
    are not under [c]. *)
Inductive way (s : CowStore) (root : PageId) (N : nat) :
    DescentPath -> nat -> option key -> option key -> PageId -> list PageId -> Prop :=
| way_root : way s root N [] N None None root []
| way_down up n lo hi q rest pg L c R lo' hi' ps1 ps2 :
    way s root N up (S n) lo hi q rest ->
    (q < 4294967296)%N -> pages s !! q = Some pg ->
    content pg = InternalNode (plug L c [] R).1 (plug L c [] R).2 -> node_fits (plug L c [] R).2 ->
    left_part (shaped s n) lo lo' hi L ps1 -> right_part (shaped s n) lo' hi' hi R ps2 ->
    way s root N ((q, slot_of L) :: up) n lo' hi' c (q :: ps1 ++ ps2 ++ rest).

Lemma left_part_range T lo lo' hi L ps k : left_part T lo lo' hi L ps -> above lo' k = true -> above lo k = true.
Proof. destruct L as [[[l es] m]|]; cbn; [intros (-> & Hm & _)|by intros [-> _]]. intros H. bounds. Qed.

Lemma right_part_range T lo' hi' hi R ps k : right_part T lo' hi' hi R ps -> under hi' k = true -> under hi k = true.
Proof. destruct R as [|[m c] es]; cbn; [by intros [-> _]|]. intros (-> & Hm & _) H. bounds. Qed.

Lemma hole_range T lo lo' hi' hi L R ps1 ps2 k :
  left_part T lo lo' hi L ps1 -> right_part T lo' hi' hi R ps2 -> in_range lo' hi' k = true -> in_range lo hi k = true.
Proof.
  intros HL HR [H1 H2]%andb_true_iff. apply andb_true_iff. split; [by eapply left_part_range|by eapply right_part_range].
Qed.

Lemma look_node s n p pg l es k :
  pages s !! p = Some pg -> content pg = InternalNode l es -> look s (S n) p k = look s n (route l es k) k.
Proof. intros E Ec. cbn [look]. rewrite E. cbn. by rewrite Ec. Qed.

Lemma look_leaf s n p pg es k : pages s !! p = Some pg -> content pg = LeafNode es -> look s (S n) p k = kget k es.
Proof. intros E Ec. cbn [look]. rewrite E. cbn. by rewrite Ec. Qed.

Lemma left_part_frame s s' n lo lo' hi L ps :
  (forall q, q ∈ ps -> pages s' !! q = pages s !! q) ->
  left_part (shaped s n) lo lo' hi L ps -> left_part (shaped s' n) lo lo' hi L ps.
Proof.
  intros Hf. destruct L as [[[l es] m]|]; [|done]. intros (H1 & H2 & H3). split_and!; [done|done|].
  eapply kids_mono; [|exact H3]. intros lo2 hi2 c ps' Hsub. apply shaped_frame. auto.
Qed.

Lemma right_part_frame s s' n lo' hi' hi R ps :
  (forall q, q ∈ ps -> pages s' !! q = pages s !! q) ->
  right_part (shaped s n) lo' hi' hi R ps -> right_part (shaped s' n) lo' hi' hi R ps.
Proof.
  intros Hf. destruct R as [|[m c] es]; [done|]. intros (H1 & H2 & H3). split_and!; [done|done|].
  eapply kids_mono; [|exact H3]. intros lo2 hi2 c2 ps' Hsub. apply shaped_frame. auto.
Qed.

(** The siblings answer as before. *)
Lemma look_kids_frame s s' n lo hi l es ps k :
  (forall q, q ∈ ps -> pages s' !! q = pages s !! q) ->
  kids (shaped s n) lo hi l es ps -> look s' n (route l es k) k = look s n (route l es k) k.
Proof.
  intros Hf H. apply (kids_mono _ (fun lo hi c ps2 => shaped s n lo hi c ps2 /\ forall p, p ∈ ps2 -> p ∈ ps)) in H; [|auto].
  destruct (kids_child _ _ _ _ _ _ (fun c => look s' n c k = look s n c k) tt H) as [Hl Hc].
  { intros lo' hi' c ps2 [Hc Hsub]. eapply look_frame_shaped; [|exact Hc]. auto. }
  by apply (route_elem (fun c => look s' n c k = look s n c k)).
Qed.

Lemma look_past_frame s s' n lo lo' hi' hi L R ps1 ps2 k :
  (forall q, q ∈ ps1 ++ ps2 -> pages s' !! q = pages s !! q) ->
  left_part (shaped s n) lo lo' hi L ps1 -> right_part (shaped s n) lo' hi' hi R ps2 ->
  in_range lo hi k = true -> in_range lo' hi' k = false ->
  look s' n (past L R k) k = look s n (past L R k) k.
Proof.
  intros Hf HL HR Hk Hno. unfold past.
  assert (above lo' k = true ->
    let p := match R with (m, c) :: es => route c es k | [] => 0%N end in look s' n p k = look s n p k) as Hr.
  { intros Ha. destruct R as [|[m c] es]; cbn.
    - destruct HR as [-> _]. unfold in_range in *. rewrite Ha in Hno. cbn in Hno.
      apply andb_true_iff in Hk as [_ Hk]. congruence.
    - destruct HR as (_ & _ & HR). eapply look_kids_frame; [|exact HR]. set_solver. }
  destruct L as [[[l es] m]|].
  - destruct HL as (-> & _ & HL). destruct (kltb k m) eqn:E; [eapply look_kids_frame; [|exact HL]; set_solver|].
    apply Hr. cbn. key_order.
  - destruct HL as [-> _]. apply Hr. by apply andb_true_iff in Hk as [? _].
Qed.

(** * Going down *)

Lemma descend_way s root N k fuel : forall n lo hi p ps up rest,
  n <= fuel -> shaped s n lo hi p ps -> way s root N up n lo hi p rest -> in_range lo hi k = true ->
  exists path leaf n' lo' hi' rest' pg es,
    CowTree.descend_loop fuel (rev up) p k s = Some (Ok (path, leaf), s)
    /\ way s root N (rev path) (S n') lo' hi' leaf rest' /\ ps ++ rest ≡ₚ leaf :: rest'
    /\ pages s !! leaf = Some pg /\ content pg = LeafNode es /\ ksorted es /\ leaf_fits es /\ (leaf < 4294967296)%N
    /\ (forall x, x ∈ es.*1 -> in_range lo' hi' x = true) /\ in_range lo' hi' k = true.
Proof.
  induction fuel as [|fuel IH]; intros n lo hi p ps up rest Hn Hs Hway Hk; (destruct n as [|n]; [done|]); [lia|].
  pose proof Hs as (Hw & pg & E & H). cbn [CowTree.descend_loop]. rewrite (eff_run _ _ _ _ _ (read_page_run _ _ _ E)).
  destruct (content pg) as [es|l es|] eqn:Ec; [| |done].
  - destruct H as (-> & Hsort & Hin & Hfit). exists (rev up), p, n, lo, hi, rest, pg, es. rewrite rev_involutive. by split_and!.
  - destruct H as (ps' & -> & Hfit & H). pose proof (kids_sorted _ _ _ _ _ _ H) as Hsort.
    destruct (child_slot_route l es k Hsort) as [slot Hslot]. rewrite Hslot. cbn [lift].
    destruct (plug_open _ _ _ _ _ _ _ _ _ H Hk Hslot) as (L & R & lo' & hi' & ps1 & psc & ps2 & Hp & Hsl & -> & HL & HR & Hc & Hin).
    assert (way s root N ((p, slot) :: up) n lo' hi' (route l es k) (p :: ps1 ++ ps2 ++ rest)) as Hway'.
    { rewrite <- Hsl. eapply way_down; try done; by rewrite Hp. }
    destruct (IH n lo' hi' (route l es k) psc _ _ ltac:(lia) Hc Hway' Hin)
      as (path & leaf & n' & lo2 & hi2 & rest' & pg' & es' & Hd & Hw' & Hperm & Hrest).
    exists path, leaf, n', lo2, hi2, rest', pg', es'. split_and!; [|done| |apply Hrest..].
    + cbn [rev] in Hd. exact Hd.
    + rewrite <- Hperm. solve_Permutation.
Qed.

(** * Coming back up *)

(** The answers of a range come from its subtree. *)
Lemma way_look s root N up n lo hi c rest k :
  way s root N up n lo hi c rest -> in_range lo hi k = true -> look s N root k = look s n c k.
Proof.
  induction 1 as [|up n lo hi q rest pg L c R lo' hi' ps1 ps2 Hway IH Hq E Ec Hfit HL HR]; intros Hk; [done|].
  pose proof (hole_range _ _ _ _ _ _ _ _ _ _ HL HR Hk) as Hk'. rewrite (IH Hk'), (look_node s n q pg _ _ k E Ec).
  rewrite (plug_route _ lo lo' hi' hi L R c [] ps1 ps2 k HL HR) by (try done; by intros m _ x ?%not_elem_of_nil). by rewrite Hk.
Qed.

(** A subtree rewritten in place, with every other page as it was. *)
Lemma way_rebuild s root N up n lo hi c rest s' psc :
  way s root N up n lo hi c rest -> (forall q, q ∈ rest -> pages s' !! q = pages s !! q) ->
  shaped s' n lo hi c psc ->
  exists ps', shaped s' N None None root ps' /\ ps' ≡ₚ psc ++ rest
    /\ forall k, look s' N root k = if in_range lo hi k then look s' n c k else look s N root k.
Proof.
  intros Hway. revert psc. induction Hway as [|up n lo hi q rest pg L c R lo' hi' ps1 ps2 Hway IH Hq E Ec Hfit HL HR]; intros psc Hf Hc.
  { exists psc. rewrite app_nil_r. by split_and!. }
  assert (pages s' !! q = Some pg) as E' by (rewrite Hf; [done|by left]).
  apply (left_part_frame s s') in HL as HL'; [|intros; apply Hf; set_solver].
  apply (right_part_frame s s') in HR as HR'; [|intros; apply Hf; set_solver].
  assert (shaped s' (S n) lo hi q (q :: ps1 ++ psc ++ ps2)) as Hs.
  { eapply shaped_node; try done. by eapply plug_kids. }
  destruct (IH _ (fun q' Hq' => Hf q' ltac:(set_solver)) Hs) as (ps' & Hs' & Hperm & Hlook). exists ps'. split_and!; [done| |].
  - rewrite Hperm. solve_Permutation.
  - intros k. rewrite Hlook. destruct (in_range lo hi k) eqn:Ek.
    + assert (forall m, hi' = Some m -> forall x, x ∈ ([] : list (key * PageId)).*1 -> klt x m) as Hnil
        by (by intros m _ x ?%not_elem_of_nil).
      rewrite (look_node s' n q pg _ _ k E' Ec), (plug_route _ lo lo' hi' hi L R c [] ps1 ps2 k HL' HR' Hnil Ek). cbn [route].
      destruct (in_range lo' hi' k) eqn:Ek'; [done|].
      rewrite (way_look _ _ _ _ _ _ _ _ _ k Hway Ek), (look_node s n q pg _ _ k E Ec).
      rewrite (plug_route _ lo lo' hi' hi L R c [] ps1 ps2 k HL HR Hnil Ek), Ek'.
      eapply look_past_frame; [|done..]. intros; apply Hf. set_solver.
    + destruct (in_range lo' hi' k) eqn:Ek'; [|done].
      exfalso. rewrite (hole_range _ _ _ _ _ _ _ _ _ _ HL HR Ek') in Ek. done.
Qed.
