(* ===== verification/CowSteps.v ===== *)
(** What each primitive of a tree write does to the pages in use, exactly: the
    page it writes, the fresh page it takes, and every other page in use left
    alone. Nothing here can panic. *)
From S2P Require Import Prelude Eff Bytes Errors Keys Chunker CowStore CowTree CowRead CowLogic CowFrame CowIsolation CowBooks CowSnapshots.

#[local] Arguments lookup : simpl never.
#[local] Arguments insert : simpl never.

(** * Runs that do not panic *)

Definition ran {S A : Type} (m : Eff S A) (s : S) (Φ : Result FerroError A -> S -> Prop) : Prop :=
  match m s with Some (r, s') => Φ r s' | None => False end.

Section ran.
Context {S : Type}.

Lemma ran_mono {A : Type} (m : Eff S A) s (Φ Ψ : _ -> _ -> Prop) :
  (forall r s', Φ r s' -> Ψ r s') -> ran m s Φ -> ran m s Ψ.
Proof. unfold ran. destruct (m s) as [[r s']|]; auto. Qed.

Lemma ran_bind {A B : Type} (m : Eff S A) (k : A -> Eff S B) s Φ :
  ran m s (fun r s' => match r with Ok a => ran (k a) s' Φ | Err e => Φ (Err e) s' end) -> ran (m ≫= k) s Φ.
Proof. unfold ran, mbind, eff_bind. destruct (m s) as [[[a|e] s']|]; auto. Qed.

Lemma ran_at {A : Type} (a : A) o (s : S) (Φ : Result FerroError A -> S -> Prop) :
  o = Some a -> Φ (Ok a) s -> ran (at_index o) s Φ.
Proof. by intros ->. Qed.

Definition steady {A : Type} (m : Eff S A) : Prop := forall s, is_Some (m s).

Lemma steady_bind {A B : Type} (m : Eff S A) (k : A -> Eff S B) : steady m -> (forall a, steady (k a)) -> steady (m ≫= k).
Proof. intros Hm Hk s. unfold mbind, eff_bind. destruct (Hm s) as [[[a|e] s'] ->]; [apply Hk|by eexists]. Qed.
Lemma steady_ret {A : Type} (a : A) : steady (mret a).
Proof. by eexists. Qed.
Lemma steady_lift {A : Type} (r : Result FerroError A) : steady (lift r).
Proof. by eexists. Qed.
Lemma steady_throw {A : Type} e : steady (throw (A := A) e).
Proof. by eexists. Qed.
Lemma steady_set f : steady (eset f).
Proof. by eexists. Qed.
Lemma steady_get : steady eget.
Proof. by eexists. Qed.

Lemma ran_runs {A : Type} (m : Eff S A) s Φ : steady m -> runs m s Φ -> ran m s Φ.
Proof. intros Ht. unfold runs, ran. by destruct (Ht s) as [[r s'] ->]. Qed.

End ran.

Create HintDb cow_steady.
#[export] Hint Resolve steady_ret steady_lift steady_throw steady_set steady_get : cow_steady.
Ltac steady := repeat (first [solve [eauto with cow_steady] | apply steady_bind; [|intros] | case_goal]).

Lemma steady_take_page a : steady (take_page a).
Proof. unfold take_page, set_extent. steady. Qed.
Lemma steady_allocate : steady allocate.
Proof. unfold allocate. steady. Qed.
#[export] Hint Resolve steady_take_page steady_allocate : cow_steady.
Lemma steady_reserve_loop fuel count start have attempts : steady (reserve_loop fuel count start have attempts).
Proof. revert start have attempts. induction fuel as [|fuel IH]; intros; cbn [reserve_loop]; steady. Qed.
#[export] Hint Resolve steady_reserve_loop : cow_steady.
Lemma steady_arena_for b : steady (arena_for b).
Proof. unfold arena_for, alloc_arena, reserve_extent, meta, set_extent. steady. Qed.
Lemma steady_alloc_in a ty birth : steady (alloc_in_arena a ty birth).
Proof. unfold alloc_in_arena, write_page. steady. Qed.
#[export] Hint Resolve steady_arena_for steady_alloc_in : cow_steady.
Lemma steady_alloc_for b ty epoch : steady (alloc_for b ty epoch).
Proof. unfold alloc_for. steady. Qed.
Lemma steady_cow_page p b epoch : steady (cow_page p b epoch).
Proof. unfold cow_page, read_page, meta, write_page. steady. Qed.
#[export] Hint Resolve steady_alloc_for steady_cow_page : cow_steady.

(** * Pages in use *)

Definition in_use (s : CowStore) (p : PageId) : Prop := exists a, issued s a p.

Definition nothing (p : PageId) : Prop := False.

(** [s'] is [s] with the pages of [X] rewritten and perhaps more pages in use. *)
Record advance (X : PageId -> Prop) (s s' : CowStore) : Prop := mkAdvance {
  adv_ok : store_ok s';
  adv_use p : in_use s p -> in_use s' p;
  adv_pages p : in_use s p -> ~ X p -> pages s' !! p = pages s !! p
}.

Lemma adv_same s s' p : advance nothing s s' -> in_use s p -> pages s' !! p = pages s !! p.
Proof. intros Ha Hp. exact (adv_pages _ _ _ Ha p Hp (fun H => H)). Qed.

Lemma advance_refl X s : store_ok s -> advance X s s.
Proof. intros H. by split. Qed.

Lemma advance_trans X s1 s2 s3 : advance X s1 s2 -> advance X s2 s3 -> advance X s1 s3.
Proof.
  intros [_ U1 P1] [O2 U2 P2]. split; [done|auto|]. intros p Hp HX. rewrite P2, P1; auto.
Qed.

Lemma advance_then (X Y : PageId -> Prop) s1 s2 s3 :
  advance X s1 s2 -> advance Y s2 s3 -> (forall p, in_use s1 p -> Y p -> X p) -> advance X s1 s3.
Proof.
  intros [_ U1 P1] [O2 U2 P2] H. split; [done|auto|]. intros p Hp HX. rewrite P2; [auto|auto|]. intros HY. by apply HX, H.
Qed.

Lemma advance_weaken (X Y : PageId -> Prop) s s' : (forall p, in_use s p -> X p -> Y p) -> advance X s s' -> advance Y s s'.
Proof. intros H [O U P]. split; [done|done|]. intros p Hp HY. apply P; [done|]. intros HX. by apply HY, H. Qed.

Lemma advance_evolves s s' : store_ok s -> keeps s s' -> evolves s s' -> advance nothing s s'.
Proof.
  intros Hok Hk [Hb Hp]. split; [apply Hk| |].
  - intros p [a Ha]. exists a. by eapply issued_books.
  - intros p [a Ha] _. destruct (Hp p) as [|Hav]; [done|]. by destruct (issued_not_avail s a p Hok Ha).
Qed.

Lemma in_use_width s p : store_ok s -> in_use s p -> (p < 4294967296)%N.
Proof. intros Hok [a Ha]. by eapply issued_width. Qed.

(** * Fresh pages *)

Lemma take_page_issues s a : store_ok s -> runs (take_page a) s (fun r s' => forall p, r = Ok p -> issued s' a p).
Proof.
  intros Hok. unfold take_page. run. destruct (extents s !! a) as [st|] eqn:E; cbn [ok_or]; [|done].
  pose proof (so_extent s Hok a st E) as [Hx1 Hx2 Hx3]. destruct (vec_pop (free_pages st)) as [[p rest]|] eqn:Ep.
  - apply vec_pop_Some in Ep. unfold set_extent. run. intros q [= <-]. rewrite Ep in Hx2, Hx3.
    eexists. cbn. rewrite lookup_insert_eq. split; [done|]. cbn. split; [apply Hx3; set_solver|].
    apply NoDup_app in Hx2 as (_ & Hd & _). intros Hin. apply (Hd p Hin). by left.
  - destruct (_ <=? _)%N eqn:El; [by run|]. unfold set_extent. run. intros q [= <-].
    eexists. cbn. rewrite lookup_insert_eq. split; [done|]. cbn. split; [lia|]. intros Hin%Hx3. lia.
Qed.

(** A page just taken: not in use before, in use now, with a page behind it. *)
Definition taken (s s' : CowStore) (p : PageId) (c : Content) : Prop :=
  ~ in_use s p /\ in_use s' p /\ exists pg, pages s' !! p = Some pg /\ content pg = c.

Lemma alloc_in_arena_takes s a ty birth : store_ok s ->
  runs (alloc_in_arena a ty birth) s (fun r s' => advance nothing s s' /\ forall p, r = Ok p -> taken s s' p (zeroed ty)).
Proof.
  intros Hok. pose proof (so_known s Hok) as Hk.
  eapply runs_mono; [|apply runs_both; [apply runs_both|];
    [exact (alloc_in_arena_keeps s s a ty birth (keeps_refl s Hok))|
     exact (alloc_in_arena_runs s s a ty birth (evolves_refl s Hk))|]].
  - intros r s' [[[Hke _] [Hev Hav]] H]. split; [by apply advance_evolves|]. intros p Hr. split.
    + intros [a' Ha']. by apply (issued_not_avail s a' p Hok Ha'), Hav.
    + exact (H p Hr).
  - unfold alloc_in_arena. run_step. eapply runs_mono; [|by apply take_page_issues].
    intros [p|e] s1 Hi; [|by cbn]. unfold write_page. run. intros q [= <-]. destruct (Hi p eq_refl) as (st & E & H).
    split; [exists a, st; done|]. cbn. rewrite lookup_insert_eq. by eexists.
Qed.

Lemma arena_for_advance s b : store_ok s -> runs (arena_for b) s (fun _ s' => advance nothing s s').
Proof.
  intros Hok. pose proof (so_known s Hok) as Hk.
  eapply runs_mono; [|exact (runs_both _ _ _ _ (arena_for_keeps s b Hok) (arena_for_runs s b Hk))].
  intros r s' [[Hke _] Hev]. by apply advance_evolves.
Qed.

Lemma taken_after s s1 s2 p c : advance nothing s s1 -> taken s1 s2 p c -> taken s s2 p c.
Proof. intros Ha (Hn & H). split; [|done]. intros Hu. by apply Hn, (adv_use _ _ _ Ha). Qed.

Lemma alloc_for_takes s b ty epoch : store_ok s ->
  runs (alloc_for b ty epoch) s (fun r s' => advance nothing s s' /\ forall p, r = Ok p -> taken s s' p (zeroed ty)).
Proof.
  intros Hok. unfold alloc_for. run_step. eapply runs_mono; [|by apply arena_for_advance].
  intros [a|e] s1 Ha; [|done]. eapply runs_mono; [|apply alloc_in_arena_takes, Ha].
  intros r s2 [Ha2 Ht]. split; [by eapply advance_trans|]. intros p Hr. eapply taken_after; [done|auto].
Qed.

(** The page to write in place of [p]: itself, or a fresh copy. *)
Definition shadows (s s' : CowStore) (p p' : PageId) (c : Content) : Prop :=
  (p' = p \/ ~ in_use s p') /\ in_use s' p' /\ exists pg, pages s' !! p' = Some pg /\ content pg = c.

Lemma advance_fresh s s' p pg : store_ok s' -> advance nothing s s' -> ~ in_use s p -> placed s' (arena_id pg) p ->
  advance nothing s (s' <| pages := <[p := pg]> (pages s') |>).
Proof.
  intros Hok [_ U P] Hn Hp. split.
  - apply (keeps_write s' s'); [by apply keeps_refl|done].
  - intros q Hq. apply (U q Hq).
  - intros q Hq HX. cbn. rewrite lookup_insert_ne; [by apply P|]. by intros ->.
Qed.

Lemma cow_page_shadows s p pg b epoch : store_ok s -> in_use s p -> pages s !! p = Some pg ->
  runs (cow_page p b epoch) s (fun r s' => advance nothing s s' /\
    forall cp, r = Ok cp -> cp_previous cp = p /\ (retire_previous cp = true -> ~ in_use s (cp_page cp))
      /\ shadows s s' p (cp_page cp) (content pg)).
Proof.
  intros Hok Hu E. unfold cow_page, read_page, meta. run. rewrite E. cbn [ok_or]. run.
  destruct (branches s !! b) as [m|]; cbn [ok_or]; [|split; [by apply advance_refl|done]]. run.
  destruct (privacy s pg b m epoch).
  { run. split; [by apply advance_refl|]. intros cp [= <-]. split_and!; [done|done|]. split; [by left|]. split; [done|]. by exists pg. }
  run_step. eapply runs_mono; [|by apply arena_for_advance]. intros [a|e] s1 Ha; [|done]. cbn. run_step.
  eapply runs_mono; [|exact (runs_both _ _ _ _ (alloc_in_arena_takes s1 a (page_type pg) epoch (adv_ok _ _ _ Ha))
    (alloc_in_arena_keeps s1 s1 a (page_type pg) epoch (keeps_refl s1 (adv_ok _ _ _ Ha))))].
  intros [new|e] s2 [[Ha2 Ht] [_ Hpl]]; cbn; [|split; [by eapply advance_trans|done]]. unfold write_page. run.
  destruct (Ht new eq_refl) as (Hn & Hnu & _).
  assert (~ in_use s new) as Hns by (intros H; by apply Hn, (adv_use _ _ _ Ha)). split.
  - apply advance_fresh; [apply Ha2|by eapply advance_trans|done|]. cbn. by apply Hpl.
  - intros cp [= <-]. split_and!; [done|done|]. split; [by right|]. split; [exact Hnu|]. cbn. rewrite lookup_insert_eq. by eexists.
Qed.

(** * The same, inside a write *)

Definition wrote {A : Type} (m : W A) (w : Writing) (Φ : Result FerroError A -> CowStore -> Prop) : Prop :=
  ran m w (fun r w' => Φ r (w_store w')).

Lemma wrote_mono {A : Type} (m : W A) w (Φ Ψ : _ -> _ -> Prop) :
  (forall r s', Φ r s' -> Ψ r s') -> wrote m w Φ -> wrote m w Ψ.
Proof. intros H. apply ran_mono. auto. Qed.

Lemma wrote_bind {A B : Type} (m : W A) (k : A -> W B) w (Φ : _ -> _ -> Prop) (Ψ : _ -> _ -> Prop) :
  wrote m w Φ -> (forall e s', Φ (Err e) s' -> Ψ (Err e) s') ->
  (forall a w', Φ (Ok a) (w_store w') -> wrote (k a) w' Ψ) -> wrote (m ≫= k) w Ψ.
Proof.
  intros Hm He Hk. apply ran_bind. eapply ran_mono; [|exact Hm]. intros [a|e] w' H; [by apply Hk|by apply He].
Qed.

Lemma wrote_ret {A : Type} (a : A) w (Φ : _ -> _ -> Prop) : Φ (Ok a) (w_store w) -> wrote (mret a) w Φ.
Proof. done. Qed.
Lemma wrote_throw {A : Type} e w (Φ : Result FerroError A -> _ -> Prop) : Φ (Err e) (w_store w) -> wrote (throw e) w Φ.
Proof. done. Qed.
Lemma wrote_lift {A : Type} (r : Result FerroError A) w (Φ : _ -> _ -> Prop) : Φ r (w_store w) -> wrote (lift r) w Φ.
Proof. done. Qed.
Lemma wrote_at {A : Type} (a : A) o w (Φ : _ -> _ -> Prop) : o = Some a -> Φ (Ok a) (w_store w) -> wrote (at_index o) w Φ.
Proof. by intros ->. Qed.

Lemma wrote_at_bind {A B : Type} (a : A) o (k : A -> W B) w Φ : o = Some a -> wrote (k a) w Φ -> wrote (at_index o ≫= k) w Φ.
Proof. intros ->. done. Qed.

Lemma wrote_store {A : Type} (m : Eff CowStore A) w (Φ : _ -> _ -> Prop) :
  ran m (w_store w) Φ -> wrote (on_store m) w Φ.
Proof. unfold wrote, ran, on_store. by destruct (m (w_store w)) as [[r s']|]. Qed.

Lemma wrote_put w p c : store_ok (w_store w) -> in_use (w_store w) p -> is_Some (pages (w_store w) !! p) ->
  wrote (put_content p c) w (fun r s' => r = Ok tt /\ advance (fun q => q = p) (w_store w) s'
    /\ exists pg, pages s' !! p = Some pg /\ content pg = c).
Proof.
  intros Hok Hu [pg E]. unfold wrote, ran, put_content, mbind, W_bind, eff_bind, on_store, eget, at_index, write_page, eset.
  cbn [w_store]. rewrite E. cbn [w_store]. split_and!; [done| |].
  - split.
    + apply (keeps_write (w_store w) (w_store w)); [by apply keeps_refl|]. exact (so_tags _ Hok p pg E).
    + by intros q Hq.
    + intros q _ Hne. cbn. by rewrite lookup_insert_ne.
  - cbn. rewrite lookup_insert_eq. by eexists.
Qed.

(** The page shadowed is retired only when another takes its place. *)
Lemma ran_shadow w p pg b epoch : store_ok (w_store w) -> in_use (w_store w) p -> pages (w_store w) !! p = Some pg ->
  ran (shadow p b epoch) w (fun r w' => advance nothing (w_store w) (w_store w') /\
    forall cp, r = Ok cp -> shadows (w_store w) (w_store w') p (cp_page cp) (content pg) /\
      (retired w' = retired w \/ retired w' = retired w ++ [p] /\ cp_page cp <> p)).
Proof.
  intros Hok Hu E. unfold shadow. apply ran_bind.
  pose proof (ran_runs _ _ _ (steady_cow_page p b epoch) (cow_page_shadows _ _ _ b epoch Hok Hu E)) as H.
  unfold ran, on_store in *. destruct (cow_page p b epoch (w_store w)) as [[[cp|e] s1]|]; [| |done].
  2: { by destruct H. }
  destruct H as [Ha Hcp]. destruct (Hcp cp eq_refl) as (Hprev & Hret & Hsh).
  set (w1 := mkWriting s1 (undo w) (retired w)).
  assert (exists w2, record_page cp w1 = Some (Ok tt, w2) /\ w_store w2 = s1 /\ retired w2 = retired w) as (w2 & Hr & E2 & R2).
  { unfold record_page. destruct (_ || _); [by exists w1|]. destruct Hsh as (_ & _ & pg' & Hp & _). cbn. rewrite Hp. by eexists. }
  unfold mbind, W_bind, eff_bind. rewrite Hr. destruct (retire_previous cp) eqn:Er; cbn; (split; [by rewrite E2|]); intros cp' [= <-]; rewrite E2, R2.
  - split; [done|]. right. rewrite Hprev. split; [done|]. intros Heq. apply (Hret eq_refl). by rewrite Heq.
  - auto.
Qed.

(** * Steps that retire nothing *)

Definition quiet {A : Type} (m : W A) : Prop := forall w, runs m w (fun _ w' => retired w' = retired w).

Lemma quiet_bind {A B : Type} (m : W A) (k : A -> W B) : quiet m -> (forall a, quiet (k a)) -> quiet (m ≫= k).
Proof.
  intros Hm Hk w. specialize (Hm w). unfold quiet, runs, mbind, W_bind, eff_bind in *. destruct (m w) as [[[a|e] w']|]; [|done|done].
  specialize (Hk a w'). destruct (k a w') as [[r w2]|]; [congruence|done].
Qed.
Lemma quiet_ret {A : Type} (a : A) : quiet (mret a).
Proof. by intros w. Qed.
Lemma quiet_throw {A : Type} e : quiet (throw (A := A) e).
Proof. by intros w. Qed.
Lemma quiet_lift {A : Type} (r : Result FerroError A) : quiet (lift r).
Proof. by intros w. Qed.
Lemma quiet_at {A : Type} (o : option A) : quiet (at_index o).
Proof. intros w. by destruct o. Qed.
Lemma quiet_store {A : Type} (m : Eff CowStore A) : quiet (on_store m).
Proof. intros w. unfold runs, on_store. by destruct (m (w_store w)) as [[r s']|]. Qed.

Create HintDb cow_quiet.
#[export] Hint Resolve quiet_ret quiet_throw quiet_lift quiet_at quiet_store : cow_quiet.
Ltac quiet := repeat (first [solve [eauto with cow_quiet] | apply quiet_bind; [|intros] | case_goal]).

Lemma quiet_fill_leaf p es : quiet (fill_leaf p es).
Proof. unfold fill_leaf, put_content. quiet. Qed.
Lemma quiet_fill_internal p l es : quiet (fill_internal p l es).
Proof. unfold fill_internal, put_content. quiet. Qed.
#[export] Hint Resolve quiet_fill_leaf quiet_fill_internal : cow_quiet.
Lemma quiet_spill_leaves es cuts b epoch : quiet (CowTree.spill_leaves es cuts b epoch).
Proof. induction cuts as [|c cuts IH]; cbn [CowTree.spill_leaves]; quiet. Qed.
Lemma quiet_spill_internals es cuts b epoch : quiet (CowTree.spill_internals es cuts b epoch).
Proof. induction cuts as [|c cuts IH]; cbn [CowTree.spill_internals]; quiet. Qed.
#[export] Hint Resolve quiet_spill_leaves quiet_spill_internals : cow_quiet.
Lemma quiet_leaf_chunked p es b epoch : quiet (CowTree.write_leaf_chunked p es b epoch).
Proof. unfold CowTree.write_leaf_chunked. quiet. Qed.
#[export] Hint Resolve quiet_leaf_chunked : cow_quiet.
Lemma quiet_leaf_put p b epoch k v : quiet (CowTree.leaf_put p b epoch k v).
Proof. unfold CowTree.leaf_put, leaf_of, put_content. quiet. Qed.
Lemma quiet_internal_relink p slot c sp b epoch : quiet (CowTree.internal_relink p slot c sp b epoch).
Proof. unfold CowTree.internal_relink, internal_of, put_content. quiet. Qed.
#[export] Hint Resolve quiet_leaf_put quiet_internal_relink : cow_quiet.

Lemma ran_wrote {A B : Type} (m : W A) (k : A -> W B) w (Φ : _ -> _ -> Prop) (Ψ : _ -> _ -> Prop) :
  wrote m w Φ -> quiet m -> (forall e w', Φ (Err e) (w_store w') -> Ψ (Err e) w') ->
  (forall a w', Φ (Ok a) (w_store w') -> retired w' = retired w -> ran (k a) w' Ψ) -> ran (m ≫= k) w Ψ.
Proof.
  intros Hm Hq He Hk. apply ran_bind. specialize (Hq w). unfold wrote, ran, runs in *.
  destruct (m w) as [[[a|e] w']|]; [by apply Hk|by apply He|done].
Qed.
