(* ===== verification/CowLeaf.v ===== *)
(** Writing a leaf: whatever the rows hash to, the pages a leaf is cut into
    form a run of leaves with separators between them that holds exactly the
    rows. *)
From S2P Require Import Prelude Eff Bytes Errors Keys Chunker CowStore CowTree CowRead CowIsolation CowBooks Merge3 Merge3Props CowShape CowSteps.

#[local] Arguments lookup : simpl never.

(** * Rows cut in two *)

Lemma succ_above k : klt k (successor_of k).
Proof.
  unfold successor_of, klt. induction k as [|x k IH]; cbn; [done|]. by rewrite N.compare_refl.
Qed.

Lemma succ_least k x : klt k x -> ~ klt x (successor_of k).
Proof.
  unfold successor_of, klt. revert x. induction k as [|a k IH]; intros [|b x]; cbn; try done.
  - destruct (N.compare_spec (byteN b) (byteN (u8 0))) as [E|E|E]; [by destruct x| |done].
    assert (byteN (u8 0) = 0%N) as H0 by reflexivity. rewrite H0 in E. destruct (N.nlt_0_r _ E).
  - destruct (N.compare_spec (byteN a) (byteN b)) as [E|E|E]; [|intros _|done].
    + rewrite E, N.compare_refl. apply IH.
    + destruct (N.compare_spec (byteN b) (byteN a)) as [E'|E'|E']; [lia|lia|done].
Qed.

Section cut.
Context {V : Type}.
Implicit Types es : list (key * V).

(** The separator behind entry [i - 1] tells the rows before [i] from the rest. *)
Lemma cut_below es i e k : ksorted es -> es !! (i - 1) = Some e -> 0 < i -> k ∈ (take i es).*1 -> klt k (successor_of e.1).
Proof.
  intros Hs He Hi Hk. apply list_elem_of_fmap in Hk as ([x v] & -> & (j & Hj & Hlt)%elem_of_take). cbn.
  destruct (decide (j = i - 1)) as [->|].
  - rewrite He in Hj. injection Hj as ->. apply succ_above.
  - pose proof (sorted_lookup klt es.*1 j (i - 1) x e.1 Hs ltac:(lia)) as H. rewrite !list_lookup_fmap, Hj, He in H.
    specialize (H eq_refl eq_refl). pose proof (succ_above e.1). key_order.
Qed.

Lemma cut_above es i e k : ksorted es -> es !! (i - 1) = Some e -> 0 < i -> k ∈ (drop i es).*1 -> ~ klt k (successor_of e.1).
Proof.
  intros Hs He Hi Hk. apply list_elem_of_fmap in Hk as ([x v] & -> & (j & Hj)%list_elem_of_lookup). rewrite lookup_drop in Hj. cbn.
  apply succ_least. pose proof (sorted_lookup klt es.*1 (i - 1) (i + j) e.1 x Hs ltac:(lia)) as H.
  rewrite !list_lookup_fmap, Hj, He in H. by apply H.
Qed.

Lemma kget_cut es i e k : ksorted es -> es !! (i - 1) = Some e -> 0 < i ->
  kget k es = if kltb k (successor_of e.1) then kget k (take i es) else kget k (drop i es).
Proof.
  intros Hs He Hi. rewrite <- (take_drop i es) at 1. rewrite kget_app. destruct (kltb k (successor_of e.1)) eqn:E.
  - destruct (kget k (take i es)) eqn:Ek; [done|]. apply kget_None. intros Hin. apply (cut_above es i e k Hs He Hi Hin). by apply kltb_lt.
  - destruct (kget k (take i es)) eqn:Ek; [|done]. exfalso.
    assert (k ∈ (take i es).*1) as Hin.
    { apply dec_stable. intros H. apply kget_None in H. congruence. }
    pose proof (cut_below es i e k Hs He Hi Hin). key_order.
Qed.

Lemma ksorted_take es i : ksorted es -> ksorted (take i es).
Proof. intros H. rewrite <- (take_drop i es) in H. by apply ksorted_app in H as [? _]. Qed.
Lemma ksorted_drop es i : ksorted es -> ksorted (drop i es).
Proof. intros H. rewrite <- (take_drop i es) in H. by apply ksorted_app in H as (_ & ? & _). Qed.

End cut.

(** * Filling a page *)

Lemma fill_count_le room sizes : fill_count room sizes <= length sizes.
Proof. revert room. induction sizes as [|s sizes IH]; intros room; cbn; [done|]. destruct (_ <=? _)%N; [specialize (IH (room - s)%N)|]; lia. Qed.

Lemma fill_count_all room sizes : length sizes <= fill_count room sizes -> Forall (fun s => (s <= room)%N) sizes.
Proof.
  revert room. induction sizes as [|s sizes IH]; intros room; cbn; [constructor|]. destruct (N.leb_spec s room); [|lia].
  intros Hl. constructor; [done|]. eapply Forall_impl; [apply IH; by apply le_S_n|]. cbn. lia.
Qed.

Lemma wrote_fill_leaf w p es : store_ok (w_store w) -> in_use (w_store w) p -> is_Some (pages (w_store w) !! p) ->
  wrote (fill_leaf p es) w (fun r s' => advance (fun q => q = p) (w_store w) s'
    /\ (r = Ok tt -> exists pg, pages s' !! p = Some pg /\ content pg = LeafNode es)).
Proof.
  intros Hok Hu Hp. unfold fill_leaf. eapply wrote_bind; [by apply wrote_put| |].
  - by intros e s' [? _].
  - intros _ w' (_ & Ha & Hc). destruct (_ <? _) eqn:E; [by apply wrote_throw|]. apply wrote_ret. split; [done|]. intros _.
    apply Nat.ltb_ge in E. by rewrite take_ge in Hc.
Qed.

Lemma wrote_fill_internal w p l es : store_ok (w_store w) -> in_use (w_store w) p -> is_Some (pages (w_store w) !! p) ->
  wrote (fill_internal p l es) w (fun r s' => advance (fun q => q = p) (w_store w) s'
    /\ (r = Ok tt -> node_fits es /\ exists pg, pages s' !! p = Some pg /\ content pg = InternalNode l es)).
Proof.
  intros Hok Hu Hp. unfold fill_internal. eapply wrote_bind; [by apply wrote_put| |].
  - by intros e s' [? _].
  - intros _ w' (_ & Ha & Hc). destruct (_ <? _) eqn:E; [by apply wrote_throw|]. apply wrote_ret. split; [done|]. intros _.
    apply Nat.ltb_ge in E. rewrite take_ge in Hc by done. split; [|done].
    assert (Forall (fun s => (s <= NODE_CAPACITY)%N) (internal_sizes es)) as H; [|exact (proj1 (Forall_fmap _ _ _) H)].
    apply fill_count_all. unfold internal_sizes in *. by rewrite length_map.
Qed.

(** * A run of fresh subtrees *)

(** [c] and the subtrees behind the separators of [run] cover [lo, hi) on pages
    that are each in use once; those not in [own] were taken since [s]. *)
Definition sprouts (s s' : CowStore) (own : PageId -> Prop) (n : nat) (lo hi : option key) (c : PageId)
    (run : list (key * PageId)) (ps : list PageId) : Prop :=
  kids (shaped s' n) lo hi c run ps /\ NoDup ps /\ forall p, p ∈ ps -> in_use s' p /\ (own p \/ ~ in_use s p).

Lemma slice_some {A : Type} a b (l : list A) : a <= b -> b <= length l -> slice a b l = Some (take (b - a) (drop a l)).
Proof. intros H1 H2. unfold slice. by rewrite (proj2 (Nat.leb_le _ _) H1), (proj2 (Nat.leb_le _ _) H2). Qed.

Lemma kids_frame s s' n lo hi l es ps :
  (forall q, q ∈ ps -> pages s' !! q = pages s !! q) -> kids (shaped s n) lo hi l es ps -> kids (shaped s' n) lo hi l es ps.
Proof. intros Hf. apply kids_mono. intros lo2 hi2 c ps' Hsub. apply shaped_frame. auto. Qed.

(** What a spill promises of the rows from [start] on. *)
Definition spilled (s s' : CowStore) (n : nat) (hi : option key) (es : LeafEntries) (start : nat) (sp : Split) : Prop :=
  exists e p run ps, es !! (start - 1) = Some e /\ sp = (successor_of e.1, p) :: run
    /\ sprouts s s' (fun _ => False) (S n) (Some (successor_of e.1)) hi p run ps
    /\ forall k, ~ klt k (successor_of e.1) -> look s' (S n) (route p run k) k = kget k (drop start es).

(** A separator inside a leaf's rows lies inside the leaf's range. *)
Lemma sep_inside (es : LeafEntries) i hi e lo : ksorted es -> (forall k, k ∈ es.*1 -> under hi k = true) ->
  es !! (i - 1) = Some e -> 0 < i < length es -> above lo e.1 = true -> inside lo hi (successor_of e.1) = true.
Proof.
  intros Hs Hhi He Hi Hlo. destruct (lookup_lt_is_Some_2 es i) as [x Hx]; [lia|]. pose proof (succ_above e.1) as Hse.
  apply andb_true_iff. split; [destruct lo; cbn in *; [key_order|done]|].
  assert (~ klt x.1 (successor_of e.1)) as Hxs.
  { eapply cut_above; [exact Hs|exact He|lia|]. apply list_elem_of_fmap_2, list_elem_of_lookup. exists 0. by rewrite lookup_drop, Nat.add_0_r. }
  assert (under hi x.1 = true) as Hux by (apply Hhi, list_elem_of_fmap_2, list_elem_of_lookup; eauto).
  destruct hi; cbn in *; [key_order|done].
Qed.

Section spill.
Context (es : LeafEntries) (b : BranchId) (epoch : Epoch) (hi : option key) (n : nat)
  (Hsort : ksorted es) (Hfit : leaf_fits es) (Hhi : forall k, k ∈ es.*1 -> under hi k = true).

Lemma wrote_spill_leaves cuts : forall w, store_ok (w_store w) -> StronglySorted lt cuts ->
  Forall (fun c => 0 < c < length es) cuts ->
  wrote (CowTree.spill_leaves es cuts b epoch) w (fun r s' => advance nothing (w_store w) s' /\ forall sp, r = Ok sp ->
    match cuts with [] => sp = [] | start :: _ => spilled (w_store w) s' n hi es start sp end).
Proof using Hsort Hfit Hhi.
  induction cuts as [|start rest IH]; intros w Hok Hs Hb; cbn [CowTree.spill_leaves].
  { apply wrote_ret. split; [by apply advance_refl|]. by intros sp [= <-]. }
  apply StronglySorted_inv in Hs as [Hs Hlt]. apply Forall_cons in Hb as [Hst Hb].
  set (stop := match rest with x :: _ => x | [] => length es end).
  assert (start < stop /\ stop <= length es) as [Hss Hsl].
  { unfold stop. destruct rest as [|x rest]; [lia|]. apply Forall_cons in Hlt as [? _]. apply Forall_cons in Hb as [? _]. lia. }
  destruct (lookup_lt_is_Some_2 es (start - 1)) as [e He]; [lia|].
  eapply wrote_bind; [apply wrote_store, ran_runs; [apply steady_alloc_for|by apply alloc_for_takes]|by intros x s' [? _]|].
  intros p w1 [Ha1 Ht]. destruct (Ht p eq_refl) as (Hn & Hu & pg & E & _).
  eapply wrote_at_bind; [apply slice_some; lia|].
  assert (forall s2, advance (fun q => q = p) (w_store w1) s2 -> advance nothing (w_store w) s2) as Hadv.
  { intros s2 H2. eapply advance_then; [exact Ha1|exact H2|]. by intros q Hq ->. }
  eapply wrote_bind; [apply wrote_fill_leaf; [apply Ha1|done|by eexists]|intros x s' [? _]; split; [auto|done]|].
  intros [] w2 [Ha2 Hc]. destruct (Hc eq_refl) as (pg2 & E2 & Ec2). specialize (Hadv _ Ha2).
  eapply wrote_at_bind; [exact He|].
  eapply wrote_bind; [apply IH; [apply Ha2|done|done]|intros x s' [Ha3 _]; split; [by eapply advance_trans|done]|].
  intros sp w3 [Ha3 Hsp]. apply wrote_ret. split; [by eapply advance_trans|]. intros sp' [= <-].
  assert (in_use (w_store w2) p) as Hu2 by (by apply (adv_use _ _ _ Ha2)).
  assert (pages (w_store w3) !! p = Some pg2) as E3 by (by rewrite (adv_same _ _ _ Ha3 Hu2)).
  set (piece := take (stop - start) (drop start es)) in *.
  assert (forall hi', (forall k, k ∈ piece.*1 -> under hi' k = true) ->
    shaped (w_store w3) (S n) (Some (successor_of e.1)) hi' p [p]) as Hleaf.
  { intros hi' Hh. eapply shaped_leaf; [exact (in_use_width _ _ (adv_ok _ _ _ Ha2) Hu2)|exact E3|exact Ec2|..].
    - by apply ksorted_take, ksorted_drop.
    - intros k Hk. apply andb_true_iff. split; [|by apply Hh]. cbn. apply kleb_le. eapply cut_above; [exact Hsort|exact He|lia|].
      apply list_elem_of_fmap in Hk as (x & -> & (j & Hj & _)%elem_of_take). apply list_elem_of_fmap_2, list_elem_of_lookup. eauto.
    - by apply Forall_take, Forall_drop. }
  assert (forall k, look (w_store w3) (S n) p k = kget k piece) as Hlk.
  { intros k. cbn [look]. rewrite E3. cbn. by rewrite Ec2. }
  exists e, p. destruct rest as [|start' rest].
  - rewrite (Hsp _ eq_refl). exists [], [p]. split_and!; [done|done| |].
    + split_and!; [|by repeat constructor; intros ?%not_elem_of_nil|].
      * apply Hleaf. intros k Hk. apply Hhi. unfold piece, stop in Hk. rewrite take_ge in Hk by (rewrite length_drop; lia).
        apply list_elem_of_fmap in Hk as (x & -> & (j & Hj)%list_elem_of_lookup). rewrite lookup_drop in Hj.
        apply list_elem_of_fmap_2, list_elem_of_lookup. eauto.
      * intros q ->%list_elem_of_singleton. split; [by apply (adv_use _ _ _ Ha3)|by right].
    + intros k Hk. cbn [route]. rewrite Hlk. unfold piece, stop. by rewrite take_ge by (rewrite length_drop; lia).
  - destruct (Hsp _ eq_refl) as (e' & p' & run & ps & He' & -> & (Hkids & Hnd & Hps) & Hlook).
    apply Forall_cons in Hlt as [Hlt _]. apply Forall_cons in Hb as [Hb _]. cbn in stop.
    assert (drop start es !! (start' - start - 1) = Some e') as Hee.
    { rewrite lookup_drop. rewrite <- He'. f_equal. lia. }
    assert (piece = take (start' - start) (drop start es)) as Hpiece by done.
    assert (inside (Some (successor_of e.1)) hi (successor_of e'.1) = true) as Hin.
    { apply (sep_inside es start' hi e' (Some (successor_of e.1))); [done|done|done|lia|].
      pose proof (sorted_lookup klt es.*1 (start - 1) (start' - 1) e.1 e'.1 Hsort ltac:(lia)) as H.
      rewrite !list_lookup_fmap, He, He' in H. specialize (H eq_refl eq_refl). cbn. pose proof (succ_least _ _ H). key_order. }
    exists ((successor_of e'.1, p') :: run), (p :: ps). split_and!; [done|done| |].
    + split_and!.
      * exists [p], ps. split_and!; [done| |done|done]. apply Hleaf. intros k Hk. cbn. apply kltb_lt. rewrite Hpiece in Hk.
        eapply cut_below; [by apply ksorted_drop|exact Hee|lia|done].
      * constructor; [|done]. intros Hin'. destruct (Hps p Hin') as [_ [[]|Hno]]. done.
      * intros q [->|Hq]%elem_of_cons; [split; [by apply (adv_use _ _ _ Ha3)|by right]|].
        destruct (Hps q Hq) as [Hq1 [[]|Hq2]]. split; [done|]. right. intros Hq3. apply Hq2, (adv_use _ _ _ Hadv), Hq3.
    + intros k Hk. cbn [route]. rewrite (kget_cut (drop start es) (start' - start) e' k (ksorted_drop _ _ Hsort) Hee) by lia.
      destruct (kltb k (successor_of e'.1)) eqn:Ek; [apply Hlk|]. rewrite Hlook by key_order.
      rewrite drop_drop. f_equal. f_equal. lia.
Qed.

End spill.

Definition unterminated (es : LeafEntries) : bool := match last es with Some (k, v) => negb (is_boundary k v) | None => false end.

(** The rows end up on [p] and fresh pages behind it. *)
Lemma wrote_leaf_chunked w p es b epoch lo hi n :
  store_ok (w_store w) -> in_use (w_store w) p -> is_Some (pages (w_store w) !! p) ->
  ksorted es -> leaf_fits es -> (forall k, k ∈ es.*1 -> in_range lo hi k = true) ->
  wrote (CowTree.write_leaf_chunked p es b epoch) w (fun r s' => advance (fun q => q = p) (w_store w) s' /\
    forall sp u, r = Ok (sp, u) -> u = unterminated es /\ exists ps,
      sprouts (w_store w) s' (fun q => q = p) (S n) lo hi p sp ps
      /\ forall k, look s' (S n) (route p sp k) k = kget k es).
Proof.
  intros Hok Hu Hp Hsort Hfit Hin. unfold CowTree.write_leaf_chunked. fold (unterminated es).
  assert (covers NODE_CAPACITY (leaf_sizes es) 0 (leaf_cuts (leaf_sizes es) (map (fun e => key_hash e.1) es) NODE_CAPACITY)) as Hcov.
  { apply cut_at_target_covers; [done|]. unfold leaf_sizes. by apply Forall_fmap. }
  apply covers_bounds in Hcov as [Hcs Hcb]. 
  replace (length (leaf_sizes es)) with (length es) in Hcb by (symmetry; apply length_map). cbn [Nat.add] in Hcb.
  assert (forall k, k ∈ es.*1 -> under hi k = true) as Hhi by (intros k Hk; by apply Hin, andb_true_iff in Hk as [_ ?]).
  destruct (leaf_cuts _ _ _) as [|c0 cuts].
  - eapply wrote_bind; [by apply wrote_fill_leaf|intros x s' [? _]; done|]. intros [] w1 [Ha Hc].
    destruct (Hc eq_refl) as (pg & E & Ec). apply wrote_ret. split; [done|]. intros sp u [= <- <-]. split; [done|].
    exists [p]. split; [|intros k; cbn [route look]; rewrite E; cbn; by rewrite Ec].
    assert (in_use (w_store w1) p) as Hu1 by (by apply (adv_use _ _ _ Ha)). split_and!.
    + eapply shaped_leaf; try done. by apply (in_use_width _ _ (adv_ok _ _ _ Ha)).
    + by repeat constructor; intros ?%not_elem_of_nil.
    + intros q ->%list_elem_of_singleton. auto.
  - apply Forall_cons in Hcb as Hcb0. destruct Hcb0 as [Hc0 _].
    eapply wrote_bind; [by apply (wrote_spill_leaves es b epoch hi n Hsort Hfit Hhi)| |].
    { intros x s' [Ha _]. split; [by eapply advance_weaken; [|exact Ha]|done]. }
    intros sp w1 [Ha1 Hsp]. destruct (Hsp sp eq_refl) as (e & p1 & run & ps & He & -> & (Hkids & Hnd & Hps) & Hlook).
    eapply wrote_at_bind; [apply slice_some; lia|]. rewrite drop_0, Nat.sub_0_r.
    assert (pages (w_store w1) !! p = pages (w_store w) !! p) as Ep1 by (by apply (adv_same _ _ _ Ha1)).
    eapply wrote_bind; [apply wrote_fill_leaf; [apply Ha1|by apply (adv_use _ _ _ Ha1)|by rewrite Ep1]| |].
    { intros x s' [Ha2 _]. split; [|done]. eapply advance_then; [|exact Ha2|done]. by eapply advance_weaken; [|exact Ha1]. }
    intros [] w2 [Ha2 Hc]. destruct (Hc eq_refl) as (pg & E & Ec). apply wrote_ret.
    split; [eapply advance_then; [|exact Ha2|done]; by eapply advance_weaken; [|exact Ha1]|]. intros sp' u [= <- <-]. split; [done|].
    assert (forall q, q ∈ ps -> in_use (w_store w1) q /\ q <> p) as Hqp.
    { intros q Hq. destruct (Hps q Hq) as [H1 [[]|H2]]. split; [done|]. by intros ->. }
    assert (forall q, q ∈ ps -> pages (w_store w2) !! q = pages (w_store w1) !! q) as Hfr.
    { intros q Hq. destruct (Hqp q Hq). by apply (adv_pages _ _ _ Ha2). }
    exists (p :: ps). split; [split_and!|].
    + exists [p], ps. split_and!; [done| | |by eapply kids_frame].
      * eapply shaped_leaf; [|exact E|exact Ec|by apply ksorted_take| |by apply Forall_take].
        { apply (in_use_width _ _ (adv_ok _ _ _ Ha2)). by apply (adv_use _ _ _ Ha2), (adv_use _ _ _ Ha1). }
        intros k Hk. apply andb_true_iff. split.
        -- apply list_elem_of_fmap in Hk as (x & -> & (j & Hj & _)%elem_of_take).
           assert (x.1 ∈ es.*1) as Hx by (apply list_elem_of_fmap_2, list_elem_of_lookup; eauto).
           by apply Hin, andb_true_iff in Hx as [? _].
        -- cbn. apply kltb_lt. eapply cut_below; [exact Hsort|exact He|lia|done].
      * eapply sep_inside; [exact Hsort|done|exact He|lia|].
        assert (e.1 ∈ es.*1) as Hx by (apply list_elem_of_fmap_2, list_elem_of_lookup; eauto).
        by apply Hin, andb_true_iff in Hx as [? _].
    + constructor; [|done]. intros H. by destruct (Hqp p H).
    + intros q [->|Hq]%elem_of_cons; [split; [by apply (adv_use _ _ _ Ha2), (adv_use _ _ _ Ha1)|by left]|].
      destruct (Hps q Hq) as [H1 [[]|H2]]. split; [by apply (adv_use _ _ _ Ha2)|by right].
    + intros k. cbn [route]. rewrite (kget_cut es c0 e k Hsort He) by lia.
      destruct (kltb k (successor_of e.1)) eqn:Ek.
      * cbn [look]. rewrite E. cbn. by rewrite Ec.
      * rewrite (look_kids_frame _ _ _ _ _ _ _ _ k Hfr Hkids). apply Hlook. key_order.
Qed.

(** * Putting a row *)

Lemma kget_middle {V : Type} (l r : list (key * V)) k v x : ksorted (l ++ (k, v) :: r) ->
  kget x (l ++ (k, v) :: r) = if decide (x = k) then Some v else kget x (l ++ r).
Proof.
  intros Hs. rewrite !kget_app. cbn [kget]. case_decide as D.
  - subst x. rewrite kcmp_refl. apply ksorted_app in Hs as (_ & _ & Hlt).
    replace (kget k l) with (@None V); [done|]. symmetry. apply kget_None. intros Hin.
    apply (klt_irrefl k), Hlt; [done|]. cbn. by left.
  - destruct (kget x l); [done|]. destruct (kcmp x k) eqn:Ec; [by apply kcmp_eq in Ec|done|done].
Qed.

Lemma elem_of_around {A : Type} (es : list A) i j x e : e ∈ take i es ++ x :: drop j es -> e = x \/ e ∈ es.
Proof.
  intros [He|[->|He]%elem_of_cons]%elem_of_app; [right|by left|right].
  - apply elem_of_take in He as (a & Ha & _). apply list_elem_of_lookup. eauto.
  - apply list_elem_of_lookup in He as (a & Ha). rewrite lookup_drop in Ha. apply list_elem_of_lookup. eauto.
Qed.

Lemma upsert_spec (es : LeafEntries) k v : ksorted es ->
  exists es', CowTree.upsert es k v = Some es' /\ ksorted es' /\ es' <> []
    /\ (forall x, kget x es' = if decide (x = k) then Some v else kget x es)
    /\ (forall e, e ∈ es' -> e = (k, v) \/ e ∈ es).
Proof.
  intros Hs. pose proof (search_spec es.*1 k Hs) as H. unfold CowTree.upsert. destruct (search es.*1 k) as [i|i].
  - rewrite list_lookup_fmap in H. destruct (es !! i) as [[k' v']|] eqn:Ei; [|done]. injection H as ->.
    pose proof (lookup_lt_Some _ _ _ Ei) as Hlt. unfold vec_set. rewrite (proj2 (Nat.ltb_lt _ _) Hlt).
    pose proof (take_drop_middle es i _ Ei) as Ees.
    exists (<[i := (k, v)]> es). rewrite insert_take_drop by done. rewrite <- Ees in Hs.
    assert (ksorted (take i es ++ (k, v) :: drop (S i) es)) as Hs'.
    { unfold ksorted in *. rewrite !fmap_app in *. exact Hs. }
    split_and!; [done|done|by destruct (take i es)| |by intros; eapply elem_of_around].
    intros x. replace (kget x es) with (kget x (take i es ++ (k, v') :: drop (S i) es)) by (by rewrite Ees).
    rewrite (kget_middle _ _ k v x Hs'), (kget_middle _ _ k v' x Hs). by case_decide.
  - destruct H as (Hi & H1 & H2). rewrite length_fmap in Hi. unfold vec_insert. rewrite (proj2 (Nat.leb_le _ _) Hi).
    assert (ksorted (take i es ++ (k, v) :: drop i es)) as Hs'.
    { rewrite <- (take_drop i es) in Hs. apply ksorted_app in Hs as (Hs1 & Hs2 & Hs3). apply ksorted_app.
      assert (forall b, b ∈ (drop i es).*1 -> klt k b) as Hgt.
      { intros x Hx. apply list_elem_of_lookup in Hx as (j & Hj). rewrite fmap_drop, lookup_drop in Hj. apply (H2 (i + j)); [lia|done]. }
      assert (forall b, b ∈ (take i es).*1 -> klt b k) as Hle.
      { intros x Hx. rewrite fmap_take in Hx. apply elem_of_take in Hx as (j & Hj & Hlt). by apply (H1 j). }
      split_and!; [done|by apply ksorted_cons|]. intros x y Hx. cbn. intros [->|Hy]%elem_of_cons; auto. }
    eexists. split_and!; [done|done|by destruct (take i es)| |by intros; eapply elem_of_around].
    intros x. rewrite (kget_middle _ _ k v x Hs'). by rewrite take_drop.
Qed.

Lemma wrote_leaf_of w p pg es : pages (w_store w) !! p = Some pg -> content pg = LeafNode es ->
  wrote (leaf_of p) w (fun r s' => r = Ok es /\ s' = w_store w).
Proof.
  intros E Ec. unfold wrote, ran, leaf_of, mbind, W_bind, eff_bind, on_store. rewrite (read_page_run _ _ _ E). by rewrite Ec.
Qed.

Lemma wrote_internal_of w p pg l es : pages (w_store w) !! p = Some pg -> content pg = InternalNode l es ->
  wrote (internal_of p) w (fun r s' => r = Ok (l, es) /\ s' = w_store w).
Proof.
  intros E Ec. unfold wrote, ran, internal_of, mbind, W_bind, eff_bind, on_store. rewrite (read_page_run _ _ _ E). by rewrite Ec.
Qed.

(** A page rewritten as one leaf. *)
Lemma sprouts_leaf s s' p pg es lo hi n :
  advance (fun q => q = p) s s' -> in_use s p -> pages s' !! p = Some pg -> content pg = LeafNode es ->
  ksorted es -> leaf_fits es -> (forall k, k ∈ es.*1 -> in_range lo hi k = true) ->
  sprouts s s' (fun q => q = p) (S n) lo hi p [] [p] /\ forall k, look s' (S n) (route p [] k) k = kget k es.
Proof.
  intros Ha Hu E Ec Hsort Hfit Hin. assert (in_use s' p) as Hu' by (by apply (adv_use _ _ _ Ha)). split.
  - split_and!; [|by repeat constructor; intros ?%not_elem_of_nil|by intros q ->%list_elem_of_singleton; auto].
    eapply shaped_leaf; try done. by apply (in_use_width _ _ (adv_ok _ _ _ Ha)).
  - intros k. by apply look_leaf with pg.
Qed.

Lemma wrote_leaf_put w p pg es b epoch lo hi n k v :
  store_ok (w_store w) -> in_use (w_store w) p -> pages (w_store w) !! p = Some pg -> content pg = LeafNode es ->
  ksorted es -> leaf_fits es -> (forall x, x ∈ es.*1 -> in_range lo hi x = true) ->
  in_range lo hi k = true -> (leaf_entry_bytes k v <= NODE_CAPACITY)%N ->
  wrote (CowTree.leaf_put p b epoch k v) w (fun r s' => advance (fun q => q = p) (w_store w) s' /\
    forall sp u, r = Ok (sp, u) -> exists ps, sprouts (w_store w) s' (fun q => q = p) (S n) lo hi p sp ps
      /\ forall x, look s' (S n) (route p sp x) x = if decide (x = k) then Some v else kget x es).
Proof.
  intros Hok Hu E Ec Hsort Hfit Hin Hk Hb. unfold CowTree.leaf_put.
  eapply wrote_bind; [by eapply wrote_leaf_of|by intros e s' [? _]|]. intros es0 w0 [[= ->] Ew]. rewrite <- Ew in *. clear Ew w.
  destruct (upsert_spec es k v Hsort) as (es' & Eu & Hsort' & Hne & Hget & Hel). eapply wrote_at_bind; [exact Eu|].
  assert (leaf_fits es') as Hfit'.
  { apply Forall_forall. intros e [->|He]%Hel; [done|]. by apply (proj1 (Forall_forall _ _) Hfit). }
  assert (forall x, x ∈ es'.*1 -> in_range lo hi x = true) as Hin'.
  { intros x (e & -> & [->|He]%Hel)%list_elem_of_fmap; [done|]. by apply Hin, list_elem_of_fmap_2. }
  assert (forall w1, advance (fun q => q = p) (w_store w0) (w_store w1) -> is_Some (pages (w_store w1) !! p) ->
    wrote (CowTree.write_leaf_chunked p es' b epoch) w1 (fun r s' => advance (fun q => q = p) (w_store w0) s' /\
    forall sp u, r = Ok (sp, u) -> exists ps, sprouts (w_store w0) s' (fun q => q = p) (S n) lo hi p sp ps
      /\ forall x, look s' (S n) (route p sp x) x = if decide (x = k) then Some v else kget x es)) as Hchunk.
  { intros w1 Ha1 Hp1. eapply wrote_mono; [|eapply (wrote_leaf_chunked w1 p es' b epoch lo hi n); try done; [apply Ha1|by apply (adv_use _ _ _ Ha1)]].
    intros r s' [Ha2 H]. split; [by eapply advance_trans|]. intros sp u Hr. destruct (H sp u Hr) as (_ & ps & (H1 & H2 & H3) & H4).
    exists ps. split; [|intros x; by rewrite H4]. split_and!; [done|done|]. intros q Hq. destruct (H3 q Hq) as [H5 [->|H6]]; [by auto|].
    split; [done|]. right. intros Hu'. by apply H6, (adv_use _ _ _ Ha1). }
  destruct (match search es.*1 k with Ok _ => _ | Err _ => _ end); [|apply Hchunk; [by apply advance_refl|by eexists]].
  eapply wrote_bind; [apply wrote_put; [done|done|by eexists]|by intros e s' (? & _)|].
  intros [] w1 (_ & Ha1 & pg1 & E1 & Ec1).
  destruct (sprouts_leaf _ _ p pg1 es' lo hi n Ha1 Hu E1 Ec1 Hsort' Hfit' Hin') as [Hsp Hlook].
  assert (0 < length es') as Hlen by (destruct es'; [done|cbn; lia]).
  destruct (lookup_lt_is_Some_2 es' (length es' - 1)) as [el Hl]; [lia|].
  eapply (wrote_bind _ _ _ (fun r s' => s' = w_store w1 /\ is_Some (match r with Ok x => Some x | _ => None end))).
  { destruct (_ =? _); [|by apply wrote_ret; eauto]. destruct (2 <=? length es') eqn:E2; [|by apply wrote_ret; eauto].
    apply Nat.leb_le in E2. destruct (lookup_lt_is_Some_2 es' (length es' - 1 - 1)) as [e2 H2]; [lia|].
    eapply wrote_at_bind; [exact H2|]. by apply wrote_ret; eauto. }
  { by intros e s' [_ [? ?]]. }
  intros interior w2 [Ew _]. destruct (negb interior).
  - eapply wrote_at_bind; [exact Hl|]. apply wrote_ret. rewrite Ew. split; [done|]. intros sp u [= <- _].
    exists [p]. split; [done|]. intros x. by rewrite Hlook.
  - apply Hchunk; rewrite Ew; [done|by eexists].
Qed.

(** * Internal nodes

    The children stay behind their separators, whether the node still fits its
    page or is cut into several. *)

#[local] Arguments lookup : simpl never.
#[local] Arguments insert : simpl never.

(** Pages taken since [s]. *)
Definition fresh (s s' : CowStore) (ps : list PageId) : Prop := NoDup ps /\ forall q, q ∈ ps -> in_use s' q /\ ~ in_use s q.

Lemma fresh_disjoint s s' ps q : fresh s s' ps -> in_use s q -> q ∉ ps.
Proof. intros [_ H] Hu Hq. by destruct (H q Hq). Qed.

Lemma fresh_cons s s1 s' p ps X : advance X s s1 -> in_use s1 p -> in_use s' p -> ~ in_use s p -> fresh s1 s' ps -> fresh s s' (p :: ps).
Proof.
  intros Ha Hp Hp' Hn [Hd Hf]. split.
  - constructor; [|done]. intros Hin. by destruct (Hf p Hin).
  - intros q [->|Hq]%elem_of_cons; [done|]. destruct (Hf q Hq) as [H1 H2]. split; [done|]. intros H. by apply H2, (adv_use _ _ _ Ha).
Qed.

(** A wide node with the separator [m] before it became the run [sp]. *)
Definition grown (s s' : CowStore) (n : nat) (hi : option key) (m : key) (c : PageId) (es : InternalEntries)
    (pst : list PageId) (sp : Split) : Prop :=
  exists p run new ps, sp = (m, p) :: run /\ kids (shaped s' (S n)) (Some m) hi p run ps /\ ps ≡ₚ new ++ pst
    /\ fresh s s' new /\ forall k, look s' (S n) (route p run k) k = look s n (route c es k) k.

Lemma kids_same s s' n lo hi l es ps : advance nothing s s' -> (forall q, q ∈ ps -> in_use s q) ->
  kids (shaped s n) lo hi l es ps ->
  kids (shaped s' n) lo hi l es ps /\ forall k, look s' n (route l es k) k = look s n (route l es k) k.
Proof.
  intros Ha Hu H. assert (forall q, q ∈ ps -> pages s' !! q = pages s !! q) as Hf by (intros q Hq; apply (adv_same _ _ _ Ha), Hu, Hq).
  split; [by eapply kids_frame|]. intros k. by eapply look_kids_frame.
Qed.

(** One piece, on a page of its own. *)
Lemma wrote_piece w p l es lo hi n ps :
  store_ok (w_store w) -> in_use (w_store w) p -> is_Some (pages (w_store w) !! p) ->
  kids (shaped (w_store w) n) lo hi l es ps -> (forall q, q ∈ ps -> in_use (w_store w) q /\ q <> p) ->
  wrote (fill_internal p l es) w (fun r s' => advance (fun q => q = p) (w_store w) s' /\ (r = Ok tt ->
    shaped s' (S n) lo hi p (p :: ps) /\ forall k, look s' (S n) p k = look (w_store w) n (route l es k) k)).
Proof.
  intros Hok Hu Hp Hk Hps. eapply wrote_mono; [|by apply wrote_fill_internal].
  intros r s' [Ha Hc]. split; [done|]. intros Hr. destruct (Hc Hr) as (Hfit & pg & E & Ec).
  assert (forall q, q ∈ ps -> pages s' !! q = pages (w_store w) !! q) as Hf.
  { intros q Hq. destruct (Hps q Hq). by apply (adv_pages _ _ _ Ha). }
  split.
  - eapply shaped_node; [|done..|by eapply kids_frame]. apply (in_use_width s' _ (adv_ok _ _ _ Ha)). by apply (adv_use _ _ _ Ha).
  - intros k. rewrite (look_node s' n p pg l es k E Ec). by eapply look_kids_frame.
Qed.

Section internal_spill.
Context (es : InternalEntries) (b : BranchId) (epoch : Epoch) (hi : option key) (n : nat).

Lemma wrote_spill_internals cuts : forall w m c pst, store_ok (w_store w) -> StronglySorted lt cuts ->
  Forall (fun i => i < length es) cuts ->
  (forall i rest, cuts = i :: rest -> es !! i = Some (m, c) /\ kids (shaped (w_store w) n) (Some m) hi c (drop (S i) es) pst) ->
  (forall q, q ∈ pst -> in_use (w_store w) q) ->
  wrote (CowTree.spill_internals es cuts b epoch) w (fun r s' => advance nothing (w_store w) s' /\ forall sp, r = Ok sp ->
    match cuts with [] => sp = [] | i :: _ => grown (w_store w) s' n hi m c (drop (S i) es) pst sp end).
Proof.
  induction cuts as [|i rest IH]; intros w m c pst Hok Hs Hb Hi Hps; cbn [CowTree.spill_internals].
  { apply wrote_ret. split; [by apply advance_refl|]. by intros sp [= <-]. }
  destruct (Hi i rest eq_refl) as [Ei Hk]. clear Hi.
  apply StronglySorted_inv in Hs as [Hs Hlt]. apply Forall_cons in Hb as [Hil Hb].
  set (stop := match rest with x :: _ => x | [] => length es end).
  assert (i < stop /\ stop <= length es) as [Hss Hsl].
  { unfold stop. destruct rest as [|x rest]; [lia|]. apply Forall_cons in Hlt as [? _]. apply Forall_cons in Hb as [? _]. lia. }
  eapply wrote_at_bind; [exact Ei|]. cbn [fst snd].
  eapply wrote_bind; [apply wrote_store, ran_runs; [apply steady_alloc_for|by apply alloc_for_takes]|by intros x s' [? _]|].
  intros p w1 [Ha1 Ht]. destruct (Ht p eq_refl) as (Hn & Hu & pg & E & _).
  eapply wrote_at_bind; [apply slice_some; lia|]. replace (i + 1) with (S i) by lia.
  destruct (kids_same _ _ _ _ _ _ _ _ Ha1 Hps Hk) as [Hk1 Hl1].
  assert (forall q, q ∈ pst -> in_use (w_store w1) q /\ q <> p) as Hps1.
  { intros q Hq. split; [by apply (adv_use _ _ _ Ha1), Hps|]. intros ->. by apply Hn, Hps. }
  assert (forall s2, advance (fun q => q = p) (w_store w1) s2 -> advance nothing (w_store w) s2) as Hadv.
  { intros s2 H2. eapply advance_then; [exact Ha1|exact H2|]. by intros q Hq ->. }
  destruct rest as [|j rest].
  - unfold stop in *. rewrite take_ge in * by (rewrite length_drop; lia).
    eapply wrote_bind; [eapply wrote_piece; [apply Ha1|done|by eexists|done|done]|intros x s' [? _]; split; [auto|done]|].
    intros [] w2 [Ha2 H2]. destruct (H2 eq_refl) as [Hsh Hlk]. cbn [CowTree.spill_internals].
    eapply (wrote_bind _ _ _ (fun r s' => r = Ok [] /\ s' = w_store w2)); [by apply wrote_ret|by intros e s' [? _]|]. intros sp w3 [[= ->] Ew].
    apply wrote_ret. rewrite Ew. split; [auto|]. intros sp [= <-]. exists p, [], [p], (p :: pst). split_and!; [done|done|done| |].
    + split; [by repeat constructor; intros ?%not_elem_of_nil|]. intros q ->%list_elem_of_singleton. split; [by apply (adv_use _ _ _ Ha2)|done].
    + intros k. cbn [route]. by rewrite Hlk, Hl1.
  - apply Forall_cons in Hlt as [Hij _]. apply Forall_cons in Hb as Hb'. destruct Hb' as [Hj _]. unfold stop in *. clear stop.
    destruct (lookup_lt_is_Some_2 es j Hj) as [[m2 c2] Ej].
    assert (drop (S i) es = take (j - S i) (drop (S i) es) ++ (m2, c2) :: drop (S j) es) as Ed.
    { rewrite <- (take_drop_middle (drop (S i) es) (j - S i) (m2, c2)) at 1.
      - f_equal. f_equal. rewrite drop_drop. f_equal. lia.
      - rewrite lookup_drop. rewrite <- Ej. f_equal. lia. }
    rewrite Ed in Hk1. destruct (kids_split _ _ _ _ _ _ _ _ _ Hk1) as (ps1 & ps2 & -> & Hka & Hm & Hkb).
    eapply wrote_bind; [eapply wrote_piece; [apply Ha1|done|by eexists|exact Hka|set_solver]|intros x s' [? _]; split; [auto|done]|].
    intros [] w2 [Ha2 H2]. destruct (H2 eq_refl) as [Hsh Hlk]. specialize (Hadv _ Ha2).
    assert (in_use (w_store w2) p) as Hu2 by (by apply (adv_use _ _ _ Ha2)).
    assert (forall q, q ∈ ps2 -> pages (w_store w2) !! q = pages (w_store w1) !! q) as Hf2.
    { intros q Hq. destruct (Hps1 q) as [? ?]; [set_solver|]. by apply (adv_pages _ _ _ Ha2). }
    assert (forall q, q ∈ ps2 -> in_use (w_store w2) q) as Hps2.
    { intros q Hq. apply (adv_use _ _ _ Hadv), Hps. set_solver. }
    eapply wrote_bind; [apply (IH w2 m2 c2 ps2); [apply Ha2|done|done|intros j' rest' [= <- <-]; split; [done|by eapply kids_frame]|done]| |].
    { intros x s' [Ha3 _]. split; [by eapply advance_trans|done]. }
    intros sp w3 [Ha3 H3]. destruct (H3 sp eq_refl) as (p2 & run & new & ps & -> & Hkr & Hperm & Hfr & Hlook).
    apply wrote_ret. split; [by eapply advance_trans|]. intros sp [= <-].
    assert (forall q, q ∈ p :: ps1 -> in_use (w_store w2) q) as Hpu.
    { intros q [->|Hq]%elem_of_cons; [done|]. apply (adv_use _ _ _ Hadv), Hps. set_solver. }
    exists p, ((m2, p2) :: run), (p :: new), ((p :: ps1) ++ ps). split_and!; [done| | | |].
    + exists (p :: ps1), ps. split_and!; [done| |done|done]. eapply shaped_frame; [|exact Hsh]. intros q Hq. by apply (adv_same _ _ _ Ha3), Hpu.
    + rewrite Hperm. solve_Permutation.
    + eapply (fresh_cons _ (w_store w2)); [exact Hadv|done|by apply (adv_use _ _ _ Ha3)|done|done].
    + intros k. cbn [route]. rewrite <- Hl1. rewrite Ed, route_join by (by eapply kids_under).
      destruct (kltb k m2).
      * rewrite <- Hlk. eapply look_frame_shaped; [|exact Hsh]. intros q Hq. by apply (adv_same _ _ _ Ha3), Hpu.
      * rewrite Hlook. by eapply look_kids_frame.
Qed.

End internal_spill.

(** * Separators placed in a node *)

Lemma vec_insert_mid {A : Type} (l r : list A) x : vec_insert (length l) x (l ++ r) = Some (l ++ x :: r).
Proof.
  unfold vec_insert. rewrite (proj2 (Nat.leb_le _ _)) by (rewrite length_app; lia). by rewrite take_app_length, drop_app_length.
Qed.

Lemma place_spec promoted : forall l r, exists fit rest,
  CowTree.place (length l) promoted (l ++ r) = Some (l ++ fit ++ r, rest) /\ promoted = fit ++ rest.
Proof.
  induction promoted as [|[m c] promoted IH]; intros l r; cbn [CowTree.place]; [by exists [], []|].
  destruct (insert_fits _ _); [|by exists [], ((m, c) :: promoted)]. rewrite vec_insert_mid. cbn [mbind option_bind].
  destruct (IH (l ++ [(m, c)]) r) as (fit & rest & H & ->). exists ((m, c) :: fit), rest. split; [|done].
  rewrite length_app in H. cbn in H. by rewrite <- !app_assoc in H.
Qed.

Lemma insert_all_spec rest : forall (l r : InternalEntries),
  CowTree.insert_all (length l) rest (l ++ r) = Some (l ++ rest ++ r).
Proof.
  induction rest as [|e rest IH]; intros l r; cbn [CowTree.insert_all]; [done|]. rewrite vec_insert_mid. cbn [mbind option_bind].
  specialize (IH (l ++ [e]) r). rewrite length_app in IH. cbn in IH. by rewrite <- !app_assoc in IH.
Qed.

(** Where [internal_relink] puts the promoted run: behind [before], which ends
    with the new child. *)
Definition before (L : LeftPart) (c : PageId) : list (key * PageId) :=
  match L with None => [] | Some (_, es, m) => es ++ [(m, c)] end.
Definition first_child (L : LeftPart) (c : PageId) : PageId := match L with None => c | Some (l, _, _) => l end.

Lemma plug_before L c run R : plug L c run R = (first_child L c, before L c ++ run ++ R).
Proof. destruct L as [[[l es] m]|]; cbn; [|done]. by rewrite <- app_assoc. Qed.

(** A node rewritten, with its children where they were: on [p] and the pages
    of [new], cut at the separators [out]. *)
Definition resown (s s' : CowStore) (n : nat) (lo hi : option key) (p : PageId) (c : PageId) (es : InternalEntries)
    (ps : list PageId) (out : Split) : Prop :=
  exists new ps', kids (shaped s' (S n)) lo hi p out ps' /\ ps' ≡ₚ p :: new ++ ps /\ fresh s s' new
    /\ forall k, look s' (S n) (route p out k) k = look s n (route c es k) k.

Lemma wrote_sow w p l es b epoch lo hi n ps :
  store_ok (w_store w) -> in_use (w_store w) p -> is_Some (pages (w_store w) !! p) ->
  node_fits es -> kids (shaped (w_store w) n) lo hi l es ps -> (forall q, q ∈ ps -> in_use (w_store w) q /\ q <> p) ->
  wrote (let cuts := balanced_cuts (length es) (internal_sizes es) NODE_CAPACITY 0 in
         match cuts with
         | [] => _ ← fill_internal p l es; mret []
         | c0 :: _ =>
             out ← CowTree.spill_internals es cuts b epoch;
             first ← at_index (slice 0 c0 es);
             _ ← fill_internal p l first;
             mret out
         end) w (fun r s' => advance (fun q => q = p) (w_store w) s' /\
    forall out, r = Ok out -> resown (w_store w) s' n lo hi p l es ps out).
Proof.
  intros Hok Hu Hp Hfit Hk Hps.
  assert (covers NODE_CAPACITY (internal_sizes es) 0 (balanced_cuts (length es) (internal_sizes es) NODE_CAPACITY 0)) as Hcov.
  { apply balanced_cuts_cover; [unfold internal_sizes; by rewrite length_map|]. unfold internal_sizes. by apply Forall_fmap. }
  apply covers_bounds in Hcov as [Hcs Hcb].
  replace (length (internal_sizes es)) with (length es) in Hcb by (symmetry; apply length_map). cbn [Nat.add] in Hcb.
  cbv zeta. destruct (balanced_cuts _ _ _ _) as [|c0 cuts].
  - eapply wrote_bind; [by eapply wrote_piece|by intros x s' [? _]|]. intros [] w1 [Ha H]. destruct (H eq_refl) as [Hsh Hlk].
    apply wrote_ret. split; [done|]. intros out [= <-]. exists [], (p :: ps).
    split_and!; [done|done|split; [constructor|by intros q ?%not_elem_of_nil]|done].
  - apply Forall_cons in Hcb as Hcb0. destruct Hcb0 as [Hc0 _].
    destruct (lookup_lt_is_Some_2 es c0) as [[m c] Em]; [lia|].
    pose proof (take_drop_middle es c0 _ Em) as Ees. rewrite <- Ees in Hk.
    destruct (kids_split _ _ _ _ _ _ _ _ _ Hk) as (ps1 & ps2 & -> & Hka & Hm & Hkb).
    eapply wrote_bind; [apply (wrote_spill_internals es b epoch hi n (c0 :: cuts) w m c ps2 Hok Hcs); 
      [by eapply Forall_impl; [exact Hcb|]; cbn; lia|by intros i rest [= <- <-]|intros q Hq; apply Hps; set_solver]| |].
    { intros x s' [Ha _]. split; [by eapply advance_weaken; [|exact Ha]|done]. }
    intros out w1 [Ha1 H1]. destruct (H1 out eq_refl) as (p2 & run & new & ps & -> & Hkr & Hperm & Hfr & Hlook).
    eapply wrote_at_bind; [apply slice_some; lia|]. rewrite drop_0, Nat.sub_0_r.
    assert (forall q, q ∈ ps1 -> in_use (w_store w) q) as Hu1 by (intros q Hq; apply Hps; set_solver).
    destruct (kids_same _ _ _ _ _ _ _ _ Ha1 Hu1 Hka) as [Hka1 Hl1].
    eapply wrote_bind; [eapply (wrote_piece w1 p l (take c0 es)); [apply Ha1|by apply (adv_use _ _ _ Ha1)|
      by rewrite (adv_same _ _ _ Ha1)|exact Hka1|]| |].
    { intros q Hq. split; [by apply (adv_use _ _ _ Ha1), Hu1|]. apply Hps. set_solver. }
    { intros x s' [Ha2 _]. split; [|done]. eapply advance_then; [|exact Ha2|done]. by eapply advance_weaken; [|exact Ha1]. }
    intros [] w2 [Ha2 H2]. destruct (H2 eq_refl) as [Hsh Hlk]. apply wrote_ret.
    split; [eapply advance_then; [|exact Ha2|done]; by eapply advance_weaken; [|exact Ha1]|]. intros out [= <-].
    assert (forall q, q ∈ ps -> pages (w_store w2) !! q = pages (w_store w1) !! q) as Hf2.
    { intros q. rewrite Hperm. intros [Hq|Hq]%elem_of_app.
      - destruct (proj2 Hfr q Hq) as [Hq1 Hq2]. apply (adv_pages _ _ _ Ha2); [done|]. by intros ->.
      - destruct (Hps q) as [Hq1 Hq2]; [set_solver|]. apply (adv_pages _ _ _ Ha2); [by apply (adv_use _ _ _ Ha1)|done]. }
    exists new, ((p :: ps1) ++ ps). split_and!.
    + exists (p :: ps1), ps. split_and!; [done|done|done|by eapply kids_frame].
    + rewrite Hperm. solve_Permutation.
    + split; [apply Hfr|]. intros q Hq. destruct (proj2 Hfr q Hq) as [Hq1 Hq2]. split; [by apply (adv_use _ _ _ Ha2)|done].
    + intros k. cbn [route]. rewrite <- Ees, route_join by (by eapply kids_under). destruct (kltb k m).
      * by rewrite Hlk, Hl1.
      * rewrite <- Hlook. by eapply look_kids_frame.
Qed.

Lemma resown_after s s1 s' n lo hi p c es ps out :
  advance (fun q => q = p) s s1 -> (forall q, q ∈ ps -> in_use s q /\ q <> p) -> kids (shaped s n) lo hi c es ps ->
  resown s1 s' n lo hi p c es ps out -> resown s s' n lo hi p c es ps out.
Proof.
  intros Ha Hps Hk (new & ps' & H1 & H2 & [H3 H4] & H5). exists new, ps'. split_and!; [done|done| |].
  - split; [done|]. intros q Hq. destruct (H4 q Hq) as [? Hn]. split; [done|]. intros Hu. by apply Hn, (adv_use _ _ _ Ha).
  - intros k. rewrite H5. eapply look_kids_frame; [|exact Hk]. intros q Hq. destruct (Hps q Hq). by apply (adv_pages _ _ _ Ha).
Qed.

Lemma promoted_fits (promoted : Split) :
  existsb (fun sp => (MAX_ENTRY_BYTES <? internal_entry_bytes sp.1)%N) promoted = false -> node_fits promoted.
Proof.
  intros H. apply Forall_forall. intros e He. destruct (internal_entry_bytes e.1 <=? MAX_ENTRY_BYTES)%N eqn:E.
  - apply N.leb_le in E. assert (MAX_ENTRY_BYTES <= NODE_CAPACITY)%N by done. lia.
  - assert (existsb (fun sp => (MAX_ENTRY_BYTES <? internal_entry_bytes sp.1)%N) promoted = true) as H'; [|congruence].
    apply existsb_exists. exists e. split; [by apply list_elem_of_In|]. apply N.ltb_lt. apply N.leb_gt in E. done.
Qed.

Lemma node_fits_plug L c c' run R : node_fits (plug L c [] R).2 -> node_fits run -> node_fits (plug L c' run R).2.
Proof.
  unfold node_fits. rewrite !plug_before. cbn [snd app]. intros H1 H2. apply Forall_app in H1 as [H1 H3].
  apply Forall_app. split; [|by apply Forall_app]. destruct L as [[[l es] m]|]; [|done]. cbn in *.
  apply Forall_app in H1 as [H1 H4]. apply Forall_app. split; [done|]. apply Forall_cons in H4 as [? _]. by constructor.
Qed.

(** The child replaced at the slot. *)
Lemma relinked_child w L c0 c R :
  wrote (match slot_of L with
         | None => mret (c, (plug L c0 [] R).2)
         | Some i =>
             e ← lift (ok_or ((plug L c0 [] R).2 !! i) (Cow (NodeSlotOutOfRange (N.of_nat i))));
             mret ((plug L c0 [] R).1, <[i := (e.1, c)]> (plug L c0 [] R).2)
         end) w (fun r s' => r = Ok (first_child L c, before L c ++ R) /\ s' = w_store w).
Proof.
  destruct L as [[[l es] m]|]; cbn [slot_of plug fst snd]; [|by apply wrote_ret].
  rewrite list_lookup_middle by done. cbn [ok_or lift]. apply wrote_ret. split; [|done]. cbn [first_child before fst].
  rewrite insert_app_r_alt, Nat.sub_diag by done. by rewrite <- app_assoc.
Qed.

Lemma wrote_internal_relink w p pg L c0 c R run b epoch lo hi n ps :
  store_ok (w_store w) -> in_use (w_store w) p -> pages (w_store w) !! p = Some pg ->
  content pg = InternalNode (plug L c0 [] R).1 (plug L c0 [] R).2 -> node_fits (plug L c0 [] R).2 ->
  kids (shaped (w_store w) n) lo hi (plug L c run R).1 (plug L c run R).2 ps ->
  (forall q, q ∈ ps -> in_use (w_store w) q /\ q <> p) ->
  wrote (CowTree.internal_relink p (slot_of L) c run b epoch) w (fun r s' => advance (fun q => q = p) (w_store w) s' /\
    forall out, r = Ok out -> resown (w_store w) s' n lo hi p (plug L c run R).1 (plug L c run R).2 ps out).
Proof.
  intros Hok Hu E Ec Hfit Hk Hps. unfold CowTree.internal_relink. destruct (existsb _ run) eqn:Ebig.
  { apply wrote_throw. split; [by apply advance_refl|done]. }
  apply promoted_fits in Ebig. pose proof (node_fits_plug L c0 c run R Hfit Ebig) as Hfit'.
  eapply wrote_bind; [by eapply wrote_internal_of|by intros e s' [? _]|].
  intros x w1 [[= ->] Ew1]. rewrite <- Ew1 in *. clear w Ew1.
  eapply wrote_bind; [by apply relinked_child|by intros e s' [? _]|].
  intros x w2 [[= ->] Ew2]. rewrite <- Ew2 in *. clear w1 Ew2.
  replace (match slot_of L with None => 0 | Some i => i + 1 end) with (length (before L c))
    by (destruct L as [[[l es] m]|]; cbn; by rewrite ?length_app).
  destruct (place_spec run (before L c) R) as (fit & rest & Hpl & Hrun). eapply wrote_at_bind; [exact Hpl|].
  eapply wrote_bind; [apply wrote_put; [done|done|by eexists]|by intros e s' (? & _)|].
  intros [] w3 (_ & Ha & pg3 & E3 & Ec3).
  assert (forall q, q ∈ ps -> pages (w_store w3) !! q = pages (w_store w2) !! q) as Hf.
  { intros q Hq. destruct (Hps q Hq). by apply (adv_pages _ _ _ Ha). }
  assert (in_use (w_store w3) p) as Hu3 by (by apply (adv_use _ _ _ Ha)).
  rewrite plug_before in *. cbn [fst snd] in *.
  assert (kids (shaped (w_store w3) n) lo hi (first_child L c) (before L c ++ run ++ R) ps) as Hk3 by (by eapply kids_frame).
  destruct rest as [|e rest].
  - rewrite app_nil_r in Hrun. subst fit. apply wrote_ret. split; [done|]. intros out [= <-]. exists [], (p :: ps).
    split_and!; [|done|split; [constructor|by intros q ?%not_elem_of_nil]|].
    + eapply shaped_node; try done. by apply (in_use_width _ _ (adv_ok _ _ _ Ha)).
    + intros k. cbn [route]. rewrite (look_node _ n p pg3 _ _ k E3 Ec3). by eapply look_kids_frame.
  - replace (length (before L c) + (length run - length (e :: rest))) with (length (before L c ++ fit))
      by (rewrite Hrun, !length_app; cbn; lia).
    eapply wrote_at_bind; [rewrite app_assoc; apply insert_all_spec|].
    replace ((before L c ++ fit) ++ (e :: rest) ++ R) with (before L c ++ run ++ R)
      by (rewrite Hrun; by rewrite <- !app_assoc).
    eapply wrote_mono; [|apply (wrote_sow w3 p (first_child L c) (before L c ++ run ++ R) b epoch lo hi n ps (adv_ok _ _ _ Ha) Hu3); [by eexists|done|done|]].
    + intros r s' [Ha' H]. split; [by eapply advance_trans|]. intros out Hr. exact (resown_after _ _ _ _ _ _ _ _ _ _ _ Ha Hps Hk (H out Hr)).
    + intros q Hq. destruct (Hps q Hq). split; [by apply (adv_use _ _ _ Ha)|done].
Qed.
