(* ===== verification/CowInsert.v ===== *)
(** A write reaches the root: the run that replaces the subtree at the end of
    a way is linked into the ancestors, copied where a page is shared, and the
    tree from the new root answers with the run's rows in its range and as
    before outside. *)
From S2P Require Import Prelude Eff Bytes Errors Keys Chunker CowStore CowTree CowRead CowLogic CowIsolation CowBooks Merge3 Merge3Props CowShape CowSteps CowLeaf.

#[local] Arguments lookup : simpl never.

Lemma way_frame s s' root N up n lo hi c rest :
  (forall q, q ∈ rest -> pages s' !! q = pages s !! q) -> way s root N up n lo hi c rest -> way s' root N up n lo hi c rest.
Proof.
  intros Hf Hw. induction Hw as [|up n lo hi q rest pg L c R lo' hi' ps1 ps2 Hway IH Hq E Ec Hfit HL HR]; [constructor|].
  eapply way_down; [apply IH; set_solver|done| |done|done|eapply left_part_frame; [|done]; set_solver|eapply right_part_frame; [|done]; set_solver].
  rewrite Hf; [done|]. by left.
Qed.

(** The siblings' answers, by way of the root. *)
Lemma way_frame_look s s' root N up n lo hi c rest k :
  (forall q, q ∈ rest -> pages s' !! q = pages s !! q) -> way s root N up n lo hi c rest ->
  in_range lo hi k = false -> look s' N root k = look s N root k.
Proof.
  intros Hf Hw. revert k. induction Hw as [|up n lo hi q rest pg L c R lo' hi' ps1 ps2 Hway IH Hq E Ec Hfit HL HR]; intros k Hk; [done|].
  assert (forall q, q ∈ rest -> pages s' !! q = pages s !! q) as Hf' by (intros; apply Hf; set_solver).
  destruct (in_range lo hi k) eqn:Ek; [|by apply IH].
  assert (pages s' !! q = Some pg) as E' by (rewrite Hf; [done|by left]).
  rewrite (way_look _ _ _ _ _ _ _ _ _ k Hway Ek), (way_look s' _ _ _ _ _ _ _ _ k (way_frame _ _ _ _ _ _ _ _ _ _ Hf' Hway) Ek).
  rewrite (look_node s n q pg _ _ k E Ec), (look_node s' n q pg _ _ k E' Ec).
  rewrite (plug_route _ lo lo' hi' hi L R c [] ps1 ps2 k HL HR) by (try done; by intros m _ x ?%not_elem_of_nil). rewrite Hk.
  eapply look_past_frame; [|done..]. intros; apply Hf. set_solver.
Qed.

(** * A tree of a write in progress *)

(** The tree is made of pages in use, each once, none of which is to be freed. *)
Record planted (w : Writing) (ps : list PageId) : Prop := mkPlanted {
  pl_nodup : NoDup ps;
  pl_use p : p ∈ ps -> in_use (w_store w) p;
  pl_spare p : p ∈ retired w -> in_use (w_store w) p /\ p ∉ ps
}.

Lemma planted_perm w ps ps' : ps ≡ₚ ps' -> planted w ps -> planted w ps'.
Proof. intros Hp [H1 H2 H3]. split; [by rewrite <- Hp|intros p; rewrite <- Hp; auto|intros p; rewrite <- Hp; auto]. Qed.

Lemma planted_quiet w w' X ps : advance X (w_store w) (w_store w') -> retired w' = retired w -> planted w ps -> planted w' ps.
Proof.
  intros Ha Hr [H1 H2 H3]. split; [done|intros p Hp; by apply (adv_use _ _ _ Ha), H2|]. rewrite Hr. intros p Hp.
  destruct (H3 p Hp). split; [by apply (adv_use _ _ _ Ha)|done].
Qed.

Lemma planted_fresh w w' X ps new : advance X (w_store w) (w_store w') -> retired w' = retired w ->
  fresh (w_store w) (w_store w') new -> planted w ps -> planted w' (new ++ ps).
Proof.
  intros Ha Hr [Hd Hf] Hp. destruct (planted_quiet w w' X ps Ha Hr Hp) as [H1 H2 H3]. split.
  - apply NoDup_app. split_and!; [done| |done]. intros q Hq Hq'. destruct (Hf q Hq) as [_ Hn]. by apply Hn, (pl_use _ _ Hp).
  - intros q [Hq|Hq]%elem_of_app; [by apply Hf|auto].
  - intros q Hq. destruct (H3 q Hq) as [Hu Hn]. split; [done|]. intros [Hq'|Hq']%elem_of_app; [|done].
    destruct (Hf q Hq') as [_ Hno]. apply Hno. rewrite Hr in Hq. by apply (pl_spare _ _ Hp).
Qed.

(** A page of the tree gives way to its shadow. *)
Lemma planted_shadow w w' p p' c ps : advance nothing (w_store w) (w_store w') ->
  shadows (w_store w) (w_store w') p p' c -> (retired w' = retired w \/ retired w' = retired w ++ [p] /\ p' <> p) ->
  planted w (p :: ps) -> planted w' (p' :: ps).
Proof.
  intros Ha (Hs & Hu & _) Hr [H1 H2 H3]. apply NoDup_cons in H1 as [Hp Hd].
  assert (p' ∉ ps) as Hp' by (destruct Hs as [->|Hn]; [done|]; intros H; apply Hn, H2; by right). split.
  - by constructor.
  - intros q [->|Hq]%elem_of_cons; [done|]. apply (adv_use _ _ _ Ha), H2. by right.
  - intros q Hq. assert (q ∈ retired w \/ q = p /\ p' <> p) as [Hq'|[-> Hne]].
    { destruct Hr as [Hr|[Hr Hne]]; rewrite Hr in Hq; [by left|]. apply elem_of_app in Hq as [Hq|Hq%list_elem_of_singleton]; auto. }
    + destruct (H3 q Hq') as [Hqu Hqn]. split; [by apply (adv_use _ _ _ Ha)|]. intros [->|Hq2]%elem_of_cons; [|apply Hqn; by right].
      destruct Hs as [->|Hn]; [apply Hqn; by left|done].
    + split; [apply (adv_use _ _ _ Ha), H2; by left|]. intros [->|Hq2]%elem_of_cons; [done|done].
Qed.

(** * Linking the run in *)

(** The tree a write leaves: [ans] in the range written, [s]'s answers outside. *)
Definition regrown (s : CowStore) (N : nat) (root : PageId) (lo hi : option key) (ans : key -> option (list byte))
    (w' : Writing) (root' : PageId) : Prop :=
  store_ok (w_store w') /\ exists N' ps, N <= N' <= S N /\ shaped (w_store w') N' None None root' ps /\ planted w' ps
    /\ forall k, look (w_store w') N' root' k = if in_range lo hi k then ans k else look s N root k.

(** A new root above a run. *)
Lemma ran_new_root w root N c run ps b epoch : store_ok (w_store w) ->
  kids (shaped (w_store w) N) None None c run ps -> planted w ps ->
  ran (a ← on_store (arena_for b);
       new_root ← on_store (alloc_in_arena a BTreeInternal epoch);
       _ ← fill_internal new_root c run;
       mret new_root) w (fun r w' => forall root', r = Ok root' ->
    regrown (w_store w) N root None None (fun k => look (w_store w) N (route c run k) k) w' root').
Proof.
  intros Hok Hk Hpl.
  eapply ran_wrote; [apply wrote_store, ran_runs; [apply steady_arena_for|by apply arena_for_advance]|apply quiet_store|done|].
  intros a w1 Ha1 R1. cbn in Ha1.
  eapply ran_wrote; [apply wrote_store, ran_runs; [apply steady_alloc_in|apply alloc_in_arena_takes, Ha1]|apply quiet_store|done|].
  intros p w2 [Ha2 Ht] R2. destruct (Ht p eq_refl) as (Hn & Hu & pg & E & _).
  pose proof (advance_trans _ _ _ _ Ha1 Ha2) as Ha.
  assert (forall q, q ∈ ps -> in_use (w_store w) q) as Hps by apply (pl_use _ _ Hpl).
  destruct (kids_same _ _ _ _ _ _ _ _ Ha Hps Hk) as [Hk2 Hl2].
  assert (forall q, q ∈ ps -> in_use (w_store w2) q /\ q <> p) as Hps2.
  { intros q Hq. split; [by apply (adv_use _ _ _ Ha), Hps|]. intros ->. by apply Hn, (adv_use _ _ _ Ha1), Hps. }
  eapply ran_wrote; [eapply wrote_piece; [apply Ha2|done|by eexists|done|done]|apply quiet_fill_internal|done|].
  intros [] w3 [Ha3 H3] R3. destruct (H3 eq_refl) as [Hsh Hlk]. unfold ran. intros root' [= <-].
  split; [apply Ha3|]. exists (S N), (p :: ps). split_and!; [lia|done|done| |].
  - assert (advance nothing (w_store w) (w_store w3)) as Ha4.
    { eapply advance_then; [exact Ha|exact Ha3|]. intros q Hq ->. by apply Hn, (adv_use _ _ _ Ha1). }
    apply (planted_fresh w w3 nothing ps [p] Ha4); [congruence| |done].
    split; [by repeat constructor; intros ?%not_elem_of_nil|]. intros q ->%list_elem_of_singleton.
    split; [by apply (adv_use _ _ _ Ha3)|]. intros H. by apply Hn, (adv_use _ _ _ Ha1).
  - intros k. cbn [in_range above under andb]. by rewrite Hlk, Hl2.
Qed.

Lemma regrown_step s s1 N root lo hi lo' hi' (ans ans' : key -> option (list byte)) w' root' :
  (forall k, in_range lo' hi' k = true -> in_range lo hi k = true) ->
  (forall k, in_range lo hi k = true -> ans' k = if in_range lo' hi' k then ans k else look s N root k) ->
  (forall k, in_range lo hi k = false -> look s1 N root k = look s N root k) ->
  regrown s1 N root lo hi ans' w' root' -> regrown s N root lo' hi' ans w' root'.
Proof.
  intros Hr Hans Hout (Hok & N' & ps & HN & Hsh & Hpl & Hl). split; [done|]. exists N', ps. split_and!; [lia|lia|done|done|].
  intros k. rewrite Hl. destruct (in_range lo hi k) eqn:E; [by apply Hans|]. rewrite (Hout k E).
  destruct (in_range lo' hi' k) eqn:E'; [|done]. exfalso. rewrite (Hr k E') in E. done.
Qed.

(** The parent at the end of a way, shadowed: [q'] holds what [q] held, beside
    the pages [ps] that are to replace the child [c_old]. *)
Record opened (w w1 : Writing) (root : PageId) (N : nat) (q : PageId) (up : DescentPath) (n : nat) (lo hi : option key)
    (c_old : PageId) (ps : list PageId) (q' : PageId) (L : LeftPart) (R : list (key * PageId)) (lo0 hi0 : option key)
    (ps1 ps2 rest0 : list PageId) : Prop := mkOpened {
  op_way : way (w_store w) root N up (S n) lo0 hi0 q rest0;
  op_page : exists pg, pages (w_store w) !! q = Some pg /\ content pg = InternalNode (plug L c_old [] R).1 (plug L c_old [] R).2;
  op_fits : node_fits (plug L c_old [] R).2;
  op_left : left_part (shaped (w_store w) n) lo0 lo hi0 L ps1;
  op_right : right_part (shaped (w_store w) n) lo hi hi0 R ps2;
  op_adv : advance nothing (w_store w) (w_store w1);
  op_planted : planted w1 (q' :: ps1 ++ ps ++ ps2 ++ rest0);
  op_copy : exists pg, pages (w_store w1) !! q' = Some pg /\ content pg = InternalNode (plug L c_old [] R).1 (plug L c_old [] R).2;
  op_same x : x ∈ ps1 ++ ps ++ ps2 ++ rest0 -> pages (w_store w1) !! x = pages (w_store w) !! x
}.

Lemma op_apart w w1 root N q up n lo hi c_old ps q' L R lo0 hi0 ps1 ps2 rest0 :
  opened w w1 root N q up n lo hi c_old ps q' L R lo0 hi0 ps1 ps2 rest0 ->
  forall x, x ∈ ps1 ++ ps ++ ps2 ++ rest0 -> in_use (w_store w1) x /\ x <> q'.
Proof.
  intros Ho x Hx. split; [apply (pl_use _ _ (op_planted _ _ _ _ _ _ _ _ _ _ _ _ _ _ _ _ _ _ _ Ho)); by right|]. intros ->.
  pose proof (pl_nodup _ _ (op_planted _ _ _ _ _ _ _ _ _ _ _ _ _ _ _ _ _ _ _ Ho)) as Hd. by apply NoDup_cons in Hd as [Hd _].
Qed.

Lemma ran_open w root N q pg up n lo hi c_old L R lo0 hi0 ps1 ps2 rest0 ps b epoch : store_ok (w_store w) ->
  way (w_store w) root N up (S n) lo0 hi0 q rest0 -> pages (w_store w) !! q = Some pg ->
  content pg = InternalNode (plug L c_old [] R).1 (plug L c_old [] R).2 -> node_fits (plug L c_old [] R).2 ->
  left_part (shaped (w_store w) n) lo0 lo hi0 L ps1 -> right_part (shaped (w_store w) n) lo hi hi0 R ps2 ->
  planted w (q :: ps1 ++ ps ++ ps2 ++ rest0) ->
  ran (shadow q b epoch) w (fun r w1 => forall cp, r = Ok cp ->
    opened w w1 root N q up n lo hi c_old ps (cp_page cp) L R lo0 hi0 ps1 ps2 rest0).
Proof.
  intros Hok Hway E Ec Hfit HL HR Hpl.
  eapply ran_mono; [|apply (ran_shadow w q pg b epoch Hok); [apply (pl_use _ _ Hpl); by left|done]].
  intros r w1 [Ha1 Hcp] cp Hr. destruct (Hcp cp Hr) as [Hsh Hret].
  pose proof (planted_shadow _ _ _ _ _ _ Ha1 Hsh Hret Hpl) as Hpl2. destruct Hsh as (_ & _ & pg' & E' & Ec'). rewrite Ec in Ec'.
  split; try done; [by eauto|by eauto|]. intros x Hx. apply (adv_same _ _ _ Ha1), (pl_use _ _ Hpl). by right.
Qed.

Lemma ran_parent w root N q slot up n lo hi c_old rest ps b epoch : store_ok (w_store w) ->
  way (w_store w) root N ((q, slot) :: up) n lo hi c_old rest -> planted w (ps ++ rest) ->
  ran (shadow q b epoch) w (fun r w1 => forall cp, r = Ok cp -> exists L R lo0 hi0 ps1 ps2 rest0,
    slot = slot_of L /\ rest = q :: ps1 ++ ps2 ++ rest0
    /\ opened w w1 root N q up n lo hi c_old ps (cp_page cp) L R lo0 hi0 ps1 ps2 rest0).
Proof.
  intros Hok Hway Hpl. inversion Hway as [|? ? lo0 hi0 ? rest0 pg L ? R ? ? ps1 ps2 Hway0 Hqw E Ec Hfit HL HR]; subst.
  assert (planted w (q :: ps1 ++ ps ++ ps2 ++ rest0)) as Hpl1 by (eapply planted_perm; [|exact Hpl]; solve_Permutation).
  eapply ran_mono; [|by eapply (ran_open w root N q pg up n lo hi c_old L R lo0 hi0 ps1 ps2 rest0 ps b epoch)].
  intros r w1 H cp Hr. exists L, R, lo0, hi0, ps1, ps2, rest0. by split_and!; [| |apply H].
Qed.

Lemma ran_relink_loop root N b epoch up : forall w n lo hi c_old rest c run ps, store_ok (w_store w) ->
  way (w_store w) root N up n lo hi c_old rest -> kids (shaped (w_store w) n) lo hi c run ps -> planted w (ps ++ rest) ->
  ran (CowTree.relink_loop root up c_old c run b epoch) w (fun r w' => forall root', r = Ok root' ->
    regrown (w_store w) N root lo hi (fun k => look (w_store w) n (route c run k) k) w' root').
Proof.
  induction up as [|[q slot] up IH]; intros w n lo hi c_old rest c run ps Hok Hway Hk Hpl; cbn [CowTree.relink_loop].
  { inversion Hway; subst. rewrite app_nil_r in Hpl. destruct run as [|e run]; [|by eapply ran_new_root].
    assert ((if (c =? c_old)%N then mret c_old else mret c : W PageId) = mret c) as ->.
    { destruct (N.eqb_spec c c_old) as [->|]; done. }
    unfold ran. intros root' [= <-]. split; [done|]. exists n, ps. split_and!; [lia|lia|done|done|done]. }
  destruct (_ && _) eqn:Eout.
  { apply andb_true_iff in Eout as [E1%N.eqb_eq E2%bool_decide_eq_true]. subst c run. unfold ran. intros root' [= <-].
    destruct (way_rebuild _ _ _ _ _ _ _ _ _ (w_store w) ps Hway ltac:(done) Hk) as (ps' & Hsh & Hperm & Hlook).
    split; [done|]. exists N, ps'. split_and!; [lia|lia|done|by eapply planted_perm; [symmetry; exact Hperm|]|done]. }
  clear Eout. apply ran_bind. eapply ran_mono; [|by eapply ran_parent]. intros [cp|e] w1 Hop; [|done].
  destruct (Hop cp eq_refl) as (L & R & lo0 & hi0 & ps1 & ps2 & rest0 & -> & -> & Ho). pose proof (op_apart _ _ _ _ _ _ _ _ _ _ _ _ _ _ _ _ _ _ _ Ho) as Hap.
  destruct Ho as [Hway0 (pg & E & Ec) Hfit HL HR Ha1 Hpl1 (pg' & E' & Ec') Hf1]. set (q' := cp_page cp) in *.
  apply (left_part_frame _ (w_store w1)) in HL as HL1; [|set_solver]. apply (right_part_frame _ (w_store w1)) in HR as HR1; [|set_solver].
  apply (kids_frame _ (w_store w1)) in Hk as Hk1; [|set_solver].
  pose proof (plug_kids _ _ _ _ _ _ _ _ _ _ _ _ HL1 HR1 Hk1) as Hnode.
  assert (in_use (w_store w1) q') as Hu' by (apply (pl_use _ _ Hpl1); by left).
  eapply ran_wrote; [exact (wrote_internal_relink w1 q' pg' L c_old c R run b epoch lo0 hi0 n _ (adv_ok _ _ _ Ha1) Hu' E' Ec' Hfit Hnode
    (fun x Hx => Hap x ltac:(set_solver)))|apply quiet_internal_relink|done|].
  intros out w2 [Ha2 H2] R2. destruct (H2 out eq_refl) as (new & ps' & Hkn & Hperm & Hfr & Hlook). clear H2.
  assert (forall x, x ∈ rest0 -> pages (w_store w2) !! x = pages (w_store w) !! x) as Hf2.
  { intros x Hx. rewrite <- Hf1 by set_solver. destruct (Hap x) as [? ?]; [set_solver|]. by apply (adv_pages _ _ _ Ha2). }
  eapply ran_mono; [|apply (IH w2 (S n) lo0 hi0 q rest0 q' out ps' (adv_ok _ _ _ Ha2)); [by eapply way_frame|done|]].
  2: { eapply planted_perm; [|exact (planted_fresh _ _ _ _ new Ha2 R2 Hfr Hpl1)]. rewrite Hperm. solve_Permutation. }
  intros r w3 Hr root' Hroot. eapply regrown_step; [by intros k; eapply hole_range| | |by apply Hr].
  - intros k Hin. cbn beta. rewrite Hlook.
    rewrite (plug_route _ lo0 lo hi hi0 L R c run ps1 ps2 k HL1 HR1); [|by intros m -> x; eapply kids_under|done].
    destruct (in_range lo hi k) eqn:Ek; [eapply look_kids_frame; [|exact Hk]; set_solver|].
    rewrite (way_look _ _ _ _ _ _ _ _ _ k Hway0 Hin), (look_node _ n q pg _ _ k E Ec).
    rewrite (plug_route _ lo0 lo hi hi0 L R c_old [] ps1 ps2 k HL HR) by (try done; by intros m _ x ?%not_elem_of_nil).
    rewrite Ek. eapply look_past_frame; [|exact HL|exact HR|done|done]. set_solver.
  - intros k Hno. by eapply way_frame_look.
Qed.

(** * A leaf rewritten *)

Lemma planted_sprouts w w' p ps rest n lo hi sp : advance (fun q => q = p) (w_store w) (w_store w') -> retired w' = retired w ->
  sprouts (w_store w) (w_store w') (fun q => q = p) n lo hi p sp ps -> planted w (p :: rest) -> planted w' (ps ++ rest).
Proof.
  intros Ha Hr (_ & Hd & Hps) Hpl. pose proof (pl_nodup _ _ Hpl) as [Hp Hd']%NoDup_cons.
  assert (forall q, q ∈ rest -> in_use (w_store w) q /\ q <> p) as Hrest.
  { intros q Hq. split; [apply (pl_use _ _ Hpl); by right|]. by intros ->. }
  split.
  - apply NoDup_app. split_and!; [done| |done]. intros q Hq Hq'. destruct (Hrest q Hq'). by destruct (Hps q Hq) as [_ [->|?]].
  - intros q [Hq|Hq]%elem_of_app; [by apply Hps|]. by apply (adv_use _ _ _ Ha), Hrest.
  - intros q. rewrite Hr. intros Hq. destruct (pl_spare _ _ Hpl q Hq) as [Hu Hn]. split; [by apply (adv_use _ _ _ Ha)|].
    intros [Hq'|Hq']%elem_of_app; [|apply Hn; by right]. destruct (Hps q Hq') as [_ [->|?]]; [apply Hn; by left|done].
Qed.

(** The run a leaf was rewritten to, linked in. *)
Lemma ran_graft root N b epoch up w w' n lo hi c_old rest p sp ps :
  advance (fun q => q = p) (w_store w) (w_store w') -> retired w' = retired w ->
  sprouts (w_store w) (w_store w') (fun q => q = p) n lo hi p sp ps -> planted w (p :: rest) ->
  way (w_store w) root N up n lo hi c_old rest ->
  ran (CowTree.relink_loop root up c_old p sp b epoch) w' (fun r w2 => forall root', r = Ok root' ->
    regrown (w_store w) N root lo hi (fun k => look (w_store w') n (route p sp k) k) w2 root').
Proof.
  intros Ha Hr Hsp Hpl Hway.
  assert (forall q, q ∈ rest -> pages (w_store w') !! q = pages (w_store w) !! q) as Hf.
  { intros q Hq. apply (adv_pages _ _ _ Ha); [apply (pl_use _ _ Hpl); by right|]. intros ->.
    pose proof (pl_nodup _ _ Hpl) as [Hp _]%NoDup_cons. done. }
  eapply ran_mono; [|eapply (ran_relink_loop root N b epoch up w'); [apply Ha|by eapply way_frame|apply Hsp|by eapply planted_sprouts]].
  intros r w2 H root' Hroot. eapply regrown_step; [by intros k| | |by apply H].
  - intros k ->. done.
  - intros k Hk. by eapply way_frame_look.
Qed.
