(* ===== verification/CowUnlink.v ===== *)
(** Taking a leaf out of the tree: the neighbour's range grows over the gap,
    and the keys of the gap answer nothing. *)
From S2P Require Import Prelude Eff Bytes Errors Keys Chunker CowStore CowTree CowRead CowLogic CowIsolation CowBooks Merge3 Merge3Props CowShape CowSteps CowLeaf CowInsert.

#[local] Arguments lookup : simpl never.

(** * Finding the way again *)

Lemma slot_index l es k i : ksorted es -> i <= length es ->
  (forall j m, j < i -> es.*1 !! j = Some m -> ~ klt k m) ->
  (forall j m, i <= j -> es.*1 !! j = Some m -> klt k m) ->
  child_slot_for l es k = Ok (match i with O => None | S i => Some i end, route l es k).
Proof.
  intros Hs Hi H1 H2. pose proof (search_spec es.*1 k Hs) as Hx. destruct (child_slot_route l es k Hs) as [slot Hslot].
  rewrite Hslot. f_equal. f_equal. unfold child_slot_for in Hslot.
  assert (forall i' x, es !! i' = Some x -> slot = Some i' -> (forall j m, j = i' -> es.*1 !! j = Some m -> ~ klt k m) ->
    (forall j m, j = S i' -> es.*1 !! j = Some m -> klt k m) -> slot = match i with O => None | S i => Some i end) as Hat.
  { intros i' x Ex -> Ha Hb. pose proof (lookup_lt_Some _ _ _ Ex) as Hlt.
    destruct (decide (i = S i')) as [->|]; [done|]. exfalso. destruct (decide (i <= i')).
    - apply (Ha i' x.1 eq_refl); [by rewrite list_lookup_fmap, Ex|]. apply (H2 i' x.1); [lia|by rewrite list_lookup_fmap, Ex].
    - destruct (lookup_lt_is_Some_2 es (S i')) as [y Ey]; [lia|].
      apply (H1 (S i') y.1); [lia|by rewrite list_lookup_fmap, Ey|]. apply (Hb (S i') y.1 eq_refl). by rewrite list_lookup_fmap, Ey. }
  destruct (search es.*1 k) as [i'|[|i']].
  - rewrite list_lookup_fmap in Hx. destruct (es !! i') as [x|] eqn:Ex; [|done]. injection Hx as Hx. cbn in Hslot. injection Hslot as <- _.
    apply (Hat i' x Ex eq_refl).
    + intros j m -> Hm. rewrite list_lookup_fmap, Ex in Hm. injection Hm as <-. rewrite Hx. apply klt_irrefl.
    + intros j m -> Hm. eapply (sorted_lookup klt es.*1 i' (S i')); [done|lia| |done]. by rewrite list_lookup_fmap, Ex, <- Hx.
  - injection Hslot as <- _. destruct i as [|i]; [done|]. exfalso. destruct Hx as (_ & _ & Hx).
    destruct (lookup_lt_is_Some_2 es 0) as [y Ey]; [lia|]. apply (H1 0 y.1); [lia|by rewrite list_lookup_fmap, Ey|].
    apply (Hx 0); [lia|]. by rewrite list_lookup_fmap, Ey.
  - destruct Hx as (_ & Hx1 & Hx2). destruct (es !! i') as [x|] eqn:Ex; [|done]. injection Hslot as <- _.
    apply (Hat i' x Ex eq_refl).
    + intros j m -> Hm Hlt. specialize (Hx1 i' m ltac:(lia) Hm). key_order.
    + intros j m -> Hm. apply (Hx2 (S i')); [lia|done].
Qed.

Lemma right_part_above T lo' hi' hi R ps k : right_part T lo' hi' hi R ps -> under hi' k = true -> forall x, x ∈ R.*1 -> klt k x.
Proof.
  destruct R as [|[m c] es]; [by intros _ _ x ?%not_elem_of_nil|]. intros (-> & _ & H) Hk x. cbn in *.
  intros [->|Hx]%elem_of_cons; [by apply kltb_lt|]. pose proof (kids_inside _ _ _ _ _ _ H x Hx) as Hi. bounds.
Qed.

Lemma plug_sorted T lo lo' hi' hi L R c ps1 ps ps2 :
  left_part T lo lo' hi L ps1 -> right_part T lo' hi' hi R ps2 -> T lo' hi' c ps -> ksorted (plug L c [] R).2.
Proof. intros HL HR Hc. eapply kids_sorted. exact (plug_kids T lo lo' hi' hi L R c [] ps1 ps ps2 HL HR Hc). Qed.

Lemma plug_slot T lo lo' hi' hi L R c ps1 ps2 k : ksorted (plug L c [] R).2 ->
  left_part T lo lo' hi L ps1 -> right_part T lo' hi' hi R ps2 -> in_range lo' hi' k = true ->
  child_slot_for (plug L c [] R).1 (plug L c [] R).2 k = Ok (slot_of L, c).
Proof.
  intros Hs HL HR Hk. pose proof (hole_range _ _ _ _ _ _ _ _ _ _ HL HR Hk) as Hk0.
  assert (forall m, hi' = Some m -> forall x, x ∈ ([] : list (key * PageId)).*1 -> klt x m) as Hnil by (by intros m _ x ?%not_elem_of_nil).
  pose proof (plug_route T lo lo' hi' hi L R c [] ps1 ps2 k HL HR Hnil Hk0) as Hr. rewrite Hk in Hr. cbn [route] in Hr.
  apply andb_true_iff in Hk as [Hlo Hhi]. pose proof (right_part_above _ _ _ _ _ _ _ HR Hhi) as Hab.
  enough (child_slot_for (plug L c [] R).1 (plug L c [] R).2 k = Ok (slot_of L, route (plug L c [] R).1 (plug L c [] R).2 k)) as ->
    by (by rewrite Hr). clear Hr.
  destruct L as [[[l es] m]|]; cbn [plug slot_of fst snd app] in *.
  - destruct HL as (-> & Hm & Hks). apply (slot_index l _ k (S (length es)) Hs); [rewrite length_app; cbn; lia| |].
    + intros j x Hj Hx Hlt. rewrite fmap_app in Hx. cbn [fmap list_fmap] in Hx. apply lookup_app_Some in Hx as [Hx|[Hge Hx]].
      * pose proof (kids_under _ _ _ _ _ _ Hks x (proj2 (list_elem_of_lookup _ _) (ex_intro _ _ Hx))). cbn in Hlo. key_order.
      * rewrite length_fmap in *. replace (j - length es) with 0 in Hx by lia. injection Hx as <-. cbn in Hlo. key_order.
    + intros j x Hj Hx. apply Hab, list_elem_of_lookup. exists (j - S (length es)). rewrite fmap_app in Hx.
      rewrite lookup_app_r in Hx by (rewrite length_fmap; lia). rewrite length_fmap in Hx. cbn [fmap list_fmap] in Hx.
      replace (j - length es) with (S (j - S (length es))) in Hx by lia. done.
  - apply (slot_index c R k 0 Hs); [lia|lia|]. intros j x _ Hx. apply Hab, list_elem_of_lookup. eauto.
Qed.

(** A lookup in the range of a way's end goes down that way. *)
Lemma way_descend s root N up n lo hi c rest k fuel ps : way s root N up n lo hi c rest -> shaped s n lo hi c ps ->
  in_range lo hi k = true ->
  CowTree.descend_loop (length up + fuel) [] root k s = CowTree.descend_loop fuel (rev up) c k s.
Proof.
  intros Hw. revert fuel ps. induction Hw as [|up n lo hi q rest pg L c R lo' hi' ps1 ps2 Hway IH Hq E Ec Hfit HL HR]; intros fuel ps Hc Hk; [done|].
  pose proof (hole_range _ _ _ _ _ _ _ _ _ _ HL HR Hk) as Hk0.
  assert (shaped s (S n) lo hi q (q :: ps1 ++ ps ++ ps2)) as Hs by (eapply shaped_node; try done; by eapply plug_kids).
  cbn [length]. replace (S (length up) + fuel) with (length up + S fuel) by lia. rewrite (IH (S fuel) _ Hs Hk0).
  cbn [CowTree.descend_loop]. rewrite (eff_run _ _ _ _ _ (read_page_run _ _ _ E)), Ec.
  rewrite (plug_slot _ _ _ _ _ _ _ _ _ _ _ (plug_sorted _ _ _ _ _ _ _ _ _ _ _ HL HR Hc) HL HR Hk). done.
Qed.

Lemma way_depth s root N up n lo hi c rest : way s root N up n lo hi c rest -> length up + n = N.
Proof. induction 1 as [|up n lo hi q rest pg L c R lo' hi' ps1 ps2 Hway IH]; cbn; lia. Qed.

(** * Widening a range *)

Definition lower (lo2 lo : option key) : Prop :=
  match lo2, lo with None, _ => True | Some b, Some a => ~ klt a b | Some _, None => False end.
Definition upper (hi hi2 : option key) : Prop :=
  match hi2, hi with None, _ => True | Some b, Some a => ~ klt b a | Some _, None => False end.

Lemma lower_refl lo : lower lo lo.
Proof. destruct lo; cbn; [apply klt_irrefl|done]. Qed.
Lemma upper_refl hi : upper hi hi.
Proof. destruct hi; cbn; [apply klt_irrefl|done]. Qed.

Lemma widen_range lo hi lo2 hi2 k : lower lo2 lo -> upper hi hi2 -> in_range lo hi k = true -> in_range lo2 hi2 k = true.
Proof.
  intros H1 H2 [Ha Hb]%andb_true_iff. apply andb_true_iff. split.
  - destruct lo2, lo; cbn in *; try done. key_order.
  - destruct hi2, hi; cbn in *; try done. key_order.
Qed.

Lemma widen_inside lo hi lo2 hi2 k : lower lo2 lo -> upper hi hi2 -> inside lo hi k = true -> inside lo2 hi2 k = true.
Proof.
  intros H1 H2 [Ha Hb]%andb_true_iff. apply andb_true_iff. split.
  - destruct lo2, lo; cbn in *; try done. key_order.
  - destruct hi2, hi; cbn in *; try done. key_order.
Qed.

Lemma kids_widen (T : option key -> option key -> PageId -> list PageId -> Prop) :
  (forall lo hi lo2 hi2 c ps, lower lo2 lo -> upper hi hi2 -> T lo hi c ps -> T lo2 hi2 c ps) ->
  forall es lo hi lo2 hi2 l ps, lower lo2 lo -> upper hi hi2 -> kids T lo hi l es ps -> kids T lo2 hi2 l es ps.
Proof.
  intros HT es. induction es as [|[m c] es IH]; intros lo hi lo2 hi2 l ps H1 H2; cbn [kids]; [by apply HT|].
  intros (p1 & p2 & -> & Hl & Hm & Hk). exists p1, p2. split_and!; [done| | |].
  - eapply HT; [exact H1|apply upper_refl|done].
  - by eapply widen_inside.
  - eapply IH; [apply lower_refl|exact H2|done].
Qed.

Lemma shaped_widen s n : forall lo hi lo2 hi2 c ps, lower lo2 lo -> upper hi hi2 -> shaped s n lo hi c ps -> shaped s n lo2 hi2 c ps.
Proof.
  induction n as [|n IH]; intros lo hi lo2 hi2 c ps H1 H2 H; [done|]. destruct H as (Hw & pg & E & H). split; [done|]. exists pg. split; [done|].
  destruct (content pg) as [es|l es|]; [| |done].
  - destruct H as (-> & Hs & Hin & Hf). split_and!; [done|done| |done]. intros k Hk. eapply widen_range; [done|done|auto].
  - destruct H as (ps' & -> & Hf & Hk). exists ps'. split_and!; [done|done|]. by eapply kids_widen.
Qed.

(** Keys outside a tree's range have no row in it. *)
Lemma kids_outside s n lo hi l es ps k :
  (forall lo hi c ps, shaped s n lo hi c ps -> in_range lo hi k = false -> look s n c k = None) ->
  kids (shaped s n) lo hi l es ps -> in_range lo hi k = false -> look s n (route l es k) k = None.
Proof.
  intros HT. revert lo l ps. induction es as [|[m c] es IH]; intros lo l ps; cbn [kids route]; [by apply HT|].
  intros (p1 & p2 & _ & Hl & Hm & Hk) Hno. rewrite (in_range_split lo hi m k Hm) in Hno. destruct (kltb k m); [by eapply HT|by eapply IH].
Qed.

Lemma look_outside s n k : forall lo hi c ps, shaped s n lo hi c ps -> in_range lo hi k = false -> look s n c k = None.
Proof.
  induction n as [|n IH]; intros lo hi c ps H Hno; [done|]. destruct H as (_ & pg & E & H). cbn [look]. rewrite E. cbn.
  destruct (content pg) as [es|l es|]; [| |done].
  - destruct H as (_ & _ & Hin & _). apply kget_None. intros Hk%Hin. congruence.
  - destruct H as (ps' & _ & _ & Hk). by eapply kids_outside.
Qed.

Lemma look_taller s n n' lo hi p ps k : n <= n' -> shaped s n lo hi p ps -> look s n' p k = look s n p k.
Proof.
  revert n' lo hi p ps. induction n as [|n IH]; intros n' lo hi p ps Hn H; [done|]. destruct n' as [|n']; [lia|].
  destruct H as (_ & pg & E & H). cbn [look]. rewrite E. cbn. destruct (content pg) as [es|l es|]; [done| |done].
  destruct H as (ps' & _ & _ & Hk).
  destruct (kids_child _ _ _ _ _ _ (fun c => look s n' c k = look s n c k) tt Hk) as [Hl Hc].
  { intros lo' hi' c ps2 Hc. eapply IH; [lia|exact Hc]. }
  by apply (route_elem (fun c => look s n' c k = look s n c k)).
Qed.

(** * One child in place of another *)

Lemma wrote_relink_one w p pg L c0 c R b epoch :
  store_ok (w_store w) -> in_use (w_store w) p -> pages (w_store w) !! p = Some pg ->
  content pg = InternalNode (plug L c0 [] R).1 (plug L c0 [] R).2 ->
  wrote (CowTree.internal_relink p (slot_of L) c [] b epoch) w (fun r s' => advance (fun q => q = p) (w_store w) s'
    /\ r = Ok [] /\ exists pg', pages s' !! p = Some pg' /\ content pg' = InternalNode (plug L c [] R).1 (plug L c [] R).2).
Proof.
  intros Hok Hu E Ec. unfold CowTree.internal_relink. cbn [existsb].
  eapply wrote_bind; [by eapply wrote_internal_of|by intros e s' [? _]|]. intros x w1 [[= ->] Ew1]. rewrite <- Ew1 in *. clear w Ew1.
  eapply wrote_bind; [by apply relinked_child|by intros e s' [? _]|]. intros x w2 [[= ->] Ew2]. rewrite <- Ew2 in *. clear w1 Ew2.
  cbn [CowTree.place]. eapply wrote_at_bind; [done|]. eapply wrote_bind; [apply wrote_put; [done|done|by eexists]|by intros e s' (? & _)|].
  intros [] w3 (_ & Ha & pg3 & E3 & Ec3). apply wrote_ret. rewrite plug_before. cbn [fst snd app]. eauto.
Qed.

Definition replanted (w w' : Writing) (root' : PageId) (N n : nat) (lo hi : option key) (c : PageId) (ps : list PageId) : Prop :=
  exists up rest, way (w_store w') root' N up n lo hi c rest /\ planted w' (ps ++ rest)
    /\ (forall q, q ∈ ps -> pages (w_store w') !! q = pages (w_store w) !! q).

Lemma ran_relink_single root N b epoch up : forall w n lo hi c_old rest c ps, store_ok (w_store w) ->
  way (w_store w) root N up n lo hi c_old rest -> planted w (ps ++ rest) ->
  ran (CowTree.relink_loop root up c_old c [] b epoch) w (fun r w' => forall root', r = Ok root' ->
    replanted w w' root' N n lo hi c ps).
Proof.
  induction up as [|[q slot] up IH]; intros w n lo hi c_old rest c ps Hok Hway Hpl; cbn [CowTree.relink_loop].
  { inversion Hway; subst. assert ((if (c =? c_old)%N then mret c_old else mret c : W PageId) = mret c) as ->.
    { destruct (N.eqb_spec c c_old) as [->|]; done. }
    unfold ran. intros root' [= <-]. exists [], []. split_and!; [constructor|done|done]. }
  destruct (_ && _) eqn:Eout.
  { apply andb_true_iff in Eout as [E1%N.eqb_eq _]. subst c. unfold ran. intros root' [= <-]. exists ((q, slot) :: up), rest. by split_and!. }
  clear Eout. apply ran_bind. eapply ran_mono; [|by eapply ran_parent]. intros [cp|e] w1 Hop; [|done].
  destruct (Hop cp eq_refl) as (L & R & lo0 & hi0 & ps1 & ps2 & rest0 & -> & -> & Ho). pose proof (op_apart _ _ _ _ _ _ _ _ _ _ _ _ _ _ _ _ _ _ _ Ho) as Hap.
  destruct Ho as [Hway0 _ Hfit HL HR Ha1 Hpl1 (pg' & E' & Ec') Hf1]. set (q' := cp_page cp) in *.
  assert (in_use (w_store w1) q') as Hu' by (apply (pl_use _ _ Hpl1); by left).
  eapply ran_wrote; [exact (wrote_relink_one w1 q' pg' L c_old c R b epoch (adv_ok _ _ _ Ha1) Hu' E' Ec')|apply quiet_internal_relink|done|].
  intros out w2 (Ha2 & [= ->] & pg2 & E2 & Ec2) R2.
  assert (forall x, x ∈ ps1 ++ ps ++ ps2 ++ rest0 -> pages (w_store w2) !! x = pages (w_store w) !! x) as Hf.
  { intros x Hx. destruct (Hap x Hx). rewrite <- Hf1 by done. by apply (adv_pages _ _ _ Ha2). }
  assert (planted w2 ((q' :: ps1 ++ ps ++ ps2) ++ rest0)) as Hpl3.
  { eapply planted_perm; [|exact (planted_quiet _ _ _ _ Ha2 R2 Hpl1)]. solve_Permutation. }
  eapply ran_mono; [|apply (IH w2 (S n) lo0 hi0 q rest0 q' (q' :: ps1 ++ ps ++ ps2) (adv_ok _ _ _ Ha2)); [eapply way_frame; [|done]; set_solver|done]].
  intros r w3 Hr root' Hroot. destruct (Hr root' Hroot) as (up' & rest' & Hw3 & Hpl4 & Hf3).
  assert (forall x, x ∈ ps1 ++ ps ++ ps2 -> pages (w_store w3) !! x = pages (w_store w) !! x) as Hf4.
  { intros x Hx. rewrite Hf3 by set_solver. apply Hf. set_solver. }
  exists ((q', slot_of L) :: up'), (q' :: ps1 ++ ps2 ++ rest'). split_and!.
  - eapply way_down; [exact Hw3|exact (in_use_width _ _ (adv_ok _ _ _ Ha1) Hu')| |exact Ec2| | |].
    + rewrite Hf3 by set_solver. exact E2.
    + eapply node_fits_plug; [done|constructor].
    + eapply left_part_frame; [|exact HL]. set_solver.
    + eapply right_part_frame; [|exact HR]. set_solver.
  - eapply planted_perm; [|exact Hpl4]. solve_Permutation.
  - set_solver.
Qed.

(** * Retiring a page *)

Lemma planted_retire w p ps : planted w (p :: ps) -> planted (mkWriting (w_store w) (undo w) (retired w ++ [p])) ps.
Proof.
  intros [H1 H2 H3]. apply NoDup_cons in H1 as [Hp Hd]. split; [done|intros q Hq; apply H2; by right|].
  intros q. cbn [retired w_store]. intros [Hq|Hq%list_elem_of_singleton]%elem_of_app.
  - destruct (H3 q Hq) as [Hu Hn]. split; [done|]. intros Hq'. apply Hn. by right.
  - subst q. split; [apply H2; by left|done].
Qed.

Lemma ran_both {S A : Type} (m : Eff S A) s (Φ Ψ : _ -> _ -> Prop) : ran m s Φ -> ran m s Ψ -> ran m s (fun r s' => Φ r s' /\ Ψ r s').
Proof. unfold ran. destruct (m s) as [[r s']|]; auto. Qed.

Lemma ran_retire {B : Type} d (k : unit -> W B) w Ψ :
  ran (k tt) (mkWriting (w_store w) (undo w) (retired w ++ [d])) Ψ -> ran (retire d ≫= k) w Ψ.
Proof. done. Qed.

(** * The tree that starts over *)

Lemma steady_create b epoch : steady (CowTree.create b epoch).
Proof. unfold CowTree.create, read_page, write_page. steady. Qed.

Lemma create_takes s b epoch : store_ok s ->
  runs (CowTree.create b epoch) s (fun r s' => advance nothing s s' /\ forall p, r = Ok p -> taken s s' p (LeafNode [])).
Proof.
  intros Hok. unfold CowTree.create. run_step. eapply runs_mono; [|by apply arena_for_advance]. intros [a|e] s1 Ha; [|done]. cbn. run_step.
  eapply runs_mono; [|apply alloc_in_arena_takes, Ha]. intros [p|e] s2 [Ha2 Ht]; cbn; [|split; [by eapply advance_trans|done]].
  destruct (Ht p eq_refl) as (Hn & Hu & pg & E & _). unfold read_page, write_page. run. rewrite E. cbn [ok_or]. run.
  assert (~ in_use s p) as Hns by (intros H; by apply Hn, (adv_use _ _ _ Ha)). split.
  - apply advance_fresh; [apply Ha2|by eapply advance_trans|done|]. cbn. exact (so_tags _ (adv_ok _ _ _ Ha2) p pg E).
  - intros q [= <-]. split_and!; [done|exact Hu|]. cbn. rewrite lookup_insert_eq. by eexists.
Qed.

(** * A node without the child in its hole *)

Definition without (L : LeftPart) (R : list (key * PageId)) : option (PageId * list (key * PageId)) :=
  match L, R with
  | Some (l, es, _), _ => Some (l, es ++ R)
  | None, (_, c) :: es => Some (c, es)
  | None, [] => None
  end.

Lemma upper_under lo hi m : inside lo hi m = true -> upper (Some m) hi.
Proof. intros [_ H]%andb_true_iff. destruct hi; cbn in *; [key_order|done]. Qed.
Lemma lower_above lo hi m : inside lo hi m = true -> lower lo (Some m).
Proof. intros [H _]%andb_true_iff. destruct lo; cbn in *; [key_order|done]. Qed.

Lemma without_kids s n lo lo' hi' hi L R ps1 ps2 l es :
  left_part (shaped s n) lo lo' hi L ps1 -> right_part (shaped s n) lo' hi' hi R ps2 -> without L R = Some (l, es) ->
  kids (shaped s n) lo hi l es (ps1 ++ ps2).
Proof.
  pose proof (kids_widen (shaped s n) (shaped_widen s n)) as Hwid.
  destruct L as [[[l0 es0] m]|], R as [|[m2 c2] es2]; cbn [without left_part right_part].
  - intros (-> & Hm & Hk) [-> ->] [= <- <-]. rewrite !app_nil_r. eapply Hwid; [apply lower_refl|by eapply upper_under|done].
  - intros (-> & Hm & Hk) (-> & Hm2 & Hk2) [= <- <-]. apply kids_join; [|bounds|done].
    eapply Hwid; [apply lower_refl| |done]. cbn. bounds.
  - done.
  - intros [-> ->] (-> & Hm2 & Hk2) [= <- <-]. eapply Hwid; [by eapply lower_above|apply upper_refl|done].
Qed.

Lemma without_look s n lo lo' hi' hi L R ps1 ps2 l es k :
  left_part (shaped s n) lo lo' hi L ps1 -> right_part (shaped s n) lo' hi' hi R ps2 -> without L R = Some (l, es) ->
  in_range lo hi k = true ->
  look s n (route l es k) k = if in_range lo' hi' k then None else look s n (past L R k) k.
Proof.
  pose proof (fun lo hi l es ps => kids_outside s n lo hi l es ps k (look_outside s n k)) as Hout.
  intros HL HR Hw Hk. destruct L as [[[l0 es0] m]|].
  - injection Hw as <- <-. destruct HL as (-> & Hm & HL). cbn [past].
    assert (kltb k m = false -> in_range lo (Some m) k = false) as Hno.
    { intros E. unfold in_range. cbn. rewrite E. by rewrite andb_false_r. }
    assert (in_range (Some m) hi' k = negb (kltb k m) && under hi' k) as Hr.
    { unfold in_range. cbn. f_equal. destruct (kltb k m) eqn:E; cbn; key_order. }
    destruct R as [|[m2 c2] es2].
    + destruct HR as [-> _]. rewrite app_nil_r, Hr. apply andb_true_iff in Hk as [_ ->]. rewrite andb_true_r.
      destruct (kltb k m) eqn:E; [done|]. cbn. by eapply Hout, Hno.
    + destruct HR as (-> & Hm2 & HR). assert (klt m m2) as Hlt by bounds.
      rewrite route_join by (intros x Hx; pose proof (kids_under _ _ _ _ _ _ HL x Hx); key_order). rewrite Hr. cbn [under].
      destruct (kltb k m) eqn:E, (kltb k m2) eqn:E2; cbn; [done|exfalso; key_order| |done]. by eapply Hout, Hno.
  - destruct HL as [-> _]. destruct R as [|[m2 c2] es2]; [done|]. injection Hw as <- <-. destruct HR as (-> & Hm2 & HR). cbn [past].
    unfold in_range. cbn [under]. apply andb_true_iff in Hk as [-> _]. cbn. destruct (kltb k m2) eqn:E; [|done].
    eapply Hout; [exact HR|]. unfold in_range. apply andb_false_iff. left. cbn. key_order.
Qed.

Lemma node_fits_without L c R l es : node_fits (plug L c [] R).2 -> without L R = Some (l, es) -> node_fits es.
Proof.
  unfold node_fits. rewrite plug_before. cbn [snd app]. intros H Hw. apply Forall_app in H as [H1 H2].
  destruct L as [[[l0 es0] m]|]; cbn in *.
  - injection Hw as <- <-. apply Forall_app in H1 as [H1 _]. by apply Forall_app.
  - destruct R as [|[m2 c2] es2]; [done|]. injection Hw as <- <-. by apply Forall_cons in H2 as [_ H2].
Qed.

Lemma wrote_unslot w p pg L c R : store_ok (w_store w) -> in_use (w_store w) p -> pages (w_store w) !! p = Some pg ->
  content pg = InternalNode (plug L c [] R).1 (plug L c [] R).2 ->
  wrote (match slot_of L with
         | Some i =>
             es ← lift (CowTree.remove_at i (plug L c [] R).2);
             _ ← put_content p (InternalNode (plug L c [] R).1 es);
             mret false
         | None =>
             match (plug L c [] R).2 with
             | [] => mret true
             | (_, c) :: es => _ ← put_content p (InternalNode c es); mret false
             end
         end) w (fun r s' => advance (fun q => q = p) (w_store w) s' /\
    match without L R with
    | Some (l, es) => r = Ok false /\ exists pg', pages s' !! p = Some pg' /\ content pg' = InternalNode l es
    | None => r = Ok true
    end).
Proof.
  intros Hok Hu E Ec.
  assert (forall l es, wrote (_ ← put_content p (InternalNode l es); mret false) w (fun r s' => advance (fun q => q = p) (w_store w) s' /\
    r = Ok false /\ exists pg', pages s' !! p = Some pg' /\ content pg' = InternalNode l es)) as Hput.
  { intros l es. eapply wrote_bind; [apply wrote_put; [done|done|by eexists]|by intros e s' (? & _)|].
    intros [] w1 (_ & Ha & Hc). by apply wrote_ret. }
  destruct L as [[[l es] m]|]; cbn [slot_of plug without fst snd app].
  - unfold CowTree.remove_at. rewrite (proj2 (Nat.ltb_lt _ _)) by (rewrite length_app; cbn; lia). rewrite delete_middle. apply Hput.
  - destruct R as [|[m2 c2] es2]; [|apply Hput]. apply wrote_ret. split; [by apply advance_refl|done].
Qed.

Lemma regrown_start w root N b epoch d : 0 < N -> store_ok (w_store w) -> planted w [d] ->
  ran (_ ← retire d; on_store (CowTree.create b epoch)) w (fun r w' => forall root', r = Ok root' ->
    regrown (w_store w) N root None None (fun _ => None) w' root').
Proof.
  intros HN Hok Hpl. apply ran_retire. set (w0 := mkWriting _ _ _).
  pose proof (planted_retire _ _ _ Hpl : planted w0 []) as Hpl0.
  pose proof (ran_runs _ _ _ (steady_create b epoch) (create_takes (w_store w0) b epoch Hok)) as H.
  unfold ran, on_store in *. destruct (CowTree.create b epoch (w_store w0)) as [[[p|e] s1]|]; [| |done].
  2: { done. }
  destruct H as [Ha Ht]. destruct (Ht p eq_refl) as (Hn & Hu & pg & E & Ec). intros root' [= <-]. split; [apply Ha|].
  exists N, [p]. destruct N as [|N]; [lia|]. split_and!; [lia|lia| | |].
  - eapply shaped_leaf; [exact (in_use_width _ _ (adv_ok _ _ _ Ha) Hu)|exact E|exact Ec|constructor|by intros k ?%not_elem_of_nil|constructor].
  - apply (planted_fresh w0 (mkWriting s1 (undo w0) (retired w0)) nothing [] [p] Ha); [done| |done].
    split; [by repeat constructor; intros ?%not_elem_of_nil|]. by intros q ->%list_elem_of_singleton.
  - intros k. cbn [in_range above under andb w_store]. by rewrite (look_leaf s1 N p pg [] k E Ec).
Qed.

Lemma ran_unlink_loop root N b epoch up : forall w n lo hi c_old rest d, 0 < N -> store_ok (w_store w) ->
  way (w_store w) root N up n lo hi c_old rest -> planted w (d :: rest) ->
  ran (CowTree.unlink_loop root up d b epoch) w (fun r w' => forall root', r = Ok root' ->
    regrown (w_store w) N root lo hi (fun _ => None) w' root').
Proof.
  induction up as [|[q slot] up IH]; intros w n lo hi c_old rest d HN Hok Hway Hpl; cbn [CowTree.unlink_loop].
  { inversion Hway; subst. by apply regrown_start. }
  apply ran_bind. eapply ran_mono; [|by eapply (ran_parent w root N q slot up n lo hi c_old rest [d])]. intros [cp|e] w1 Hop; [|done].
  destruct (Hop cp eq_refl) as (L & R & lo0 & hi0 & ps1 & ps2 & rest0 & -> & -> & Ho). pose proof (op_apart _ _ _ _ _ _ _ _ _ _ _ _ _ _ _ _ _ _ _ Ho) as Hap.
  destruct Ho as [Hway0 (pg & E & Ec) Hfit HL HR Ha1 Hpl1 (pg' & E' & Ec') Hf1]. set (q' := cp_page cp) in *.
  assert (in_use (w_store w1) q') as Hu' by (apply (pl_use _ _ Hpl1); by left).
  eapply ran_wrote; [by eapply wrote_internal_of|unfold internal_of; quiet|done|]. intros x w2 [[= ->] Ew2] R2.
  eapply ran_wrote; [eapply (wrote_unslot w2 q' pg' L c_old R); rewrite ?Ew2; [apply Ha1|done|done|done]
    |unfold put_content; quiet|done|]. rewrite Ew2. intros childless w3 [Ha3 Hc] R3.
  assert (forall x, x ∈ ps1 ++ ps2 ++ rest0 -> pages (w_store w3) !! x = pages (w_store w) !! x) as Hf.
  { intros x Hx. destruct (Hap x) as [? ?]; [set_solver|]. rewrite <- Hf1 by set_solver. by apply (adv_pages _ _ _ Ha3). }
  assert (planted w3 (d :: (q' :: ps1 ++ ps2) ++ rest0)) as Hpl3.
  { eapply planted_perm; [|exact (planted_quiet w1 w3 _ _ Ha3 ltac:(congruence) Hpl1)]. solve_Permutation. }
  apply ran_retire. apply planted_retire in Hpl3. set (w4 := mkWriting _ _ _) in *.
  assert (forall k, in_range lo0 hi0 k = false -> look (w_store w4) N root k = look (w_store w) N root k) as Hout.
  { intros k Hk. eapply way_frame_look; [|exact Hway0|done]. set_solver. }
  apply (way_frame _ (w_store w4)) in Hway0 as Hway4; [|set_solver].
  destruct (without L R) as [[l es]|] eqn:Ew.
  - destruct Hc as [[= ->] (pg3 & E3 & Ec3)].
    pose proof (without_kids _ _ _ _ _ _ _ _ _ _ _ _ HL HR Ew) as Hk.
    assert (shaped (w_store w4) (S n) lo0 hi0 q' (q' :: ps1 ++ ps2)) as Hs4.
    { eapply shaped_node; [exact (in_use_width _ _ (adv_ok _ _ _ Ha1) Hu')|exact E3|exact Ec3|by eapply node_fits_without|].
      eapply kids_frame; [|exact Hk]. set_solver. }
    eapply ran_mono; [|exact (ran_relink_loop root N b epoch up w4 (S n) lo0 hi0 q rest0 q' [] _ (adv_ok _ _ _ Ha3) Hway4 Hs4 Hpl3)].
    intros r w5 Hr root' Hroot. eapply regrown_step; [by intros k; eapply hole_range| |exact Hout|by apply Hr].
    intros k Hin. cbn beta. cbn [route]. rewrite (look_node (w_store w4) n q' pg3 l es k E3 Ec3).
    rewrite (look_kids_frame (w_store w) (w_store w4) n lo0 hi0 l es (ps1 ++ ps2) k ltac:(set_solver) Hk).
    rewrite (without_look _ _ _ _ _ _ _ _ _ _ _ _ k HL HR Ew Hin). destruct (in_range lo hi k) eqn:Ek; [done|].
    rewrite (way_look _ _ _ _ _ _ _ _ _ k Hway0 Hin), (look_node _ n q pg _ _ k E Ec).
    rewrite (plug_route _ lo0 lo hi hi0 L R c_old [] ps1 ps2 k HL HR) by (try done; by intros m _ x ?%not_elem_of_nil). by rewrite Ek.
  - injection Hc as ->. destruct L as [[[l0 es0] m]|], R as [|[m2 c2] es2]; try done. destruct HL as [-> ->], HR as [-> ->].
    eapply ran_mono; [|apply (IH w4 (S n) lo0 hi0 q rest0 q' HN (adv_ok _ _ _ Ha3) Hway4 Hpl3)].
    intros r w5 Hr root' Hroot. eapply (regrown_step _ _ _ _ lo0 hi0 lo0 hi0 _ (fun _ => None)); [done| |exact Hout|by apply Hr].
    intros k Hin. by rewrite Hin.
Qed.
