(* ===== verification/CowMerge.v ===== *)
(** Merging a leaf with its right neighbour: where both hang under one parent,
    the tree keeps its rows. *)
From S2P Require Import Prelude Eff Bytes Errors Keys Chunker CowStore CowTree CowRead CowLogic CowIsolation CowBooks Merge3 Merge3Props CowShape CowSteps CowLeaf CowInsert CowUnlink.

#[local] Arguments lookup : simpl never.

Lemma right_first T m hi0 r R ps : kids T (Some m) hi0 r R ps ->
  exists hi ps1 ps2, ps = ps1 ++ ps2 /\ T (Some m) hi r ps1 /\ right_part T (Some m) hi hi0 R ps2.
Proof.
  destruct R as [|[m2 c2] es2].
  - intros H. exists hi0, ps, []. by rewrite app_nil_r.
  - intros (p1 & p2 & -> & H1 & H2 & H3). by exists (Some m2), p1, p2.
Qed.

Lemma right_part_lower T lo m hi' hi R ps : inside lo hi m = true -> right_part T (Some m) hi' hi R ps -> right_part T lo hi' hi R ps.
Proof. intros Hm. destruct R as [|[m2 c2] es2]; [done|]. intros (-> & Hm2 & H). split_and!; [done| |done]. bounds. Qed.

Lemma inside_between lo hi m m2 : inside lo hi m = true -> inside (Some m) hi m2 = true -> inside lo (Some m2) m = true.
Proof. intros H1 H2. bounds. Qed.

(** The children before the neighbour, as its left part. *)
Definition lefts (L : LeftPart) (l : PageId) (m : key) : LeftPart := Some (first_child L l, before L l, m).

Lemma lefts_part T lo0 lo hi0 L l m ps1 ps : left_part T lo0 lo hi0 L ps1 -> inside lo hi0 m = true -> T lo (Some m) l ps ->
  left_part T lo0 (Some m) hi0 (lefts L l m) (ps1 ++ ps).
Proof.
  intros HL Hm Hl. split_and!; [done| |].
  - destruct L as [[[l0 es0] m0]|]; [destruct HL as (-> & Hm0 & _); bounds|]. by destruct HL as [-> _].
  - assert (left_part T lo0 lo (Some m) L ps1) as HL'.
    { destruct L as [[[l0 es0] m0]|]; [|done]. destruct HL as (-> & Hm0 & H). split_and!; [done| |done]. bounds. }
    pose proof (plug_kids T lo0 lo (Some m) (Some m) L [] l [] ps1 ps [] HL' (conj eq_refl eq_refl) Hl) as H.
    rewrite plug_before in H. cbn [fst snd app] in H. by rewrite !app_nil_r in H.
Qed.

Lemma lefts_plug L l m r R : plug (lefts L l m) r [] R = plug L l [] ((m, r) :: R).
Proof. by rewrite (plug_before L). Qed.

Section sibling.
Context (root : PageId) (N n : nat) (q : PageId) (up : DescentPath) (L : LeftPart) (l r : PageId) (m : key)
  (R : list (key * PageId)) (lo0 hi0 lo hi : option key) (ps1 ps2 rest0 : list PageId).

(** [l] and [r] are neighbouring leaves under [q]. *)
Record siblings (s : CowStore) : Prop := mkSiblings {
  sb_way : way s root N up (S n) lo0 hi0 q rest0;
  sb_page : exists pg, pages s !! q = Some pg /\ content pg = InternalNode (plug L l [] ((m, r) :: R)).1 (plug L l [] ((m, r) :: R)).2;
  sb_width : (q < 4294967296)%N;
  sb_fits : node_fits (plug L l [] ((m, r) :: R)).2;
  sb_left : left_part (shaped s n) lo0 lo hi0 L ps1;
  sb_l : shaped s n lo (Some m) l [l];
  sb_inside : inside lo hi0 m = true;
  sb_r : shaped s n (Some m) hi r [r];
  sb_right : right_part (shaped s n) (Some m) hi hi0 R ps2
}.

Lemma siblings_way_l s : siblings s -> way s root N ((q, slot_of L) :: up) n lo (Some m) l (q :: ps1 ++ ([r] ++ ps2) ++ rest0).
Proof.
  intros [H1 (pg & E & Ec) H3 H4 H5 H6 H7 H8 H9].
  refine (way_down s root N up n lo0 hi0 q rest0 pg L l ((m, r) :: R) _ _ ps1 ([r] ++ ps2) H1 H3 E Ec H4 H5 _). split_and!; [done|done|].
  destruct R as [|[m2 c2] es2]; [by destruct H9 as [-> ->]|]. destruct H9 as (-> & H9 & H10). by exists [r], ps2.
Qed.

Lemma siblings_way_r s : siblings s ->
  way s root N ((q, slot_of (lefts L l m)) :: up) n (Some m) hi r (q :: (ps1 ++ [l]) ++ ps2 ++ rest0).
Proof.
  intros [H1 (pg & E & Ec) H3 H4 H5 H6 H7 H8 H9].
  refine (way_down s root N up n lo0 hi0 q rest0 pg (lefts L l m) r R _ _ (ps1 ++ [l]) ps2 H1 H3 E _ _ _ H9).
  - by rewrite lefts_plug.
  - by rewrite lefts_plug.
  - by eapply lefts_part.
Qed.

(** What the two leaves answer together. *)
Lemma siblings_range s k : siblings s ->
  in_range lo hi k = if kltb k m then in_range lo (Some m) k else in_range (Some m) hi k.
Proof.
  intros Hs. apply in_range_split. pose proof (sb_inside _ Hs) as Hm. pose proof (sb_right _ Hs) as HR.
  destruct R as [|[m2 c2] es2]; [by destruct HR as [-> _]|]. destruct HR as (-> & Hm2 & _).
  by eapply inside_between.
Qed.

Lemma siblings_frame s s' : (forall x, x ∈ q :: ps1 ++ [l; r] ++ ps2 ++ rest0 -> pages s' !! x = pages s !! x) ->
  siblings s -> siblings s'.
Proof.
  intros Hf [H1 (pg & E & Ec) H3 H4 H5 H6 H7 H8 H9]. split; try done.
  - eapply way_frame; [|done]. set_solver.
  - exists pg. rewrite Hf by (by left). done.
  - eapply left_part_frame; [|done]. set_solver.
  - eapply shaped_frame; [|done]. set_solver.
  - eapply shaped_frame; [|done]. set_solver.
  - eapply right_part_frame; [|done]. set_solver.
Qed.

(** The tree without [r], in which [l] covers both ranges. *)
Definition joined (w w' : Writing) (root' : PageId) : Prop :=
  store_ok (w_store w') /\ exists up' rest', way (w_store w') root' N up' n lo hi l rest' /\ planted w' (l :: rest')
    /\ pages (w_store w') !! l = pages (w_store w) !! l
    /\ forall k, in_range lo hi k = false -> look (w_store w') N root' k = look (w_store w) N root k.

(** The node that lost [r] answers as before outside [lo, hi). *)
Lemma joined_node s k c : siblings s -> in_range lo0 hi0 k = true -> in_range lo hi k = false ->
  route (plug L c [] R).1 (plug L c [] R).2 k = route (plug L c [] ((m, r) :: R)).1 (plug L c [] ((m, r) :: R)).2 k
  /\ route (plug L c [] R).1 (plug L c [] R).2 k = past L R k.
Proof.
  intros Hs Hin Hno. pose proof (siblings_range s k Hs) as Hrg. pose proof Hs as [H1 _ _ _ HL Hl Hm Hr HR].
  assert (forall x : option key, forall m', x = Some m' -> forall y, y ∈ ([] : list (key * PageId)).*1 -> klt y m') as Hnil
    by (by intros x m' _ y ?%not_elem_of_nil).
  rewrite (plug_route _ lo0 lo hi hi0 L R c [] ps1 ps2 k HL (right_part_lower _ _ _ _ _ _ _ Hm HR) (Hnil _) Hin), Hno. split; [|done].
  assert (right_part (shaped s n) lo (Some m) hi0 ((m, r) :: R) ([r] ++ ps2)) as HR'.
  { split_and!; [done|done|]. destruct R as [|[m2 c2] es2]; [by destruct HR as [-> ->]|]. destruct HR as (-> & H9 & H10). by exists [r], ps2. }
  rewrite (plug_route _ lo0 lo (Some m) hi0 L ((m, r) :: R) c [] ps1 _ k HL HR' (Hnil _) Hin).
  destruct (in_range lo (Some m) k) eqn:Ek.
  { exfalso. pose proof Ek as [_ Eb]%andb_true_iff. cbn [under] in Eb. rewrite Hrg, Eb in Hno. congruence. }
  assert (above lo k = true -> kltb k m = false /\ in_range (Some m) hi k = false) as Habove.
  { intros Ha. unfold in_range in Ek. rewrite Ha in Ek. cbn in Ek. split; [done|]. by rewrite Ek in Hrg; rewrite <- Hrg. }
  assert (above lo k = true -> match R with (_, c) :: es => route c es k | [] => 0%N end = route r R k) as Hright.
  { intros Ha. destruct (Habove Ha) as [Ekm Hno2]. destruct R as [|[m2 c2] es2].
    - destruct HR as [-> _]. exfalso. unfold in_range in *. apply andb_true_iff in Hin as [_ Hin]. rewrite Hin, andb_true_r in Hno2.
      cbn in Hno2. key_order.
    - destruct HR as (-> & _ & _). cbn [route]. assert (kltb k m2 = false) as ->; [|done].
      unfold in_range in Hno2. cbn in Hno2. destruct (kleb m k) eqn:E; [done|]. exfalso. key_order. }
  unfold past. destruct L as [[[l0 es0] m0]|].
  - destruct HL as (-> & _ & _). destruct (kltb k m0) eqn:E0; [done|]. apply Hright. cbn. key_order.
  - destruct HL as [-> _]. apply Hright. by apply andb_true_iff in Hin as [? _].
Qed.

(** The parent keeps [l] where it was. *)
Lemma without_r : without (lefts L l m) R = Some (plug L l [] R).
Proof. by rewrite plug_before. Qed.

Lemma ran_unlink_sibling w d b epoch : store_ok (w_store w) -> siblings (w_store w) ->
  planted w (d :: q :: ps1 ++ [l] ++ ps2 ++ rest0) ->
  ran (CowTree.unlink_loop root ((q, slot_of (lefts L l m)) :: up) d b epoch) w (fun res w' => forall root', res = Ok root' ->
    joined w w' root').
Proof.
  intros Hok Hsib Hpl. pose proof Hsib as [Hway (pg & E & Ec) Hq Hfit HL Hl Hm Hr HR]. cbn [CowTree.unlink_loop].
  rewrite <- lefts_plug in Ec, Hfit.
  apply ran_bind. eapply ran_mono; [|apply (ran_open w root N q pg up n (Some m) hi r (lefts L l m) R lo0 hi0 (ps1 ++ [l]) ps2 rest0 [d]);
    [done|done|done|done|done|by eapply lefts_part|done|eapply planted_perm; [|exact Hpl]; solve_Permutation]].
  intros [cp|e] w1 Hop; [|done]. pose proof (Hop cp eq_refl) as Ho. pose proof (op_apart _ _ _ _ _ _ _ _ _ _ _ _ _ _ _ _ _ _ _ Ho) as Hap.
  destruct Ho as [_ _ _ _ _ Ha1 Hpl1 (pg' & E' & Ec') Hf1]. set (q' := cp_page cp) in *.
  assert (in_use (w_store w1) q') as Hu' by (apply (pl_use _ _ Hpl1); by left).
  eapply ran_wrote; [by eapply wrote_internal_of|unfold internal_of; quiet|done|]. intros x w2 [[= ->] Ew2] R2.
  eapply ran_wrote; [eapply (wrote_unslot w2 q' pg' (lefts L l m) r R); rewrite ?Ew2; [apply Ha1|done|done|done]
    |unfold put_content; quiet|done|]. rewrite Ew2, without_r. intros childless w3 [Ha3 Hc] R3.
  destruct (plug L l [] R) as [l1 es1] eqn:Ep. destruct Hc as [[= ->] (pg3 & E3 & Ec3)].
  assert (forall x, x ∈ ps1 ++ [l] ++ ps2 ++ rest0 -> pages (w_store w3) !! x = pages (w_store w) !! x) as Hf.
  { intros x Hx. destruct (Hap x) as [? ?]; [set_solver|]. rewrite <- Hf1 by set_solver. by apply (adv_pages _ _ _ Ha3). }
  assert (planted w3 (d :: (q' :: ps1 ++ [l] ++ ps2) ++ rest0)) as Hpl3.
  { eapply planted_perm; [|exact (planted_quiet w1 w3 _ _ Ha3 ltac:(congruence) Hpl1)]. solve_Permutation. }
  apply ran_retire. apply planted_retire in Hpl3. set (w4 := mkWriting _ _ _) in *.
  apply (way_frame _ (w_store w4)) in Hway as Hway4; [|set_solver].
  pose proof (right_part_lower _ _ _ _ _ _ _ Hm HR) as HR'.
  assert (node_fits es1) as Hfit1 by (by eapply (node_fits_without (lefts L l m) r R l1 es1); [|rewrite without_r, Ep]).
  assert (kids (shaped (w_store w4) n) lo0 hi0 l1 es1 (ps1 ++ [l] ++ ps2)) as Hk4.
  { eapply (kids_frame (w_store w)); [set_solver|]. pose proof (plug_kids _ _ _ _ _ _ _ l [] _ [l] _ HL HR') as Hk. rewrite Ep in Hk. apply Hk.
    eapply shaped_widen; [apply lower_refl| |exact Hl].
    destruct R as [|[m2 c2] es2]; [destruct HR as [-> _]; by eapply upper_under|]. destruct HR as (-> & Hm2 & _).
    apply (upper_under lo). by eapply inside_between. }
  assert (shaped (w_store w4) (S n) lo0 hi0 q' (q' :: ps1 ++ [l] ++ ps2)) as Hs4.
  { by eapply shaped_node; [exact (in_use_width _ _ (adv_ok _ _ _ Ha1) Hu')|exact E3|exact Ec3| |]. }
  eapply ran_mono; [|exact (ran_both _ _ _ _
    (ran_relink_single root N b epoch up w4 (S n) lo0 hi0 q rest0 q' _ (adv_ok _ _ _ Ha3) Hway4 Hpl3)
    (ran_relink_loop root N b epoch up w4 (S n) lo0 hi0 q rest0 q' [] _ (adv_ok _ _ _ Ha3) Hway4 Hs4 Hpl3))].
  intros res w5 [H1 H2] root' Hroot. destruct (H1 root' Hroot) as (up' & rest' & Hw5 & Hpl5 & Hf5).
  destruct (H2 root' Hroot) as (Hok5 & N' & ps & HN & Hsh & _ & Hlk). split; [done|].
  exists ((q', slot_of L) :: up'), (q' :: ps1 ++ ps2 ++ rest').
  assert (pages (w_store w5) !! q' = Some pg3) as E5 by (rewrite Hf5 by set_solver; exact E3).
  assert (forall x, x ∈ ps1 ++ [l] ++ ps2 -> pages (w_store w5) !! x = pages (w_store w) !! x) as Hf6.
  { intros x Hx. rewrite Hf5 by set_solver. apply Hf. set_solver. }
  split_and!.
  - refine (way_down (w_store w5) root' N up' n lo0 hi0 q' rest' pg3 L l R _ _ ps1 ps2 Hw5 (in_use_width _ _ (adv_ok _ _ _ Ha1) Hu') E5 _ _ _ _).
    + by rewrite Ep.
    + by rewrite Ep.
    + eapply left_part_frame; [|exact HL]. set_solver.
    + eapply right_part_frame; [|exact HR']. set_solver.
  - eapply planted_perm; [|exact Hpl5]. solve_Permutation.
  - apply Hf6. set_solver.
  - intros k Hno. apply (shaped_frame _ (w_store w5)) in Hs4 as Hs5; [|done].
    destruct (in_range lo0 hi0 k) eqn:Ek.
    + destruct (joined_node (w_store w) k l Hsib Ek Hno) as [Hrt Hpast]. rewrite Ep in Hrt, Hpast. cbn [fst snd] in Hrt, Hpast.
      rewrite (way_look _ _ _ _ _ _ _ _ _ k Hw5 Ek), (look_node _ n q' pg3 l1 es1 k E5 Ec3).
      rewrite (way_look _ _ _ _ _ _ _ _ _ k Hway Ek), (look_node _ n q pg _ _ k E Ec), lefts_plug, <- Hrt, Hpast.
      eapply look_past_frame; [|exact HL|exact HR'|done|done]. set_solver.
    + destruct (way_rebuild _ _ _ _ _ _ _ _ _ (w_store w5) _ Hw5 ltac:(done) Hs5) as (ps' & Hsh' & _ & _).
      rewrite <- (look_taller _ N N' _ _ root' ps' k ltac:(lia) Hsh'), Hlk, Ek. eapply way_frame_look; [|exact Hway|done]. set_solver.
Qed.

End sibling.

(** * The neighbour a merge finds *)

(** The leaf behind [k]'s either does not exist or hangs under the same parent. *)
Definition merge_local (s : CowStore) (root : PageId) (k : key) : bool :=
  match CowTree.descend root k s with
  | Some (Ok (path, _), _) =>
      match CowTree.right_neighbour path s with
      | Some (Ok None, _) => true
      | Some (Ok (Some r), _) =>
          match rev path with
          | (q, slot) :: _ =>
              match content <$> pages s !! q with
              | Some (InternalNode l es) =>
                  bool_decide (all_children l es !! (match slot with None => 0 | Some i => i + 1 end + 1) = Some r)
              | _ => false
              end
          | [] => false
          end
      | _ => false
      end
  | _ => false
  end.

Lemma ran_read {A B : Type} (m : Eff CowStore A) (k : A -> W B) w r (Ψ : Result FerroError B -> Writing -> Prop) :
  m (w_store w) = Some (r, w_store w) -> match r with Ok a => ran (k a) w Ψ | Err e => Ψ (Err e) w end ->
  ran (on_store m ≫= k) w Ψ.
Proof. unfold ran, on_store, mbind, W_bind, eff_bind. intros ->. destruct w; cbn. destruct r; auto. Qed.

Lemma unchanged_by_read {A : Type} (m : Eff CowStore A) s r s' : reads m -> m s = Some (r, s') -> s' = s.
Proof. intros Hr E. specialize (Hr s). unfold runs in Hr. by rewrite E in Hr. Qed.

Lemma leftmost_leaf_content fuel p s x s' : CowTree.leftmost_loop fuel p s = Some (Ok x, s') ->
  exists pg es, pages s !! x = Some pg /\ content pg = LeafNode es.
Proof.
  revert p. induction fuel as [|fuel IH]; intros p; cbn [CowTree.leftmost_loop]; [done|].
  destruct (pages s !! p) as [pg|] eqn:E.
  - rewrite (eff_run _ _ _ _ _ (read_page_run _ _ _ E)). destruct (content pg) as [es|l es|] eqn:Ec; [|apply IH|done].
    intros [= <- <-]. by exists pg, es.
  - assert (read_page p s = Some (Err (Cow (TornPage p)), s)) as Hr.
    { unfold read_page, lift, eget, mbind, eff_bind. by rewrite E. }
    unfold mbind, eff_bind. by rewrite Hr.
Qed.

Lemma next_child L l R : all_children (plug L l [] R).1 (plug L l [] R).2 !!
  (match slot_of L with None => 0 | Some i => i + 1 end + 1) = R.*2 !! 0.
Proof.
  rewrite plug_before. unfold all_children. cbn [fst snd app]. destruct L as [[[l0 es0] m0]|]; cbn [slot_of before first_child].
  - replace (length es0 + 1 + 1) with (S (length (es0 ++ [(m0, l)]))) by (rewrite length_app; cbn; lia).
    change (((es0 ++ [(m0, l)]) ++ R).*2 !! length (es0 ++ [(m0, l)]) = R.*2 !! 0).
    by rewrite fmap_app, lookup_app_r, length_fmap, Nat.sub_diag by (by rewrite length_fmap).
  - done.
Qed.

Lemma local_siblings s root N path l n lo hi rest r : way s root N (rev path) n lo hi l rest ->
  shaped s n lo hi l [l] -> CowTree.right_neighbour path s = Some (Ok (Some r), s) ->
  match rev path with
  | (q, slot) :: _ =>
      match content <$> pages s !! q with
      | Some (InternalNode l es) =>
          bool_decide (all_children l es !! (match slot with None => 0 | Some i => i + 1 end + 1) = Some r)
      | _ => false
      end
  | [] => false
  end = true ->
  exists q up L m R lo0 hi0 hi2 ps1 ps2 rest0 pg es, rev path = (q, slot_of L) :: up /\ hi = Some m
    /\ rest = q :: ps1 ++ ([r] ++ ps2) ++ rest0 /\ siblings root N n q up L l r m R lo0 hi0 lo hi2 ps1 ps2 rest0 s
    /\ pages s !! r = Some pg /\ content pg = LeafNode es.
Proof.
  unfold CowTree.right_neighbour. generalize (rev path). intros up0 Hway Hl Hn Hloc.
  inversion Hway as [|up ? lo0 hi0 q rest0 pg L ? R ? ? ps1 ps2 Hway0 Hq E Ec Hfit HL HR]; subst; [done|].
  rewrite E in Hloc. cbn in Hloc. rewrite Ec in Hloc. apply bool_decide_eq_true in Hloc.
  cbn [CowTree.neighbour_loop] in Hn. rewrite (eff_run _ _ _ _ _ (read_page_run _ _ _ E)), Ec in Hn.
  rewrite Hloc in Hn. rewrite next_child in Hloc. destruct R as [|[m c] R]; [done|]. injection Hloc as ->.
  destruct HR as (-> & Hm & HR). apply right_first in HR as (hi2 & psr & ps3 & -> & Hr & HR).
  assert (exists pgr esr, pages s !! r = Some pgr /\ content pgr = LeafNode esr) as (pgr & esr & Er & Ecr).
  { unfold mbind, eff_bind in Hn. destruct (CowTree.leftmost_leaf r s) as [[[x|e] s1]|] eqn:El; [|done|done].
    injection Hn as <- <-. by eapply leftmost_leaf_content. }
  assert (psr = [r]) as ->.
  { destruct n as [|n]; [done|]. destruct Hr as (_ & pg' & E' & Hr). rewrite Er in E'. injection E' as <-. rewrite Ecr in Hr. by destruct Hr as [-> _]. }
  exists q, up, L, m, R, lo0, hi0, hi2, ps1, ps3, rest0, pgr, esr. split_and!; [done|done|done| |done|done].
  split; try done. by exists pg.
Qed.

(** * Merging *)

Lemma descend_leaf s root N up n lo hi c rest pg es k : N <= MAX_DESCENT -> way s root N up (S n) lo hi c rest ->
  shaped s (S n) lo hi c [c] -> pages s !! c = Some pg -> content pg = LeafNode es -> in_range lo hi k = true ->
  CowTree.descend root k s = Some (Ok (rev up, c), s).
Proof.
  intros HN Hway Hs E Ec Hk. pose proof (way_depth _ _ _ _ _ _ _ _ _ Hway) as Hd. unfold CowTree.descend.
  replace MAX_DESCENT with (length up + S (MAX_DESCENT - length up - 1)) by lia.
  rewrite (way_descend _ _ _ _ _ _ _ _ _ k _ _ Hway Hs Hk). cbn [CowTree.descend_loop].
  by rewrite (eff_run _ _ _ _ _ (read_page_run _ _ _ E)), Ec.
Qed.

Lemma shaped_leaf_rows s n lo hi p ps pg es : shaped s n lo hi p ps -> pages s !! p = Some pg -> content pg = LeafNode es ->
  ps = [p] /\ ksorted es /\ (forall k, k ∈ es.*1 -> in_range lo hi k = true) /\ leaf_fits es.
Proof. destruct n as [|n]; [done|]. intros (_ & pg' & E' & H) E Ec. rewrite E in E'. injection E' as <-. by rewrite Ec in H. Qed.

(** The rows of neighbouring leaves, one behind the other. *)
Lemma rows_join (el er : LeafEntries) lo hi m :
  ksorted el -> ksorted er -> (forall k, k ∈ el.*1 -> in_range lo (Some m) k = true) -> (forall k, k ∈ er.*1 -> in_range (Some m) hi k = true) ->
  ksorted (el ++ er) /\ forall k, kget k (el ++ er) = if kltb k m then kget k el else kget k er.
Proof.
  intros Hl Hr Il Ir.
  assert (forall k, k ∈ el.*1 -> klt k m) as Hlt by (intros k [_ H]%Il%andb_true_iff; by apply kltb_lt).
  assert (forall k, k ∈ er.*1 -> ~ klt k m) as Hge by (intros k [H _]%Ir%andb_true_iff; cbn in H; key_order). split.
  - apply ksorted_app. split_and!; [done|done|]. intros a b Ha%Hlt Hb%Hge. key_order.
  - intros k. rewrite kget_app. destruct (kltb k m) eqn:E.
    + destruct (kget k el) eqn:Ek; [done|]. apply kget_None. intros H%Hge. key_order.
    + destruct (kget k el) eqn:Ek; [|done]. exfalso. assert (k ∈ el.*1) as H%Hlt; [|key_order].
      apply dec_stable. intros H%kget_None. congruence.
Qed.

Lemma regrown_refl w root N ps : store_ok (w_store w) -> shaped (w_store w) N None None root ps -> planted w ps ->
  regrown (w_store w) N root None None (fun k => look (w_store w) N root k) w root.
Proof. intros Hok Hs Hpl. split; [done|]. exists N, ps. split_and!; [lia|lia|done|done|done]. Qed.

(** The leaf that takes its neighbour's rows, linked in. *)
Lemma ran_take_rows w root N up n lo hi l rest pg el es b epoch : store_ok (w_store w) ->
  way (w_store w) root N up (S n) lo hi l rest -> planted w (l :: rest) -> pages (w_store w) !! l = Some pg -> content pg = LeafNode el ->
  ksorted (el ++ es) -> leaf_fits (el ++ es) -> (forall k, k ∈ (el ++ es).*1 -> in_range lo hi k = true) ->
  ran (cpl ← shadow l b epoch;
       l_entries ← leaf_of (cp_page cpl);
       '(promoted, _) ← CowTree.write_leaf_chunked (cp_page cpl) (l_entries ++ es) b epoch;
       CowTree.relink_up root (rev up) l (cp_page cpl) promoted b epoch) w (fun r w' => forall root', r = Ok root' ->
    regrown (w_store w) N root lo hi (fun k => kget k (el ++ es)) w' root').
Proof.
  intros Hok Hway Hpl E Ec Hsort Hfit Hin.
  apply ran_bind. eapply ran_mono; [|apply (ran_shadow w l pg b epoch Hok); [apply (pl_use _ _ Hpl); by left|done]].
  intros [cp|e] w1 [Ha1 Hcp]; [|done]. destruct (Hcp cp eq_refl) as [Hsh Hret].
  pose proof (planted_shadow _ _ _ _ _ _ Ha1 Hsh Hret Hpl) as Hpl1. destruct Hsh as (_ & Hu & pg1 & E1 & Ec1). set (l' := cp_page cp) in *.
  eapply ran_wrote; [eapply (wrote_leaf_of w1 l' pg1 el); [done|congruence]|unfold leaf_of; quiet|done|].
  intros x w2 [[= ->] Ew2] R2.
  eapply ran_wrote; [eapply (wrote_leaf_chunked w2 l' (el ++ es) b epoch lo hi n); rewrite ?Ew2; [apply Ha1|done|by eexists|done|done|done]
    |apply quiet_leaf_chunked|done|]. rewrite Ew2. intros [sp u] w3 [Ha3 Hc] R3. destruct (Hc sp u eq_refl) as (_ & ps & Hsp & Hlk).
  unfold CowTree.relink_up. rewrite rev_involutive.
  assert (forall q, q ∈ rest -> pages (w_store w1) !! q = pages (w_store w) !! q) as Hf.
  { intros q Hq. apply (adv_same _ _ _ Ha1), (pl_use _ _ Hpl). by right. }
  eapply ran_mono; [|eapply (ran_graft root N b epoch up w1 w3 (S n) lo hi l rest l' sp ps Ha3); [congruence|done|done|by eapply way_frame]].
  intros r w4 H root' Hroot. eapply regrown_step; [by intros k| | |by apply H].
  - intros k ->. apply Hlk.
  - intros k Hk. by eapply way_frame_look.
Qed.

(** The rows of the two leaves cover the range of both. *)
Lemma siblings_rows root N n q up L l r m R lo0 hi0 lo hi ps1 ps2 rest0 s (el er : LeafEntries) :
  siblings root N n q up L l r m R lo0 hi0 lo hi ps1 ps2 rest0 s ->
  (forall x, x ∈ el.*1 -> in_range lo (Some m) x = true) -> (forall x, x ∈ er.*1 -> in_range (Some m) hi x = true) ->
  forall x, x ∈ (el ++ er).*1 -> in_range lo hi x = true.
Proof.
  intros Hsib Hinl Hinr x. rewrite fmap_app, (siblings_range _ _ _ _ _ _ _ _ _ _ _ _ _ _ _ _ _ _ x Hsib). intros [Hx%Hinl|Hx%Hinr]%elem_of_app.
  - pose proof Hx as [_ Hx']%andb_true_iff. cbn in Hx'. by rewrite Hx'.
  - pose proof Hx as [Hx' _]%andb_true_iff. cbn in Hx'. assert (kltb x m = false) as -> by key_order. done.
Qed.

(** The neighbour taken out, its rows taken in. *)
Lemma ran_absorb w root N n q up L l r m R lo0 hi0 lo hi ps1 ps2 rest0 ps pgl el pgr r_first rv er0 k b epoch :
  let er := (r_first, rv) :: er0 in
  store_ok (w_store w) -> N <= MAX_DESCENT -> shaped (w_store w) N None None root ps -> planted w ps ->
  siblings root N (S n) q up L l r m R lo0 hi0 lo hi ps1 ps2 rest0 (w_store w) -> ps ≡ₚ r :: q :: ps1 ++ [l] ++ ps2 ++ rest0 ->
  pages (w_store w) !! l = Some pgl -> content pgl = LeafNode el -> pages (w_store w) !! r = Some pgr -> content pgr = LeafNode er ->
  in_range lo (Some m) k = true ->
  ran ('(path_r, r_live) ← on_store (CowTree.descend root r_first);
       cpr ← shadow r_live b epoch;
       root ← CowTree.unlink_up root path_r (cp_page cpr) b epoch;
       '(path_l, l_live) ← on_store (CowTree.descend root k);
       cpl ← shadow l_live b epoch;
       l_entries ← leaf_of (cp_page cpl);
       '(promoted, _) ← CowTree.write_leaf_chunked (cp_page cpl) (l_entries ++ er) b epoch;
       CowTree.relink_up root path_l l_live (cp_page cpl) promoted b epoch) w (fun res w' => forall root', res = Ok root' ->
    regrown (w_store w) N root None None (fun k => look (w_store w) N root k) w' root').
Proof.
  intros er Hok HN Hs Hpl Hsib Hperm El Ecl Er Ecr Hk.
  pose proof (sb_r _ _ _ _ _ _ _ _ _ _ _ _ _ _ _ _ _ _ Hsib) as Hr. pose proof (sb_l _ _ _ _ _ _ _ _ _ _ _ _ _ _ _ _ _ _ Hsib) as Hl.
  destruct (shaped_leaf_rows _ _ _ _ _ _ _ _ Hr Er Ecr) as (_ & Hsr & Hinr & Hfr).
  destruct (shaped_leaf_rows _ _ _ _ _ _ _ _ Hl El Ecl) as (_ & Hsl & Hinl & Hfl).
  pose proof (siblings_way_r _ _ _ _ _ _ _ _ _ _ _ _ _ _ _ _ _ _ Hsib) as Hwr.
  apply (planted_perm w ps _ Hperm) in Hpl as Hpl1.
  eapply ran_read; [exact (descend_leaf _ _ _ _ _ _ _ _ _ _ _ r_first HN Hwr Hr Er Ecr (Hinr r_first ltac:(by left)))|].
  apply ran_bind. eapply ran_mono; [|apply (ran_shadow w r pgr b epoch Hok); [apply (pl_use _ _ Hpl1); by left|done]].
  intros [cpr|e] w2 [Ha2 Hcp]; [|done]. destruct (Hcp cpr eq_refl) as [Hsh Hret].
  pose proof (planted_shadow _ _ _ _ _ _ Ha2 Hsh Hret Hpl1) as Hpl2.
  assert (forall x, x ∈ q :: ps1 ++ [l; r] ++ ps2 ++ rest0 -> pages (w_store w2) !! x = pages (w_store w) !! x) as Hf2.
  { intros x Hx. apply (adv_same _ _ _ Ha2), (pl_use _ _ Hpl1). set_solver. }
  pose proof (siblings_frame _ _ _ _ _ _ _ _ _ _ _ _ _ _ _ _ _ _ _ Hf2 Hsib) as Hsib2.
  unfold CowTree.unlink_up. rewrite rev_involutive. apply ran_bind.
  eapply ran_mono; [|exact (ran_unlink_sibling _ _ _ _ _ _ _ _ _ _ _ _ _ _ _ _ _ w2 (cp_page cpr) b epoch (adv_ok _ _ _ Ha2) Hsib2 Hpl2)].
  intros [root1|e] w3 Hj; [|done]. destruct (Hj root1 eq_refl) as (Hok3 & up3 & rest3 & Hway3 & Hpl3 & El3 & Hout3).
  rewrite (Hf2 l), El in El3 by set_solver.
  pose proof (fun x => siblings_range _ _ _ _ _ _ _ _ _ _ _ _ _ _ _ _ _ _ x Hsib) as Hrg.
  destruct (rows_join el er lo hi m Hsl Hsr Hinl Hinr) as [Hsj Hgj].
  pose proof (siblings_rows _ _ _ _ _ _ _ _ _ _ _ _ _ _ _ _ _ _ el er Hsib Hinl Hinr) as Hinj.
  assert (in_range lo hi k = true) as Hk3.
  { rewrite Hrg. pose proof Hk as [_ Hk']%andb_true_iff. cbn in Hk'. by rewrite Hk'. }
  assert (shaped (w_store w3) (S n) lo hi l [l]) as Hl3.
  { eapply shaped_leaf; [apply Hl|exact El3|exact Ecl|exact Hsl| |exact Hfl]. intros x Hx. apply Hinj. rewrite fmap_app. set_solver. }
  eapply ran_read; [exact (descend_leaf _ _ _ _ _ _ _ _ _ _ _ k HN Hway3 Hl3 El3 Ecl Hk3)|].
  eapply ran_mono; [|exact (ran_take_rows w3 root1 N up3 n lo hi l rest3 pgl el er b epoch Hok3 Hway3 Hpl3 El3 Ecl Hsj
    (proj2 (Forall_app _ _ _) (conj Hfl Hfr)) Hinj)].
  intros res w4 H root' Hroot. destruct (H root' Hroot) as (Hok4 & N' & ps' & HN' & Hsh4 & Hpl4 & Hlk4). split; [done|].
  exists N', ps'. split_and!; [lia|lia|done|done|]. intros x. rewrite Hlk4. cbn [in_range above under andb].
  destruct (in_range lo hi x) eqn:Ex.
  - rewrite Hgj. rewrite Hrg in Ex. destruct (kltb x m).
    + rewrite (way_look _ _ _ _ _ _ _ _ _ x (siblings_way_l _ _ _ _ _ _ _ _ _ _ _ _ _ _ _ _ _ _ Hsib) Ex). symmetry. by eapply look_leaf.
    + rewrite (way_look _ _ _ _ _ _ _ _ _ x Hwr Ex). symmetry. by eapply look_leaf.
  - rewrite (Hout3 x Ex). rewrite <- (look_frame_shaped (w_store w) (w_store w2) N None None root ps x); [done| |done].
    intros y Hy. apply Hf2. rewrite Hperm in Hy. set_solver.
Qed.

Lemma ran_merge_right w root N ps k b epoch : store_ok (w_store w) -> N <= MAX_DESCENT ->
  shaped (w_store w) N None None root ps -> planted w ps -> merge_local (w_store w) root k = true ->
  ran (CowTree.merge_right root k b epoch) w (fun r w' => forall root', r = Ok root' ->
    regrown (w_store w) N root None None (fun k => look (w_store w) N root k) w' root').
Proof.
  intros Hok HN Hs Hpl Hloc.
  destruct (descend_way (w_store w) root N k MAX_DESCENT N None None root ps [] [] HN Hs (way_root _ _ _) eq_refl)
    as (path & l & n & lo & hi & rest & pg & el & Hd & Hway & Hperm & E & Ec & Hsl & Hfl & Hwl & Hinl & Hk).
  change (CowTree.descend root k (w_store w) = Some (Ok (path, l), w_store w)) in Hd.
  unfold merge_local in Hloc. rewrite Hd in Hloc. unfold CowTree.merge_right. eapply ran_read; [exact Hd|].
  destruct (CowTree.right_neighbour path (w_store w)) as [[[[r|]|e] s1]|] eqn:En; try done;
    rewrite (unchanged_by_read _ _ _ _ (right_neighbour_reads path) En) in En; (eapply ran_read; [exact En|]).
  2: { unfold ran. intros root' [= <-]. by eapply regrown_refl. }
  assert (shaped (w_store w) (S n) lo hi l [l]) as Hl by (by eapply shaped_leaf).
  destruct (local_siblings _ _ _ _ _ _ _ _ _ _ Hway Hl En Hloc)
    as (q & up & L & m & R & lo0 & hi0 & hi2 & ps1 & ps2 & rest0 & pgr & er & Hup & -> & -> & Hsib & Er & Ecr).
  eapply ran_wrote; [by eapply wrote_leaf_of|unfold leaf_of; quiet|done|]. intros x w1 [[= ->] Ew1] Rw1.
  assert (planted w1 ps) as Hpl1 by (destruct Hpl as [P1 P2 P3]; split; [done|by rewrite Ew1|by rewrite Rw1, Ew1]).
  rewrite <- Ew1 in *. destruct er as [|[r_first rv] er0]; [unfold ran; intros root' [= <-]; by eapply regrown_refl|].
  eapply ran_absorb; try done. rewrite app_nil_r in Hperm. rewrite Hperm. solve_Permutation.
Qed.
