(* ===== verification/CowWrites.v ===== *)
(** What a write of the tree does, from the root: a row put or taken out, every
    other answer as it was, on pages the store keeps in use. *)
From S2P Require Import Prelude Eff Bytes Errors Keys Chunker CowStore CowTree CowRead CowLogic CowFrame CowIsolation CowBooks CowSnapshots Merge3 Merge3Props CowShape CowSteps CowLeaf CowInsert CowUnlink CowMerge.

#[local] Arguments lookup : simpl never.

(** * A write up to its merge

    The key at which [merge_right] is then called, where the leaf has lost its
    terminator. *)

Definition put_row (root : PageId) (b : BranchId) (epoch : Epoch) (k v : list byte) : W (PageId * option key) :=
  _ ← lift (CowTree.check_entry k v);
  '(path, leaf_id) ← on_store (CowTree.descend root k);
  cp ← shadow leaf_id b epoch;
  '(split, unterminated) ← CowTree.leaf_put (cp_page cp) b epoch k v;
  root ← CowTree.relink_up root path leaf_id (cp_page cp) split b epoch;
  mret (root, if (unterminated : bool) then Some k else None).

Definition take_row (root : PageId) (b : BranchId) (epoch : Epoch) (k : key) : W (PageId * option key) :=
  '(path, leaf_id) ← on_store (CowTree.descend root k);
  es ← leaf_of leaf_id;
  match search es.*1 k with
  | Err _ => mret (root, None)
  | Ok i =>
      cp ← shadow leaf_id b epoch;
      let es := delete i es in
      _ ← put_content (cp_page cp) (LeafNode es);
      match es with
      | [] =>
          root ← match path with
                 | [] => CowTree.relink_up root path leaf_id (cp_page cp) [] b epoch
                 | _ => CowTree.unlink_up root path (cp_page cp) b epoch
                 end;
          mret (root, None)
      | (first_key, _) :: _ =>
          last_ ← at_index (last es);
          root ← CowTree.relink_up root path leaf_id (cp_page cp) [] b epoch;
          mret (root, if negb (is_boundary last_.1 last_.2) then Some first_key else None)
      end
  end.

Definition changed (op : Write) (root : PageId) (b : BranchId) (epoch : Epoch) : W (PageId * option key) :=
  match op with Put k v => put_row root b epoch k v | Del k => take_row root b epoch k end.

Definition merge_after (b : BranchId) (epoch : Epoch) (x : PageId * option key) : W PageId :=
  match x.2 with Some k => CowTree.merge_right x.1 k b epoch | None => mret x.1 end.

Definition write_within (op : Write) (root : PageId) (b : BranchId) (epoch : Epoch) : W PageId :=
  match op with
  | Put k v => CowTree.insert_within root b epoch k v
  | Del k => CowTree.delete_within root b epoch k
  end.

Lemma bind_through {A B C : Type} (m : W A) (f : A -> W B) (f' : A -> W C) (g : C -> W B) w :
  (forall a w, f a w = (f' a ≫= g) w) -> (m ≫= f) w = ((m ≫= f') ≫= g) w.
Proof.
  intros H. unfold mbind, W_bind, eff_bind in *. destruct (m w) as [[[a|e] w']|]; [apply H|done|done].
Qed.

Lemma write_stages op root b epoch w : write_within op root b epoch w = (changed op root b epoch ≫= merge_after b epoch) w.
Proof.
  destruct op as [k v|k]; cbn [write_within changed].
  - unfold CowTree.insert_within, put_row. apply bind_through. intros _ w1. apply bind_through. intros [path leaf] w2.
    apply bind_through. intros cp w3. apply bind_through. intros [sp u] w4. apply bind_through.
    intros r w5. by destruct u.
  - unfold CowTree.delete_within, take_row. apply bind_through. intros [path leaf] w1. apply bind_through. intros es w2.
    destruct (search es.*1 k) as [i|]; [|done]. apply bind_through. intros cp w3. apply bind_through. intros _ w4.
    destruct (delete i es) as [|[fk fv] es']; [destruct path|].
    + unfold mbind, W_bind, eff_bind. by destruct (CowTree.relink_up _ _ _ _ _ _ _ _) as [[[?|?] ?]|].
    + unfold mbind, W_bind, eff_bind. by destruct (CowTree.unlink_up _ _ _ _ _ _) as [[[?|?] ?]|].
    + apply bind_through. intros lst w5. apply bind_through. intros r w6. by destruct (negb _).
Qed.

(** * The rows after each stage *)

Definition apply_write (op : Write) (f : key -> option (list byte)) (x : key) : option (list byte) :=
  match op with
  | Put k v => if decide (x = k) then Some v else f x
  | Del k => if decide (x = k) then None else f x
  end.

(** The leaf a key belongs to, in a tree of a write in progress. *)
Record found (w : Writing) (root : PageId) (N : nat) (k : key) (path : DescentPath) (leaf : PageId) (n : nat)
    (lo hi : option key) (rest : list PageId) (pg : Page) (es : LeafEntries) : Prop := mkFound {
  fd_run : CowTree.descend root k (w_store w) = Some (Ok (path, leaf), w_store w);
  fd_way : way (w_store w) root N (rev path) (S n) lo hi leaf rest;
  fd_planted : planted w (leaf :: rest);
  fd_page : pages (w_store w) !! leaf = Some pg;
  fd_content : content pg = LeafNode es;
  fd_sorted : ksorted es;
  fd_fits : leaf_fits es;
  fd_in x : x ∈ es.*1 -> in_range lo hi x = true;
  fd_key : in_range lo hi k = true;
  fd_look x : in_range lo hi x = true -> look (w_store w) N root x = kget x es
}.

Lemma find_leaf w root N ps k : N <= MAX_DESCENT -> shaped (w_store w) N None None root ps -> planted w ps ->
  exists path leaf n lo hi rest pg es, found w root N k path leaf n lo hi rest pg es.
Proof.
  intros HN Hs Hpl.
  destruct (descend_way (w_store w) root N k MAX_DESCENT N None None root ps [] [] HN Hs (way_root _ _ _) eq_refl)
    as (path & l & n & lo & hi & rest & pg & el & Hd & Hway & Hperm & E & Ec & Hsl & Hfl & Hwl & Hinl & Hk).
  exists path, l, n, lo, hi, rest, pg, el. split; try done.
  - eapply planted_perm; [|exact Hpl]. rewrite app_nil_r in Hperm. exact Hperm.
  - intros x Hx. rewrite (way_look _ _ _ _ _ _ _ _ _ x Hway Hx). by eapply look_leaf.
Qed.

(** The leaf shadowed, the rest of the way as it was. *)
Lemma ran_shadow_leaf w root N k path leaf n lo hi rest pg es b epoch : store_ok (w_store w) ->
  found w root N k path leaf n lo hi rest pg es ->
  ran (shadow leaf b epoch) w (fun r w1 => forall cp, r = Ok cp ->
    store_ok (w_store w1) /\ planted w1 (cp_page cp :: rest) /\ way (w_store w1) root N (rev path) (S n) lo hi leaf rest
    /\ (exists pg', pages (w_store w1) !! cp_page cp = Some pg' /\ content pg' = LeafNode es)
    /\ forall x, in_range lo hi x = false -> look (w_store w1) N root x = look (w_store w) N root x).
Proof.
  intros Hok [_ Hway Hpl E Ec _ _ _ _ _].
  eapply ran_mono; [|apply (ran_shadow w leaf pg b epoch Hok); [apply (pl_use _ _ Hpl); by left|done]].
  intros r w1 [Ha1 Hcp] cp Hr. destruct (Hcp cp Hr) as [Hsh Hret].
  pose proof (planted_shadow _ _ _ _ _ _ Ha1 Hsh Hret Hpl) as Hpl1. destruct Hsh as (_ & _ & pg1 & E1 & Ec1).
  assert (forall q, q ∈ rest -> pages (w_store w1) !! q = pages (w_store w) !! q) as Hf.
  { intros q Hq. apply (adv_same _ _ _ Ha1), (pl_use _ _ Hpl). by right. }
  split_and!; [apply Ha1|done|by eapply way_frame|exists pg1; by rewrite Ec1|]. intros x Hx. by eapply way_frame_look.
Qed.

(** A range rewritten, seen from the whole tree. *)
Lemma regrown_whole s N root lo hi (ans f : key -> option (list byte)) w' root' :
  (forall k, in_range lo hi k = true -> ans k = f k) -> (forall k, in_range lo hi k = false -> look s N root k = f k) ->
  regrown s N root lo hi ans w' root' -> regrown s N root None None f w' root'.
Proof.
  intros H1 H2 (Hok & N' & ps & HN & Hsh & Hpl & Hl). split; [done|]. exists N', ps. split_and!; [lia|lia|done|done|].
  intros k. rewrite Hl. cbn [in_range above under andb]. destruct (in_range lo hi k) eqn:E; auto.
Qed.

Lemma regrown_from s s1 N root lo hi ans w' root' : (forall k, in_range lo hi k = false -> look s1 N root k = look s N root k) ->
  regrown s1 N root lo hi ans w' root' -> regrown s N root lo hi ans w' root'.
Proof. intros H. apply regrown_step; [done|by intros k ->|done]. Qed.

Lemma apply_write_other op (f : key -> option (list byte)) lo hi x :
  in_range lo hi (match op with Put k _ => k | Del k => k end) = true -> in_range lo hi x = false -> apply_write op f x = f x.
Proof. intros Hk Hx. destruct op as [k v|k]; cbn; case_decide; [congruence|done|congruence|done]. Qed.

Lemma ran_lift {A B : Type} (r : Result FerroError A) (k : A -> W B) w (Ψ : Result FerroError B -> Writing -> Prop) :
  match r with Ok a => ran (k a) w Ψ | Err e => Ψ (Err e) w end -> ran (lift r ≫= k) w Ψ.
Proof. by destruct r. Qed.

Lemma ran_at_bind {A B : Type} (a : A) o (k : A -> W B) w Ψ : o = Some a -> ran (k a) w Ψ -> ran (at_index o ≫= k) w Ψ.
Proof. by intros ->. Qed.

Lemma check_entry_fits k v : CowTree.check_entry k v = Ok tt -> (leaf_entry_bytes k v <= NODE_CAPACITY)%N.
Proof.
  unfold CowTree.check_entry, refuse_if. destruct (MAX_ENTRY_BYTES <? leaf_entry_bytes k v)%N eqn:Eb; [done|].
  apply N.ltb_ge in Eb. assert (MAX_ENTRY_BYTES <= NODE_CAPACITY)%N by done. lia.
Qed.

Lemma ran_put_row w root N ps k v b epoch : store_ok (w_store w) -> N <= MAX_DESCENT ->
  shaped (w_store w) N None None root ps -> planted w ps ->
  ran (put_row root b epoch k v) w (fun r w' => forall x, r = Ok x ->
    regrown (w_store w) N root None None (apply_write (Put k v) (look (w_store w) N root)) w' x.1).
Proof.
  intros Hok HN Hs Hpl. unfold put_row. apply ran_lift. destruct (CowTree.check_entry k v) as [[]|e] eqn:Hce; [|done].
  apply check_entry_fits in Hce.
  destruct (find_leaf w root N ps k HN Hs Hpl) as (path & leaf & n & lo & hi & rest & pg & es & Hfd). pose proof Hfd as [Hd _ _ _ _ Hso Hfi Hin Hk Hlk].
  eapply ran_read; [exact Hd|]. apply ran_bind. eapply ran_mono; [|by eapply ran_shadow_leaf].
  intros [cp|e] w1 Hsh; [|done]. destruct (Hsh cp eq_refl) as (Hok1 & Hpl1 & Hway1 & (pg1 & E1 & Ec1) & Hout1).
  eapply ran_wrote; [eapply (wrote_leaf_put w1 (cp_page cp) pg1 es b epoch lo hi n k v); try done; apply (pl_use _ _ Hpl1); by left
    |apply quiet_leaf_put|done|].
  intros [sp u] w2 [Ha2 H2] R2. destruct (H2 sp u eq_refl) as (ps2 & Hsp & Hlook). apply ran_bind.
  eapply ran_mono; [|exact (ran_graft root N b epoch (rev path) w1 w2 (S n) lo hi leaf rest (cp_page cp) sp ps2 Ha2 R2 Hsp Hpl1 Hway1)].
  intros [root'|e] w3 H; [|done]. unfold ran. intros x [= <-]. cbn [fst].
  eapply regrown_whole; [| |eapply regrown_from; [exact Hout1|by apply H]].
  - intros x Hx. cbn beta. rewrite Hlook. cbn. case_decide; [done|]. by rewrite Hlk.
  - intros x Hx. symmetry. by eapply (apply_write_other (Put k v)).
Qed.

(** * Taking a row *)

Lemma kget_delete (es : LeafEntries) i k x : ksorted es -> es.*1 !! i = Some k ->
  kget x (delete i es) = if decide (x = k) then None else kget x es.
Proof.
  intros Hs Hi. rewrite list_lookup_fmap in Hi. destruct (es !! i) as [[k' v]|] eqn:Ei; [|done]. injection Hi as ->.
  rewrite delete_take_drop. pose proof (take_drop_middle es i _ Ei) as Ees. rewrite <- Ees in Hs.
  replace (kget x es) with (kget x (take i es ++ (k, v) :: drop (S i) es)) by (by rewrite Ees).
  rewrite (kget_middle _ _ k v x Hs). case_decide; [|done]. subst x. apply kget_None. apply ksorted_app in Hs as (_ & H2 & H3).
  apply ksorted_cons in H2 as [_ H2]. rewrite fmap_app. intros [Hin|Hin]%elem_of_app.
  - apply (klt_irrefl k). apply (H3 k k Hin). cbn. by left.
  - apply (klt_irrefl k), (H2 k Hin).
Qed.

Lemma elem_of_delete_fst (es : LeafEntries) i x : x ∈ delete i es -> x ∈ es.
Proof.
  rewrite delete_take_drop. intros [H|H]%elem_of_app; apply list_elem_of_lookup in H as (j & Hj).
  - apply list_elem_of_lookup. apply lookup_take_Some in Hj as [? _]. eauto.
  - rewrite lookup_drop in Hj. apply list_elem_of_lookup. eauto.
Qed.

Lemma ksorted_delete (es : LeafEntries) i : ksorted es -> ksorted (delete i es).
Proof.
  intros Hs. destruct (decide (i < length es)) as [Hi|Hi]; [|by rewrite delete_take_drop, take_ge, drop_ge, app_nil_r by lia].
  destruct (lookup_lt_is_Some_2 es i Hi) as [[k v] Ei]. rewrite delete_take_drop.
  rewrite <- (take_drop_middle es i _ Ei) in Hs. apply ksorted_app in Hs as (H1 & H2 & H3). apply ksorted_cons in H2 as [H2 _].
  apply ksorted_app. split_and!; [done|done|]. intros x y Hx Hy. apply H3; [done|]. cbn. by right.
Qed.

Lemma ran_take_row w root N ps k b epoch : store_ok (w_store w) -> N <= MAX_DESCENT ->
  shaped (w_store w) N None None root ps -> planted w ps ->
  ran (take_row root b epoch k) w (fun r w' => forall x, r = Ok x ->
    regrown (w_store w) N root None None (apply_write (Del k) (look (w_store w) N root)) w' x.1).
Proof.
  intros Hok HN Hs Hpl. unfold take_row.
  destruct (find_leaf w root N ps k HN Hs Hpl) as (path & leaf & n & lo & hi & rest & pg & es & Hfd). pose proof Hfd as [Hd Hway Hpl0 E Ec Hso Hfi Hin Hk Hlk].
  eapply ran_read; [exact Hd|]. eapply ran_wrote; [by eapply wrote_leaf_of|unfold leaf_of; quiet|done|]. intros es0 w0 [[= ->] Ew0] R0.
  pose proof (search_spec es.*1 k Hso) as Hse. pose proof (search_kget es k Hso) as Hkg. destruct (search es.*1 k) as [i|i].
  2: { unfold ran. intros x [= <-]. cbn [fst]. split; [by rewrite Ew0|]. exists N, ps. rewrite Ew0. split_and!; [lia|lia|done| |].
       - destruct Hpl as [P1 P2 P3]. split; [done|by rewrite Ew0|by rewrite R0, Ew0].
       - intros x. cbn. case_decide; [|done]. subst x. by rewrite Hlk. }
  assert (found w0 root N k path leaf n lo hi rest pg es) as Hfd0.
  { destruct Hpl0 as [P1 P2 P3]. split; rewrite ?Ew0; try done. split; [done|by rewrite Ew0|by rewrite R0, Ew0]. }
  rewrite <- Ew0 in Hok, Hlk |- *. clear Hfd Hd Hway Hpl0 E Ec.
  apply ran_bind. eapply ran_mono; [|by eapply ran_shadow_leaf].
  intros [cp|e] w1 Hsh; [|done]. destruct (Hsh cp eq_refl) as (Hok1 & Hpl1 & Hway1 & (pg1 & E1 & Ec1) & Hout1). set (p := cp_page cp) in *.
  assert (in_use (w_store w1) p) as Hu by (apply (pl_use _ _ Hpl1); by left).
  eapply ran_wrote; [apply (wrote_put w1 p (LeafNode (delete i es))); [done|done|by eexists]|unfold put_content; quiet|done|].
  intros [] w2 (_ & Ha2 & pg2 & E2 & Ec2) R2.
  assert (forall x, x ∈ (delete i es).*1 -> in_range lo hi x = true) as Hin'.
  { intros x (e & -> & He%elem_of_delete_fst)%list_elem_of_fmap. by apply Hin, list_elem_of_fmap_2. }
  assert (leaf_fits (delete i es)) as Hfi'.
  { apply Forall_forall. intros e He%elem_of_delete_fst. by apply (proj1 (Forall_forall _ _) Hfi). }
  destruct (sprouts_leaf _ _ p pg2 _ lo hi n Ha2 Hu E2 Ec2 (ksorted_delete es i Hso) Hfi' Hin') as [Hsp Hlook].
  assert (forall x, in_range lo hi x = true -> kget x (delete i es) = apply_write (Del k) (look (w_store w0) N root) x) as Hans.
  { intros x Hx. rewrite (kget_delete es i k x Hso Hse). cbn. case_decide; [done|]. by rewrite Hlk. }
  assert (forall x, in_range lo hi x = false -> look (w_store w0) N root x = apply_write (Del k) (look (w_store w0) N root) x) as Hoth.
  { intros x Hx. symmetry. by eapply (apply_write_other (Del k)). }
  assert (ran (CowTree.relink_up root path leaf p [] b epoch) w2 (fun r w' => forall x, r = Ok x ->
    regrown (w_store w0) N root None None (apply_write (Del k) (look (w_store w0) N root)) w' x)) as Hrelink.
  { eapply ran_mono; [|exact (ran_graft root N b epoch (rev path) w1 w2 (S n) lo hi leaf rest p [] [p] Ha2 R2 Hsp Hpl1 Hway1)].
    intros r w3 H x Hr. eapply regrown_whole; [|exact Hoth|eapply regrown_from; [exact Hout1|by apply H]].
    intros y Hy. cbn beta. by rewrite Hlook, Hans. }
  destruct (delete i es) as [|[fk fv] es'] eqn:Edel; [destruct path as [|e0 path]|].
  - apply ran_bind. eapply ran_mono; [|exact Hrelink]. intros [r|e] w3 H; [|done]. unfold ran. intros x [= <-]. by apply H.
  - apply ran_bind. unfold CowTree.unlink_up.
    assert (forall q, q ∈ rest -> pages (w_store w2) !! q = pages (w_store w1) !! q) as Hf.
    { intros q Hq. apply (adv_pages _ _ _ Ha2); [apply (pl_use _ _ Hpl1); by right|]. intros ->.
      pose proof (pl_nodup _ _ Hpl1) as [Hp _]%NoDup_cons. done. }
    assert (0 < N) as HN0 by (destruct N; [done|lia]).
    eapply ran_mono; [|exact (ran_unlink_loop root N b epoch _ w2 (S n) lo hi leaf rest p HN0 (adv_ok _ _ _ Ha2)
      (way_frame _ _ _ _ _ _ _ _ _ _ Hf Hway1) (planted_quiet _ _ _ _ Ha2 R2 Hpl1))].
    intros [r|e] w3 H; [|done]. unfold ran. intros x [= <-]. cbn [fst].
    eapply regrown_whole; [|exact Hoth|eapply regrown_from; [|by apply H]].
    + intros y Hy. by rewrite <- Hans.
    + intros y Hy. rewrite (way_frame_look _ _ _ _ _ _ _ _ _ _ y Hf Hway1 Hy). by apply Hout1.
  - destruct (last ((fk, fv) :: es')) as [lst|] eqn:El; [|by apply last_None in El].
    eapply ran_at_bind; [done|]. apply ran_bind. eapply ran_mono; [|exact Hrelink]. intros [r|e] w3 H; [|done].
    unfold ran. intros x [= <-]. by apply H.
Qed.

(** * The whole operation *)

(** [root] is the root of a tree of at most [n] levels, made of pages in use,
    each once, whose rows are [f]'s. *)
Definition tree_of (s : CowStore) (n : nat) (root : PageId) (f : key -> option (list byte)) : Prop :=
  exists ps, shaped s n None None root ps /\ NoDup ps /\ (forall p, p ∈ ps -> in_use s p) /\ forall k, look s n root k = f k.

(** Where the write ends with a merge, both leaves hang under one parent. *)
Definition merges_locally (op : Write) (root : PageId) (b : BranchId) (epoch : Epoch) (s : CowStore) : bool :=
  match changed op root b epoch (mkWriting s [] []) with
  | Some (Ok (root1, Some k), w) => merge_local (w_store w) root1 k
  | _ => true
  end.

Lemma ran_changed op w root N ps b epoch : store_ok (w_store w) -> N <= MAX_DESCENT ->
  shaped (w_store w) N None None root ps -> planted w ps ->
  ran (changed op root b epoch) w (fun r w' => forall x, r = Ok x ->
    regrown (w_store w) N root None None (apply_write op (look (w_store w) N root)) w' x.1).
Proof. destruct op; [apply ran_put_row|apply ran_take_row]. Qed.

Lemma ran_write op root N ps b epoch s : store_ok s -> N < MAX_DESCENT ->
  shaped s N None None root ps -> planted (mkWriting s [] []) ps -> merges_locally op root b epoch s = true ->
  ran (write_within op root b epoch) (mkWriting s [] []) (fun r w' => forall root', r = Ok root' ->
    store_ok (w_store w') /\ exists N' ps', N' <= S (S N) /\ shaped (w_store w') N' None None root' ps' /\ planted w' ps'
      /\ forall k, look (w_store w') N' root' k = apply_write op (look s N root) k).
Proof.
  intros Hok HN Hs Hpl Hloc. unfold ran. rewrite write_stages. unfold merges_locally in Hloc.
  pose proof (ran_changed op (mkWriting s [] []) root N ps b epoch Hok ltac:(lia) Hs Hpl) as H1.
  unfold ran in H1. unfold mbind, W_bind, eff_bind.
  destruct (changed op root b epoch (mkWriting s [] [])) as [[[[root1 m]|e] w1]|]; [|done|done].
  destruct (H1 _ eq_refl) as (Hok1 & N1 & ps1 & HN1 & Hs1 & Hpl1 & Hl1). cbn [fst w_store] in *.
  destruct m as [k|]; cbn [merge_after fst snd].
  - pose proof (ran_merge_right w1 root1 N1 ps1 k b epoch Hok1 ltac:(lia) Hs1 Hpl1 Hloc) as H2. unfold ran in H2. unfold merge_after. cbn [fst snd].
    destruct (CowTree.merge_right root1 k b epoch w1) as [[r w2]|]; [|done]. intros root' Hr.
    destruct (H2 root' Hr) as (Hok2 & N2 & ps2 & HN2 & Hs2 & Hpl2 & Hl2). split; [done|]. exists N2, ps2.
    split_and!; [lia|done|done|]. intros x. rewrite Hl2. cbn [in_range above under andb]. apply Hl1.
  - unfold merge_after. cbn. intros root' [= <-]. split; [done|]. exists N1, ps1. split_and!; [lia|done|done|done].
Qed.

(** Freeing spares the pages it is not told of. *)
Lemma free_page_spares s p epoch : store_ok s -> ran (free_page p epoch) s (fun _ s' =>
  store_ok s' /\ pages s' = pages s /\ forall q, q <> p -> in_use s q -> in_use s' q).
Proof.
  intros Hok. apply ran_runs; [unfold free_page, read_page, release_page, set_extent; steady|].
  enough (runs (free_page p epoch) s (fun _ s' => forall q, q <> p -> in_use s q -> in_use s' q)) as Huse.
  { eapply runs_mono; [|exact (runs_both _ _ _ _ (free_page_keeps s p epoch Hok) (runs_both _ _ _ _ (free_page_pages p epoch s) Huse))].
    intros r s' (Hk & Hp & H). split_and!; [apply Hk|exact Hp|exact H]. }
  unfold free_page, read_page. run. destruct (pages s !! p) as [pg|]; cbn [ok_or]; [|done]. run.
  destruct (owner_of s (arena_id pg)) as [o|]; cbn [ok_or]; [|done]. destruct (reclaimable _ _ _).
  - eapply runs_mono; [|apply release_page_local]. intros r s' (_ & _ & _ & _ & Hi) q Hq [a Ha]. exists a. by apply Hi.
  - run. done.
Qed.

Lemma free_all_spares ps epoch s : store_ok s -> exists s', CowTree.free_all ps epoch s = Some s' /\ store_ok s' /\ pages s' = pages s
  /\ forall q, q ∉ ps -> in_use s q -> in_use s' q.
Proof.
  unfold CowTree.free_all. revert s. induction ps as [|p ps IH]; intros s Hok; cbn; [by exists s|].
  pose proof (free_page_spares s p epoch Hok) as H. unfold ran in H. destruct (free_page p epoch s) as [[r s1]|]; [|done].
  destruct H as (Hok1 & Hp1 & Hu1). cbn. destruct (IH s1 Hok1) as (s' & -> & Hok' & Hp' & Hu'). exists s'.
  split_and!; [done|done|congruence|]. intros q [Hne Hq]%not_elem_of_cons Hu. auto.
Qed.

Lemma tree_frame s s' n root f : (forall q, in_use s q -> pages s' !! q = pages s !! q /\ in_use s' q) ->
  tree_of s n root f -> tree_of s' n root f.
Proof.
  intros Hf (ps & Hs & Hd & Hu & Hl). exists ps.
  assert (forall q, q ∈ ps -> pages s' !! q = pages s !! q) as Hp by (intros q Hq; by apply Hf, Hu).
  split_and!; [by eapply shaped_frame|done|intros p Hp'; by apply Hf, Hu|]. intros k. rewrite <- Hl. by eapply look_frame_shaped.
Qed.

(** A tree answers its rows. *)
Lemma tree_get s n root f k : n <= MAX_DESCENT -> tree_of s n root f -> CowTree.get root k s = Some (Ok (f k), s).
Proof.
  intros Hn (ps & Hs & _ & _ & Hl). rewrite <- Hl, <- (look_taller s n MAX_DESCENT _ _ root ps k Hn Hs).
  apply get_loop_look; [|done]. eapply shaped_wf. by eapply shaped_taller.
Qed.

Lemma failed_write_keeps op root b epoch s e s' : store_ok s -> run_write op root b epoch s = Some (Err e, s') ->
  store_ok s' /\ forall q, in_use s q -> pages s' !! q = pages s !! q /\ in_use s' q.
Proof.
  intros Hok Hrun. pose proof (so_known s Hok) as Hk.
  assert (keeps s s') as Hkeep.
  { eapply (run_write_holds (fun _ => False) 0%N); [exact Hok|done|exact Hrun]. }
  assert (books s s') as Hb.
  { destruct (run_write_framed _ _ _ _ _ _ _ Hk Hrun) as (w & [B _ _ _] & ->). by apply rollback_books. }
  split; [apply Hkeep|]. intros q [a Ha]. split; [|exists a; by eapply issued_books].
  eapply failed_write_pages; [done|done|]. by eapply issued_not_avail.
Qed.

(** C35: a write of the tree never panics; it either fails and leaves the tree's
    rows and the store's books as they were, or returns the root of a tree that
    answers the written key with the new row (or none, after a deletion) and
    every other key as before, whatever pages were copied, cut, merged or freed
    on the way. The merge that may follow is taken to join two leaves of one
    parent. *)
Theorem writes_keep_the_rows (op : Write) (root : PageId) (b : BranchId) (epoch : Epoch) (s : CowStore) (n : nat)
    (f : key -> option (list byte)) :
  store_ok s -> tree_of s n root f -> n + 2 <= MAX_DESCENT -> merges_locally op root b epoch s = true ->
  match run_write op root b epoch s with
  | Some (Ok root', s') =>
      store_ok s' /\ (exists n', n' <= n + 2 /\ tree_of s' n' root' (apply_write op f))
      /\ forall k, CowTree.get root' k s' = Some (Ok (apply_write op f k), s')
  | Some (Err _, s') => store_ok s' /\ tree_of s' n root f
  | None => False
  end.
Proof.
  intros Hok Ht Hn Hloc. pose proof Ht as (ps & Hs & Hd & Hu & Hl).
  assert (planted (mkWriting s [] []) ps) as Hpl by (split; [done|done|by intros p ?%not_elem_of_nil]).
  pose proof (ran_write op root n ps b epoch s Hok ltac:(lia) Hs Hpl Hloc) as H. unfold ran in H.
  assert (run_write op root b epoch = CowTree.finish (write_within op root b epoch) epoch) as Er by (by destruct op).
  destruct (run_write op root b epoch s) as [[[root'|e] s']|] eqn:Hrun.
  - rewrite Er in Hrun. unfold CowTree.finish in Hrun.
    destruct (write_within op root b epoch (mkWriting s [] [])) as [[[r|e] w]|]; cbn in Hrun; [|done|done].
    destruct (H r eq_refl) as (Hok1 & N & ps1 & HN & Hs1 & Hpl1 & Hl1).
    destruct (free_all_spares (retired w) epoch (w_store w) Hok1) as (s2 & Ef & Hok2 & Hp2 & Hu2).
    rewrite Ef in Hrun. cbn in Hrun. injection Hrun as <- <-. split; [done|].
    assert (tree_of s2 N r (apply_write op f)) as Ht2.
    { exists ps1. assert (forall q, q ∈ ps1 -> pages s2 !! q = pages (w_store w) !! q) as Hfr by (intros q _; by rewrite Hp2).
      split_and!; [by eapply shaped_frame|apply Hpl1| |].
      - intros p Hp. apply Hu2; [|by apply (pl_use _ _ Hpl1)]. intros Hr. by destruct (pl_spare _ _ Hpl1 p Hr).
      - intros k. rewrite (look_frame_shaped _ _ _ _ _ _ _ k Hfr Hs1), Hl1. destruct op; cbn; case_decide; auto. }
    split; [exists N; split; [lia|done]|]. intros k. eapply tree_get; [|exact Ht2]. lia.
  - destruct (failed_write_keeps _ _ _ _ _ _ _ Hok Hrun) as [Hok1 Hf]. split; [done|]. by eapply tree_frame.
  - rewrite Er in Hrun. unfold CowTree.finish in Hrun.
    destruct (write_within op root b epoch (mkWriting s [] [])) as [[[r|e] w]|]; cbn in Hrun; [|done|done].
    destruct (H r eq_refl) as (Hok1 & _). destruct (free_all_spares (retired w) epoch (w_store w) Hok1) as (s2 & Ef & _).
    rewrite Ef in Hrun. done.
Qed.

(** * The hypotheses as tests *)

Fixpoint kids_pages (T : option key -> option key -> PageId -> option (list PageId)) (lo hi : option key) (l : PageId)
    (es : list (key * PageId)) : option (list PageId) :=
  match es with
  | [] => T lo hi l
  | (m, c) :: es =>
      if inside lo hi m then ps1 ← T lo (Some m) l; ps2 ← kids_pages T (Some m) hi c es; Some (ps1 ++ ps2) else None
  end.

Fixpoint tree_pages (s : CowStore) (n : nat) (lo hi : option key) (p : PageId) : option (list PageId) :=
  match n with
  | O => None
  | S n =>
      if (p <? 4294967296)%N then
        pg ← pages s !! p;
        match content pg with
        | LeafNode es =>
            if sortedb es.*1 && forallb (in_range lo hi) es.*1 && forallb (fun e => leaf_entry_bytes e.1 e.2 <=? NODE_CAPACITY)%N es
            then Some [p] else None
        | InternalNode l es =>
            if forallb (fun e => internal_entry_bytes e.1 <=? NODE_CAPACITY)%N es
            then ps ← kids_pages (tree_pages s n) lo hi l es; Some (p :: ps) else None
        | NotANode _ => None
        end
      else None
  end.

Lemma kids_pages_sound T T' lo hi l es ps : (forall lo hi c ps, T' lo hi c = Some ps -> T lo hi c ps) ->
  kids_pages T' lo hi l es = Some ps -> kids T lo hi l es ps.
Proof.
  intros HT. revert lo l ps. induction es as [|[m c] es IH]; intros lo l ps; cbn; [apply HT|].
  destruct (inside lo hi m) eqn:Em; [|done]. destruct (T' lo (Some m) l) as [ps1|] eqn:E1; [|done]. cbn.
  destruct (kids_pages T' (Some m) hi c es) as [ps2|] eqn:E2; [|done]. intros [= <-]. exists ps1, ps2. split_and!; auto.
Qed.

Lemma forallb_Forall_le {A : Type} (f : A -> N) c l : forallb (fun e => f e <=? c)%N l = true -> Forall (fun e => (f e <= c)%N) l.
Proof. rewrite forallb_forall, Forall_forall. intros H x Hx. by apply N.leb_le, H, list_elem_of_In. Qed.

Lemma tree_pages_sound s n lo hi p ps : tree_pages s n lo hi p = Some ps -> shaped s n lo hi p ps.
Proof.
  revert lo hi p ps. induction n as [|n IH]; intros lo hi p ps; [done|]. cbn [tree_pages shaped].
  destruct (p <? 4294967296)%N eqn:Ep; [|done]. apply N.ltb_lt in Ep. destruct (pages s !! p) as [pg|] eqn:E; [|done]. cbn.
  intros H. split; [done|]. exists pg. split; [done|]. destruct (content pg) as [es|l es|]; [| |done].
  - destruct (_ && _) eqn:Et; [|done]. injection H as <-. apply andb_true_iff in Et as [[E1 E2]%andb_true_iff E3].
    split_and!; [done|by apply sortedb_sound| |by apply (forallb_Forall_le (fun e => leaf_entry_bytes e.1 e.2))].
    intros k Hk. rewrite forallb_forall in E2. by apply E2, list_elem_of_In.
  - destruct (forallb _ es) eqn:Et; [|done]. destruct (kids_pages _ lo hi l es) as [ps'|] eqn:Ek; [|done]. injection H as <-.
    exists ps'. split_and!; [done|by apply (forallb_Forall_le (fun e => internal_entry_bytes e.1))|by eapply kids_pages_sound].
Qed.

Definition in_useb (s : CowStore) (p : PageId) : bool :=
  existsb (fun e => (start_page (extent e.2) <=? p)%N && (p <? start_page (extent e.2) + next_free (extent e.2))%N
    && bool_decide (p ∉ free_pages e.2)) (map_to_list (extents s)).

Lemma in_useb_sound s p : in_useb s p = true -> in_use s p.
Proof.
  unfold in_useb. rewrite existsb_exists. intros ([a st] & Hin & H). apply list_elem_of_In, elem_of_map_to_list in Hin.
  apply andb_true_iff in H as [[H1%N.leb_le H2%N.ltb_lt]%andb_true_iff H3%bool_decide_eq_true]. exists a, st. by split_and!.
Qed.

Definition treeb (s : CowStore) (n : nat) (root : PageId) : bool :=
  match tree_pages s n None None root with
  | Some ps => bool_decide (NoDup ps) && forallb (in_useb s) ps
  | None => false
  end.

Lemma treeb_sound s n root : treeb s n root = true -> tree_of s n root (look s n root).
Proof.
  unfold treeb. destruct (tree_pages s n None None root) as [ps|] eqn:E; [|done].
  intros [H1%bool_decide_eq_true H2]%andb_true_iff. exists ps. split_and!; [by apply tree_pages_sound|done| |done].
  intros p Hp. rewrite forallb_forall in H2. by apply in_useb_sound, H2, list_elem_of_In.
Qed.
