(* ===== verification/CowScenario.v ===== *)
(** Runs of the copy-on-write tree on concrete rows: trees grown by the tree's
    own operations, which the witnesses of the tree theorems are about, and a
    deletion that hides a row it was never asked to delete. *)
From S2P Require Import Prelude Eff Bytes Errors Keys Chunker CowStore CowTree CowRead CowFrame CowIsolation CowBooks CowSnapshots CowHistory Merge3 Merge3Props CowWrites.

(** A short key and a long one with the same first byte, in this order. *)
Definition short (i : N) : key := [u8 i; u8 7].
Definition long (i : N) : key := [u8 i; u8 255] ++ replicate 900 (u8 1).

Definition rows (n : nat) : list (key * option (list byte)) :=
  flat_map (fun i => [(short (N.of_nat i), Some [u8 1]); (long (N.of_nat i), Some [])]) (seq 1 n).

(** A store whose allocator hands out consecutive pages, in extents of sixty. *)
Definition fresh_store : CowStore := with_extent_pages (map Ok (map N.of_nat (seq 10 180))) 60.

Definition grow (n : nat) : Eff CowStore PageId :=
  root ← CowTree.create TRUNK 1; apply_edits (rows n) root TRUNK 1.

(** The outcome of a run that is known to succeed. *)
Definition outcome {A : Type} (d : A) (m : Eff CowStore A) (s : CowStore) : CowStore * A :=
  match m s with Some (Ok p, s') => (s', p) | _ => (s, d) end.

Definition succeeds {A : Type} (m : Eff CowStore A) (s : CowStore) : bool :=
  match m s with Some (Ok _, _) => true | _ => false end.

Lemma outcome_run {A : Type} (d : A) (m : Eff CowStore A) s :
  succeeds m s = true -> m s = Some (Ok (outcome d m s).2, (outcome d m s).1).
Proof. unfold succeeds, outcome. by destruct (m s) as [[[a|e] s']|]. Qed.

Definition grown : CowStore * PageId := outcome 0%N (grow 8) fresh_store.
Definition deleted : CowStore * PageId := outcome 0%N (CowTree.delete grown.2 TRUNK 2 (long 4)) grown.1.

Lemma grown_wf : wf_tree grown.1 MAX_DESCENT grown.2.
Proof. apply wf_treeb_sound. vm_compute. reflexivity. Qed.

Lemma get_follows_the_separators_witness :
  CowTree.get grown.2 (short 5) grown.1 = Some (Ok (Some [u8 1]), grown.1).
Proof.
  rewrite (get_follows_the_separators grown.1 grown.2 (short 5) grown_wf). vm_compute. reflexivity.
Defined.

(** Two branches forked from the trunk, each with writes of its own: both
    change [short 2], only theirs changes [short 6]. *)
Definition b1 : BranchId := mkBranchId 1 0.
Definition b2 : BranchId := mkBranchId 2 0.
Definition fork_and_write (n : nat) : Eff CowStore (PageId * PageId * PageId) :=
  base ← grow n;
  _ ← register_branch b1 (Some TRUNK) 3;
  _ ← register_branch b2 (Some TRUNK) 3;
  ours ← CowTree.insert base b1 4 (short 2) [u8 2];
  theirs ← CowTree.insert base b2 4 (short 2) [u8 3];
  theirs ← CowTree.insert theirs b2 5 (short 6) [u8 6];
  mret (base, ours, theirs).
Definition forked : CowStore * (PageId * PageId * PageId) :=
  outcome (0, 0, 0)%N (fork_and_write 4) fresh_store.

Lemma forked_wf :
  wf_tree forked.1 MAX_DESCENT forked.2.1.1 /\ wf_tree forked.1 MAX_DESCENT forked.2.1.2
  /\ wf_tree forked.1 MAX_DESCENT forked.2.2.
Proof. split_and!; apply wf_treeb_sound; vm_compute; reflexivity. Qed.

Lemma structural_merge_is_cellwise_witness :
  exists root st plan, merge_plan mkPageIdentity forked.1 forked.2.1.1 forked.2.1.2 forked.2.2 = Ok (root, st, plan)
    /\ planned forked.1 root plan (short 6) = Some [u8 6] /\ short 2 ∈ map c_key (p_conflicts plan).
Proof.
  destruct forked_wf as (Hb & Ho & Ht).
  destruct (structural_merge_is_cellwise mkPageIdentity forked.1 forked.2.1.1 forked.2.1.2 forked.2.2
    (page_identity_faithful _) Hb Ho Ht) as (root & st & plan & E & Hc & _).
  exists root, st, plan. split; [exact E|]. split.
  - specialize (Hc (short 6)). cbn zeta in Hc.
    replace (resolve_cell _ _ _) with (@Ok ConflictKind _ (Some [u8 6])) in Hc by (vm_compute; reflexivity). apply Hc.
  - specialize (Hc (short 2)). cbn zeta in Hc.
    replace (resolve_cell _ _ _) with (@Err ConflictKind (option (list byte)) BothModified) in Hc by (vm_compute; reflexivity).
    destruct Hc as [_ Hc]. apply (list_elem_of_fmap_2 c_key) in Hc. exact Hc.
Defined.

(** The trunk goes on writing after a fork; the fork's tree is the one the
    trunk had. *)
Definition before_fork : CowStore * PageId := outcome 0%N (grow 3) fresh_store.
Definition after_fork : CowStore * PageId :=
  outcome 0%N (_ ← register_branch b1 (Some TRUNK) 3; mret before_fork.2) before_fork.1.
Definition trunk_write : option (Result FerroError PageId * CowStore) :=
  run_write (Del (long 2)) after_fork.2 TRUNK 4 after_fork.1.

Lemma writes_stay_private_witness :
  exists res s', trunk_write = Some (res, s') /\
  exists v, CowTree.get after_fork.2 (long 2) after_fork.1 = Some (Ok v, after_fork.1)
    /\ CowTree.get after_fork.2 (long 2) s' = Some (Ok v, s').
Proof.
  destruct trunk_write as [[res s']|] eqn:E; [|exfalso; revert E; vm_compute; discriminate].
  exists res, s'. split; [reflexivity|].
  apply (writes_stay_private (Del (long 2)) after_fork.2 TRUNK 4 after_fork.1 s' res); [| | |exact E].
  - apply arenas_knownb_sound. vm_compute. reflexivity.
  - apply wf_treeb_sound. vm_compute. reflexivity.
  - apply out_of_reachb_sound. vm_compute. reflexivity.
Defined.

(** The runs above are histories. *)
Lemma history_step K E op (m : Eff CowStore PageId) s p s' :
  (forall s0, run_op op s0 = (_ ← m; mret tt) s0) -> allowed K E s op -> m s = Some (Ok p, s') -> history K E s s'.
Proof.
  intros Hop Ha Hm. eapply (history_op _ _ _ op (Ok tt)); [done| |apply history_nil].
  rewrite Hop. by rewrite (eff_run _ _ _ _ _ Hm).
Qed.

Lemma apply_edits_history K E edits root b epoch s p s' : (forall c, K c -> (E < epoch)%N) ->
  apply_edits edits root b epoch s = Some (Ok p, s') -> history K E s s'.
Proof.
  intros He. revert root s. induction edits as [|[k [v|]] edits IH]; intros root s; cbn [apply_edits].
  { intros [= _ <-]. apply history_nil. }
  all: unfold mbind, eff_bind; match goal with |- match ?m with _ => _ end = _ -> _ => destruct m as [[[q|e] s1]|] eqn:Em end; [|done|done].
  - intros H%IH. eapply history_trans; [|exact H]. by apply (history_step K E (TreeWrite (Put k v) root b epoch) _ _ q s1 (fun _ => eq_refl)).
  - intros H%IH. eapply history_trans; [|exact H]. by apply (history_step K E (TreeWrite (Del k) root b epoch) _ _ q s1 (fun _ => eq_refl)).
Qed.

Lemma grow_history n s p s' : grow n s = Some (Ok p, s') -> history (fun _ => False) 0 s s'.
Proof.
  unfold grow. unfold mbind, eff_bind. destruct (CowTree.create TRUNK 1 s) as [[[q|e] s1]|] eqn:Em; [|done|done].
  intros H%(apply_edits_history (fun _ => False) 0); [|done]. eapply history_trans; [|exact H].
  by apply (history_step _ _ (Create TRUNK 1) _ _ q s1 (fun _ => eq_refl)).
Qed.

Lemma grown_history : history (fun _ => False) 0 fresh_store grown.1.
Proof.
  assert (succeeds (grow 8) fresh_store = true) as H by (vm_compute; reflexivity).
  exact (grow_history 8 _ _ _ (outcome_run 0%N _ _ H)).
Qed.

Lemma fresh_answers : tidy (oks (map Ok (map N.of_nat (seq 10 180)))).
Proof. split; apply (bool_decide_eq_true_1 _); vm_compute; reflexivity. Qed.

Lemma grown_ok : store_ok grown.1.
Proof. eapply (history_holds (fun _ => False) 0 fresh_store); [exact grown_history|]. by apply genesis_ok, fresh_answers. Qed.

Lemma store_books_balance_witness : store_ok grown.1 /\ issued grown.1 1 grown.2 /\ ~ avail grown.1 grown.2.
Proof.
  destruct (store_books_balance _ 60 grown.1 fresh_answers grown_history) as (Hok & Hna & _).
  assert (issued grown.1 1 grown.2) as Hi; [|by split_and!; [..|eapply Hna]].
  assert ((match extents grown.1 !! 1%N with
    | Some st => (start_page (extent st) <=? grown.2)%N && (grown.2 <? start_page (extent st) + next_free (extent st))%N
                 && bool_decide (grown.2 ∉ free_pages st) | None => false end) = true) as H by (vm_compute; reflexivity).
  unfold issued. destruct (extents grown.1 !! 1%N) as [st|]; [|discriminate H]. exists st.
  apply andb_true_iff in H as [[H1%N.leb_le H2%N.ltb_lt]%andb_true_iff H3%bool_decide_eq_true]. by split_and!.
Defined.

Definition trunk_then : CowStore := (outcome 0%N (run_write (Del (long 2)) after_fork.2 TRUNK 4) after_fork.1).1.

Lemma after_fork_ok : store_ok after_fork.1.
Proof.
  eapply (history_holds (fun _ => False) 0 fresh_store); [|by apply genesis_ok, fresh_answers].
  assert (succeeds (grow 3) fresh_store = true) as H3 by (vm_compute; reflexivity).
  eapply history_trans; [exact (grow_history 3 _ _ _ (outcome_run 0%N _ _ H3))|]. fold before_fork.
  assert (succeeds (_ ← register_branch b1 (Some TRUNK) 3; mret before_fork.2) before_fork.1 = true) as Hr
    by (vm_compute; reflexivity).
  refine (history_step _ _ (Register b1 (Some TRUNK) 3) _ _ _ _ _ _ (outcome_run 0%N _ _ Hr)).
  - intros s0. cbn [run_op]. unfold mbind, eff_bind. by destruct (register_branch b1 (Some TRUNK) 3 s0) as [[[[]|e] s1]|].
  - apply fresh_idb_sound. vm_compute. reflexivity.
Qed.

(** The fork keeps its tree while the trunk deletes from it. *)
Definition stays (b : BranchId) : Prop := b = TRUNK \/ b = b1.

Lemma snapshots_hold_witness :
  exists v, CowTree.get after_fork.2 (long 2) after_fork.1 = Some (Ok v, after_fork.1)
    /\ CowTree.get after_fork.2 (long 2) trunk_then = Some (Ok v, trunk_then).
Proof.
  apply (snapshots_hold stays 3 after_fork.1 trunk_then after_fork.2 (long 2) after_fork_ok).
  - apply wf_treeb_sound. vm_compute. reflexivity.
  - assert (forallb (pinb after_fork.1 b1 TRUNK 3) (pages_of after_fork.1 MAX_DESCENT after_fork.2) = true) as H
      by (vm_compute; reflexivity).
    intros p Hin. rewrite forallb_forall in H. apply (pinb_sound stays 3 after_fork.1 b1 TRUNK 3);
      [by right|by left|lia|]. by apply H, list_elem_of_In.
  - assert (succeeds (run_write (Del (long 2)) after_fork.2 TRUNK 4) after_fork.1 = true) as Hr by (vm_compute; reflexivity).
    refine (history_step _ _ (TreeWrite (Del (long 2)) after_fork.2 TRUNK 4) _ _ _ _ _ _ (outcome_run 0%N _ _ Hr));
      [done|intros c _; lia].
Defined.

(** A store that runs out of pages in the middle of a split. *)
Definition small_store : CowStore := with_extent_pages (map Ok (map N.of_nat (seq 10 3))) 3.
Definition nearly_full : CowStore * PageId := outcome 0%N (grow 2) small_store.
Definition failing_write : option (Result FerroError PageId * CowStore) :=
  run_write (Put (long 4) []) nearly_full.2 TRUNK 2 nearly_full.1.

Lemma failed_write_restores_witness :
  exists s', failing_write = Some (Err (Io DiskRefused), s')
    /\ exists v, CowTree.get nearly_full.2 (short 2) nearly_full.1 = Some (Ok v, nearly_full.1)
       /\ CowTree.get nearly_full.2 (short 2) s' = Some (Ok v, s').
Proof.
  assert ((match failing_write with Some (Err e, _) => Some e | _ => None end) = Some (Io DiskRefused)) as He
    by (vm_compute; reflexivity).
  destruct failing_write as [[[r|e] s']|] eqn:E; [discriminate| |discriminate]. injection He as ->.
  exists s'. split; [reflexivity|].
  apply (failed_write_restores (Put (long 4) []) nearly_full.2 TRUNK 2 nearly_full.1 s' (Io DiskRefused)); [|exact E| |].
  - apply arenas_knownb_sound. vm_compute. reflexivity.
  - apply wf_treeb_sound. vm_compute. reflexivity.
  - assert (forallb (fun p => negb (availb nearly_full.1 p)) (pages_of nearly_full.1 MAX_DESCENT nearly_full.2) = true) as H
      by (vm_compute; reflexivity).
    intros p Hin Hav%availb_complete. rewrite forallb_forall in H. apply list_elem_of_In, H in Hin.
    rewrite Hav in Hin. discriminate Hin.
Defined.

(** Deleting a row of the grown tree: the emptied tail of the leaf is merged
    with its neighbour under the same parent. *)
Definition shrunk : option (Result FerroError PageId * CowStore) := run_write (Del (long 2)) grown.2 TRUNK 2 grown.1.

Lemma writes_keep_the_rows_witness :
  exists root s, shrunk = Some (Ok root, s) /\ CowTree.get root (long 2) s = Some (Ok None, s)
    /\ CowTree.get root (short 5) s = Some (Ok (Some [u8 1]), s).
Proof.
  assert (treeb grown.1 4 grown.2 = true) as Ht by (vm_compute; reflexivity).
  assert (merges_locally (Del (long 2)) grown.2 TRUNK 2 grown.1 = true) as Hm by (vm_compute; reflexivity).
  pose proof (writes_keep_the_rows (Del (long 2)) grown.2 TRUNK 2 grown.1 4 _ grown_ok (treeb_sound _ _ _ Ht) ltac:(cbv; lia) Hm) as H.
  fold shrunk in H.
  assert ((match shrunk with Some (Ok _, _) => true | _ => false end) = true) as Hs by (vm_compute; reflexivity).
  destruct shrunk as [[[root|e] s]|]; [|discriminate Hs|discriminate Hs]. exists root, s. split; [reflexivity|].
  destruct H as (_ & _ & Hg). rewrite !Hg. split.
  - reflexivity.
  - vm_compute. reflexivity.
Defined.

