(* ===== verification/WalRecord.v ===== *)
(** The log-record format of [src/src/wal/log.rs]: [RecKind] with its
    serializer and deserializer, and the bounds-checked cursor readers
    ([take_u8], [take_u32], ...) the consensus codec shares. A reader takes the
    buffer and a cursor and returns the value with the advanced cursor;
    [reads rd w a] says that [rd], placed in front of the bytes [w] anywhere in
    any buffer, returns [a] and stops right behind them. *)
From S2P Require Import Prelude Bytes Errors.

(** * Readers *)

Definition Reader (A : Type) : Type := list byte -> nat -> Result FerroError (A * nat).

#[export] Instance reader_ret : MRet Reader := fun _ a _ at_ => Ok (a, at_).
#[export] Instance reader_bind : MBind Reader := fun _ _ k m bytes at_ =>
  match m bytes at_ with
  | Ok (a, at1) => k a bytes at1
  | Err e => Err e
  end.

Definition fail_with {A : Type} (e : FerroError) : Reader A := fun _ _ => Err e.

Definition short (at_ want have : nat) : FerroError :=
  Wal (Short (N.of_nat at_) (N.of_nat want) (N.of_nat have)).

(** [bytes.get(at..at + n)], advancing the cursor. *)
Definition take_slice (n : nat) : Reader (list byte) := fun bytes at_ =>
  match get_range bytes at_ (at_ + n) with
  | Some w => Ok (w, at_ + n)
  | None => Err (short at_ n (length bytes))
  end.

Definition take_u8 : Reader N := fun bytes at_ =>
  match bytes !! at_ with
  | Some b => Ok (byteN b, at_ + 1)
  | None => Err (short at_ 1 (length bytes))
  end.
Definition take_u16 : Reader u16 := w ← take_slice 2; mret (of_be w).
Definition take_u32 : Reader u32 := w ← take_slice 4; mret (of_be w).
Definition take_u64 : Reader u64 := w ← take_slice 8; mret (of_be w).
Definition take_array (n : nat) : Reader (list byte) := take_slice n.

Definition take_str : Reader (list byte) :=
  len ← take_u16;
  s ← take_slice (N.to_nat len);
  if utf8_valid s then mret s else fail_with (Wal NonUtf8).

(** [for _ in 0..n { out.push(rd()?) }]. *)
Fixpoint take_many {A : Type} (n : nat) (rd : Reader A) : Reader (list A) :=
  match n with
  | O => mret []
  | S n => x ← rd; xs ← take_many n rd; mret (x :: xs)
  end.

(** * Data *)

Inductive DataType : Type :=
| Integer | Float | Varchar (n : u16) | Boolean | BigInt | Decimal | Timestamp.

Inductive ColumnAlteration : Type :=
| Add (column : list byte)
| Rename (from to : list byte)
| Retype (column : list byte) (from : DataType).

Inductive DdlOp : Type :=
| CreateTable
| DropTable
| AlterColumn (alt : ColumnAlteration).

Record BranchId := mkBranchId { branch_id : u64; branch_generation : u32 }.

Record RunEntity := mkRunEntity {
  prov_id : u32;
  agent_id : list byte;
  run_id : list byte;
  model : list byte;
  model_version : list byte;
  prompt_hash : list byte;
  started_at : u64;
  parent_branch : BranchId
}.

Inductive RecKind : Type :=
| RecBegin | RecCommit | RecAbort | RecTxnEnd
| RecHeapInsert (dir_root page_id : u32) (slot : u16) (tuple : list byte)
| RecHeapDelete (dir_root page_id : u32) (slot : u16) (old : list byte)
| RecHeapUpdate (dir_root page_id : u32) (slot : u16) (old new : list byte)
| RecClr (undone_lsn undo_next : u64) (redo : RecKind)
| RecCheckpoint
| RecDdl (op : DdlOp) (table : list byte) (dir_root time_travel_root : u32)
    (columns : list (list byte * DataType * bool))
| RecRunIdentity (run : RunEntity).

(** * Serialization: each writer appends to the buffer it is given. *)

Definition write_str (buffer s : list byte) (what : StrWhat)
    : Result FerroError (list byte) :=
  if (blen s <=? max_u16)%N then Ok (buffer ++ be_bytes 2 (blen s) ++ s)
  else Err (Unrepresentable what (blen s) max_u16).

Definition write_data_type (buffer : list byte) (ty : DataType) : list byte :=
  match ty with
  | Integer => buffer ++ [u8 0]
  | Float => buffer ++ [u8 1]
  | Boolean => buffer ++ [u8 2]
  | Varchar n => (buffer ++ [u8 3]) ++ be_bytes 2 n
  | BigInt => buffer ++ [u8 4]
  | Decimal => buffer ++ [u8 5]
  | Timestamp => buffer ++ [u8 6]
  end.

Definition read_data_type : Reader DataType :=
  tag ← take_u8;
  match tag with
  | 0%N => mret Integer
  | 1%N => mret Float
  | 2%N => mret Boolean
  | 3%N => n ← take_u16; mret (Varchar n)
  | 4%N => mret BigInt
  | 5%N => mret Decimal
  | 6%N => mret Timestamp
  | other => fail_with (Wal (UnknownColumnType other))
  end.

Definition write_heap (buffer : list byte) (tag dir_root page_id slot : N)
    (tuple : list byte) : list byte :=
  buffer ++ [u8 tag] ++ be_bytes 4 dir_root ++ be_bytes 4 page_id
    ++ be_bytes 2 slot ++ be_bytes 4 (blen tuple) ++ tuple.

Definition write_op (buffer : list byte) (op : DdlOp) : Result FerroError (list byte) :=
  match op with
  | CreateTable => Ok (buffer ++ [u8 0])
  | DropTable => Ok (buffer ++ [u8 1])
  | AlterColumn alt =>
      let buffer := buffer ++ [u8 2] in
      match alt with
      | Add column => write_str (buffer ++ [u8 0]) column AddedColumn
      | Rename from to =>
          b ← write_str (buffer ++ [u8 1]) from RenamedOld;
          write_str b to RenamedNew
      | Retype column from =>
          b ← write_str (buffer ++ [u8 2]) column RetypedColumn;
          Ok (write_data_type b from)
      end
  end.

Fixpoint write_columns (buffer : list byte) (columns : list (list byte * DataType * bool))
    : Result FerroError (list byte) :=
  match columns with
  | [] => Ok buffer
  | (name, ty, nullable) :: rest =>
      b ← write_str buffer name ColumnName;
      write_columns (write_data_type b ty ++ [u8 (if nullable : bool then 1 else 0)]) rest
  end.

Fixpoint serialize (buffer : list byte) (r : RecKind) : Result FerroError (list byte) :=
  match r with
  | RecBegin => Ok (buffer ++ [u8 0])
  | RecCommit => Ok (buffer ++ [u8 1])
  | RecAbort => Ok (buffer ++ [u8 2])
  | RecTxnEnd => Ok (buffer ++ [u8 3])
  | RecCheckpoint => Ok (buffer ++ [u8 4])
  | RecHeapInsert dir_root page_id slot tuple =>
      Ok (write_heap buffer 5 dir_root page_id slot tuple)
  | RecHeapDelete dir_root page_id slot old =>
      Ok (write_heap buffer 6 dir_root page_id slot old)
  | RecHeapUpdate dir_root page_id slot old new =>
      Ok (write_heap buffer 7 dir_root page_id slot old ++ be_bytes 4 (blen new) ++ new)
  | RecDdl op table dir_root time_travel_root columns =>
      b ← write_op (buffer ++ [u8 9]) op;
      b ← write_str (b ++ be_bytes 4 dir_root ++ be_bytes 4 time_travel_root) table TableName;
      if (blen columns <=? max_u16)%N
      then write_columns (b ++ be_bytes 2 (blen columns)) columns
      else Err (Unrepresentable ColumnCount (blen columns) max_u16)
  | RecRunIdentity run =>
      b ← write_str (buffer ++ [u8 10] ++ be_bytes 4 (prov_id run)) (agent_id run) AgentId;
      b ← write_str b (run_id run) RunId;
      b ← write_str b (model run) ModelName;
      b ← write_str b (model_version run) ModelVersion;
      Ok (b ++ prompt_hash run ++ be_bytes 8 (started_at run)
            ++ be_bytes 8 (branch_id (parent_branch run))
            ++ be_bytes 4 (branch_generation (parent_branch run)))
  | RecClr undone_lsn undo_next redo =>
      serialize (buffer ++ [u8 8] ++ be_bytes 8 undone_lsn ++ be_bytes 8 undo_next) redo
  end.

(** * Deserialization

    The heap arms and the compensation arm index their slices directly:
    [None] is the panic of an index out of range. *)

Definition read_heap (bytes : list byte) : option (u32 * u32 * u16 * nat) :=
  d ← get_range bytes 1 5;
  p ← get_range bytes 5 9;
  s ← get_range bytes 9 11;
  l ← get_range bytes 11 15;
  Some (of_be d, of_be p, of_be s, N.to_nat (of_be l)).

Definition read_op : Reader DdlOp :=
  tag ← take_u8;
  match tag with
  | 0%N => mret CreateTable
  | 1%N => mret DropTable
  | 2%N =>
      sub ← take_u8;
      match sub with
      | 0%N => c ← take_str; mret (AlterColumn (Add c))
      | 1%N => from ← take_str; to ← take_str; mret (AlterColumn (Rename from to))
      | 2%N => c ← take_str; from ← read_data_type; mret (AlterColumn (Retype c from))
      | other => fail_with (Wal (UnknownAlteration other))
      end
  | other => fail_with (Wal (UnknownDdlOp other))
  end.

Definition read_column : Reader (list byte * DataType * bool) :=
  name ← take_str;
  ty ← read_data_type;
  nullable ← take_u8;
  mret (name, ty, negb (nullable =? 0)%N).

Definition read_ddl : Reader RecKind :=
  op ← read_op;
  dir_root ← take_u32;
  time_travel_root ← take_u32;
  table ← take_str;
  count ← take_u16;
  columns ← take_many (N.to_nat count) read_column;
  mret (RecDdl op table dir_root time_travel_root columns).

Definition read_run : Reader RecKind :=
  prov ← take_u32;
  if (prov =? 0)%N then fail_with (Wal RunIdentityNone)
  else
    agent ← take_str;
    run ← take_str;
    mdl ← take_str;
    mdlv ← take_str;
    hash ← take_array 32;
    started ← take_u64;
    bid ← take_u64;
    gen ← take_u32;
    mret (RecRunIdentity (mkRunEntity prov agent run mdl mdlv hash started (mkBranchId bid gen))).

(** The [Result] a reader returns, its cursor dropped. *)
Definition result_of {A : Type} (r : Result FerroError (A * nat)) : Result FerroError A :=
  match r with Ok (a, _) => Ok a | Err e => Err e end.

(** A compensation record nests another record 17 bytes further on, so the
    buffer's length is fuel enough. *)
Fixpoint deserialize_fuel (fuel : nat) (bytes : list byte)
    : option (Result FerroError RecKind) :=
  match fuel with
  | O => Some (Err (Wal EmptyRecord))
  | S fuel =>
      match bytes with
      | [] => Some (Err (Wal EmptyRecord))
      | b0 :: _ =>
          match byteN b0 with
          | 0%N => Some (Ok RecBegin)
          | 1%N => Some (Ok RecCommit)
          | 2%N => Some (Ok RecAbort)
          | 3%N => Some (Ok RecTxnEnd)
          | 4%N => Some (Ok RecCheckpoint)
          | 5%N =>
              '(dir_root, page_id, slot, len) ← read_heap bytes;
              tuple ← get_range bytes 15 (15 + len);
              Some (Ok (RecHeapInsert dir_root page_id slot tuple))
          | 6%N =>
              '(dir_root, page_id, slot, len) ← read_heap bytes;
              old ← get_range bytes 15 (15 + len);
              Some (Ok (RecHeapDelete dir_root page_id slot old))
          | 7%N =>
              '(dir_root, page_id, slot, len) ← read_heap bytes;
              old ← get_range bytes 15 (15 + len);
              nl ← get_range bytes (15 + len) (19 + len);
              new ← get_range bytes (19 + len) (19 + len + N.to_nat (of_be nl));
              Some (Ok (RecHeapUpdate dir_root page_id slot old new))
          | 9%N => Some (result_of (read_ddl bytes 1))
          | 10%N => Some (result_of (read_run bytes 1))
          | 8%N =>
              u ← get_range bytes 1 9;
              n ← get_range bytes 9 17;
              r ← deserialize_fuel fuel (drop 17 bytes);
              Some (redo ← r; Ok (RecClr (of_be u) (of_be n) redo))
          | t => Some (Err (Wal (UnknownTag t)))
          end
      end
  end.

Definition deserialize (bytes : list byte) : option (Result FerroError RecKind) :=
  deserialize_fuel (S (length bytes)) bytes.

(** * What a reader recovers *)

(** The values of the source's integer and string types. *)
Definition u16_ok (v : N) : Prop := (v <= max_u16)%N.
Definition u32_ok (v : N) : Prop := (v <= max_u32)%N.
Definition u64_ok (v : N) : Prop := (v <= max_u64)%N.
Definition str_ok (s : list byte) : Prop := utf8_valid s = true.


Definition reads {A : Type} (rd : Reader A) (w : list byte) (a : A) : Prop :=
  forall pre rest, rd (pre ++ w ++ rest) (length pre) = Ok (a, length pre + length w).

Lemma reads_ret {A : Type} (a : A) : reads (mret a) [] a.
Proof. intros pre rest. cbn [length app]. by rewrite Nat.add_0_r. Qed.

Lemma reads_bind {A B : Type} (m : Reader A) (k : A -> Reader B) w1 w2 a b :
  reads m w1 a -> reads (k a) w2 b -> reads (m ≫= k) (w1 ++ w2) b.
Proof.
  intros H1 H2 pre rest. unfold mbind, reader_bind.
  rewrite <- app_assoc, H1. specialize (H2 (pre ++ w1) rest).
  rewrite <- app_assoc, length_app in H2. by rewrite H2, length_app, Nat.add_assoc.
Qed.

(** The bind rule with the bytes given as an equation, for [eapply]. *)
Lemma reads_bind' {A B : Type} (m : Reader A) (k : A -> Reader B) w w1 w2 a b :
  w = w1 ++ w2 -> reads m w1 a -> reads (k a) w2 b -> reads (m ≫= k) w b.
Proof. intros ->. apply reads_bind. Qed.

Lemma reads_ret' {A : Type} (a b : A) w : w = [] -> a = b -> reads (mret a) w b.
Proof. intros -> ->. apply reads_ret. Qed.

Lemma reads_slice w : reads (take_slice (length w)) w w.
Proof. intros pre rest. unfold take_slice. by rewrite get_range_app. Qed.

Lemma reads_u8 v : (v < 256)%N -> reads take_u8 [u8 v] v.
Proof.
  intros Hv pre rest. unfold take_u8.
  rewrite lookup_app_r, Nat.sub_diag by lia. cbn.
  by rewrite byteN_u8, N.mod_small.
Qed.

Lemma reads_be n v :
  (v < 256 ^ N.of_nat n)%N -> reads (w ← take_slice n; mret (of_be w)) (be_bytes n v) v.
Proof.
  intros Hv. eapply (reads_bind' _ _ _ (be_bytes n v) []); [by rewrite app_nil_r|..].
  - rewrite <- (length_be_bytes n v) at 1. apply reads_slice.
  - apply reads_ret'; [done|]. by apply of_be_be_bytes_small.
Qed.

Lemma reads_u16 v : u16_ok v -> reads take_u16 (be_bytes 2 v) v.
Proof. intros. apply reads_be. cbn. unfold u16_ok, max_u16 in *. lia. Qed.

Lemma reads_u32 v : u32_ok v -> reads take_u32 (be_bytes 4 v) v.
Proof. intros. apply reads_be. cbn. unfold u32_ok, max_u32 in *. lia. Qed.

Lemma reads_u64 v : u64_ok v -> reads take_u64 (be_bytes 8 v) v.
Proof. intros. apply reads_be. cbn. unfold u64_ok, max_u64 in *. lia. Qed.

Lemma reads_array n w : length w = n -> reads (take_array n) w w.
Proof. intros <-. apply reads_slice. Qed.

Lemma reads_str s :
  str_ok s -> u16_ok (blen s) ->
  reads take_str (be_bytes 2 (blen s) ++ s) s.
Proof.
  intros Hu Hl. apply reads_bind with (a := blen s); [by apply reads_u16|].
  eapply (reads_bind' _ _ s s []); [by rewrite app_nil_r|..].
  - rewrite to_nat_blen. apply reads_slice.
  - unfold str_ok in Hu. rewrite Hu. apply reads_ret.
Qed.

(** A reader applied to its bytes with nothing in front. *)
Lemma reads_at {A : Type} (rd : Reader A) pre w rest a n :
  reads rd w a -> n = length pre -> rd (pre ++ w ++ rest) n = Ok (a, n + length w).
Proof. intros H ->. apply H. Qed.

Create HintDb codec.
#[export] Hint Resolve reads_u8 reads_u16 reads_u32 reads_u64 reads_str reads_array : codec.

(** * Values of their Rust types *)


Definition data_type_ok (ty : DataType) : Prop :=
  match ty with Varchar n => u16_ok n | _ => True end.

Definition op_ok (op : DdlOp) : Prop :=
  match op with
  | CreateTable | DropTable => True
  | AlterColumn (Add c) => str_ok c
  | AlterColumn (Rename f t) => str_ok f /\ str_ok t
  | AlterColumn (Retype c f) => str_ok c /\ data_type_ok f
  end.

Definition column_ok (c : list byte * DataType * bool) : Prop :=
  str_ok c.1.1 /\ data_type_ok c.1.2.

Definition run_ok (r : RunEntity) : Prop :=
  u32_ok (prov_id r) /\ str_ok (agent_id r) /\ str_ok (run_id r) /\ str_ok (model r)
  /\ str_ok (model_version r) /\ length (prompt_hash r) = 32 /\ u64_ok (started_at r)
  /\ u64_ok (branch_id (parent_branch r)) /\ u32_ok (branch_generation (parent_branch r)).

Fixpoint rec_ok (r : RecKind) : Prop :=
  match r with
  | RecBegin | RecCommit | RecAbort | RecTxnEnd | RecCheckpoint => True
  | RecHeapInsert d p s t | RecHeapDelete d p s t =>
      u32_ok d /\ u32_ok p /\ u16_ok s /\ u32_ok (blen t)
  | RecHeapUpdate d p s o n =>
      u32_ok d /\ u32_ok p /\ u16_ok s /\ u32_ok (blen o) /\ u32_ok (blen n)
  | RecClr u n redo => u64_ok u /\ u64_ok n /\ rec_ok redo
  | RecDdl op table d t columns =>
      op_ok op /\ str_ok table /\ u32_ok d /\ u32_ok t /\ Forall column_ok columns
  (** slot 0 of the dictionary means "unattributed", and is refused on the way
      back in *)
  | RecRunIdentity run => run_ok run /\ prov_id run <> 0%N
  end.

(** * Writers append, and what they append is read back *)

Lemma write_str_Ok b s what out :
  write_str b s what = Ok out ->
  u16_ok (blen s) /\ out = b ++ be_bytes 2 (blen s) ++ s.
Proof. unfold write_str. destruct (N.leb_spec (blen s) max_u16); [|done]. by intros [= <-]. Qed.

Lemma reads_data_type ty b :
  data_type_ok ty ->
  exists w, write_data_type b ty = b ++ w /\ reads read_data_type w ty.
Proof.
  intros H.
  destruct ty; cbn.
  all: try (eexists; split; [reflexivity|];
    eapply (reads_bind' _ _ _ [_] []); [reflexivity|by apply reads_u8|]; apply reads_ret).
  exists (u8 3 :: be_bytes 2 n). split; [by rewrite <- app_assoc|].
  eapply (reads_bind' _ _ _ [_] _); [reflexivity|by apply reads_u8|].
  eapply (reads_bind' _ _ _ _ []); [symmetry; apply app_nil_r|by apply reads_u16|]. apply reads_ret.
Qed.

(** [reads_step w1] splits the head of the bytes off for the first reader. *)
Ltac reads_step :=
  eapply reads_bind'; [reflexivity | solve [eauto with codec | by apply reads_u8] | cbn beta iota].
Ltac reads_last :=
  eapply reads_bind'; [symmetry; apply app_nil_r | solve [eauto with codec | by apply reads_u8] | cbn beta iota].

Lemma reads_op b op out :
  op_ok op -> write_op b op = Ok out ->
  exists w, out = b ++ w /\ reads read_op w op.
Proof.
  intros Hok. destruct op as [| |[c|f t|c f]]; cbn [write_op]; intros H; inv_ok.
  1,2: (eexists; split; [reflexivity|]; eapply (reads_bind _ _ [_] []); [by apply reads_u8|apply reads_ret]).
  - apply write_str_Ok in H as [Hl ->]. eexists. split; [rewrite <- !app_assoc; reflexivity|].
    eapply (reads_bind' _ _ _ [_]); [reflexivity|by apply reads_u8|].
    eapply (reads_bind' _ _ _ [_]); [reflexivity|by apply reads_u8|].
    cbn [op_ok] in Hok. reads_last. apply reads_ret.
  - apply write_str_Ok in E as [Hl ->]. apply write_str_Ok in H as [Hl' ->].
    destruct Hok as [? ?]. eexists. split; [rewrite <- !app_assoc; reflexivity|].
    eapply (reads_bind' _ _ _ [_]); [reflexivity|by apply reads_u8|].
    eapply (reads_bind' _ _ _ [_]); [reflexivity|by apply reads_u8|].
    rewrite (app_assoc (be_bytes 2 (blen f))). reads_step. reads_last. apply reads_ret.
  - apply write_str_Ok in E as [Hl ->]. destruct Hok as [? Hd].
    destruct (reads_data_type f ((((b ++ [u8 2]) ++ [u8 2]) ++ be_bytes 2 (blen c) ++ c)) Hd)
      as (w & -> & Hw).
    eexists. split; [rewrite <- !app_assoc; reflexivity|].
    eapply (reads_bind' _ _ _ [_]); [reflexivity|by apply reads_u8|].
    eapply (reads_bind' _ _ _ [_]); [reflexivity|by apply reads_u8|].
    rewrite (app_assoc (be_bytes 2 (blen c))). reads_step.
    eapply reads_bind'; [symmetry; apply app_nil_r|exact Hw|apply reads_ret].
Qed.

Lemma reads_columns cols b out :
  Forall column_ok cols -> write_columns b cols = Ok out ->
  exists w, out = b ++ w /\ reads (take_many (length cols) read_column) w cols.
Proof.
  intros Hok. revert b. induction Hok as [|[[name ty] nullable] cols [Hs Hd] _ IH];
    intros b H; cbn [write_columns length take_many] in *; inv_ok.
  - exists []. split; [by rewrite app_nil_r|apply reads_ret].
  - apply write_str_Ok in E as [Hl ->].
    destruct (reads_data_type ty (b ++ be_bytes 2 (blen name) ++ name) Hd) as (w1 & E1 & Hw1).
    rewrite E1 in H. apply IH in H as (w2 & -> & Hw2).
    exists (((be_bytes 2 (blen name) ++ name) ++ w1 ++ [u8 (if nullable then 1 else 0)]) ++ w2).
    split; [by rewrite <- !app_assoc|].
    apply (reads_bind _ _ _ w2 (name, ty, nullable)).
    + apply (reads_bind _ _ _ _ name); [by apply reads_str|].
      apply (reads_bind _ _ _ _ ty); [done|].
      eapply (reads_bind' _ _ _ [_] [] (if nullable then 1 else 0)%N);
        [done|by destruct nullable; apply reads_u8|].
      destruct nullable; apply reads_ret.
    + eapply reads_bind'; [symmetry; apply app_nil_r|exact Hw2|apply reads_ret].
Qed.

Lemma reads_ddl b op table d t cols out :
  rec_ok (RecDdl op table d t cols) ->
  serialize b (RecDdl op table d t cols) = Ok out ->
  exists w, out = b ++ [u8 9] ++ w /\ reads read_ddl w (RecDdl op table d t cols).
Proof.
  intros (Hop & Ht & Hd & Htt & Hc) H. cbn [serialize] in H. inv_ok.
  apply reads_op in E as (w1 & -> & Hw1); [|done].
  apply write_str_Ok in E0 as [Hl ->].
  destruct (N.leb_spec (blen cols) max_u16) as [Hn|Hn]; [|done].
  apply reads_columns in H as (w2 & -> & Hw2); [|done].
  exists (w1 ++ be_bytes 4 d ++ be_bytes 4 t ++ (be_bytes 2 (blen table) ++ table)
            ++ be_bytes 2 (blen cols) ++ w2).
  split; [by rewrite <- !app_assoc|].
  eapply reads_bind; [exact Hw1|]. do 4 reads_step.
  eapply reads_bind'; [symmetry; apply app_nil_r| |apply reads_ret].
  rewrite to_nat_blen. exact Hw2.
Qed.

Lemma reads_run b run out :
  rec_ok (RecRunIdentity run) -> serialize b (RecRunIdentity run) = Ok out ->
  exists w, out = b ++ [u8 10] ++ w /\ reads read_run w (RecRunIdentity run).
Proof.
  intros [(Hp & Ha & Hr & Hm & Hv & Hh & Hs & Hb & Hg) Hne] H.
  destruct run as [p ag rn md mv hash st [bid gen]]; cbn in *. inv_ok.
  apply write_str_Ok in E as [? ->]. apply write_str_Ok in E0 as [? ->].
  apply write_str_Ok in E1 as [? ->]. apply write_str_Ok in E2 as [? ->].
  exists (be_bytes 4 p ++ (be_bytes 2 (blen ag) ++ ag) ++ (be_bytes 2 (blen rn) ++ rn)
           ++ (be_bytes 2 (blen md) ++ md) ++ (be_bytes 2 (blen mv) ++ mv)
           ++ hash ++ be_bytes 8 st ++ be_bytes 8 bid ++ be_bytes 4 gen).
  split; [by rewrite <- !app_assoc|].
  reads_step. rewrite (proj2 (N.eqb_neq p 0)) by done. do 7 reads_step. reads_last. apply reads_ret.
Qed.

Lemma result_of_reads {A : Type} (rd : Reader A) pre w rest a n :
  reads rd w a -> n = length pre -> result_of (rd (pre ++ w ++ rest) n) = Ok a.
Proof. intros H ->. by rewrite H. Qed.

(** The ranges of a record split into fields of known widths. *)
Lemma get_range_mid (pre w rest : list byte) a b :
  a = length pre -> b = length pre + length w -> get_range (pre ++ w ++ rest) a b = Some w.
Proof. intros -> ->. apply get_range_app. Qed.

Lemma get_range_front (w rest : list byte) b :
  b = length w -> get_range (w ++ rest) 0 b = Some w.
Proof. intros ->. apply (get_range_app []). Qed.

Lemma get_range_behind (pre bytes : list byte) a b :
  length pre <= a -> a <= b ->
  get_range (pre ++ bytes) a b = get_range bytes (a - length pre) (b - length pre).
Proof.
  intros. unfold get_range. rewrite length_app.
  destruct (decide (a <= b <= length pre + length bytes)).
  - rewrite decide_True by lia. rewrite drop_app_ge by lia. do 2 f_equal. lia.
  - rewrite decide_False by lia. done.
Qed.

Lemma read_heap_written tag d p s (t rest : list byte) :
  u32_ok d -> u32_ok p -> u16_ok s -> u32_ok (blen t) ->
  let bytes := [u8 tag] ++ be_bytes 4 d ++ be_bytes 4 p ++ be_bytes 2 s
                 ++ be_bytes 4 (blen t) ++ t ++ rest in
  read_heap bytes = Some (d, p, s, length t)
  /\ get_range bytes 15 (15 + length t) = Some t
  /\ forall i j, i <= j ->
     get_range bytes (15 + length t + i) (15 + length t + j) = get_range rest i j.
Proof.
  intros Hd Hp Hs Ht. cbv zeta. unfold u32_ok, u16_ok, max_u32, max_u16 in *.
  assert (length [u8 tag] = 1) as L1 by done.
  unfold read_heap.
  rewrite (get_range_mid [u8 tag] (be_bytes 4 d) _ 1 5) by (rewrite ?length_be_bytes; cbn; lia).
  cbn [mbind option_bind].
  rewrite (get_range_behind [u8 tag] _ 5 9), (get_range_mid (be_bytes 4 d) (be_bytes 4 p))
    by (rewrite ?length_be_bytes; cbn; lia).
  cbn [mbind option_bind].
  rewrite (get_range_behind [u8 tag] _ 9 11), (get_range_behind (be_bytes 4 d)),
    (get_range_mid (be_bytes 4 p) (be_bytes 2 s)) by (rewrite ?length_be_bytes; cbn; lia).
  cbn [mbind option_bind].
  rewrite (get_range_behind [u8 tag] _ 11 15), (get_range_behind (be_bytes 4 d)),
    (get_range_behind (be_bytes 4 p)),
    (get_range_mid (be_bytes 2 s) (be_bytes 4 (blen t))) by (rewrite ?length_be_bytes; cbn; lia).
  cbn [mbind option_bind].
  rewrite !of_be_be_bytes_small by (cbn; lia).
  split; [by rewrite to_nat_blen|]. split.
  - do 4 (rewrite get_range_behind by (rewrite ?length_be_bytes; cbn; lia)).
    apply get_range_mid; rewrite ?length_be_bytes; cbn; lia.
  - intros i j Hij. do 6 (rewrite get_range_behind by (rewrite ?length_be_bytes; cbn; lia)).
    f_equal; rewrite ?length_be_bytes; cbn; lia.
Qed.

Lemma serialize_deserialize r b out :
  rec_ok r -> serialize b r = Ok out ->
  exists w, out = b ++ w /\
    forall fuel rest, length w <= fuel -> deserialize_fuel fuel (w ++ rest) = Some (Ok r).
Proof.
  revert b out. induction r as [| | | |d p s t|d p s t|d p s o nw|u n redo IH| |op table d t cols|run];
    intros b out Hok H.
  1-4,9: cbn [serialize] in H; inv_ok; eexists; split; [reflexivity|];
    intros [|fuel] rest Hf; cbn in Hf; [lia|reflexivity].
  - cbn [serialize] in H. inv_ok. destruct Hok as (?&?&?&?).
    eexists. split; [reflexivity|]. intros [|fuel] rest Hf; [cbn in Hf; lia|].
    destruct (read_heap_written 5 d p s t rest) as (E1 & E2 & _); [done..|].
    rewrite <- !app_assoc. cbn [deserialize_fuel app].
    change (byteN (u8 5)) with 5%N. cbn beta iota.
    cbn [app] in E1, E2. rewrite E1. cbn [mbind option_bind]. rewrite E2. done.
  - cbn [serialize] in H. inv_ok. destruct Hok as (?&?&?&?).
    eexists. split; [reflexivity|]. intros [|fuel] rest Hf; [cbn in Hf; lia|].
    destruct (read_heap_written 6 d p s t rest) as (E1 & E2 & _); [done..|].
    rewrite <- !app_assoc. cbn [deserialize_fuel app].
    change (byteN (u8 6)) with 6%N. cbn beta iota.
    cbn [app] in E1, E2. rewrite E1. cbn [mbind option_bind]. rewrite E2. done.
  - cbn [serialize] in H. inv_ok. destruct Hok as (?&?&?&?&Hn).
    eexists. split; [unfold write_heap; rewrite <- !app_assoc; reflexivity|].
    intros [|fuel] rest Hf; [cbn in Hf; lia|].
    destruct (read_heap_written 7 d p s o (be_bytes 4 (blen nw) ++ nw ++ rest))
      as (E1 & E2 & E3); [done..|].
    rewrite <- !app_assoc. cbn [deserialize_fuel app].
    change (byteN (u8 7)) with 7%N. cbn beta iota.
    cbn [app] in E1, E2, E3. rewrite E1. cbn [mbind option_bind]. rewrite E2.
    cbn [mbind option_bind].
    replace (15 + length o) with (15 + length o + 0) by lia.
    replace (19 + length o) with (15 + length o + 4) by lia. rewrite E3 by lia.
    rewrite get_range_front by (by rewrite length_be_bytes).
    cbn [mbind option_bind]. unfold u32_ok, max_u32 in Hn.
    rewrite of_be_be_bytes_small by (cbn; lia).
    rewrite to_nat_blen.
    replace (15 + length o + 4 + length nw) with (15 + length o + (4 + length nw)) by lia.
    rewrite E3 by lia.
    by rewrite (get_range_mid (be_bytes 4 (blen nw)) nw) by (rewrite ?length_be_bytes; cbn; lia).
  - cbn [serialize] in H. destruct Hok as (Hu & Hn & Hr).
    apply IH in H as (w & -> & Hw); [|done]. eexists. split; [rewrite <- !app_assoc; reflexivity|].
    intros [|fuel] rest Hf; [cbn in Hf; lia|]. rewrite <- !app_assoc.
    cbn [deserialize_fuel app]. change (byteN (u8 8)) with 8%N. cbn beta iota.
    rewrite !length_app, !length_be_bytes in Hf. cbn [length] in Hf.
    change (u8 8 :: be_bytes 8 u ++ be_bytes 8 n ++ w ++ rest)
      with ([u8 8] ++ be_bytes 8 u ++ be_bytes 8 n ++ w ++ rest).
    rewrite (get_range_mid [u8 8] (be_bytes 8 u) (be_bytes 8 n ++ w ++ rest) 1 9) by (rewrite ?length_be_bytes; cbn; lia).
    cbn [mbind option_bind].
    rewrite (get_range_behind [u8 8] (be_bytes 8 u ++ be_bytes 8 n ++ w ++ rest) 9 17) by (cbn; lia).
    rewrite (get_range_mid (be_bytes 8 u) (be_bytes 8 n)) by (rewrite ?length_be_bytes; cbn; lia).
    cbn [mbind option_bind].
    replace (drop 17 ([u8 8] ++ be_bytes 8 u ++ be_bytes 8 n ++ w ++ rest)) with (w ++ rest).
    2: { cbn [drop app]. rewrite app_assoc. rewrite drop_app_length'; [done|].
         by rewrite length_app, !length_be_bytes. }
    rewrite Hw by lia. cbn. unfold u64_ok, max_u64 in *.
    rewrite !of_be_be_bytes_small by (cbn; lia). done.
  - apply reads_ddl in H as (w & -> & Hw); [|done].
    eexists. split; [reflexivity|]. intros [|fuel] rest Hf; [cbn in Hf; lia|].
    cbn [app deserialize_fuel]. change (byteN (u8 9)) with 9%N. cbn beta iota.
    f_equal. apply (result_of_reads read_ddl [u8 9]); done.
  - apply reads_run in H as (w & -> & Hw); [|done].
    eexists. split; [reflexivity|]. intros [|fuel] rest Hf; [cbn in Hf; lia|].
    cbn [app deserialize_fuel]. change (byteN (u8 10)) with 10%N. cbn beta iota.
    f_equal. apply (result_of_reads read_run [u8 10]); done.
Qed.

(** * Properties *)

(** C26: a log record read back is the record written. [serialize] only appends,
    and [deserialize], given what it appended with anything behind it, returns
    the record, however deeply compensation records nest. *)
Theorem record_round_trip (r : RecKind) (b out : list byte) :
  rec_ok r -> serialize b r = Ok out ->
  exists w, out = b ++ w /\ forall rest, deserialize (w ++ rest) = Some (Ok r).
Proof.
  intros Hok H. destruct (serialize_deserialize r b out Hok H) as (w & -> & Hw).
  exists w. split; [done|]. intros rest. apply Hw. rewrite length_app. lia.
Qed.

(** A compensation record around an update. *)
Definition sample_record : RecKind := RecClr 9 4 (RecHeapUpdate 1 2 3 [u8 5] [u8 6; u8 7]).

Lemma record_round_trip_witness : exists w, deserialize w = Some (Ok sample_record).
Proof.
  destruct (record_round_trip sample_record [] (default [] (ok_opt (serialize [] sample_record))))
    as (w & _ & H); [cbn; unfold u16_ok, u32_ok, u64_ok; by vm_compute|by vm_compute|].
  exists w. specialize (H []). by rewrite app_nil_r in H.
Defined.
