(* ===== verification/Values.v ===== *)
(** Column values and their order: [src/src/catalog/column.rs]. The numeric
    variants compare by value across their types, exactly: a 64-bit integer is
    never widened to a float, and a float is expanded to its decimal digits
    before it meets a decimal. *)
From Stdlib Require Import ZArith QArith.
From S2P Require Import Prelude Bytes Keys WalRecord.

#[local] Open Scope Z_scope.

(** * Data

    A float is its 64 bits; a string is its UTF-8 bytes. *)

Inductive Value : Type :=
| VInteger (v : Z)
| VFloat (bits : N)
| VVarchar (s : list byte)
| VBoolean (b : bool)
| VBigInt (v : Z)
| VDecimal (text : list byte)
| VTimestamp (ms : Z)
| VNull.

Record Column := mkColumn { name : list byte; data_type : DataType; nullable : bool }.
Definition Schema : Type := list Column.

(** * IEEE doubles *)

Definition f_sign (bits : N) : bool := N.testbit bits 63.
(** The bits below the sign. *)
Definition f_low (bits : N) : N := (bits mod 2 ^ 63)%N.
Definition f_exp (bits : N) : N := (f_low bits / 2 ^ 52)%N.
Definition f_man (bits : N) : N := (bits mod 2 ^ 52)%N.

Definition is_nan (bits : N) : bool := (f_exp bits =? 2047)%N && negb (f_man bits =? 0)%N.
Definition is_infinite (bits : N) : bool := (f_exp bits =? 2047)%N && (f_man bits =? 0)%N.

(** The magnitude of a finite double is a whole number of the smallest
    subnormal, [2^-1074]. *)
Definition f_units (bits : N) : N :=
  if (f_exp bits =? 0)%N then f_man bits else ((f_man bits + 2 ^ 52) * 2 ^ (f_exp bits - 1))%N.
Definition f_scaled (bits : N) : Z := if f_sign bits then - Z.of_N (f_units bits) else Z.of_N (f_units bits).

Definition scale : positive := (2 ^ 1074)%positive.
(** The value of a finite double. *)
Definition f_val (bits : N) : Q := f_scaled bits # scale.

(** [f64::total_cmp]: the bits as a sign-magnitude integer, negative zero below
    zero. *)
Definition total_key (bits : N) : Z := if f_sign bits then - Z.of_N (f_low bits) - 1 else Z.of_N (f_low bits).
Definition total_cmp (a b : N) : comparison := total_key a ?= total_key b.

(** [a as f64]: to the nearest, ties to even. *)
Definition nearest (m : N) : N :=
  let l := N.log2 m in
  if (l <=? 52)%N then ((l + 1023) * 2 ^ 52 + (m * 2 ^ (52 - l) - 2 ^ 52))%N
  else
    let sh := (l - 52)%N in
    let q := (m / 2 ^ sh)%N in
    let rem := (m mod 2 ^ sh)%N in
    let half := (2 ^ (sh - 1))%N in
    let up := (half <? rem)%N || ((half =? rem)%N && N.odd q) in
    ((l + 1023) * 2 ^ 52 + ((if up then q + 1 else q) - 2 ^ 52))%N.
Definition to_f64 (a : Z) : N :=
  if a =? 0 then 0%N
  else if a <? 0 then (2 ^ 63 + nearest (Z.to_N (- a)))%N
  else nearest (Z.to_N a).

(** [f.trunc() as i64] of a double that fits. *)
Definition f_trunc (bits : N) : Z := Z.quot (f_scaled bits) (Zpos scale).

Definition cmp_i64_f64 (a : Z) (b : N) : comparison :=
  if is_nan b then total_cmp (to_f64 a) b
  else if is_infinite b then (if f_sign b then Gt else Lt)
  else if (f_scaled b =? 0) && f_sign b then match a ?= 0 with Eq => Gt | c => c end
  else if 2 ^ 63 * Zpos scale <=? f_scaled b then Lt
  else if f_scaled b <? - 2 ^ 63 * Zpos scale then Gt
  else
    let truncated := f_trunc b in
    match a ?= truncated with
    | Eq =>
        if truncated * Zpos scale <? f_scaled b then Lt
        else if f_scaled b <? truncated * Zpos scale then Gt
        else Eq
    | other => other
    end.

(** * Decimal text *)

Definition ch (n : N) : byte := u8 n.
Definition is_digit (b : byte) : bool := (48 <=? byteN b)%N && (byteN b <=? 57)%N.
Definition is_zero (b : byte) : bool := (byteN b =? 48)%N.
Definition dot (b : byte) : bool := (byteN b =? 46)%N.
Definition minus (b : byte) : bool := (byteN b =? 45)%N.
Definition plus (b : byte) : bool := (byteN b =? 43)%N.

(** [trim_start_matches] and [trim_end_matches] of one character. *)
Fixpoint trim_start (p : byte -> bool) (s : list byte) : list byte :=
  match s with x :: r => if p x then trim_start p r else s | [] => [] end.
Definition trim_end (p : byte -> bool) (s : list byte) : list byte := rev (trim_start p (rev s)).

(** [split_once('.')]. *)
Fixpoint split_once (p : byte -> bool) (s : list byte) : option (list byte * list byte) :=
  match s with
  | [] => None
  | x :: r => if p x then Some ([], r) else '(a, b) ← split_once p r; Some (x :: a, b)
  end.

(** [str::trim]: the Unicode white space at both ends, in UTF-8. The length of
    the white space a run of bytes starts with, and of the one a reversed run
    starts with. *)
Definition space1 (a : N) : bool := ((9 <=? a) && (a <=? 13) || (a =? 32))%N.
Definition space2 (a b : N) : bool := ((a =? 194) && ((b =? 133) || (b =? 160)))%N.
Definition space3 (a b c : N) : bool :=
  ((a =? 225) && (b =? 154) && (c =? 128)
   || (a =? 226) && ((b =? 128) && ((c <=? 138) && (128 <=? c) || (c =? 168) || (c =? 169) || (c =? 175)) || (b =? 129) && (c =? 159))
   || (a =? 227) && (b =? 128) && (c =? 128))%N.
Fixpoint trim_left (fuel : nat) (s : list byte) : list byte :=
  match fuel with
  | O => s
  | S fuel =>
      match s with
      | a :: s1 => if space1 (byteN a) then trim_left fuel s1
        else match s1 with
             | b :: s2 => if space2 (byteN a) (byteN b) then trim_left fuel s2
               else match s2 with
                    | c :: s3 => if space3 (byteN a) (byteN b) (byteN c) then trim_left fuel s3 else s
                    | [] => s
                    end
             | [] => s
             end
      | [] => []
      end
  end.
Fixpoint trim_right (fuel : nat) (s : list byte) : list byte :=
  match fuel with
  | O => s
  | S fuel =>
      match s with
      | c :: s1 => if space1 (byteN c) then trim_right fuel s1
        else match s1 with
             | b :: s2 => if space2 (byteN b) (byteN c) then trim_right fuel s2
               else match s2 with
                    | a :: s3 => if space3 (byteN a) (byteN b) (byteN c) then trim_right fuel s3 else s
                    | [] => s
                    end
             | [] => s
             end
      | [] => []
      end
  end.
Definition trim (s : list byte) : list byte :=
  let l := trim_left (length s) s in rev (trim_right (length l) (rev l)).

Inductive DecimalError := EmptyDecimal | ManyPoints | NoDigits | NotDecimal.

Definition parse_decimal (t : list byte) : DecimalError + list byte :=
  match trim t with
  | [] => inl EmptyDecimal
  | x :: r =>
      let '(neg, rest) := if minus x then (true, r) else if plus x then (false, r) else (false, x :: r) in
      let '(int_part, frac_part) := match split_once dot rest with Some (i, f) => (i, f) | None => (rest, []) end in
      if (1 <? length (List.filter dot rest))%nat then inl ManyPoints
      else if bool_decide (int_part = []) && bool_decide (frac_part = []) then inl NoDigits
      else if negb (forallb is_digit int_part) || negb (forallb is_digit frac_part) then inl NotDecimal
      else
        let int_part := if bool_decide (int_part = []) then [ch 48] else int_part in
        let frac_part := if bool_decide (frac_part = []) then [ch 48] else frac_part in
        inr ((if neg then [ch 45] else []) ++ int_part ++ [ch 46] ++ frac_part)
  end.

Definition decimal_parts (s : list byte) : bool * list byte * list byte :=
  let '(neg, rest) := match s with
                      | x :: r => if minus x then (true, r) else if plus x then (false, r) else (false, s)
                      | [] => (false, s)
                      end in
  let '(int_part, frac_part) := match split_once dot rest with Some (i, f) => (i, f) | None => (rest, []) end in
  (neg, trim_start is_zero int_part, trim_end is_zero frac_part).

Definition then_with (c d : comparison) : comparison := match c with Eq => d | _ => c end.

(** The fractions, digit by digit, the shorter one padded with zeros. *)
Definition pad (s : list byte) : N := match s with x :: _ => byteN x | [] => 48 end.
Fixpoint cmp_frac (n : nat) (a b : list byte) : comparison :=
  match n with O => Eq | S n => then_with (pad a ?= pad b)%N (cmp_frac n (tail a) (tail b)) end.

Definition decimal_cmp (a b : list byte) : comparison :=
  let '(a_neg, a_int, a_frac) := decimal_parts a in
  let '(b_neg, b_int, b_frac) := decimal_parts b in
  let a_zero := bool_decide (a_int = []) && bool_decide (a_frac = []) in
  let b_zero := bool_decide (b_int = []) && bool_decide (b_frac = []) in
  let a_sign := if a_zero then 0 else if a_neg then -1 else 1 in
  let b_sign := if b_zero then 0 else if b_neg then -1 else 1 in
  let magnitude :=
    then_with (Nat.compare (length a_int) (length b_int)) (then_with (kcmp a_int b_int) 
      (cmp_frac (Nat.max (length a_frac) (length b_frac)) a_frac b_frac)) in
  let by_magnitude := if a_neg then CompOpp magnitude else magnitude in
  if a_zero && b_zero then Eq
  else if negb (Bool.eqb a_zero b_zero) || negb (Bool.eqb a_neg b_neg)
  then if negb (a_sign =? b_sign) then a_sign ?= b_sign else by_magnitude
  else by_magnitude.

(** [to_string] of an integer: its digits, the most significant first. *)
Fixpoint digits_loop (fuel : nat) (n : N) (acc : list byte) : list byte :=
  match fuel with
  | O => acc
  | S fuel =>
      let acc := ch (48 + n mod 10) :: acc in
      if (n / 10 =? 0)%N then acc else digits_loop fuel (n / 10) acc
  end.
Definition digits (n : N) : list byte := digits_loop (S (N.to_nat (N.log2 n))) n [].
Definition int_text (v : Z) : list byte :=
  if v <? 0 then ch 45 :: digits (Z.to_N (- v)) else digits (Z.to_N v).

(** [k] digits of [n], padded with zeros on the left. *)
Fixpoint low_digits (k : nat) (n : N) (acc : list byte) : list byte :=
  match k with O => acc | S k => low_digits k (n / 10) (ch (48 + n mod 10) :: acc) end.

(** [format!("{f:.1074}")] of a finite double: every digit it has. *)
Definition f64_exact_decimal (bits : N) : list byte :=
  let all := (f_units bits * 5 ^ 1074)%N in
  (if f_sign bits then [ch 45] else [])
  ++ digits (all / 10 ^ 1074) ++ [ch 46] ++ low_digits 1074 (all mod 10 ^ 1074) [].

Definition decimal_is_negative (s : list byte) : bool :=
  let '(neg, int_part, frac_part) := decimal_parts s in
  neg && negb (bool_decide (int_part = []) && bool_decide (frac_part = [])).

Definition cmp_f64_decimal (f : N) (d : list byte) : comparison :=
  if is_nan f then (if f_sign f then Lt else Gt)
  else if is_infinite f then (if f_sign f then Lt else Gt)
  else if (f_scaled f =? 0) && f_sign f then (if decimal_is_negative d then Gt else Lt)
  else decimal_cmp (f64_exact_decimal f) d.

(** * The order of values *)

Definition type_rank (v : Value) : N :=
  match v with
  | VNull => 0
  | VBoolean _ => 1
  | VInteger _ => 2
  | VBigInt _ => 3
  | VFloat _ => 4
  | VDecimal _ => 5
  | VTimestamp _ => 6
  | VVarchar _ => 7
  end.

Definition bool_cmp (a b : bool) : comparison :=
  match a, b with false, true => Lt | true, false => Gt | _, _ => Eq end.

Definition value_cmp (x y : Value) : comparison :=
  match x, y with
  | VInteger a, VInteger b => a ?= b
  | VFloat a, VFloat b => total_cmp a b
  | VInteger a, VFloat b => total_cmp (to_f64 a) b
  | VFloat a, VInteger b => total_cmp a (to_f64 b)
  | VBoolean a, VBoolean b => bool_cmp a b
  | VVarchar a, VVarchar b => kcmp a b
  | VNull, VNull => Eq
  | VBigInt a, VBigInt b => a ?= b
  | VBigInt a, VInteger b => a ?= b
  | VInteger a, VBigInt b => a ?= b
  | VBigInt a, VFloat b => cmp_i64_f64 a b
  | VFloat a, VBigInt b => CompOpp (cmp_i64_f64 b a)
  | VDecimal a, VDecimal b => decimal_cmp a b
  | VDecimal a, VInteger b => decimal_cmp a (int_text b)
  | VInteger a, VDecimal b => decimal_cmp (int_text a) b
  | VDecimal a, VBigInt b => decimal_cmp a (int_text b)
  | VBigInt a, VDecimal b => decimal_cmp (int_text a) b
  | VDecimal a, VFloat b => CompOpp (cmp_f64_decimal b a)
  | VFloat a, VDecimal b => cmp_f64_decimal a b
  | VTimestamp a, VTimestamp b => a ?= b
  | a, b => (type_rank a ?= type_rank b)%N
  end.

(** [PartialEq]. *)
Definition value_eqb (x y : Value) : bool := match value_cmp x y with Eq => true | _ => false end.

