(* ===== verification/DecimalOrder.v ===== *)
(** What decimal text denotes, and that [decimal_cmp] compares the numbers: the
    digits of a run as a number, the parts of a decimal as a rational, the text
    of an integer and the exact expansion of a double. *)
From Stdlib Require Import ZArith QArith Lqa.
From S2P Require Import Prelude Bytes Keys WalRecord Values.

#[local] Open Scope N_scope.

(** * Runs of digits *)

Definition all_digits (s : list byte) : Prop := Forall (fun b => is_digit b = true) s.

(** The first [n] digits as a number, zeros after the end. *)
Fixpoint fnum (n : nat) (s : list byte) : N :=
  match n with O => 0 | S n => (pad s - 48) * 10 ^ N.of_nat n + fnum n (tail s) end.
Definition num (s : list byte) : N := fnum (length s) s.

Lemma pad_range s : all_digits s -> 48 <= pad s <= 57.
Proof.
  destruct s as [|x s]; [cbn; lia|]. intros H. inversion H as [|? ? Hx]; subst. unfold is_digit in Hx.
  apply andb_true_iff in Hx as [H1 H2]. apply N.leb_le in H1, H2. cbn. lia.
Qed.

Lemma digits_tail s : all_digits s -> all_digits (tail s).
Proof. destruct s; [done|]. by inversion 1. Qed.

Lemma pow10_pos n : 0 < 10 ^ n.
Proof. apply N.neq_0_lt_0, N.pow_nonzero. lia. Qed.

Lemma pow10_S n : 10 ^ N.of_nat (S n) = 10 * 10 ^ N.of_nat n.
Proof. rewrite Nat2N.inj_succ, N.pow_succ_r'. done. Qed.

Lemma fnum_lt n s : all_digits s -> fnum n s < 10 ^ N.of_nat n.
Proof.
  revert s. induction n as [|n IH]; intros s H; [cbn; lia|]. rewrite pow10_S. cbn [fnum].
  pose proof (IH (tail s) (digits_tail s H)). pose proof (pad_range s H). pose proof (pow10_pos (N.of_nat n)). nia.
Qed.

(** Comparing digit by digit is comparing the numbers. *)
Lemma cmp_frac_num n a b : all_digits a -> all_digits b -> cmp_frac n a b = (fnum n a ?= fnum n b).
Proof.
  revert a b. induction n as [|n IH]; intros a b Ha Hb; [done|]. cbn [cmp_frac fnum].
  rewrite (IH (tail a) (tail b)) by (by apply digits_tail).
  pose proof (fnum_lt n (tail a) (digits_tail a Ha)). pose proof (fnum_lt n (tail b) (digits_tail b Hb)).
  pose proof (pad_range a Ha). pose proof (pad_range b Hb). set (p := 10 ^ N.of_nat n) in *.
  destruct (N.compare_spec (pad a) (pad b)) as [E|E|E]; cbn [then_with].
  - rewrite E. set (x := (pad b - 48) * p). destruct (N.compare_spec (fnum n (tail a)) (fnum n (tail b))) as [->|H'|H']; symmetry;
      [apply N.compare_refl|apply N.compare_lt_iff|apply N.compare_gt_iff]; lia.
  - symmetry. apply N.compare_lt_iff. nia.
  - symmetry. apply N.compare_gt_iff. nia.
Qed.

Lemma kcmp_num a b : length a = length b -> kcmp a b = cmp_frac (length a) a b.
Proof.
  revert b. induction a as [|x a IH]; intros [|y b] E; cbn in E; try done. injection E as E. cbn. rewrite (IH b E).
  by destruct (byteN x ?= byteN y).
Qed.

(** Digits after the end are zeros. *)
Lemma fnum_nil n : fnum n [] = 0.
Proof. induction n as [|n IH]; [done|]. cbn [fnum pad tail]. rewrite IH. lia. Qed.

Lemma fnum_app n a b : fnum (length a + n) (a ++ b) = num a * 10 ^ N.of_nat n + fnum n b.
Proof.
  unfold num. induction a as [|x a IH]; [cbn; lia|]. cbn [length app Nat.add fnum pad tail]. rewrite IH, Nat2N.inj_add, N.pow_add_r. lia.
Qed.

Lemma num_app a b : num (a ++ b) = num a * 10 ^ N.of_nat (length b) + num b.
Proof. unfold num at 1. rewrite length_app. apply fnum_app. Qed.

Lemma fnum_num n s : (length s <= n)%nat -> fnum n s = num s * 10 ^ N.of_nat (n - length s).
Proof.
  intros H. rewrite <- (app_nil_r s) at 1. replace n with (length s + (n - length s))%nat at 1 by lia. rewrite fnum_app, fnum_nil. lia.
Qed.

Lemma num_cons x s : num (x :: s) = (byteN x - 48) * 10 ^ N.of_nat (length s) + num s.
Proof. done. Qed.

(** A run that starts with another digit than zero fills its length. *)
Lemma num_ge x s : is_digit x = true -> is_zero x = false -> 10 ^ N.of_nat (length s) <= num (x :: s).
Proof.
  unfold is_digit, is_zero. intros H1 H2. rewrite num_cons. pose proof (pow10_pos (N.of_nat (length s))).
  apply N.eqb_neq in H2. apply andb_true_iff in H1 as [H1 _]. apply N.leb_le in H1. nia.
Qed.

Definition headed (s : list byte) : Prop := match s with x :: _ => is_zero x = false | [] => True end.

Lemma int_cmp a b : all_digits a -> all_digits b -> headed a -> headed b ->
  then_with (Nat.compare (length a) (length b)) (kcmp a b) = (num a ?= num b).
Proof.
  intros Ha Hb Ka Kb. assert (forall u v, all_digits u -> all_digits v -> headed v -> (length u < length v)%nat -> num u < num v) as Hlt.
  { intros u [|y v] Hu Hv Kv Hl; cbn in Hl; [lia|]. inversion Hv; subst. pose proof (num_ge y v ltac:(done) Kv).
    pose proof (fnum_lt (length u) u Hu). assert (10 ^ N.of_nat (length u) <= 10 ^ N.of_nat (length v)) by (apply N.pow_le_mono_r; lia).
    unfold num in *. lia. }
  destruct (Nat.compare_spec (length a) (length b)) as [E|E|E]; cbn [then_with].
  - rewrite kcmp_num, cmp_frac_num by done. unfold num. by rewrite E.
  - symmetry. apply N.compare_lt_iff. by apply Hlt.
  - symmetry. apply N.compare_gt_iff. by apply Hlt.
Qed.

(** * Trimming *)

Lemma trim_start_split p s : exists t, s = t ++ trim_start p s /\ Forall (fun x => p x = true) t.
Proof.
  induction s as [|x s IH]; [by exists []|]. cbn. destruct (p x) eqn:E.
  - destruct IH as (t & E1 & F). exists (x :: t). split; [cbn; by rewrite <- E1|by constructor].
  - by exists [].
Qed.

Lemma trim_start_head p s : match trim_start p s with x :: _ => p x = false | [] => True end.
Proof. induction s as [|x s IH]; [done|]. cbn. by destruct (p x) eqn:E. Qed.

Lemma num_zeros t : Forall (fun x => is_zero x = true) t -> num t = 0.
Proof.
  induction 1 as [|x t H _ IH]; [done|]. rewrite num_cons, IH. unfold is_zero in H. apply N.eqb_eq in H. rewrite H. lia.
Qed.

Lemma trim_start_num s : num (trim_start is_zero s) = num s.
Proof. destruct (trim_start_split is_zero s) as (t & E & F). rewrite E at 2. rewrite num_app, (num_zeros t F). lia. Qed.

Lemma trim_end_split p s : exists t, s = trim_end p s ++ t /\ Forall (fun x => p x = true) t.
Proof.
  destruct (trim_start_split p (rev s)) as (t & E & F). exists (rev t). split.
  - unfold trim_end. rewrite <- rev_app_distr, <- E. by rewrite rev_involutive.
  - by apply List.Forall_rev.
Qed.

(** * The number a decimal stands for *)

Definition ten (n : nat) : positive := Nat.iter n (Pos.mul 10) 1%positive.

Lemma ten_N n : Npos (ten n) = 10 ^ N.of_nat n.
Proof. induction n as [|n IH]; [done|]. rewrite pow10_S, <- IH. done. Qed.

Lemma ten_Z n : Zpos (ten n) = Z.of_N (10 ^ N.of_nat n).
Proof. by rewrite <- ten_N. Qed.

Definition magnitude (int frac : list byte) : Q :=
  Z.of_N (num int * 10 ^ N.of_nat (length frac) + num frac) # ten (length frac).
Definition signed (neg : bool) (q : Q) : Q := if neg then Qopp q else q.

#[export] Instance signed_proper : Proper (eq ==> Qeq ==> Qeq) signed.
Proof. intros ? neg -> x y E. destruct neg; cbn; by rewrite E. Qed.

Definition dec_val (s : list byte) : Q := let '(neg, int, frac) := decimal_parts s in signed neg (magnitude int frac).

(** Any number of digits after the point will do. *)
Lemma magnitude_at n int frac : (length frac <= n)%nat ->
  (magnitude int frac == Z.of_N (num int * 10 ^ N.of_nat n + fnum n frac) # ten n)%Q.
Proof.
  intros H. unfold magnitude, Qeq. cbn [Qnum Qden]. rewrite !ten_Z, fnum_num by done.
  replace (N.of_nat n) with (N.of_nat (length frac) + N.of_nat (n - length frac)) by lia. rewrite N.pow_add_r. lia.
Qed.

Lemma same_den_cmp a b d : ((Z.of_N a # d) ?= (Z.of_N b # d))%Q = (a ?= b).
Proof. unfold Qcompare. cbn [Qnum Qden]. rewrite <- Zmult_compare_compat_r by done. apply N2Z.inj_compare. Qed.

Lemma then_with_assoc a b c : then_with a (then_with b c) = then_with (then_with a b) c.
Proof. by destruct a. Qed.

(** The comparison of the magnitudes. *)
Lemma magnitude_cmp ai af bi bf : all_digits ai -> all_digits af -> all_digits bi -> all_digits bf -> headed ai -> headed bi ->
  then_with (Nat.compare (length ai) (length bi)) (then_with (kcmp ai bi)
    (cmp_frac (Nat.max (length af) (length bf)) af bf)) = (magnitude ai af ?= magnitude bi bf)%Q.
Proof.
  intros Hai Haf Hbi Hbf Ka Kb. set (n := Nat.max _ _).
  rewrite (magnitude_at n ai af), (magnitude_at n bi bf), same_den_cmp by lia. rewrite then_with_assoc, int_cmp by done.
  rewrite cmp_frac_num by done. pose proof (fnum_lt n af Haf). pose proof (fnum_lt n bf Hbf). set (p := 10 ^ N.of_nat n) in *.
  set (x := fnum n af) in *. set (y := fnum n bf) in *.
  destruct (N.compare_spec (num ai) (num bi)) as [E|E|E]; cbn [then_with].
  - rewrite E. destruct (N.compare_spec x y) as [->|H'|H']; symmetry; [apply N.compare_refl|apply N.compare_lt_iff|apply N.compare_gt_iff]; lia.
  - symmetry. apply N.compare_lt_iff. nia.
  - symmetry. apply N.compare_gt_iff. nia.
Qed.

(** A run that ends in another digit than zero. *)
Definition footed (s : list byte) : Prop := headed (rev s).

Lemma footed_pos s : all_digits s -> footed s -> s <> [] -> 0 < num s.
Proof.
  intros Hd Hf Hne. destruct (exists_last Hne) as (t & x & ->). unfold footed in Hf. rewrite rev_app_distr in Hf. cbn in Hf.
  rewrite num_app. apply Forall_app in Hd as [_ Hx]. inversion Hx as [|? ? Hd' _]; subst. pose proof (num_ge x [] Hd' Hf). cbn [length] in *. lia.
Qed.

Lemma headed_pos s : all_digits s -> headed s -> s <> [] -> 0 < num s.
Proof.
  intros Hd Hf Hne. destruct s as [|x s]; [done|]. inversion Hd; subst. pose proof (num_ge x s ltac:(done) Hf).
  pose proof (pow10_pos (N.of_nat (length s))). lia.
Qed.

Record trimmed (int frac : list byte) : Prop := {
  tr_int : all_digits int; tr_frac : all_digits frac; tr_head : headed int; tr_foot : footed frac }.

Lemma magnitude_zero int frac : trimmed int frac ->
  bool_decide (int = []) && bool_decide (frac = []) = true -> (magnitude int frac == 0)%Q.
Proof. intros _ H. apply andb_true_iff in H as [->%bool_decide_eq_true ->%bool_decide_eq_true]. done. Qed.

Lemma magnitude_pos int frac : trimmed int frac ->
  bool_decide (int = []) && bool_decide (frac = []) = false -> (0 < magnitude int frac)%Q.
Proof.
  intros [Hi Hf Kh Kf] H. unfold magnitude, Qlt. cbn [Qnum Qden]. pose proof (pow10_pos (N.of_nat (length frac))).
  enough (0 < num int \/ 0 < num frac) by nia. apply andb_false_iff in H as [H%bool_decide_eq_false|H%bool_decide_eq_false].
  - left. by apply headed_pos.
  - right. by apply footed_pos.
Qed.

(** The text a decimal may have: digits in both of its parts. *)
Definition decimal_ok (s : list byte) : bool :=
  let '(_, int, frac) := decimal_parts s in forallb is_digit int && forallb is_digit frac.

Lemma forallb_digits s : forallb is_digit s = true <-> all_digits s.
Proof. unfold all_digits. rewrite forallb_forall, List.Forall_forall. done. Qed.

Lemma decimal_trimmed s : decimal_ok s = true -> let '(_, int, frac) := decimal_parts s in trimmed int frac.
Proof.
  unfold decimal_ok. destruct (decimal_parts s) as [[neg int] frac] eqn:E. rewrite andb_true_iff, !forallb_digits. intros [Hi Hf].
  unfold decimal_parts in E. repeat case_match; simplify_eq; (split; [done|done|apply trim_start_head|]);
    unfold footed, trim_end; rewrite rev_involutive; apply trim_start_head.
Qed.

Lemma Qopp_cmp x y : (Qopp x ?= Qopp y)%Q = CompOpp (x ?= y)%Q.
Proof. unfold Qcompare. cbn [Qnum Qden Qopp]. rewrite !Z.mul_opp_l, Z.compare_opp. apply Z.compare_antisym. Qed.

(** [decimal_cmp] compares the numbers. *)
Lemma decimal_cmp_val a b : decimal_ok a = true -> decimal_ok b = true -> decimal_cmp a b = (dec_val a ?= dec_val b)%Q.
Proof.
  intros Ha%decimal_trimmed Hb%decimal_trimmed. unfold decimal_cmp, dec_val.
  destruct (decimal_parts a) as [[an ai] af], (decimal_parts b) as [[bn bi] bf]. cbv zeta.
  rewrite magnitude_cmp by (apply Ha || apply Hb).
  destruct (bool_decide (ai = []) && bool_decide (af = [])) eqn:Za, (bool_decide (bi = []) && bool_decide (bf = [])) eqn:Zb;
    repeat match goal with
    | H : _ && _ = true |- _ => first [apply (magnitude_zero _ _ Ha) in H | apply (magnitude_zero _ _ Hb) in H]
    | H : _ && _ = false |- _ => first [apply (magnitude_pos _ _ Ha) in H | apply (magnitude_pos _ _ Hb) in H]
    end; cbn [andb negb Bool.eqb orb]; unfold signed.
  - destruct an, bn; by rewrite Za, Zb.
  - destruct bn; cbn [Z.eqb negb Z.compare]; symmetry.
    + apply (proj1 (Qgt_alt _ _)). destruct an; rewrite Za; lra.
    + apply (proj1 (Qlt_alt _ _)). destruct an; rewrite Za; lra.
  - destruct an; cbn [Z.eqb negb Z.compare]; symmetry.
    + apply (proj1 (Qlt_alt _ _)). destruct bn; rewrite Zb; lra.
    + apply (proj1 (Qgt_alt _ _)). destruct bn; rewrite Zb; lra.
  - destruct an, bn; cbn [Bool.eqb negb Z.eqb Pos.eqb Z.compare].
    + by rewrite Qopp_cmp.
    + symmetry. apply (proj1 (Qlt_alt _ _)). lra.
    + symmetry. apply (proj1 (Qgt_alt _ _)). lra.
    + done.
Qed.

(** * The text of integers *)

Lemma ch_digit d : d < 10 -> is_digit (ch (48 + d)) = true /\ byteN (ch (48 + d)) = 48 + d.
Proof.
  intros H. assert (byteN (ch (48 + d)) = 48 + d) as E by (unfold ch; rewrite byteN_u8, N.mod_small; lia).
  unfold is_digit. rewrite E. split; [|done]. apply andb_true_iff. split; apply N.leb_le; lia.
Qed.

Lemma num_snoc s d : d < 10 -> num (s ++ [ch (48 + d)]) = num s * 10 + d.
Proof. intros H. rewrite num_app. cbn [length]. unfold num at 2. cbn [length fnum pad tail]. rewrite (proj2 (ch_digit d H)). lia. Qed.

Lemma digits_loop_spec fuel n acc : n < 2 ^ N.of_nat fuel -> fuel <> O ->
  exists ds, digits_loop fuel n acc = ds ++ acc /\ ds <> [] /\ all_digits ds /\ num ds = n.
Proof.
  revert n acc. induction fuel as [|fuel IH]; intros n acc Hn Hf; [done|]. cbn [digits_loop].
  pose proof (N.mod_lt n 10 ltac:(done)) as Hm. pose proof (N.div_mod n 10 ltac:(done)) as Hd. destruct (ch_digit (n mod 10) Hm) as [D1 D2].
  destruct (N.eqb_spec (n / 10) 0) as [E|E].
  - exists [ch (48 + n mod 10)]. split; [done|]. split; [done|]. split; [by repeat constructor|]. change [ch (48 + n mod 10)] with ([] ++ [ch (48 + n mod 10)]).
    rewrite num_snoc by done. change (num []) with 0. lia.
  - assert (2 ^ N.of_nat (S fuel) = 2 * 2 ^ N.of_nat fuel) as E2 by (by rewrite Nat2N.inj_succ, N.pow_succ_r').
    destruct (IH (n / 10) (ch (48 + n mod 10) :: acc)) as (ds & E1 & Hne & Hds & Hnum); [apply N.Div0.div_lt_upper_bound; lia| |].
    { intros ->. cbn in Hn. change (n < 2) in Hn. rewrite N.div_small in E by lia. done. }
    exists (ds ++ [ch (48 + n mod 10)]). rewrite E1, <- app_assoc. split; [done|]. split; [by destruct ds|].
    split; [apply Forall_app; split; [done|by repeat constructor]|]. rewrite num_snoc, Hnum by done. lia.
Qed.

Lemma digits_spec n : digits n <> [] /\ all_digits (digits n) /\ num (digits n) = n.
Proof.
  unfold digits. destruct (digits_loop_spec (S (N.to_nat (N.log2 n))) n []) as (ds & E & H); [|done|].
  - rewrite Nat2N.inj_succ, N2Nat.id. destruct (decide (n = 0)) as [->|]; [done|]. apply N.log2_spec. lia.
  - rewrite app_nil_r in E. by rewrite E.
Qed.

Lemma low_digits_spec k n acc : exists ds, low_digits k n acc = ds ++ acc /\ length ds = k /\ all_digits ds /\ num ds = n mod 10 ^ N.of_nat k.
Proof.
  revert n acc. induction k as [|k IH]; intros n acc.
  - exists []. cbn. rewrite N.mod_1_r. repeat split; try done. constructor.
  - cbn [low_digits]. destruct (IH (n / 10) (ch (48 + n mod 10) :: acc)) as (ds & E & L & D & Hn).
    pose proof (N.mod_lt n 10 ltac:(done)) as Hm. exists (ds ++ [ch (48 + n mod 10)]). rewrite E, <- app_assoc, length_app, L. cbn [length].
    split; [done|]. split; [lia|]. split; [apply Forall_app; split; [done|repeat constructor; by apply ch_digit]|].
    rewrite num_snoc, Hn, pow10_S by done. rewrite N.Div0.mod_mul_r. lia.
Qed.

(** * Reading the parts back *)

Lemma digit_plain x : is_digit x = true -> minus x = false /\ plus x = false /\ dot x = false.
Proof. unfold is_digit, minus, plus, dot. rewrite andb_true_iff, !N.leb_le, !N.eqb_neq. lia. Qed.

Lemma split_digits i r : all_digits i -> split_once dot (i ++ r) = '(a, b) ← split_once dot r; Some (i ++ a, b).
Proof.
  induction 1 as [|x i Hx _ IH]; cbn [app split_once].
  - by destruct (split_once dot r) as [[a b]|].
  - rewrite (proj2 (proj2 (digit_plain x Hx))), IH. by destruct (split_once dot r) as [[a b]|].
Qed.

(** Text made of a sign, digits and perhaps a fraction. *)
Definition text (neg : bool) (i : list byte) (f : option (list byte)) : list byte :=
  (if neg then [ch 45] else []) ++ i ++ match f with Some f => ch 46 :: f | None => [] end.

Lemma decimal_parts_text neg i f : i <> [] -> all_digits i ->
  decimal_parts (text neg i f) = (neg, trim_start is_zero i, trim_end is_zero (default [] f)).
Proof.
  intros Hne Hi. assert (split_once dot (i ++ match f with Some f => ch 46 :: f | None => [] end) = (f ← f; Some (i, f))) as E.
  { rewrite split_digits by done. destruct f as [f|]; [|done]. cbn [split_once]. change (dot (ch 46)) with true. cbn. by rewrite app_nil_r. }
  unfold decimal_parts, text. destruct neg; cbn [app].
  - change (minus (ch 45)) with true. cbn iota. rewrite E. destruct f; [done|]. cbn [mbind option_bind]. by rewrite app_nil_r.
  - destruct i as [|x i]; [done|]. inversion Hi as [|? ? Hx _]; subst. cbn [app]. destruct (digit_plain x Hx) as (-> & -> & _). cbn iota.
    change (x :: i ++ _) with ((x :: i) ++ match f with Some f => ch 46 :: f | None => [] end). rewrite E. destruct f; [done|]. cbn [mbind option_bind]. by rewrite app_nil_r.
Qed.

Lemma all_digits_trim_start s : all_digits s -> all_digits (trim_start is_zero s).
Proof. intros H. destruct (trim_start_split is_zero s) as (t & E & _). rewrite E in H. by apply Forall_app in H as [_ H]. Qed.

Lemma all_digits_trim_end s : all_digits s -> all_digits (trim_end is_zero s).
Proof. intros H. destruct (trim_end_split is_zero s) as (t & E & _). rewrite E in H. by apply Forall_app in H as [H _]. Qed.

Lemma trim_end_magnitude int f : (magnitude int (trim_end is_zero f) == magnitude int f)%Q.
Proof.
  destruct (trim_end_split is_zero f) as (t & E & F). rewrite (magnitude_at (length f)).
  2:{ rewrite E at 2. rewrite length_app. lia. }
  unfold magnitude. apply Qeq_alt. rewrite same_den_cmp. apply N.compare_eq_iff. f_equal. rewrite fnum_num by (rewrite E at 2; rewrite length_app; lia).
  rewrite E at 4. rewrite num_app, (num_zeros t F). rewrite N.add_0_r. f_equal. f_equal. rewrite E at 1. rewrite length_app. lia.
Qed.

Lemma text_val neg i f : i <> [] -> all_digits i -> all_digits (default [] f) ->
  decimal_ok (text neg i f) = true /\ (dec_val (text neg i f) == signed neg (magnitude i (default [] f)))%Q.
Proof.
  intros Hne Hi Hf. unfold decimal_ok, dec_val. rewrite decimal_parts_text by done. split.
  - apply andb_true_iff. rewrite !forallb_digits. split; [by apply all_digits_trim_start|by apply all_digits_trim_end].
  - assert (magnitude (trim_start is_zero i) (trim_end is_zero (default [] f)) == magnitude i (default [] f))%Q as E.
    { rewrite trim_end_magnitude. unfold magnitude. by rewrite trim_start_num. }
    by rewrite E.
Qed.

Lemma int_text_val v : decimal_ok (int_text v) = true /\ (dec_val (int_text v) == inject_Z v)%Q.
Proof.
  assert (forall neg n, decimal_ok (text neg (digits n) None) = true /\ (dec_val (text neg (digits n) None) == signed neg (inject_Z (Z.of_N n)))%Q) as H.
  { intros neg n. destruct (digits_spec n) as (Hne & Hd & Hn). destruct (text_val neg (digits n) None Hne Hd ltac:(constructor)) as [E1 E2].
    split; [done|]. rewrite E2. unfold magnitude. cbn [default length]. rewrite Hn. change (num []) with 0.
    replace (n * _ + 0) with n by (cbn; lia). done. }
  unfold int_text. destruct (Z.ltb_spec v 0) as [Hv|Hv].
  - destruct (H true (Z.to_N (- v))) as [E1 E2]. unfold text in E1, E2. rewrite app_nil_r in E1, E2. cbn [app] in E1, E2. split; [done|].
    rewrite E2. unfold signed, Qeq. cbn. lia.
  - destruct (H false (Z.to_N v)) as [E1 E2]. unfold text in E1, E2. rewrite app_nil_r in E1, E2. cbn [app] in E1, E2. split; [done|].
    rewrite E2. unfold signed, Qeq. cbn. lia.
Qed.

(** What the parser accepts is decimal text, with the value its digits have. *)
Lemma parse_decimal_ok t s : parse_decimal t = inr s ->
  decimal_ok s = true /\ exists neg i f, s = text neg i (Some f) /\ i <> [] /\ f <> [] /\ (dec_val s == signed neg (magnitude i f))%Q.
Proof.
  unfold parse_decimal. destruct (trim t) as [|x r]; [done|]. destruct (if minus x then _ else _) as [neg rest].
  destruct (match split_once dot rest with Some _ => _ | None => _ end) as [i f]. destruct (1 <? _)%nat; [done|]. destruct (_ && _); [done|].
  destruct (forallb is_digit i) eqn:Hi, (forallb is_digit f) eqn:Hf; cbn [negb orb]; try done. apply forallb_digits in Hi, Hf.
  intros [= <-]. set (i' := if bool_decide (i = []) then _ else i). set (f' := if bool_decide (f = []) then _ else f).
  assert (forall u : list byte, all_digits u -> let v := if bool_decide (u = []) then [ch 48] else u in v <> [] /\ all_digits v) as Hfill.
  { intros u Hu v. subst v. case_bool_decide; [|done]. split; [done|by repeat constructor]. }
  destruct (Hfill i Hi) as [N1 D1], (Hfill f Hf) as [N2 D2]. destruct (text_val neg i' (Some f') N1 D1 D2) as [E1 E2].
  split; [exact E1|]. exists neg, i', f'. done.
Qed.
