(* ===== verification/ValueOrder.v ===== *)
(** The comparison of values is a total order. Every numeric value stands at one
    place of one line, whatever type it has, and each pair of types compares the
    two places exactly; values of different kinds compare by kind. *)
From Stdlib Require Import ZArith QArith.
From S2P Require Import Prelude Bytes Keys WalRecord Values DecimalOrder.

#[local] Open Scope Z_scope.

(** * The line the numbers stand on

    Below and above the rationals stand the infinities and, outside them, the
    NaNs by their bits; a negative zero stands just below zero. *)
Record Place := mkPlace { p_class : Z; p_val : Q; p_tie : Z }.

Definition place_cmp (x y : Place) : comparison :=
  then_with (p_class x ?= p_class y) (then_with (p_val x ?= p_val y)%Q (p_tie x ?= p_tie y)).

Lemma then_with_opp c d : then_with (CompOpp c) (CompOpp d) = CompOpp (then_with c d).
Proof. by destruct c. Qed.

Lemma place_opp x y : place_cmp y x = CompOpp (place_cmp x y).
Proof.
  unfold place_cmp. rewrite (Z.compare_antisym (p_class x)), (Z.compare_antisym (p_tie x)), <- (Qcompare_antisym (p_val x)).
  by rewrite !then_with_opp.
Qed.

(** [x] is not above [y]. *)
Definition ple (x y : Place) : Prop := place_cmp x y <> Gt.

Lemma ple_alt x y : ple x y <->
  p_class x < p_class y \/ (p_class x = p_class y /\ ((p_val x < p_val y)%Q \/ ((p_val x == p_val y)%Q /\ p_tie x <= p_tie y))).
Proof.
  unfold ple, place_cmp. destruct (Z.compare_spec (p_class x) (p_class y)) as [E|E|E]; cbn.
  - destruct (Qcompare (p_val x) (p_val y)) eqn:Eq; cbn.
    + apply Qeq_alt in Eq. rewrite Z.compare_ngt_iff. split.
      * intros H. right. split; [done|]. right. split; [done|]. lia.
      * intros [H|[_ [H|[_ H]]]]; [lia| |lia]. exfalso. rewrite Eq in H. by apply Qlt_irrefl in H.
    + apply Qlt_alt in Eq. split; [intros _; right; auto|done].
    + apply Qgt_alt in Eq. split; [done|]. intros [H|[_ [H|[H _]]]]; [lia| |].
      * exfalso. apply (Qlt_irrefl (p_val x)). by eapply Qlt_trans.
      * exfalso. rewrite H in Eq. by apply Qlt_irrefl in Eq.
  - split; [by left|done].
  - split; [done|]. intros [H|[H _]]; lia.
Qed.

Lemma ple_trans x y z : ple x y -> ple y z -> ple x z.
Proof.
  rewrite !ple_alt. intros [H1|(H1 & H1')] [H2|(H2 & H2')]; [left; lia|left; lia|left; lia|right]. split; [lia|].
  destruct H1' as [H1'|[H1' T1]], H2' as [H2'|[H2' T2]].
  - left. by eapply Qlt_trans.
  - left. by rewrite <- H2'.
  - left. by rewrite H1'.
  - right. split; [by rewrite H1'|lia].
Qed.

(** * Doubles *)

Definition units (low : N) : N :=
  if (low / 2 ^ 52 =? 0)%N then (low mod 2 ^ 52)%N else ((low mod 2 ^ 52 + 2 ^ 52) * 2 ^ (low / 2 ^ 52 - 1))%N.

Lemma f_man_low bits : f_man bits = (f_low bits mod 2 ^ 52)%N.
Proof.
  unfold f_man, f_low. change (2 ^ 63)%N with (2 ^ 52 * 2 ^ 11)%N. rewrite N.Div0.mod_mul_r.
  rewrite (N.mul_comm (2 ^ 52)), N.Div0.mod_add. by rewrite N.Div0.mod_mod.
Qed.

Lemma f_units_low bits : f_units bits = units (f_low bits).
Proof. unfold f_units, units, f_exp. by rewrite f_man_low. Qed.

(** More bits, more units. *)
Lemma units_mono a b : (a < b)%N -> (units a < units b)%N.
Proof.
  intros H. unfold units.
  pose proof (N.div_mod a (2 ^ 52) ltac:(done)) as Ea. pose proof (N.div_mod b (2 ^ 52) ltac:(done)) as Eb.
  pose proof (N.mod_lt a (2 ^ 52) ltac:(done)) as La. pose proof (N.mod_lt b (2 ^ 52) ltac:(done)) as Lb.
  set (ea := (a / 2 ^ 52)%N) in *. set (eb := (b / 2 ^ 52)%N) in *. set (ma := (a mod 2 ^ 52)%N) in *. set (mb := (b mod 2 ^ 52)%N) in *.
  clearbody ea eb ma mb. change (2 ^ 52)%N with 4503599627370496%N in *.
  assert (ea < eb \/ (ea = eb /\ ma < mb))%N as [He|[-> Hm]] by lia.
  - assert (0 < 2 ^ (eb - 1))%N as Hp by (apply N.neq_0_lt_0, N.pow_nonzero; lia).
    destruct (N.eqb_spec ea 0) as [->|Ha], (N.eqb_spec eb 0) as [Hb|Hb]; [lia|nia|lia|].
    assert (2 ^ (eb - 1) = 2 ^ (ea - 1) * 2 ^ (eb - ea))%N as ->.
    { rewrite <- N.pow_add_r. f_equal. lia. }
    assert (2 <= 2 ^ (eb - ea))%N.
    { change 2%N with (2 ^ 1)%N at 1. apply N.pow_le_mono_r; lia. }
    assert (0 < 2 ^ (ea - 1))%N by (apply N.neq_0_lt_0, N.pow_nonzero; lia). nia.
  - destruct (N.eqb_spec eb 0) as [->|Hb]; [done|].
    assert (0 < 2 ^ (eb - 1))%N by (apply N.neq_0_lt_0, N.pow_nonzero; lia). nia.
Qed.

Lemma units_cmp a b : (units a ?= units b)%N = (a ?= b)%N.
Proof.
  destruct (N.compare_spec a b) as [->|H|H].
  - apply N.compare_refl.
  - by apply N.compare_lt_iff, units_mono.
  - by apply N.compare_gt_iff, units_mono.
Qed.

Lemma units_zero a : units a = 0%N <-> a = 0%N.
Proof.
  split; [|by intros ->]. intros H. destruct (decide (a = 0%N)) as [|Hne]; [done|].
  pose proof (units_mono 0 a ltac:(lia)). lia.
Qed.

Definition finite (bits : N) : bool := negb (f_exp bits =? 2047)%N.
Definition tie (bits : N) : Z := if f_sign bits && (f_low bits =? 0)%N then -1 else 0.

Definition f_place (bits : N) : Place :=
  if finite bits then mkPlace 0 (f_val bits) (tie bits)
  else if (f_man bits =? 0)%N then mkPlace (if f_sign bits then -1 else 1) 0 0
  else mkPlace (if f_sign bits then -2 else 2) 0 (total_key bits).

Lemma f_low_lt bits : (f_low bits < 2 ^ 63)%N.
Proof. by apply N.mod_lt. Qed.

Lemma f_exp_le bits : (f_exp bits <= 2047)%N.
Proof.
  unfold f_exp. pose proof (f_low_lt bits). apply N.lt_succ_r. apply N.Div0.div_lt_upper_bound. exact H.
Qed.

(** Where the bits below the sign put a double. *)
Lemma low_finite bits : finite bits = true <-> (f_low bits < 2047 * 2 ^ 52)%N.
Proof.
  unfold finite. rewrite negb_true_iff, N.eqb_neq. pose proof (f_exp_le bits). unfold f_exp in *.
  pose proof (N.div_mod (f_low bits) (2 ^ 52) ltac:(done)). pose proof (N.mod_lt (f_low bits) (2 ^ 52) ltac:(done)).
  set (e := (f_low bits / 2 ^ 52)%N) in *. set (r := (f_low bits mod 2 ^ 52)%N) in *. clearbody e r.
  change (2 ^ 52)%N with 4503599627370496%N in *. change (2047 * 4503599627370496)%N with 9218868437227405312%N. lia.
Qed.

Lemma low_infinite bits : finite bits = false -> (f_low bits = 2047 * 2 ^ 52 + f_man bits)%N.
Proof.
  unfold finite. rewrite negb_false_iff, N.eqb_eq. intros E. rewrite f_man_low. unfold f_exp in E.
  pose proof (N.div_mod (f_low bits) (2 ^ 52) ltac:(done)). rewrite E in H. lia.
Qed.

Lemma f_val_cmp a b : (f_val a ?= f_val b)%Q = (f_scaled a ?= f_scaled b).
Proof. unfold Qcompare, f_val. cbn [Qnum Qden]. symmetry. apply Zmult_compare_compat_r. done. Qed.

(** Doubles of which one at least is not finite. *)
Ltac outer a b :=
  unfold total_key; repeat match goal with |- context [if (?x =? 0)%N then _ else _] => destruct (N.eqb_spec x 0) end;
  destruct (f_sign a), (f_sign b); cbn [p_class p_val p_tie]; try done;
  first [change (then_with _ _) with Lt; apply Z.compare_lt_iff; lia
        | change (then_with _ _) with Gt; apply Z.compare_gt_iff; lia
        | change (then_with _ _) with Eq; apply Z.compare_eq_iff; lia].

Lemma total_place a b : total_cmp a b = place_cmp (f_place a) (f_place b).
Proof.
  unfold total_cmp, place_cmp, f_place.
  assert (forall x, finite x = true -> f_low x < 2047 * 2 ^ 52)%N as Hlow by (intros x; apply low_finite).
  assert (forall x, finite x = false -> f_low x = 2047 * 2 ^ 52 + f_man x)%N as Hinf by apply low_infinite.
  destruct (finite a) eqn:Fa, (finite b) eqn:Fb;
    repeat match goal with H : finite ?x = true |- _ => apply Hlow in H | H : finite ?x = false |- _ => apply Hinf in H end;
    cbn [p_class p_val p_tie].
  - rewrite f_val_cmp. unfold f_scaled, tie, total_key. rewrite !f_units_low. change (0 ?= 0) with Eq. cbn [then_with].
    pose proof (units_cmp (f_low a) (f_low b)) as Hc. pose proof (units_zero (f_low a)) as Za. pose proof (units_zero (f_low b)) as Zb.
    destruct (f_sign a), (f_sign b); cbn [andb].
    + rewrite !Z.compare_opp. replace (- Z.of_N (f_low a) - 1 ?= - Z.of_N (f_low b) - 1) with (Z.of_N (f_low b) ?= Z.of_N (f_low a)) by (destruct (Z.compare_spec (Z.of_N (f_low b)) (Z.of_N (f_low a))); symmetry; [apply Z.compare_eq_iff|apply Z.compare_lt_iff|apply Z.compare_gt_iff]; lia).
      rewrite !N2Z.inj_compare, units_cmp. destruct (N.compare_spec (f_low b) (f_low a)) as [E|E|E]; [|done..]. by rewrite E, Z.compare_refl.
    + rewrite (proj2 (Z.compare_lt_iff _ _)) by lia. destruct (decide (f_low a = 0%N /\ f_low b = 0%N)) as [[A B]|Hno].
      * rewrite A, B. done.
      * rewrite (proj2 (Z.compare_lt_iff (- Z.of_N (units _)) _)); [done|].
        lia.
    + rewrite (proj2 (Z.compare_gt_iff _ _)) by lia. destruct (decide (f_low a = 0%N /\ f_low b = 0%N)) as [[A B]|Hno].
      * rewrite A, B. done.
      * rewrite (proj2 (Z.compare_gt_iff (Z.of_N (units _)) _)); [done|].
        lia.
    + rewrite !N2Z.inj_compare, Hc. by destruct (f_low a ?= f_low b)%N.
  - outer a b.
  - outer a b.
  - outer a b.
Qed.

(** * Whole numbers *)

Definition int_place (a : Z) : Place := mkPlace 0 (inject_Z a) 0.

Lemma scale_N : Npos scale = (2 ^ 1074)%N.
Proof. reflexivity. Qed.

Lemma inject_scaled a b : (inject_Z a ?= f_val b)%Q = (a * Zpos scale ?= f_scaled b).
Proof. unfold Qcompare, f_val. cbn [Qnum Qden inject_Z]. by rewrite Z.mul_1_r. Qed.

(** The exponent and the fraction of a normal double. *)
Lemma split_low e r : (r < 2 ^ 52)%N -> ((e * 2 ^ 52 + r) / 2 ^ 52 = e /\ (e * 2 ^ 52 + r) mod 2 ^ 52 = r)%N.
Proof.
  intros H. rewrite N.add_comm, N.div_add by done. rewrite N.Div0.mod_add, N.div_small, N.mod_small by done. lia.
Qed.

Lemma log2_scaled m : m <> 0%N -> (N.log2 m <= 52)%N -> (2 ^ 52 <= m * 2 ^ (52 - N.log2 m) < 2 ^ 53)%N.
Proof.
  intros H0 Hl. pose proof (N.log2_spec m ltac:(lia)) as [L1 L2].
  assert (2 ^ 52 = 2 ^ N.log2 m * 2 ^ (52 - N.log2 m))%N as E1 by (rewrite <- N.pow_add_r; f_equal; lia).
  assert (2 ^ 53 = 2 ^ N.succ (N.log2 m) * 2 ^ (52 - N.log2 m))%N as E2 by (rewrite <- N.pow_add_r; f_equal; lia).
  assert (0 < 2 ^ (52 - N.log2 m))%N by (apply N.neq_0_lt_0, N.pow_nonzero; lia).
  rewrite E1, E2. split; [by apply N.mul_le_mono_r|by apply N.mul_lt_mono_pos_r].
Qed.

(** A whole number of at most 53 bits is its double. *)
Lemma nearest_units m : m <> 0%N -> (m < 2 ^ 53)%N -> (nearest m < 2047 * 2 ^ 52 /\ units (nearest m) = m * Npos scale)%N.
Proof.
  intros H0 Hm. assert (N.log2 m < 53)%N as Hl by (by apply N.log2_lt_pow2; [lia|]). unfold nearest.
  rewrite (proj2 (N.leb_le _ _)) by lia. pose proof (log2_scaled m H0 ltac:(lia)) as [S1 S2].
  set (l := N.log2 m) in *. set (q := (m * 2 ^ (52 - l))%N) in *.
  destruct (split_low (l + 1023) (q - 2 ^ 52)) as [E1 E2]; [change (2 ^ 53)%N with (2 ^ 52 + 2 ^ 52)%N in S2; lia|]. split.
  - change (2047 * 2 ^ 52)%N with (1 * 2 ^ 52 + 2046 * 2 ^ 52)%N. change (2 ^ 53)%N with (2 ^ 52 + 2 ^ 52)%N in S2.
    assert ((l + 1023) * 2 ^ 52 <= 1075 * 2 ^ 52)%N by (apply N.mul_le_mono_r; lia). lia.
  - unfold units. rewrite E1, E2, (proj2 (N.eqb_neq _ _)) by lia. rewrite N.sub_add by done. unfold q.
    rewrite scale_N, <- N.mul_assoc, <- N.pow_add_r. f_equal. f_equal. lia.
Qed.

(** The double nearest to any 64-bit integer is finite. *)
Lemma nearest_lt m : m <> 0%N -> (m <= 2 ^ 63)%N -> (nearest m < 2047 * 2 ^ 52)%N.
Proof.
  intros H0 Hm. assert (N.log2 m <= 63)%N as Hl by (rewrite <- (N.log2_pow2 63) by lia; by apply N.log2_le_mono). unfold nearest.
  destruct (N.leb_spec (N.log2 m) 52) as [H|H].
  - pose proof (log2_scaled m H0 H) as [S1 S2]. set (q := (m * 2 ^ _)%N) in *. change (2 ^ 53)%N with (2 ^ 52 + 2 ^ 52)%N in S2.
    assert ((N.log2 m + 1023) * 2 ^ 52 <= 1075 * 2 ^ 52)%N by (apply N.mul_le_mono_r; lia). lia.
  - cbv zeta. set (sh := (N.log2 m - 52)%N). assert (m / 2 ^ sh < 2 ^ 53)%N as Hq.
    { apply N.Div0.div_lt_upper_bound. rewrite <- N.pow_add_r. pose proof (N.log2_spec m ltac:(lia)) as [_ L2].
      replace (sh + 53)%N with (N.succ (N.log2 m)) by lia. done. }
    change (2 ^ 53)%N with (2 ^ 52 + 2 ^ 52)%N in Hq. set (up := _ || _).
    assert ((N.log2 m + 1023) * 2 ^ 52 <= 1086 * 2 ^ 52)%N by (apply N.mul_le_mono_r; lia). destruct up; lia.
Qed.

Lemma low_high x : (x < 2 ^ 63)%N -> f_low (2 ^ 63 + x) = x /\ f_sign (2 ^ 63 + x) = true /\ f_low x = x /\ f_sign x = false.
Proof.
  intros H. unfold f_low, f_sign. rewrite !(N.testbit_odd), !N.shiftr_div_pow2.
  replace (2 ^ 63 + x)%N with (1 * 2 ^ 63 + x)%N by lia.
  rewrite N.add_comm, N.div_add, N.Div0.mod_add, N.div_small, N.mod_small by done. done.
Qed.

Lemma nearest_pos m : (nearest m =? 0)%N = false.
Proof.
  apply N.eqb_neq. unfold nearest. assert (1023 * 2 ^ 52 <= (N.log2 m + 1023) * 2 ^ 52)%N by (apply N.mul_le_mono_r; lia).
  destruct (N.log2 m <=? 52)%N; cbv zeta; [lia|]. destruct (_ || _); lia.
Qed.

Lemma to_f64_bits a : - 2 ^ 63 <= a <= 2 ^ 63 ->
  finite (to_f64 a) = true /\ tie (to_f64 a) = 0 /\ (Z.abs a < 2 ^ 53 -> f_scaled (to_f64 a) = a * Zpos scale).
Proof.
  intros H. unfold to_f64. destruct (Z.eqb_spec a 0) as [->|H0]; [done|].
  destruct (Z.ltb_spec a 0) as [Hn|Hn].
  - pose proof (nearest_lt (Z.to_N (- a)) ltac:(lia) ltac:(lia)) as Hlt.
    destruct (low_high (nearest (Z.to_N (- a))) ltac:(lia)) as (E1 & E2 & _). repeat split.
    + apply low_finite. by rewrite E1.
    + unfold tie. by rewrite E2, E1, nearest_pos.
    + intros Hs. destruct (nearest_units (Z.to_N (- a)) ltac:(lia) ltac:(lia)) as [_ Hu].
      unfold f_scaled. rewrite E2, f_units_low, E1, Hu. lia.
  - pose proof (nearest_lt (Z.to_N a) ltac:(lia) ltac:(lia)) as Hlt.
    destruct (low_high (nearest (Z.to_N a)) ltac:(lia)) as (_ & _ & E1 & E2). repeat split.
    + apply low_finite. by rewrite E1.
    + unfold tie. by rewrite E2.
    + intros Hs. destruct (nearest_units (Z.to_N a) ltac:(lia) ltac:(lia)) as [_ Hu].
      unfold f_scaled. rewrite E2, f_units_low, E1, Hu. lia.
Qed.

(** Places that hold the same number. *)
Definition same (x y : Place) : Prop := p_class x = p_class y /\ (p_val x == p_val y)%Q /\ p_tie x = p_tie y.

#[export] Instance same_equiv : Equivalence same.
Proof.
  unfold same. split.
  - done.
  - intros x y (A & B & C). by rewrite A, B, C.
  - intros x y z (A & B & C) (A' & B' & C'). by rewrite A, B, C.
Qed.

#[export] Instance place_cmp_same : Proper (same ==> same ==> eq) place_cmp.
Proof. intros x x' (Ec & Ev & Et) y y' (Dc & Dv & Dt). unfold place_cmp. by rewrite Ec, Ev, Et, Dc, Dv, Dt. Qed.

Lemma to_f64_place a : Z.abs a < 2 ^ 53 -> same (f_place (to_f64 a)) (int_place a).
Proof.
  intros H. destruct (to_f64_bits a ltac:(lia)) as (E1 & E2 & E3). unfold f_place. rewrite E1. split; [done|]. split; [|done].
  cbn [p_val int_place]. unfold f_val. rewrite E3 by done. unfold Qeq. cbn [Qnum Qden inject_Z]. lia.
Qed.

(** Truncation keeps the side of every whole number. *)
Lemma trunc_cmp a f k : 0 < k ->
  match a ?= Z.quot f k with
  | Eq => if Z.quot f k * k <? f then Lt else if f <? Z.quot f k * k then Gt else Eq
  | other => other
  end = (a * k ?= f).
Proof.
  intros Hk. pose proof (Z.quot_rem' f k) as E. set (t := Z.quot f k) in *.
  assert (Z.abs (Z.rem f k) < k) as R by (pose proof (Z.rem_bound_abs f k ltac:(lia)); lia).
  assert (0 <= Z.rem f k * f) as R2 by (apply Z.rem_sign_mul; lia). set (r := Z.rem f k) in *. clearbody t r.
  symmetry. destruct (Z.compare_spec a t) as [->|H|H].
  - destruct (Z.ltb_spec (t * k) f); [by apply Z.compare_lt_iff|]. destruct (Z.ltb_spec f (t * k)); [by apply Z.compare_gt_iff|].
    apply Z.compare_eq_iff. lia.
  - apply Z.compare_lt_iff. destruct (decide (0 < t)); nia.
  - apply Z.compare_gt_iff. destruct (decide (t < 0)); nia.
Qed.

Lemma tie_scaled b : tie b = if (f_scaled b =? 0) && f_sign b then -1 else 0.
Proof.
  unfold tie, f_scaled. rewrite f_units_low. pose proof (units_zero (f_low b)) as U.
  destruct (f_sign b); rewrite ?andb_true_r, ?andb_false_r; cbn [andb]; [|done].
  destruct (N.eqb_spec (f_low b) 0), (Z.eqb_spec (- Z.of_N (units (f_low b))) 0); (done || lia).
Qed.

Definition is_i64 (a : Z) : Prop := - 2 ^ 63 <= a < 2 ^ 63.

Lemma cmp_i64_f64_place a b : is_i64 a -> cmp_i64_f64 a b = place_cmp (int_place a) (f_place b).
Proof.
  intros Ha. unfold cmp_i64_f64, is_nan, is_infinite, f_place. destruct (to_f64_bits a ltac:(unfold is_i64 in Ha; lia)) as (F & _ & _).
  destruct (finite b) eqn:Fb; unfold finite in Fb; [apply negb_true_iff in Fb|apply negb_false_iff in Fb]; rewrite Fb; cbn [andb].
  2:{ destruct (f_man b =? 0)%N eqn:M; cbn [negb].
      - unfold place_cmp. by destruct (f_sign b).
      - rewrite total_place. unfold f_place at 1 2. rewrite F. unfold finite. rewrite Fb, M. unfold place_cmp. by destruct (f_sign b). }
  unfold place_cmp. cbn [p_class p_val p_tie int_place]. change (0 ?= 0) with Eq. cbn [then_with]. rewrite inject_scaled.
  rewrite tie_scaled.
  destruct ((f_scaled b =? 0) && f_sign b) eqn:Z0.
  { apply andb_true_iff in Z0 as [Z0 _]. apply Z.eqb_eq in Z0. rewrite Z0. change (0 ?= -1) with Gt.
    replace (a * Z.pos scale ?= 0) with (a ?= 0); [by destruct (a ?= 0)|]. rewrite <- (Z.mul_0_l (Z.pos scale)) at 2. by apply Zmult_compare_compat_r. }
  change (0 ?= 0) with Eq. replace (then_with _ Eq) with (a * Z.pos scale ?= f_scaled b) by (by destruct (_ ?= _)).
  unfold is_i64 in Ha. destruct (Z.leb_spec (2 ^ 63 * Z.pos scale) (f_scaled b)) as [H|H].
  { symmetry. apply Z.compare_lt_iff. nia. }
  destruct (Z.ltb_spec (f_scaled b) (- 2 ^ 63 * Z.pos scale)) as [H'|H'].
  { symmetry. apply Z.compare_gt_iff. nia. }
  unfold f_trunc. by apply trunc_cmp.
Qed.

(** * Decimals *)

Definition dec_place (d : list byte) : Place := mkPlace 0 (dec_val d) 0.

Lemma exact_text bits :
  f64_exact_decimal bits = text (f_sign bits) (digits (f_units bits * 5 ^ 1074 / 10 ^ 1074))
    (Some (low_digits 1074 ((f_units bits * 5 ^ 1074) mod 10 ^ 1074) [])).
Proof. reflexivity. Qed.

(** A number of units of [2^-k] in its [k] decimals. *)
Lemma expansion_val neg u (k : nat) s :
  low_digits k ((u * 5 ^ N.of_nat k) mod 10 ^ N.of_nat k) [] = s ->
  decimal_ok (text neg (digits (u * 5 ^ N.of_nat k / 10 ^ N.of_nat k)) (Some s)) = true /\
  (dec_val (text neg (digits (u * 5 ^ N.of_nat k / 10 ^ N.of_nat k)) (Some s)) ==
     signed neg (Z.of_N u # Z.to_pos (2 ^ Z.of_nat k)))%Q.
Proof.
  intros <-. set (a := (u * 5 ^ N.of_nat k)%N). destruct (digits_spec (a / 10 ^ N.of_nat k)) as (Hne & Hd & Hn).
  destruct (low_digits_spec k (a mod 10 ^ N.of_nat k) []) as (ds & E & L & D & Hm). rewrite app_nil_r in E. rewrite E.
  destruct (text_val neg _ (Some ds) Hne Hd D) as [E1 E2]. split; [done|]. rewrite E2. cbn [default].
  assert (magnitude (digits (a / 10 ^ N.of_nat k)) ds == Z.of_N u # Z.to_pos (2 ^ Z.of_nat k))%Q as ->; [|done].
  unfold magnitude, Qeq. cbn [Qnum Qden]. rewrite Hn, Hm, L, N.Div0.mod_mod, N.mul_comm, <- N.Div0.div_mod. rewrite ten_Z, Z2Pos.id by lia.
  unfold a. change 10%N with (2 * 5)%N. rewrite N.pow_mul_l. replace (2 ^ Z.of_nat k) with (Z.of_N (2 ^ N.of_nat k)) by (rewrite N2Z.inj_pow; by rewrite nat_N_Z). lia.
Qed.

Lemma exact_val bits : decimal_ok (f64_exact_decimal bits) = true /\ (dec_val (f64_exact_decimal bits) == f_val bits)%Q.
Proof.
  rewrite exact_text. destruct (expansion_val (f_sign bits) (f_units bits) 1074 _ eq_refl) as [E1 E2].
  change (N.of_nat 1074) with 1074%N in E1, E2. split; [done|]. rewrite E2. unfold signed, f_val, f_scaled.
  change (Z.to_pos (2 ^ Z.of_nat 1074)) with scale. by destruct (f_sign bits).
Qed.

Lemma decimal_negative d : decimal_ok d = true -> decimal_is_negative d = match (0 ?= dec_val d)%Q with Gt => true | _ => false end.
Proof.
  intros H%decimal_trimmed. unfold decimal_is_negative, dec_val. destruct (decimal_parts d) as [[n i] f].
  destruct (bool_decide (i = []) && bool_decide (f = [])) eqn:Z0; rewrite ?andb_false_r, ?andb_true_r; cbn [negb].
  - apply (magnitude_zero _ _ H) in Z0. unfold signed. destruct n; by rewrite Z0.
  - apply (magnitude_pos _ _ H) in Z0. unfold signed. destruct n; cbn [andb].
    + rewrite (proj1 (Qgt_alt _ _)); [done|]. by apply (Qopp_lt_compat 0).
    + by rewrite (proj1 (Qlt_alt _ _)).
Qed.

Lemma cmp_f64_decimal_place f d : decimal_ok d = true -> cmp_f64_decimal f d = place_cmp (f_place f) (dec_place d).
Proof.
  intros Hd. unfold cmp_f64_decimal, is_nan, is_infinite, f_place.
  destruct (finite f) eqn:F; unfold finite in F; [apply negb_true_iff in F|apply negb_false_iff in F]; rewrite F; cbn [andb].
  2:{ unfold place_cmp. destruct (f_man f =? 0)%N, (f_sign f); done. }
  unfold place_cmp. cbn [p_class p_val p_tie dec_place]. change (0 ?= 0) with Eq. cbn [then_with]. rewrite tie_scaled.
  destruct ((f_scaled f =? 0) && f_sign f) eqn:Z0.
  - apply andb_true_iff in Z0 as [Z0%Z.eqb_eq _]. rewrite decimal_negative by done. unfold f_val. rewrite Z0.
    assert (0 # scale == 0)%Q as -> by done. by destruct (0 ?= dec_val d)%Q.
  - destruct (exact_val f) as [E1 E2]. rewrite decimal_cmp_val by done. rewrite E2. by destruct (f_val f ?= dec_val d)%Q.
Qed.

(** * All values *)

(** The values the types hold: integers of their width, decimals of digits. *)
Definition valid (v : Value) : Prop :=
  match v with
  | VInteger v => - 2 ^ 31 <= v < 2 ^ 31
  | VBigInt v | VTimestamp v => is_i64 v
  | VFloat bits => (bits < 2 ^ 64)%N
  | VDecimal d => decimal_ok d = true
  | VVarchar _ | VBoolean _ | VNull => True
  end.

#[export] Instance valid_dec v : Decision (valid v).
Proof. destruct v; cbn; unfold is_i64; apply _. Defined.

(** The kinds: all numbers are one. *)
Definition kind (v : Value) : Z :=
  match v with
  | VNull => 0 | VBoolean _ => 1 | VInteger _ | VBigInt _ | VFloat _ | VDecimal _ => 2 | VTimestamp _ => 6 | VVarchar _ => 7
  end.
Definition number (v : Value) : Place :=
  match v with
  | VInteger a | VBigInt a | VTimestamp a => int_place a
  | VFloat b => f_place b
  | VDecimal d => dec_place d
  | VBoolean b => int_place (if b then 1 else 0)
  | VVarchar _ | VNull => int_place 0
  end.
Definition letters (v : Value) : list byte := match v with VVarchar s => s | _ => [] end.

(** Where a value stands: by kind, then by number, then by letters. *)
Definition spec_cmp (x y : Value) : comparison :=
  then_with (kind x ?= kind y) (then_with (place_cmp (number x) (number y)) (kcmp (letters x) (letters y))).

Lemma then_with_Eq c : then_with c Eq = c.
Proof. by destruct c. Qed.

Lemma int_place_cmp a b : place_cmp (int_place a) (int_place b) = (a ?= b).
Proof.
  unfold place_cmp. cbn [p_class p_val p_tie int_place]. change (0 ?= 0) with Eq. cbn [then_with]. rewrite then_with_Eq.
  unfold Qcompare. cbn [Qnum Qden inject_Z]. by rewrite !Z.mul_1_r.
Qed.

Lemma dec_int_place d v : decimal_ok d = true ->
  decimal_cmp d (int_text v) = place_cmp (dec_place d) (int_place v) /\
  decimal_cmp (int_text v) d = place_cmp (int_place v) (dec_place d).
Proof.
  intros H. destruct (int_text_val v) as [E1 E2]. rewrite !decimal_cmp_val by done. unfold place_cmp.
  cbn [p_class p_val p_tie int_place dec_place]. change (0 ?= 0) with Eq. cbn [then_with]. by rewrite !then_with_Eq, E2.
Qed.

Lemma value_cmp_spec x y : valid x -> valid y -> value_cmp x y = spec_cmp x y.
Proof.
  assert (forall a, - 2 ^ 31 <= a < 2 ^ 31 -> same (f_place (to_f64 a)) (int_place a)) as Hi by (intros; apply to_f64_place; lia).
  destruct x as [a|a|a|a|a|a|a|], y as [b|b|b|b|b|b|b|]; intros Hx Hy; cbn [valid] in Hx, Hy; try done;
    unfold spec_cmp; cbn [kind number letters value_cmp]; change (kcmp [] []) with Eq; rewrite ?Z.compare_refl, ?int_place_cmp, ?then_with_Eq;
    try done; cbn [then_with].
  - by rewrite total_place, (Hi _ Hx).
  - by apply dec_int_place.
  - by rewrite total_place, (Hi _ Hy).
  - by rewrite total_place.
  - by rewrite cmp_i64_f64_place, <- place_opp.
  - by apply cmp_f64_decimal_place.
  - by destruct a, b.
  - by apply cmp_i64_f64_place.
  - by apply dec_int_place.
  - by apply dec_int_place.
  - rewrite cmp_f64_decimal_place by done. by rewrite <- place_opp.
  - by apply dec_int_place.
  - rewrite decimal_cmp_val by done. unfold place_cmp. cbn [p_class p_val p_tie dec_place]. change (0 ?= 0) with Eq. cbn [then_with]. by rewrite then_with_Eq.
Qed.

(** * A total order *)

(** Comparisons that order: exchanged sides answer the opposite, and what is not
    above is transitive. *)
Record Orders {A} (c : A -> A -> comparison) : Prop := {
  or_opp x y : c y x = CompOpp (c x y);
  or_trans x y z : c x y <> Gt -> c y z <> Gt -> c x z <> Gt }.

Lemma orders_lt {A} (c : A -> A -> comparison) x y z : Orders c ->
  c x y <> Gt -> c y z <> Gt -> c x y = Lt \/ c y z = Lt -> c x z = Lt.
Proof.
  intros [Ho Ht] H1 H2 Hs. destruct (c x z) eqn:E; [|done|by destruct (Ht x y z)]. exfalso.
  assert (c z x <> Gt) as Hz by (by rewrite Ho, E). destruct Hs as [Hs|Hs].
  - apply (Ht y z x); [done|done|]. by rewrite Ho, Hs.
  - apply (Ht z x y); [done|done|]. by rewrite Ho, Hs.
Qed.

Lemma orders_lex {A} (c d : A -> A -> comparison) : Orders c -> Orders d -> Orders (fun x y => then_with (c x y) (d x y)).
Proof.
  intros Hc Hd. split.
  - intros x y. rewrite (or_opp c Hc x y), (or_opp d Hd x y). apply then_with_opp.
  - intros x y z H1 H2. assert (c x y <> Gt) as C1 by (by destruct (c x y)). assert (c y z <> Gt) as C2 by (by destruct (c y z)).
    destruct (decide (c x y = Lt \/ c y z = Lt)) as [Hs|Hs]; [by rewrite (orders_lt c x y z Hc C1 C2 Hs)|].
    assert (c x y = Eq) as E1 by (destruct (c x y); tauto). assert (c y z = Eq) as E2 by (destruct (c y z); tauto).
    rewrite E1 in H1. rewrite E2 in H2. pose proof (or_trans c Hc x y z C1 C2) as C3. destruct (c x z); [|done|done].
    by apply (or_trans d Hd x y z).
Qed.

Lemma orders_map {A B} (f : A -> B) (c : B -> B -> comparison) : Orders c -> Orders (fun x y => c (f x) (f y)).
Proof. intros [Ho Ht]. split; eauto. Qed.

Lemma orders_Z : Orders Z.compare.
Proof. split; [intros; apply Z.compare_antisym|]. exact Z.le_trans. Qed.

Lemma orders_place : Orders place_cmp.
Proof. split; [apply place_opp|apply ple_trans]. Qed.

Lemma orders_kcmp : Orders kcmp.
Proof.
  split; [intros; apply kcmp_opp|]. intros x y z H1 H2. destruct (kcmp x y) eqn:E1; [|clear H1|done].
  - apply kcmp_eq in E1. by subst.
  - destruct (kcmp y z) eqn:E2; [|clear H2|done]; [apply kcmp_eq in E2; subst; by rewrite E1|]. by rewrite (klt_trans x y z E1 E2).
Qed.

Lemma orders_spec : Orders spec_cmp.
Proof. apply orders_lex; [apply (orders_map kind), orders_Z|]. apply orders_lex; [apply (orders_map number), orders_place|apply (orders_map letters), orders_kcmp]. Qed.

(** C16: [Ord for Value] is a total order over every value the types can hold, the
    numeric types mixed in any way: exchanging the sides reverses the answer,
    [<=] is transitive, and two numbers answer what their exact rational values
    do. Doubles are compared by their bits, 64-bit integers with doubles by
    truncation, decimals digit by digit and with doubles by the double's exact
    expansion; no chain of mixed comparisons closes into a cycle. *)
Theorem values_totally_ordered x y z : valid x -> valid y -> valid z ->
  value_cmp x y = spec_cmp x y /\ value_cmp y x = CompOpp (value_cmp x y) /\
  (value_cmp x y <> Gt -> value_cmp y z <> Gt -> value_cmp x z <> Gt).
Proof.
  intros Hx Hy Hz. rewrite !value_cmp_spec by done. split; [done|]. split; [apply orders_spec|apply (or_trans _ orders_spec)].
Qed.

(** [2^53] as a double, [2^53 + 1] as an integer, which widened would equal the
    double, and a decimal above them. *)
Lemma values_totally_ordered_witness :
  let x := VFloat 4845873199050653696 in
  let y := VBigInt 9007199254740993 in
  let z := VDecimal (text false (digits 9007199254740993) (Some (digits 5))) in
  valid x /\ valid y /\ valid z /\ value_cmp x y <> Gt /\ value_cmp y z <> Gt /\ value_cmp x z <> Gt.
Proof.
  assert (forall v, bool_decide (valid v) = true -> valid v) as V by (intros v; apply bool_decide_eq_true).
  cbv zeta. set (x := VFloat _). set (y := VBigInt _). set (z := VDecimal _).
  assert (valid x) as Hx by (apply V; vm_compute; reflexivity). assert (valid y) as Hy by (apply V; vm_compute; reflexivity).
  assert (valid z) as Hz by (apply V; vm_compute; reflexivity).
  assert (value_cmp x y <> Gt) as H1 by (vm_compute; discriminate). assert (value_cmp y z <> Gt) as H2 by (vm_compute; discriminate).
  repeat (split; [assumption|]). exact (proj2 (proj2 (values_totally_ordered x y z Hx Hy Hz)) H1 H2).
Defined.
