(* ===== verification/Tuple.v ===== *)
(** Rows as bytes: [src/src/storage/tuple.rs]. A tuple is a version header, the
    null bitmap and the columns in order, each aligned to its width; a string
    carries its length. *)
From Stdlib Require Import ZArith.
From S2P Require Import Prelude Bytes Errors WalRecord Values.

(** * Data *)

Definition Tuple : Type := list byte.

Definition VERSION_HEADER_SIZE : nat := 24.

Record VersionHeader := mkVersionHeader { begin_ts : N; end_ts : N; prev_page : N; prev_slot : N }.

Definition prev (h : VersionHeader) : option (N * N) :=
  if (prev_page h =? 0)%N then None else Some (prev_page h, prev_slot h).

Definition version_header (t : Tuple) : option (Result FerroError VersionHeader) :=
  if length t <? VERSION_HEADER_SIZE then Some (Err (Io TupleTooShort))
  else
    b ← get_range t 0 8; e ← get_range t 8 16; p ← get_range t 16 20; s ← get_range t 20 22;
    Some (Ok (mkVersionHeader (of_be b) (of_be e) (of_be p) (of_be s))).

(** * Layout *)

Definition value_fits (v : Value) (ty : DataType) : bool :=
  match v, ty with
  | VNull, _ => true
  | VInteger _, Integer => true
  | VFloat _, Float => true
  | VVarchar _, Varchar _ => true
  | VBoolean _, Boolean => true
  | VBigInt _, BigInt => true
  | VDecimal _, Decimal => true
  | VTimestamp _, Timestamp => true
  | _, _ => false
  end.

Definition get_padding (align buff_size : N) : N :=
  N.land (align - N.land buff_size (align - 1)) (align - 1).

(** [bytes.resize(bytes.len() + padding, 0)]. *)
Definition padded (align : N) (bytes : list byte) : list byte :=
  bytes ++ replicate (N.to_nat (get_padding align (blen bytes))) (u8 0).

(** Two's complement, big-endian. *)
Definition int_bytes (n : nat) (v : Z) : list byte := be_bytes n (Z.to_N (v mod 256 ^ Z.of_nat n)).
Definition of_int (w : list byte) : Z :=
  let n := Z.of_N (of_be w) in
  if (n <? 256 ^ Z.of_nat (length w) / 2)%Z then n else (n - 256 ^ Z.of_nat (length w))%Z.

Definition bool_byte (b : bool) : byte := u8 (if b then 1 else 0).

(** * The null bitmap *)

Definition bitmap_len (n : nat) : nat := (n + 7) / 8.

Fixpoint fill_bitmap (i : nat) (values : list Value) (bitmap : list byte) : list byte :=
  match values with
  | [] => bitmap
  | v :: values =>
      fill_bitmap (S i) values
        (if value_eqb v VNull
         then alter (fun b => u8 (N.lor (byteN b) (N.shiftl 1 (N.of_nat (i mod 8))))) (i / 8) bitmap
         else bitmap)
  end.

(** [bitmap[i / 8] & (1 << i % 8) != 0]. *)
Definition null_bit (bitmap : list byte) (i : nat) : option bool :=
  b ← bitmap !! (i / 8); Some (negb (N.land (byteN b) (N.shiftl 1 (N.of_nat (i mod 8))) =? 0)%N).

(** * Writing *)

Definition put_value (bytes : list byte) (c : Column) (v : Value) : Result FerroError (list byte) :=
  match v with
  | VBoolean b => Ok (padded 1 bytes ++ [bool_byte b])
  | VFloat f => Ok (padded 8 bytes ++ be_bytes 8 f)
  | VInteger i => Ok (padded 4 bytes ++ int_bytes 4 i)
  | VBigInt i => Ok (padded 8 bytes ++ int_bytes 8 i)
  | VTimestamp ms => Ok (padded 8 bytes ++ int_bytes 8 ms)
  | VDecimal d =>
      if (max_u16 <? blen d)%N then Err (Constraint (DecimalTooLong (blen d)))
      else Ok (bytes ++ be_bytes 2 (blen d) ++ d)
  | VVarchar s =>
      match data_type c with
      | Varchar max =>
          if (max <? blen s)%N then Err (Constraint (VarcharTooLong max)) else Ok (bytes ++ be_bytes 2 (blen s) ++ s)
      | _ => Ok (bytes ++ be_bytes 2 (blen s) ++ s)
      end
  | VNull =>
      match data_type c with
      | Boolean => Ok (padded 1 bytes ++ [u8 0])
      | Float => Ok (padded 8 bytes ++ replicate 8 (u8 0))
      | Integer => Ok (padded 4 bytes ++ replicate 4 (u8 0))
      | BigInt | Timestamp => Ok (padded 8 bytes ++ replicate 8 (u8 0))
      | Decimal | Varchar _ => Ok (bytes ++ replicate 2 (u8 0))
      end
  end.

Fixpoint put_values (bytes : list byte) (row : list (Value * Column)) : Result FerroError (list byte) :=
  match row with
  | [] => Ok bytes
  | (v, c) :: row => bytes ← put_value bytes c v; put_values bytes row
  end.

(** The first column whose value is not of its type. *)
Fixpoint misfit (i : nat) (row : list (Value * Column)) : option nat :=
  match row with
  | [] => None
  | (v, c) :: row => if value_fits v (data_type c) then misfit (S i) row else Some i
  end.

Definition serialize (values : list Value) (schema : Schema) (begin_ts : N) : Result FerroError Tuple :=
  if negb (length values =? length schema) then Err (Internal (RowArity (blen values) (blen schema)))
  else
    let null_bitmap := fill_bitmap 0 values (replicate (bitmap_len (length schema)) (u8 0)) in
    let bytes := be_bytes 8 begin_ts ++ be_bytes 8 0 ++ be_bytes 4 0 ++ be_bytes 2 0 ++ be_bytes 2 0 in
    match misfit 0 (zip values schema) with
    | Some i => Err (Constraint (ColumnMismatch (N.of_nat i)))
    | None => put_values (bytes ++ null_bitmap) (zip values schema)
    end.

(** * Reading

    [None] where the source panics: a slice or an index outside the tuple, a
    string of the wrong bytes. *)

Definition skip (align : N) (offset : nat) : nat := offset + N.to_nat (get_padding align (N.of_nat offset)).

Definition fixed (data bitmap : list byte) (i offset width : nat) (mk : list byte -> Value) :
    option (Result FerroError (Value * nat)) :=
  let offset := skip (N.of_nat width) offset in
  null ← null_bit bitmap i;
  if (null : bool) then Some (Ok (VNull, offset + width))
  else w ← get_range data offset (offset + width); Some (Ok (mk w, offset + width)).

Definition sized (data bitmap : list byte) (i offset : nat) (mk : list byte -> option (Result FerroError Value)) :
    option (Result FerroError (Value * nat)) :=
  lw ← get_range data offset (offset + 2);
  let len := N.to_nat (of_be lw) in
  let offset := offset + 2 in
  null ← null_bit bitmap i;
  if (null : bool) then Some (Ok (VNull, offset + len))
  else
    s ← get_range data offset (offset + len);
    r ← mk s;
    Some (match r with Ok v => Ok (v, offset + len) | Err e => Err e end).

Definition get_value (data bitmap : list byte) (i offset : nat) (ty : DataType) :
    option (Result FerroError (Value * nat)) :=
  match ty with
  | Boolean => fixed data bitmap i offset 1 (fun w => VBoolean (negb (of_be w =? 0)%N))
  | Float => fixed data bitmap i offset 8 (fun w => VFloat (of_be w))
  | Integer => fixed data bitmap i offset 4 (fun w => VInteger (of_int w))
  | BigInt => fixed data bitmap i offset 8 (fun w => VBigInt (of_int w))
  | Timestamp => fixed data bitmap i offset 8 (fun w => VTimestamp (of_int w))
  | Decimal =>
      sized data bitmap i offset (fun s => Some (if utf8_valid s then Ok (VDecimal s) else Err (Corruption DecimalNonUtf8)))
  | Varchar _ => sized data bitmap i offset (fun s => if utf8_valid s then Some (Ok (VVarchar s)) else None)
  end.

Fixpoint get_values (data bitmap : list byte) (i offset : nat) (schema : Schema) : option (Result FerroError (list Value)) :=
  match schema with
  | [] => Some (Ok [])
  | c :: schema =>
      r ← get_value data bitmap i offset (data_type c);
      match r with
      | Ok (v, offset) =>
          r ← get_values data bitmap (S i) offset schema;
          Some (match r with Ok vs => Ok (v :: vs) | Err e => Err e end)
      | Err e => Some (Err e)
      end
  end.

Definition deserialize (t : Tuple) (schema : Schema) : option (Result FerroError (list Value)) :=
  let offset := VERSION_HEADER_SIZE in
  let len := bitmap_len (length schema) in
  bitmap ← get_range t offset (len + offset);
  get_values t bitmap 0 (offset + len) schema.

(** * What is written is read back *)

(** Values of the range of their Rust types. *)
Definition value_ok (v : Value) : Prop :=
  match v with
  | VInteger i => (- 2 ^ 31 <= i < 2 ^ 31)%Z
  | VBigInt i | VTimestamp i => (- 2 ^ 63 <= i < 2 ^ 63)%Z
  | VFloat f => (f < 2 ^ 64)%N
  | VVarchar s | VDecimal s => utf8_valid s = true
  | VBoolean _ | VNull => True
  end.
#[export] Instance value_ok_dec v : Decision (value_ok v).
Proof. destruct v; cbn; apply _. Defined.

Definition column_type_ok (c : Column) : Prop := match data_type c with Varchar n => (n <= max_u16)%N | _ => True end.
#[export] Instance column_type_ok_dec c : Decision (column_type_ok c).
Proof. unfold column_type_ok. destruct (data_type c); apply _. Defined.

Lemma of_int_bytes n v : 0 < n -> (- 256 ^ Z.of_nat n / 2 <= v < 256 ^ Z.of_nat n / 2)%Z -> of_int (int_bytes n v) = v.
Proof.
  intros Hn Hv. unfold of_int, int_bytes. rewrite length_be_bytes. set (m := (256 ^ Z.of_nat n)%Z) in *.
  assert (0 < m)%Z as Hm by (apply Z.pow_pos_nonneg; lia). assert (m = 2 * (m / 2))%Z as Hev.
  { assert (m mod 2 = 0)%Z as E; [|pose proof (Z.div_mod m 2); lia]. unfold m. destruct n as [|n]; [lia|].
    rewrite Nat2Z.inj_succ, Z.pow_succ_r by lia. rewrite Z.mul_mod by lia. done. }
  assert (- m / 2 = - (m / 2))%Z as Hneg.
  { rewrite Hev at 1. replace (- (2 * (m / 2)))%Z with (- (m / 2) * 2)%Z by lia. by apply Z.div_mul. }
  rewrite of_be_be_bytes_small.
  2:{ apply N2Z.inj_lt. rewrite Z2N.id by (apply Z.mod_pos_bound; lia). rewrite N2Z.inj_pow, nat_N_Z. apply Z.mod_pos_bound. lia. }
  rewrite Z2N.id by (apply Z.mod_pos_bound; lia). destruct (decide (0 <= v)%Z) as [Hp|Hp].
  - rewrite Z.mod_small by lia. destruct (Z.ltb_spec v (m / 2)); lia.
  - replace (v mod m)%Z with (v + m)%Z; [destruct (Z.ltb_spec (v + m) (m / 2)); lia|].
    rewrite <- (Z.mod_small (v + m) m) by lia. replace (v + m)%Z with (v + 1 * m)%Z by lia. by rewrite Z.mod_add by lia.
Qed.

Lemma of_i32 v : (- 2 ^ 31 <= v < 2 ^ 31)%Z -> of_int (int_bytes 4 v) = v.
Proof. intros H. apply of_int_bytes; [lia|exact H]. Qed.

Lemma of_i64 v : (- 2 ^ 63 <= v < 2 ^ 63)%Z -> of_int (int_bytes 8 v) = v.
Proof. intros H. apply of_int_bytes; [lia|exact H]. Qed.

Lemma length_int_bytes n v : length (int_bytes n v) = n.
Proof. apply length_be_bytes. Qed.

Lemma length_padded a bytes : length (padded a bytes) = skip a (length bytes).
Proof. unfold padded, skip, blen. by rewrite length_app, length_replicate. Qed.

(** A column of fixed width. *)
Lemma fixed_read (bytes w rest bitmap : list byte) i width mk v :
  length w = width -> null_bit bitmap i = Some false -> mk w = v ->
  fixed ((padded (N.of_nat width) bytes ++ w) ++ rest) bitmap i (length bytes) width mk
    = Some (Ok (v, length (padded (N.of_nat width) bytes ++ w))).
Proof.
  intros Hw Hb <-. unfold fixed. rewrite <- length_padded, length_app, Hw, <- app_assoc, Hb. cbn. by rewrite get_range_mid by lia.
Qed.

Lemma fixed_null (bytes w rest bitmap : list byte) i width mk :
  length w = width -> null_bit bitmap i = Some true ->
  fixed ((padded (N.of_nat width) bytes ++ w) ++ rest) bitmap i (length bytes) width mk
    = Some (Ok (VNull, length (padded (N.of_nat width) bytes ++ w))).
Proof. intros Hw Hb. unfold fixed. by rewrite <- length_padded, length_app, Hw, <- app_assoc, Hb. Qed.

(** A column that carries its length. *)
Lemma sized_read (bytes s rest bitmap : list byte) i mk v :
  (blen s <= max_u16)%N -> null_bit bitmap i = Some false -> mk s = Some (Ok v) ->
  sized ((bytes ++ be_bytes 2 (blen s) ++ s) ++ rest) bitmap i (length bytes) mk
    = Some (Ok (v, length (bytes ++ be_bytes 2 (blen s) ++ s))).
Proof.
  intros Hs Hb Hm. unfold sized. rewrite <- !app_assoc. rewrite get_range_mid by (rewrite ?length_be_bytes; lia). cbn.
  rewrite Hb. cbn. rewrite of_be_be_bytes_small by (cbn; unfold max_u16 in Hs; lia). rewrite to_nat_blen.
  rewrite (app_assoc bytes). rewrite get_range_mid by (rewrite ?length_app, ?length_be_bytes; lia). cbn. rewrite Hm. cbn.
  rewrite !length_app, length_be_bytes. do 3 f_equal. lia.
Qed.

Lemma sized_null (bytes rest bitmap : list byte) i mk :
  null_bit bitmap i = Some true ->
  sized ((bytes ++ replicate 2 (u8 0)) ++ rest) bitmap i (length bytes) mk = Some (Ok (VNull, length (bytes ++ replicate 2 (u8 0)))).
Proof.
  intros Hb. unfold sized. rewrite <- !app_assoc. rewrite get_range_mid by (rewrite ?length_replicate; lia). cbn. rewrite Hb. cbn.
  rewrite length_app. do 3 f_equal. change (N.to_nat _) with 0. cbn. lia.
Qed.

Lemma value_eqb_null v : value_eqb v VNull = true <-> v = VNull.
Proof. by destruct v. Qed.

(** One column: what [put_value] appends, [get_value] reads at the same place. *)
Lemma put_get_value (bytes out bitmap : list byte) i c v :
  put_value bytes c v = Ok out -> value_fits v (data_type c) = true -> value_ok v -> column_type_ok c ->
  null_bit bitmap i = Some (value_eqb v VNull) ->
  (exists w, out = bytes ++ w) /\
  forall rest, get_value (out ++ rest) bitmap i (length bytes) (data_type c) = Some (Ok (v, length out)).
Proof.
  intros Hp Hf Hok Hc Hb. unfold column_type_ok in Hc.
  assert (forall a w, exists w', padded a bytes ++ w = bytes ++ w') as Hpad by (intros a w; unfold padded; rewrite <- app_assoc; by eexists).
  destruct v, (data_type c) eqn:Ty; cbn [put_value value_fits value_ok] in Hp, Hf, Hok; try discriminate Hf; rewrite ?Ty in Hp; cbn in Hb;
    repeat case_match; simplify_eq; (split; [first [apply Hpad | by eexists]|]); intros rest; unfold get_value.
  - apply (fixed_read _ _ _ _ _ 4); [apply length_int_bytes|done|]. by rewrite of_i32.
  - apply (fixed_read _ _ _ _ _ 8); [apply length_be_bytes|done|]. by rewrite of_be_be_bytes_small.
  - apply sized_read; [|done|by rewrite Hok]. apply N.ltb_ge in H. lia.
  - apply (fixed_read _ _ _ _ _ 1); [done|done|]. by destruct b.
  - apply (fixed_read _ _ _ _ _ 8); [apply length_int_bytes|done|]. by rewrite of_i64.
  - apply sized_read; [|done|by rewrite Hok]. by apply N.ltb_ge in H.
  - apply (fixed_read _ _ _ _ _ 8); [apply length_int_bytes|done|]. by rewrite of_i64.
  - by apply (fixed_null _ _ _ _ _ 4).
  - by apply (fixed_null _ _ _ _ _ 8).
  - by apply sized_null.
  - by apply (fixed_null _ _ _ _ _ 1).
  - by apply (fixed_null _ _ _ _ _ 8).
  - by apply sized_null.
  - by apply (fixed_null _ _ _ _ _ 8).
Qed.

Definition cell_ok (vc : Value * Column) : Prop :=
  value_fits vc.1 (data_type vc.2) = true /\ value_ok vc.1 /\ column_type_ok vc.2.

Lemma put_values_prefix bytes row out : put_values bytes row = Ok out ->
  Forall cell_ok row -> exists w, out = bytes ++ w.
Proof.
  revert bytes. induction row as [|[v c] row IH]; intros bytes Hp Hr; cbn in Hp.
  - injection Hp as <-. exists []. by rewrite app_nil_r.
  - inversion Hr as [|? ? (H1 & H2 & H3) Hr']; subst. destruct (put_value bytes c v) as [mid|] eqn:E; [|done]. cbn in Hp.
    destruct (put_get_value bytes mid [u8 (if value_eqb v VNull then 1 else 0)] 0 c v E H1 H2 H3) as [[w ->] _]; [by destruct (value_eqb v VNull)|].
    destruct (IH _ Hp Hr') as [w' ->]. exists (w ++ w'). by rewrite app_assoc.
Qed.

(** The columns of a row, from the [i]-th on. *)
Lemma put_get_values vs cs bytes out bitmap i : length vs = length cs -> put_values bytes (zip vs cs) = Ok out ->
  Forall cell_ok (zip vs cs) ->
  (forall j v, vs !! j = Some v -> null_bit bitmap (i + j) = Some (value_eqb v VNull)) ->
  forall rest, get_values (out ++ rest) bitmap i (length bytes) cs = Some (Ok vs).
Proof.
  revert cs bytes i. induction vs as [|v vs IH]; intros [|c cs] bytes i Hl Hp Hr Hn rest; cbn in Hl; try lia; [done|].
  cbn in Hp, Hr. inversion Hr as [|? ? (H1 & H2 & H3) Hr']; subst. destruct (put_value bytes c v) as [mid|] eqn:E; [|done]. cbn in Hp.
  assert (null_bit bitmap i = Some (value_eqb v VNull)) as Hb by (rewrite <- (Nat.add_0_r i); by apply Hn).
  destruct (put_get_value bytes mid bitmap i c v E H1 H2 H3 Hb) as [_ Hg]. destruct (put_values_prefix _ _ _ Hp Hr') as [w Ew].
  cbn [get_values]. rewrite Ew, <- app_assoc, Hg. cbn. rewrite app_assoc, <- Ew.
  rewrite (IH cs mid (S i)); [done|lia|done|done|]. intros j v' Hj. rewrite <- (Hn (S j) v' Hj). f_equal. lia.
Qed.

(** * The bitmap holds one bit for each null *)

Lemma land_bit x j : negb (N.land x (N.shiftl 1 j) =? 0)%N = N.testbit x j.
Proof.
  rewrite N.shiftl_1_l. destruct (N.testbit x j) eqn:E.
  - apply negb_true_iff, N.eqb_neq. intros H. assert (N.testbit (N.land x (2 ^ j)) j = true) as H1.
    { by rewrite N.land_spec, E, N.pow2_bits_true. }
    rewrite H, N.bits_0 in H1. done.
  - apply negb_false_iff, N.eqb_eq. apply N.bits_inj_0. intros k. rewrite N.land_spec.
    destruct (decide (k = j)) as [->|Hne]; [by rewrite E|]. rewrite N.pow2_bits_false by done. apply andb_false_r.
Qed.

Lemma null_bit_testbit bitmap i : null_bit bitmap i = (fun b => N.testbit (byteN b) (N.of_nat (i mod 8))) <$> bitmap !! (i / 8).
Proof. unfold null_bit. destruct (bitmap !! (i / 8)) as [b|]; [|done]. cbn. by rewrite land_bit. Qed.

(** Setting one bit of a byte. *)
Lemma set_bit b k j : (k < 8)%N -> N.testbit (byteN (u8 (N.lor (byteN b) (N.shiftl 1 k)))) j = (k =? j)%N || N.testbit (byteN b) j.
Proof.
  intros Hk. rewrite byteN_u8. change 256%N with (2 ^ 8)%N. destruct (decide (j < 8)%N) as [Hj|Hj].
  - rewrite N.mod_pow2_bits_low, N.lor_spec, N.shiftl_1_l, N.pow2_bits_eqb by done. by rewrite orb_comm, N.eqb_sym.
  - rewrite N.mod_pow2_bits_high by lia. symmetry. apply orb_false_iff. split; [apply N.eqb_neq; lia|].
    pose proof (byteN_lt b). destruct (decide (byteN b = 0%N)) as [->|H0]; [apply N.bits_0|].
    apply N.bits_above_log2. assert (N.log2 (byteN b) < 8)%N; [|lia]. by apply N.log2_lt_pow2; [lia|].
Qed.

(** The bit of a later column is the value's, that of an earlier one is kept. *)
Lemma fill_bitmap_before vs i bitmap j : j < i -> null_bit (fill_bitmap i vs bitmap) j = null_bit bitmap j.
Proof.
  revert i bitmap. induction vs as [|v vs IH]; intros i bitmap Hj; [done|]. cbn [fill_bitmap]. rewrite IH by lia.
  destruct (value_eqb v VNull); [|done]. rewrite !null_bit_testbit. destruct (decide (i / 8 = j / 8)) as [E|E].
  - rewrite <- E, list_lookup_alter_eq. destruct (bitmap !! (i / 8)); [|done]. cbn [fmap option_fmap option_map]. f_equal. rewrite set_bit.
    + rewrite (proj2 (N.eqb_neq _ _)); [done|]. intros Hm. apply Nat2N.inj in Hm. pose proof (Nat.div_mod_eq i 8). pose proof (Nat.div_mod_eq j 8). lia.
    + pose proof (Nat.mod_upper_bound i 8). lia.
  - by rewrite list_lookup_alter_ne.
Qed.

Lemma fill_bitmap_bit vs i bitmap : (forall j, i <= j < i + length vs -> null_bit bitmap j = Some false) ->
  forall j v, vs !! j = Some v -> null_bit (fill_bitmap i vs bitmap) (i + j) = Some (value_eqb v VNull).
Proof.
  revert i bitmap. induction vs as [|v vs IH]; intros i bitmap H0 j v' Hj; [done|]. cbn [fill_bitmap]. destruct j as [|j].
  - injection Hj as <-. rewrite Nat.add_0_r, fill_bitmap_before by lia. assert (null_bit bitmap i = Some false) as Hi by (apply H0; cbn; lia).
    destruct (value_eqb v VNull) eqn:E; [|done]. rewrite null_bit_testbit in *. rewrite list_lookup_alter_eq. destruct (bitmap !! (i / 8)); [|done].
    cbn [fmap option_fmap option_map]. rewrite set_bit by (pose proof (Nat.mod_upper_bound i 8); lia). by rewrite N.eqb_refl.
  - replace (i + S j) with (S i + j) by lia. apply IH; [|done]. intros k Hk. destruct (value_eqb v VNull); [|apply H0; cbn; lia].
    assert (null_bit bitmap k = Some false) as Hb by (apply H0; cbn; lia). rewrite null_bit_testbit in *. destruct (decide (i / 8 = k / 8)) as [E|E].
    + rewrite <- E in *. rewrite list_lookup_alter_eq. destruct (bitmap !! (i / 8)); [|done]. cbn [fmap option_fmap option_map] in *. f_equal. rewrite set_bit.
      * rewrite (proj2 (N.eqb_neq _ _)); [cbn [orb]; congruence|]. intros Hm. apply Nat2N.inj in Hm. pose proof (Nat.div_mod_eq i 8). pose proof (Nat.div_mod_eq k 8). lia.
      * pose proof (Nat.mod_upper_bound i 8). lia.
    + by rewrite list_lookup_alter_ne.
Qed.

Lemma length_fill_bitmap vs i bitmap : length (fill_bitmap i vs bitmap) = length bitmap.
Proof. revert i bitmap. induction vs as [|v vs IH]; intros i bitmap; [done|]. cbn. rewrite IH. destruct (value_eqb v VNull); [|done]. by rewrite length_alter. Qed.

Lemma null_bit_zero n j : j < n -> null_bit (replicate (bitmap_len n) (u8 0)) j = Some false.
Proof.
  intros H. unfold null_bit. rewrite lookup_replicate_2; [done|]. unfold bitmap_len. pose proof (Nat.div_mod_eq j 8). pose proof (Nat.div_mod_eq (n + 7) 8).
  pose proof (Nat.mod_upper_bound j 8). pose proof (Nat.mod_upper_bound (n + 7) 8). lia.
Qed.

Lemma misfit_none i row : misfit i row = None -> Forall (fun vc => value_fits vc.1 (data_type vc.2) = true) row.
Proof. revert i. induction row as [|[v c] row IH]; intros i H; [constructor|]. cbn in H. destruct (value_fits v (data_type c)) eqn:E; [|done]. constructor; eauto. Qed.

Lemma misfit_some i row k : misfit i row = Some k -> ~ Forall (fun vc => value_fits vc.1 (data_type vc.2) = true) row.
Proof.
  revert i. induction row as [|[v c] row IH]; intros i H Hf; [done|]. cbn in H. inversion Hf as [|? ? H1 H2]; subst. cbn in H1.
  rewrite H1 in H. by apply (IH _ H).
Qed.

(** Text longer than its column allows. *)
Definition too_long (v : Value) (c : Column) : Prop :=
  match v with
  | VDecimal d => (max_u16 < blen d)%N
  | VVarchar s => match data_type c with Varchar max => (max < blen s)%N | _ => False end
  | _ => False
  end.

Lemma put_values_err bytes row e : put_values bytes row = Err e -> exists v c, (v, c) ∈ row /\ too_long v c.
Proof.
  revert bytes. induction row as [|[v c] row IH]; intros bytes H; [done|]. cbn in H. destruct (put_value bytes c v) as [mid|e'] eqn:E.
  - destruct (IH _ H) as (v' & c' & Hin & Ht). exists v', c'. split; [by right|done].
  - exists v, c. split; [left|]. unfold put_value in E. destruct v; cbn; try discriminate E; repeat case_match; simplify_eq; by apply N.ltb_lt.
Qed.

Definition header_of (ts : N) : list byte := be_bytes 8 ts ++ be_bytes 8 0 ++ be_bytes 4 0 ++ be_bytes 2 0 ++ be_bytes 2 0.

Lemma length_header ts : length (header_of ts) = VERSION_HEADER_SIZE.
Proof. done. Qed.

Lemma version_header_read ts rest : (ts <= max_u64)%N -> version_header (header_of ts ++ rest) = Some (Ok (mkVersionHeader ts 0 0 0)).
Proof.
  intros H. unfold version_header. rewrite (proj2 (Nat.ltb_ge _ _)) by (rewrite length_app, length_header; unfold VERSION_HEADER_SIZE; lia).
  unfold header_of. rewrite <- !app_assoc. rewrite get_range_front by (by rewrite length_be_bytes). cbn.
  rewrite (get_range_mid (be_bytes 8 ts) _ _ 8 16) by (by rewrite ?length_be_bytes). cbn.
  rewrite (app_assoc (be_bytes 8 ts)), (get_range_mid (be_bytes 8 ts ++ be_bytes 8 0) _ _ 16 20) by (by rewrite ?length_app, ?length_be_bytes). cbn.
  rewrite (app_assoc (be_bytes 8 ts ++ be_bytes 8 0)), (get_range_mid ((be_bytes 8 ts ++ be_bytes 8 0) ++ be_bytes 4 0) _ _ 20 22) by (by rewrite ?length_app, ?length_be_bytes). cbn.
  rewrite of_be_be_bytes_small; [done|]. unfold max_u64 in H. cbn. lia.
Qed.

Lemma Forall_zip_ok vs (cs : list Column) : Forall value_ok vs -> Forall column_type_ok cs ->
  Forall (fun vc => value_fits vc.1 (data_type vc.2) = true) (zip vs cs) -> Forall cell_ok (zip vs cs).
Proof.
  intros Hv Hc Hf. revert cs Hc Hf. induction Hv as [|v vs Hv _ IH]; intros [|c cs] Hc Hf; try constructor.
  - cbn in Hf. inversion Hf; inversion Hc; subst. by repeat split.
  - cbn in Hf. inversion Hf; inversion Hc; subst. by apply IH.
Qed.

(** C19: a row survives its bytes. Whatever [serialize] accepts for a schema,
    [deserialize] with that schema reads back value for value, nulls included,
    without a panic, and the version header holds the transaction's timestamp,
    no end and no previous version; [serialize] refuses a row whose arity or
    types differ from the schema's, or whose text is longer than its column
    allows. *)
Theorem tuple_round_trip vs schema ts :
  Forall value_ok vs -> Forall column_type_ok schema -> (ts <= max_u64)%N ->
  match serialize vs schema ts with
  | Ok t => deserialize t schema = Some (Ok vs) /\ version_header t = Some (Ok (mkVersionHeader ts 0 0 0)) /\
            length vs = length schema /\ Forall (fun vc => value_fits vc.1 (data_type vc.2) = true) (zip vs schema)
  | Err e => length vs <> length schema \/ ~ Forall (fun vc => value_fits vc.1 (data_type vc.2) = true) (zip vs schema) \/
             exists v c, (v, c) ∈ zip vs schema /\ too_long v c
  end.
Proof.
  intros Hv Hc Ht. unfold serialize. destruct (Nat.eqb_spec (length vs) (length schema)) as [El|El]; cbn [negb]; [|by left].
  destruct (misfit 0 (zip vs schema)) as [i|] eqn:Em; [right; left; by apply (misfit_some _ _ _ Em)|].
  pose proof (misfit_none _ _ Em) as Hf. fold (header_of ts). set (bm := fill_bitmap 0 vs _).
  destruct (put_values (header_of ts ++ bm) (zip vs schema)) as [t|e] eqn:Ep; [|right; right; by apply (put_values_err _ _ _ Ep)].
  pose proof (Forall_zip_ok vs schema Hv Hc Hf) as Hok. destruct (put_values_prefix _ _ _ Ep Hok) as [w Et].
  assert (length bm = bitmap_len (length schema)) as Lb by (unfold bm; by rewrite length_fill_bitmap, length_replicate).
  split; [|split; [rewrite Et, <- app_assoc; by apply version_header_read|done]]. unfold deserialize.
  rewrite Et at 1. rewrite <- app_assoc, (get_range_mid (header_of ts)) by (rewrite ?length_header, ?Lb; lia). cbn [mbind option_bind].
  rewrite <- Lb, <- (length_header ts), <- length_app, <- (app_nil_r t).
  apply put_get_values; [done|done|done|]. intros j v Hj. apply (fill_bitmap_bit vs 0); [|done].
  intros k Hk. apply null_bit_zero. lia.
Qed.

Definition sample_schema : Schema :=
  [mkColumn [u8 97] Boolean false; mkColumn [u8 98] BigInt true; mkColumn [u8 99] (Varchar 8) true;
   mkColumn [u8 100] Integer false; mkColumn [u8 101] Decimal true; mkColumn [u8 102] Float true;
   mkColumn [u8 103] Timestamp true; mkColumn [u8 104] Integer true; mkColumn [u8 105] (Varchar 3) true].
Definition sample_row : list Value :=
  [VBoolean true; VNull; VVarchar [u8 195; u8 169]; VInteger (-7); VDecimal [u8 45; u8 49; u8 46; u8 53]; VFloat 4611686018427387904;
   VTimestamp (-9223372036854775808); VNull; VNull].

(** A row of nine columns, so of a bitmap of two bytes. *)
Lemma tuple_round_trip_witness :
  exists t, serialize sample_row sample_schema 77 = Ok t /\ deserialize t sample_schema = Some (Ok sample_row).
Proof.
  assert (Forall value_ok sample_row) as H1 by (apply (bool_decide_eq_true_1 _); vm_compute; reflexivity).
  assert (Forall column_type_ok sample_schema) as H2 by (apply (bool_decide_eq_true_1 _); vm_compute; reflexivity).
  assert (77 <= max_u64)%N as H3 by (vm_compute; discriminate).
  pose proof (tuple_round_trip sample_row sample_schema 77 H1 H2 H3) as H.
  destruct (serialize sample_row sample_schema 77) as [t|e] eqn:E; [|vm_compute in E; discriminate E].
  exists t. split; [reflexivity|]. exact (proj1 H).
Defined.
