(* ===== verification/HeapPage.v ===== *)
(** Slotted heap pages: [src/src/storage/heap_page.rs]. Slots grow from the
    header, tuple bytes from the end of the page; a slot of two zeros is a
    deleted one. Arithmetic is that of a release build, where [usize] and [u16]
    subtraction wrap; [None] is a panic (a slice or an index out of range). *)
From S2P Require Import Prelude Bytes Errors.

(** * Data *)

Record SlotEntry := mkSlot { offset : N; slength : N }.

Record Page := mkPage {
  page_type : N; page_id : N; lsn : N; checksum : N; slot_arr : list SlotEntry; tuples : list byte }.

Definition PAGE_SIZE : N := 4096.
Definition HEADER_SIZE : N := 23.
Definition SLOT_ENTRY_SIZE : N := 4.
Definition MAX_TUPLE_SIZE : N := PAGE_SIZE - HEADER_SIZE - SLOT_ENTRY_SIZE.
Definition HEAP_PAGE_TYPE : N := 0.

#[export] Instance slot_eq : EqDecision SlotEntry.
Proof. solve_decision. Defined.
#[export] Instance page_eq : EqDecision Page.
Proof. solve_decision. Defined.

Definition set_slots (ss : list SlotEntry) (ts : list byte) (p : Page) : Page :=
  mkPage (page_type p) (page_id p) (lsn p) (checksum p) ss ts.

(** [a - b] on [usize] and on [u16]; [as u16]. *)
Definition usub (a b : N) : N := (if b <=? a then a - b else a + 18446744073709551616 - b)%N.
Definition to_u16 (a : N) : N := (a mod 65536)%N.
Definition wsub16 (a b : N) : N := ((a + 65536 - b) mod 65536)%N.

Definition empty (id : N) : Page := mkPage HEAP_PAGE_TYPE id 0 0 [] [].

Definition deleted (s : SlotEntry) : bool := (offset s =? 0)%N && (slength s =? 0)%N.

(** * Where the free space is *)

Definition get_free_space_start (p : Page) : N := to_u16 (HEADER_SIZE + blen (slot_arr p) * SLOT_ENTRY_SIZE).

Definition lower_offset (min_offset : N) (s : SlotEntry) : N :=
  if deleted s then min_offset else if (offset s <? min_offset)%N then offset s else min_offset.
Definition get_free_space_end (p : Page) : N := fold_left lower_offset (slot_arr p) PAGE_SIZE.

(** * Operations *)

Definition slice (ts : list byte) (a n : N) : option (list byte) :=
  get_range ts (N.to_nat a) (N.to_nat (a + n)).

(** [dst[a..a + src.len()].copy_from_slice(src)]. *)
Definition copy_at (dst : list byte) (a : N) (src : list byte) : option (list byte) :=
  if (a + blen src <=? blen dst)%N
  then Some (take (N.to_nat a) dst ++ src ++ drop (N.to_nat a + length src) dst)
  else None.

Definition insert (p : Page) (data : list byte) : Result FerroError (Page * N) :=
  let free_space_start := get_free_space_start p in
  let free_space_end := get_free_space_end p in
  if (usub free_space_end free_space_start <? blen data + SLOT_ENTRY_SIZE)%N then Err NotEnoughSpace
  else
    let ts := data ++ tuples p in
    let slot := mkSlot (wsub16 (to_u16 PAGE_SIZE) (to_u16 (blen ts))) (to_u16 (blen data)) in
    let p' := set_slots (slot_arr p ++ [slot]) ts p in
    Ok (p', to_u16 (blen (slot_arr p') - 1)).

Definition read (p : Page) (slot_num : nat) : option (Result FerroError (list byte)) :=
  match slot_arr p !! slot_num with
  | None => Some (Err (Io SlotOutOfBounds))
  | Some slot =>
      if deleted slot then Some (Err SlotDeleted)
      else
        let local_offset := usub (offset slot) (get_free_space_end p) in
        raw_tuple ← slice (tuples p) local_offset (slength slot);
        Some (Ok raw_tuple)
  end.

Definition update (p : Page) (slot_num : nat) (new_tuple : list byte) : option (Result FerroError Page) :=
  r ← read p slot_num;
  match r with
  | Err _ => None
  | Ok old_tuple =>
      slot ← slot_arr p !! slot_num;
      let free_space_start := get_free_space_start p in
      let free_space_end := get_free_space_end p in
      let local_offset := usub (offset slot) free_space_end in
      if (blen new_tuple <=? blen old_tuple)%N then
        ts ← copy_at (tuples p) local_offset new_tuple;
        Some (Ok (set_slots (<[slot_num := mkSlot (offset slot) (to_u16 (blen new_tuple))]> (slot_arr p)) ts p))
      else if (blen new_tuple <=? usub free_space_end free_space_start)%N then
        Some (Ok (set_slots
          (<[slot_num := mkSlot (wsub16 free_space_end (to_u16 (blen new_tuple))) (to_u16 (blen new_tuple))]> (slot_arr p))
          (new_tuple ++ tuples p) p))
      else Some (Err NotEnoughSpace)
  end.

Definition delete (p : Page) (slot_num : nat) : Result FerroError Page :=
  match slot_arr p !! slot_num with
  | None => Err (Io SlotOutOfBounds)
  | Some _ => Ok (set_slots (<[slot_num := mkSlot 0 0]> (slot_arr p)) (tuples p) p)
  end.

(** The loop of [compact]; the buffer it fills from its end is kept as what has
    been written, so the write position is the page size less its length. *)
Fixpoint compact_loop (base : N) (ts : list byte) (ss : list SlotEntry) (buffer : list byte) :
    option (list SlotEntry * list byte) :=
  match ss with
  | [] => Some ([], buffer)
  | s :: ss =>
      if negb (offset s =? 0)%N && negb (slength s =? 0)%N then
        raw_tuple ← slice ts (usub (offset s) base) (slength s);
        let buffer := raw_tuple ++ buffer in
        if (PAGE_SIZE <? blen buffer)%N then None
        else
          '(rest, out) ← compact_loop base ts ss buffer;
          Some (mkSlot (to_u16 (PAGE_SIZE - blen buffer)) (slength s) :: rest, out)
      else
        '(rest, out) ← compact_loop base ts ss buffer;
        Some (s :: rest, out)
  end.
Definition compact (p : Page) : option Page :=
  '(ss, ts) ← compact_loop (usub PAGE_SIZE (blen (tuples p))) (tuples p) (slot_arr p) [];
  Some (set_slots ss ts p).

Definition restore_at (p : Page) (slot_num : nat) (data : list byte) : Result FerroError Page :=
  if negb (slot_num <? length (slot_arr p)) then Err (Wal (SlotPastPage (N.of_nat slot_num) (blen (slot_arr p))))
  else
    let tuples_start := usub PAGE_SIZE (blen (tuples p)) in
    let room := (tuples_start - get_free_space_start p)%N in
    if (room <? blen data)%N then Err NotEnoughSpace
    else
      let ts := data ++ tuples p in
      Ok (set_slots (<[slot_num := mkSlot (wsub16 (to_u16 PAGE_SIZE) (to_u16 (blen ts))) (to_u16 (blen data))]> (slot_arr p)) ts p).

(** * On disk *)

Definition slot_bytes (s : SlotEntry) : list byte := be_bytes 2 (offset s) ++ be_bytes 2 (slength s).

Fixpoint put_slots (buffer : list byte) (i : N) (ss : list SlotEntry) : option (list byte) :=
  match ss with
  | [] => Some buffer
  | s :: ss =>
      let at_ := (HEADER_SIZE + i * SLOT_ENTRY_SIZE)%N in
      buffer ← copy_at buffer at_ (be_bytes 2 (offset s));
      buffer ← copy_at buffer (at_ + SLOT_ENTRY_SIZE / 2) (be_bytes 2 (slength s));
      put_slots buffer (i + 1) ss
  end.

Definition serialize (p : Page) : option (list byte) :=
  let buffer := replicate (N.to_nat PAGE_SIZE) (u8 0) in
  buffer ← copy_at buffer 0 (be_bytes 1 (page_type p));
  buffer ← copy_at buffer 1 (be_bytes 4 (page_id p));
  buffer ← copy_at buffer 5 (be_bytes 2 (to_u16 (blen (slot_arr p))));
  buffer ← copy_at buffer 7 (be_bytes 2 (to_u16 (HEADER_SIZE + blen (slot_arr p) * SLOT_ENTRY_SIZE)));
  buffer ← copy_at buffer 9 (be_bytes 2 (get_free_space_end p));
  buffer ← copy_at buffer 11 (be_bytes 8 (lsn p));
  buffer ← copy_at buffer 19 (be_bytes 4 (checksum p));
  buffer ← put_slots buffer 0 (slot_arr p);
  if (PAGE_SIZE <? blen (tuples p))%N then None
  else copy_at buffer (PAGE_SIZE - blen (tuples p)) (tuples p).

(** [raw.chunks(SLOT_ENTRY_SIZE)], each chunk read as two numbers. *)
Fixpoint get_slots (raw : list byte) : option (list SlotEntry) :=
  match raw with
  | [] => Some []
  | a :: b :: c :: d :: raw => rest ← get_slots raw; Some (mkSlot (of_be [a; b]) (of_be [c; d]) :: rest)
  | _ => None
  end.

Definition deserialize (bytes : list byte) : option Page :=
  ty ← get_range bytes 0 1;
  id ← get_range bytes 1 5;
  fss ← get_range bytes 7 9;
  fse ← get_range bytes 9 11;
  l ← get_range bytes 11 19;
  ck ← get_range bytes 19 23;
  raw_slot_arr ← get_range bytes (N.to_nat HEADER_SIZE) (N.to_nat (of_be fss));
  ss ← get_slots raw_slot_arr;
  ts ← get_range bytes (N.to_nat (of_be fse)) (N.to_nat PAGE_SIZE);
  Some (mkPage (of_be ty) (of_be id) (of_be l) (of_be ck) ss ts).
