(* ===== verification/HeapPageProps.v ===== *)
(** A heap page is a list of rows. Each operation changes one row and no other,
    the bytes on disk hold the same rows, and a run of operations, each on the
    page loaded from disk and stored back as [with_page] does it
    ([src/src/wal/txn.rs]), follows the list. *)
From S2P Require Import Prelude Bytes Errors HeapPage.
From S2P Require WalRecord.

#[local] Open Scope N_scope.

(** * What a page holds *)

Definition base (p : Page) : N := PAGE_SIZE - blen (tuples p).
Definition header_end (p : Page) : N := HEADER_SIZE + blen (slot_arr p) * SLOT_ENTRY_SIZE.

(** The bytes of a slot, in a region that starts at [b]. *)
Definition view (ts : list byte) (b : N) (s : SlotEntry) : list byte :=
  take (N.to_nat (slength s)) (drop (N.to_nat (offset s - b)) ts).
Definition row (ts : list byte) (b : N) (s : SlotEntry) : option (list byte) := if deleted s then None else Some (view ts b s).
Definition rows (p : Page) : list (option (list byte)) := row (tuples p) (base p) <$> slot_arr p.

Definition placed (b : N) (s : SlotEntry) : Prop := deleted s = true \/ (b <= offset s /\ offset s + slength s <= PAGE_SIZE /\ 0 < slength s).
Definition apart (s t : SlotEntry) : Prop :=
  deleted s = true \/ deleted t = true \/ offset s + slength s <= offset t \/ offset t + slength t <= offset s.

Record page_ok (p : Page) : Prop := {
  ok_size : blen (tuples p) <= PAGE_SIZE;
  ok_room : header_end p <= base p;
  ok_slots : Forall (placed (base p)) (slot_arr p);
  ok_apart : forall i j s t, i <> j -> slot_arr p !! i = Some s -> slot_arr p !! j = Some t -> apart s t;
  ok_header : page_type p < 256 /\ page_id p <= max_u32 /\ lsn p <= max_u64 /\ checksum p <= max_u32 }.

(** The tuple region starts at the lowest slot, as it does in a page just
    loaded. *)
Definition tight (p : Page) : Prop := get_free_space_end p = base p.

(** * The lowest slot *)

Lemma lower_le ss m : fold_left lower_offset ss m <= m.
Proof.
  revert m. induction ss as [|s ss IH]; intros m; [done|]. cbn. etransitivity; [apply IH|]. unfold lower_offset.
  destruct (deleted s); [done|]. destruct (N.ltb_spec (offset s) m); lia.
Qed.

Lemma lower_slot ss m s : s ∈ ss -> deleted s = false -> fold_left lower_offset ss m <= offset s.
Proof.
  intros Hin Hd. revert m. induction Hin as [s ss|s t ss _ IH]; intros m; cbn; [|by apply IH].
  etransitivity; [apply lower_le|]. unfold lower_offset. rewrite Hd. destruct (N.ltb_spec (offset s) m); lia.
Qed.

Lemma lower_ge ss m b : b <= m -> Forall (placed b) ss -> b <= fold_left lower_offset ss m.
Proof.
  intros Hm H. revert m Hm. induction H as [|s ss Hs _ IH]; intros m Hm; [done|]. cbn. apply IH. unfold lower_offset.
  destruct Hs as [->|Hs]; [done|]. destruct (deleted s); [done|]. destruct (N.ltb_spec (offset s) m); lia.
Qed.

Lemma base_le_end p : page_ok p -> base p <= get_free_space_end p <= PAGE_SIZE.
Proof. intros H. split; [|apply lower_le]. apply lower_ge; [unfold base; lia|apply H]. Qed.

Lemma tight_at p s : page_ok p -> s ∈ slot_arr p -> deleted s = false -> offset s = base p -> tight p.
Proof. intros H Hin Hd Ho. pose proof (base_le_end p H). pose proof (lower_slot _ PAGE_SIZE s Hin Hd). unfold tight, get_free_space_end in *. lia. Qed.

(** * Numbers that fit *)

Lemma to_u16_small a : a <= 4096 -> to_u16 a = a.
Proof. intros H. unfold to_u16. apply N.mod_small. lia. Qed.

Lemma usub_le a b : b <= a -> usub a b = a - b.
Proof. intros H. unfold usub. by rewrite (proj2 (N.leb_le _ _) H). Qed.

Lemma wsub16_le a b : b <= a -> a <= 4096 -> wsub16 a b = a - b.
Proof.
  intros H Ha. unfold wsub16. replace (a + 65536 - b) with (a - b + 1 * 65536) by lia. rewrite N.Div0.mod_add. apply N.mod_small. lia.
Qed.

Lemma start_ok p : page_ok p -> get_free_space_start p = header_end p.
Proof. intros H. pose proof (ok_room p H). unfold base, PAGE_SIZE in *. unfold get_free_space_start. apply to_u16_small. unfold header_end in *. lia. Qed.

(** * Views *)

Lemma view_front d ts b b' s : b' + blen d = b -> b <= offset s -> view (d ++ ts) b' s = view ts b s.
Proof.
  intros Hb Ho. unfold view. rewrite drop_app_ge by (unfold blen in Hb; lia). do 2 f_equal. unfold blen in Hb. lia.
Qed.

Lemma view_new d ts b : view (d ++ ts) b (mkSlot b (blen d)) = d.
Proof. unfold view. cbn. rewrite N.sub_diag, to_nat_blen. cbn. apply take_app_length. Qed.

Lemma row_front d ts b b' s : b' + blen d = b -> placed b s -> row (d ++ ts) b' s = row ts b s.
Proof. intros Hb Hp. unfold row. destruct (deleted s) eqn:E; [done|]. destruct Hp as [Hp|(Hp & _)]; [congruence|]. by rewrite (view_front d ts b). Qed.

Lemma length_view ts b s : b <= offset s -> offset s + slength s <= b + blen ts -> blen (view ts b s) = slength s.
Proof. intros H1 H2. unfold view, blen in *. rewrite length_take, length_drop. lia. Qed.

Lemma blen_zero {A} (l : list A) : blen l = 0 <-> l = [].
Proof. unfold blen. destruct l; [done|]. split; [cbn; lia|done]. Qed.

(** * Reading *)

Lemma rows_lookup p i : rows p !! i = row (tuples p) (base p) <$> slot_arr p !! i.
Proof. apply list_lookup_fmap. Qed.

Lemma length_rows p : length (rows p) = length (slot_arr p).
Proof. apply length_fmap. Qed.

Lemma ok_lookup p i s : page_ok p -> slot_arr p !! i = Some s -> placed (base p) s.
Proof. intros H Hs. pose proof (ok_slots p H) as F. rewrite Forall_lookup in F. eauto. Qed.

Lemma slice_view p s : page_ok p -> placed (base p) s -> deleted s = false ->
  slice (tuples p) (offset s - base p) (slength s) = Some (view (tuples p) (base p) s).
Proof.
  intros H Hp Hd. destruct Hp as [Hp|(H1 & H2 & H3)]; [congruence|]. pose proof (ok_size p H). unfold base in *. unfold slice, get_range.
  rewrite decide_True by (unfold blen in *; lia). unfold view, base. do 2 f_equal. lia.
Qed.

Definition row_result (rs : list (option (list byte))) (i : nat) : Result FerroError (list byte) :=
  match rs !! i with
  | None => Err (Io SlotOutOfBounds)
  | Some None => Err SlotDeleted
  | Some (Some d) => Ok d
  end.

Lemma read_row p i : page_ok p -> tight p -> read p i = Some (row_result (rows p) i).
Proof.
  intros H Ht. unfold read, row_result. rewrite rows_lookup. destruct (slot_arr p !! i) as [s|] eqn:E; [|done]. cbn. unfold row.
  pose proof (ok_lookup p i s H E) as Hp. destruct (deleted s) eqn:Hd; [done|]. unfold tight in Ht. rewrite Ht.
  assert (base p <= offset s) by (destruct Hp as [Hp|Hp]; [congruence|lia]). rewrite usub_le by done. by rewrite slice_view.
Qed.

(** * Bytes laid down in front of the tuple region

    Inserting, relocating and restoring a tuple have this in common. *)

Section Front.
Context (p : Page) (d : list byte) (ss : list SlotEntry) (k : nat).
Let b' : N := base p - blen d.
Let p' : Page := set_slots ss (d ++ tuples p) p.
Hypothesis Hok : page_ok p.
Hypothesis Hd : d <> [].
Hypothesis Hfit : HEADER_SIZE + blen ss * SLOT_ENTRY_SIZE + blen d <= base p.
Hypothesis Hk : ss !! k = Some (mkSlot b' (blen d)).
Hypothesis Hrest : forall j s, j <> k -> ss !! j = Some s -> slot_arr p !! j = Some s.

Lemma front_base : base p' = b'.
Proof using Hok Hfit. clear Hk Hrest. pose proof (ok_size p Hok). unfold base, b', p' in *. cbn. rewrite blen_app. unfold base. lia. Qed.

Lemma front_live : deleted (mkSlot b' (blen d)) = false.
Proof using Hd. unfold deleted. cbn. apply andb_false_intro2. apply N.eqb_neq. by rewrite blen_zero. Qed.

Lemma front_ok : page_ok p'.
Proof using All.
  pose proof (ok_size p Hok) as Hs. assert (blen d <> 0) as H0 by (by rewrite blen_zero). pose proof (ok_room p Hok) as Hr.
  split.
  - unfold p'. cbn. rewrite blen_app. unfold base, HEADER_SIZE in *. lia.
  - rewrite front_base. unfold header_end, p', b'. cbn. lia.
  - rewrite front_base. apply Forall_lookup. intros j s Hj. unfold p' in Hj. cbn in Hj. destruct (decide (j = k)) as [->|Hne].
    + rewrite Hk in Hj. injection Hj as <-. right. unfold b', base in *. cbn. lia.
    + destruct (ok_lookup p j s Hok (Hrest j s Hne Hj)) as [Hp|(A & B & C)]; [by left|right]. unfold b'. lia.
  - assert (forall j s, j <> k -> ss !! j = Some s -> apart (mkSlot b' (blen d)) s) as Hnew.
    { intros j s Hne Hj. destruct (ok_lookup p j s Hok (Hrest j s Hne Hj)) as [Hp|(A & B & C)]; [by right; left|].
      right. right. left. unfold b'. cbn. unfold HEADER_SIZE in *. lia. }
    assert (forall s t, apart s t -> apart t s) as Hsym by (unfold apart; tauto).
    unfold p'. cbn. intros i j s t Hne Hi Hj. destruct (decide (i = k)) as [->|Hik].
    + rewrite Hk in Hi. injection Hi as <-. by apply (Hnew j).
    + destruct (decide (j = k)) as [->|Hjk].
      * rewrite Hk in Hj. injection Hj as <-. apply Hsym. by apply (Hnew i).
      * apply (ok_apart p Hok i j); auto.
  - apply (ok_header p Hok).
Qed.

Lemma front_tight : tight p'.
Proof using All.
  apply (tight_at p' (mkSlot b' (blen d)) front_ok).
  - unfold p'. cbn. by eapply list_elem_of_lookup_2.
  - apply front_live.
  - by rewrite front_base.
Qed.

Lemma front_row : rows p' !! k = Some (Some d).
Proof using All.
  rewrite rows_lookup, front_base. unfold p'. cbn. rewrite Hk. cbn. unfold row. by rewrite front_live, view_new.
Qed.

Lemma front_other j : j <> k -> (is_Some (ss !! j) <-> is_Some (slot_arr p !! j)) -> rows p' !! j = rows p !! j.
Proof using All.
  intros Hne Hj. rewrite !rows_lookup, front_base. unfold p'. cbn. destruct (ss !! j) as [s|] eqn:E.
  - rewrite (Hrest j s Hne E). cbn. f_equal. apply row_front; [unfold b', HEADER_SIZE in *; lia|]. apply (ok_lookup p j s Hok (Hrest j s Hne E)).
  - destruct (slot_arr p !! j); [|done]. destruct (proj2 Hj); [by eexists|congruence].
Qed.
End Front.

Lemma insert_row p d : page_ok p -> tight p -> d <> [] ->
  match insert p d with
  | Ok (p', i) => N.to_nat i = length (rows p) /\ rows p' = rows p ++ [Some d] /\ page_ok p' /\ tight p'
  | Err e => e = NotEnoughSpace /\ base p < header_end p + blen d + SLOT_ENTRY_SIZE
  end.
Proof.
  intros H Ht Hd. pose proof (ok_room p H) as Hr. pose proof (ok_size p H) as Hs. assert (base p <= 4096) as Hb by (unfold base, PAGE_SIZE; lia).
  unfold insert. unfold tight in Ht. rewrite start_ok, Ht, usub_le by done.
  destruct (N.ltb_spec (base p - header_end p) (blen d + SLOT_ENTRY_SIZE)) as [Hlt|Hge]; [split; [done|lia]|].
  cbv zeta. rewrite !to_u16_small by (unfold base, header_end, PAGE_SIZE, HEADER_SIZE, SLOT_ENTRY_SIZE in *; cbn; rewrite ?blen_app; cbn; unfold blen in *; cbn; lia).
  rewrite wsub16_le by (unfold base, header_end, PAGE_SIZE, HEADER_SIZE, SLOT_ENTRY_SIZE in *; rewrite ?blen_app; lia).
  replace (PAGE_SIZE - blen (d ++ tuples p)) with (base p - blen d) by (unfold base; rewrite blen_app; lia).
  set (ss := slot_arr p ++ [_]). assert (ss !! length (slot_arr p) = Some (mkSlot (base p - blen d) (blen d))) as Hk.
  { unfold ss. rewrite lookup_app_r, Nat.sub_diag by lia. done. }
  assert (forall j s, j <> length (slot_arr p) -> ss !! j = Some s -> slot_arr p !! j = Some s) as Hrest.
  { intros j s Hne Hj. unfold ss in Hj. rewrite lookup_app in Hj. destruct (slot_arr p !! j) eqn:E; [done|].
    apply lookup_ge_None in E. rewrite lookup_ge_None_2 in Hj by (cbn; lia). done. }
  assert (HEADER_SIZE + blen ss * SLOT_ENTRY_SIZE + blen d <= base p) as Hfit.
  { unfold ss. rewrite blen_app. unfold header_end in *. change (blen [_]) with 1. lia. }
  split; [unfold blen; cbn; unfold ss; rewrite length_app, length_rows; cbn; lia|]. split.
  - apply list_eq. intros j. destruct (decide (j = length (slot_arr p))) as [->|Hne].
    + rewrite (front_row p d ss _ H Hd Hfit Hk Hrest). by rewrite lookup_app_r, length_rows, Nat.sub_diag by (rewrite length_rows; lia).
    + rewrite (front_other p d ss _ H Hd Hfit Hk Hrest j Hne).
      * rewrite lookup_app. destruct (rows p !! j) eqn:E; [done|]. apply lookup_ge_None in E. rewrite length_rows in *. rewrite lookup_ge_None_2 by (cbn; lia). done.
      * unfold ss. rewrite !lookup_lt_is_Some, length_app. cbn. lia.
  - split; [by apply (front_ok p d ss (length (slot_arr p)))|by apply (front_tight p d ss (length (slot_arr p)))].
Qed.

(** The slots after one is replaced, and the rows. *)
Lemma front_insert p d i s : page_ok p -> d <> [] -> header_end p + blen d <= base p -> slot_arr p !! i = Some s ->
  let p' := set_slots (<[i := mkSlot (base p - blen d) (blen d)]> (slot_arr p)) (d ++ tuples p) p in
  rows p' = <[i := Some d]> (rows p) /\ page_ok p' /\ tight p'.
Proof.
  intros H Hd Hfit Hi p'. set (ss := <[i := _]> (slot_arr p)) in p'. assert (i < length (slot_arr p))%nat as Hl by (by eapply lookup_lt_Some).
  assert (ss !! i = Some (mkSlot (base p - blen d) (blen d))) as Hk by (by apply list_lookup_insert_eq).
  assert (forall j t, j <> i -> ss !! j = Some t -> slot_arr p !! j = Some t) as Hrest.
  { intros j t Hne Hj. unfold ss in Hj. by rewrite list_lookup_insert_ne in Hj. }
  assert (HEADER_SIZE + blen ss * SLOT_ENTRY_SIZE + blen d <= base p) as Hfit'.
  { unfold ss, blen. rewrite length_insert. unfold header_end, blen in Hfit. lia. }
  unfold p'. split; [|split; [by apply (front_ok p d ss i)|by apply (front_tight p d ss i)]]. apply list_eq. intros j. destruct (decide (j = i)) as [->|Hne].
  - rewrite (front_row p d ss i H Hd Hfit' Hk Hrest). symmetry. apply list_lookup_insert_eq. by rewrite length_rows.
  - rewrite (front_other p d ss i H Hd Hfit' Hk Hrest j Hne); [by rewrite list_lookup_insert_ne|]. unfold ss. by rewrite list_lookup_insert_ne.
Qed.

Lemma restore_row p i d : page_ok p -> d <> [] ->
  match restore_at p i d with
  | Ok p' => (i < length (rows p))%nat /\ rows p' = <[i := Some d]> (rows p) /\ page_ok p' /\ tight p'
  | Err (Wal _) => (length (rows p) <= i)%nat
  | Err e => e = NotEnoughSpace /\ base p < header_end p + blen d
  end.
Proof.
  intros H Hd. pose proof (ok_room p H) as Hr. pose proof (ok_size p H) as Hs. unfold restore_at. rewrite length_rows.
  destruct (Nat.ltb_spec i (length (slot_arr p))) as [Hi|Hi]; cbn [negb]; [|done].
  rewrite start_ok, usub_le by done. fold (base p). destruct (N.ltb_spec (base p - header_end p) (blen d)) as [Hlt|Hge]; [split; [done|lia]|].
  cbv zeta. rewrite !to_u16_small by (unfold base, PAGE_SIZE, header_end, HEADER_SIZE in *; rewrite ?blen_app; lia).
  rewrite wsub16_le by (unfold base, PAGE_SIZE, header_end, HEADER_SIZE in *; rewrite ?blen_app; lia).
  replace (PAGE_SIZE - blen (d ++ tuples p)) with (base p - blen d) by (unfold base; rewrite blen_app; lia).
  apply lookup_lt_is_Some in Hi as Hs'. destruct Hs' as [s Es]. split; [done|]. apply (front_insert p d i s); [done|done|lia|done].
Qed.

Lemma delete_row p i : page_ok p ->
  match delete p i with
  | Ok p' => (i < length (rows p))%nat /\ rows p' = <[i := None]> (rows p) /\ page_ok p'
  | Err e => e = Io SlotOutOfBounds /\ (length (rows p) <= i)%nat
  end.
Proof.
  intros H. unfold delete. rewrite length_rows. destruct (slot_arr p !! i) as [s|] eqn:E; [|by apply lookup_ge_None in E].
  split; [by eapply lookup_lt_Some|]. split.
  - unfold rows. cbn. rewrite list_fmap_insert. done.
  - split.
    + apply H.
    + pose proof (ok_room p H) as Hr. unfold header_end, base, blen in *. cbn. by rewrite length_insert.
    + cbn. apply Forall_insert; [apply H|by left].
    + cbn. intros j k s' t Hne Hj Hk. apply list_lookup_insert_Some in Hj as [(_ & <- & _)|[_ Hj]]; [by left|].
      apply list_lookup_insert_Some in Hk as [(_ & <- & _)|[_ Hk]]; [by right; left|]. by apply (ok_apart p H j k).
    + apply H.
Qed.

(** * Overwriting in place *)

Definition splice (ts : list byte) (a : nat) (d : list byte) : list byte := take a ts ++ d ++ drop (a + length d) ts.

Lemma length_splice ts a d : (a + length d <= length ts)%nat -> length (splice ts a d) = length ts.
Proof. intros H. unfold splice. rewrite !length_app, length_take, length_drop. lia. Qed.

Lemma view_splice ts b d a s : b <= offset s -> (a + length d <= length ts)%nat ->
  (N.to_nat (offset s + slength s - b) <= a \/ a + length d <= N.to_nat (offset s - b))%nat -> view (splice ts a d) b s = view ts b s.
Proof.
  intros Hb Hl Hs. unfold view, splice. destruct Hs as [Hs|Hs].
  - rewrite drop_app_le by (rewrite length_take; lia). rewrite take_app_le by (rewrite length_drop, length_take; lia).
    rewrite skipn_firstn_comm, take_take. f_equal. lia.
  - rewrite app_assoc. rewrite drop_app_ge by (rewrite length_app, length_take; lia).
    rewrite drop_drop. f_equal. f_equal. rewrite length_app, length_take. lia.
Qed.

Lemma view_spliced ts b d o : b <= o -> (N.to_nat (o - b) + length d <= length ts)%nat ->
  view (splice ts (N.to_nat (o - b)) d) b (mkSlot o (blen d)) = d.
Proof.
  intros Hb Hl. unfold view, splice. cbn. rewrite drop_app_ge, length_take by (rewrite length_take; lia).
  replace (_ - _)%nat with O by lia. cbn. rewrite to_nat_blen. apply take_app_length.
Qed.

(** A live slot that keeps its offset leaves the lowest one where it is. *)
Lemma lower_same ss i s s' m : ss !! i = Some s -> offset s' = offset s -> deleted s = false -> deleted s' = false ->
  fold_left lower_offset (<[i := s']> ss) m = fold_left lower_offset ss m.
Proof.
  intros Hi Ho Hd Hd'. revert i m Hi. induction ss as [|t ss IH]; intros [|i] m Hi; try done; cbn in *; [|by apply IH].
  injection Hi as ->. f_equal. unfold lower_offset. by rewrite Ho, Hd, Hd'.
Qed.

Section InPlace.
Context (p : Page) (i : nat) (s : SlotEntry) (d : list byte).
Let s' : SlotEntry := mkSlot (offset s) (blen d).
Let ts : list byte := splice (tuples p) (N.to_nat (offset s - base p)) d.
Let p' : Page := set_slots (<[i := s']> (slot_arr p)) ts p.
Hypothesis Hok : page_ok p.
Hypothesis Hs : slot_arr p !! i = Some s.
Hypothesis Hlive : deleted s = false.
Hypothesis Hd : 0 < blen d <= slength s.

Lemma in_place_at : base p <= offset s /\ offset s + slength s <= PAGE_SIZE.
Proof using All. destruct (ok_lookup p i s Hok Hs) as [Hp|Hp]; [congruence|lia]. Qed.

Lemma in_place_fits : (N.to_nat (offset s - base p) + length d <= length (tuples p))%nat.
Proof using All. pose proof in_place_at. pose proof (ok_size p Hok). unfold base, blen in *. lia. Qed.

Lemma in_place_base : base p' = base p.
Proof using All. unfold base, blen, p', ts. cbn. by rewrite length_splice by apply in_place_fits. Qed.

Lemma in_place_live : deleted s' = false.
Proof using All. unfold deleted. apply andb_false_intro2, N.eqb_neq. cbn. lia. Qed.

Lemma in_place_rows : rows p' = <[i := Some d]> (rows p).
Proof using All.
  apply list_eq. intros j. rewrite rows_lookup, in_place_base. unfold p'. cbn [slot_arr tuples set_slots].
  destruct (decide (j = i)) as [->|Hne].
  - rewrite !list_lookup_insert_eq by (rewrite ?length_rows; by eapply lookup_lt_Some). cbn. unfold row. rewrite in_place_live.
    unfold s', ts. by rewrite view_spliced by (apply in_place_at || apply in_place_fits).
  - rewrite !list_lookup_insert_ne, rows_lookup by done. destruct (slot_arr p !! j) as [t|] eqn:Et; [|done]. cbn. f_equal. unfold row.
    destruct (deleted t) eqn:Hdt; [done|]. f_equal. destruct (ok_lookup p j t Hok Et) as [Hp|(Q1 & Q2 & Q3)]; [congruence|].
    destruct (ok_apart p Hok j i t s Hne Et Hs) as [A|[A|A]]; [congruence|congruence|]. pose proof in_place_at.
    unfold ts. apply view_splice; [done|apply in_place_fits|]. unfold blen in *. lia.
Qed.

Lemma in_place_ok : page_ok p'.
Proof using All.
  pose proof in_place_at as [H1 H2]. split.
  - pose proof (ok_size p Hok). unfold p', ts, blen in *. cbn. by rewrite length_splice by apply in_place_fits.
  - rewrite in_place_base. pose proof (ok_room p Hok). unfold p', header_end, blen in *. cbn. by rewrite length_insert.
  - rewrite in_place_base. unfold p'. cbn. apply Forall_insert; [apply Hok|]. right. cbn. lia.
  - unfold p'. cbn. intros j k s1 t1 Hne Hj Hk. apply list_lookup_insert_Some in Hj as [(-> & <- & _)|[Hji Hj]].
    + apply list_lookup_insert_Some in Hk as [(-> & _)|[Hki Hk]]; [done|].
      destruct (ok_apart p Hok j k s t1 Hne Hs Hk) as [A|[A|A]]; [congruence|by right; left|right; right; cbn; lia].
    + apply list_lookup_insert_Some in Hk as [(-> & <- & _)|[Hki Hk]]; [|by apply (ok_apart p Hok j k)].
      destruct (ok_apart p Hok j k s1 s Hne Hj Hs) as [A|[A|A]]; [by left|congruence|right; right; cbn; lia].
  - apply Hok.
Qed.

Lemma in_place_tight : tight p -> tight p'.
Proof using All.
  unfold tight. rewrite in_place_base. intros <-. unfold get_free_space_end, p'. cbn. apply (lower_same _ i s); [done|done|done|apply in_place_live].
Qed.
End InPlace.

Lemma update_row p i old d : page_ok p -> tight p -> rows p !! i = Some (Some old) -> d <> [] ->
  match update p i d with
  | Some (Ok p') => rows p' = <[i := Some d]> (rows p) /\ page_ok p' /\ tight p'
  | Some (Err e) => e = NotEnoughSpace /\ blen old < blen d /\ base p < header_end p + blen d
  | None => False
  end.
Proof.
  intros H Ht Hrow Hd. assert (0 < blen d) as Hd0 by (apply N.neq_0_lt_0; by rewrite blen_zero).
  pose proof (ok_room p H) as Hr. pose proof (ok_size p H) as Hs. assert (base p <= 4096) as Hb by (unfold base, PAGE_SIZE; lia).
  unfold update. rewrite read_row by done. unfold row_result. rewrite Hrow. cbn [mbind option_bind].
  rewrite rows_lookup in Hrow. destruct (slot_arr p !! i) as [s|] eqn:Es; [|done]. cbn [mbind option_bind fmap option_fmap option_map] in *.
  injection Hrow as Hrow. unfold row in Hrow. destruct (deleted s) eqn:Hdel; [done|]. injection Hrow as Hold.
  destruct (ok_lookup p i s H Es) as [Hp|(P1 & P2 & P3)]; [congruence|]. assert (blen old = slength s) as Lo.
  { rewrite <- Hold. apply length_view; [done|]. unfold base in *. lia. }
  pose proof Ht as Ht'. unfold tight in Ht'. rewrite start_ok, Ht', !usub_le by done. destruct (N.leb_spec (blen d) (blen old)) as [Hle|Hgt].
  - unfold copy_at. rewrite (proj2 (N.leb_le _ _)) by (unfold base in *; lia). cbn [mbind option_bind].
    fold (splice (tuples p) (N.to_nat (offset s - base p)) d). rewrite to_u16_small by (unfold PAGE_SIZE in *; lia).
    split; [apply in_place_rows; (done || lia)|]. split; [apply in_place_ok; (done || lia)|apply in_place_tight; (done || lia)].
  - destruct (N.leb_spec (blen d) (base p - header_end p)) as [Hfit|Hno]; [|split; [done|lia]].
    rewrite to_u16_small by lia. rewrite wsub16_le by lia. apply (front_insert p d i s); [done|done|lia|done].
Qed.

(** * The bytes on disk *)

Definition header_bytes (p : Page) : list byte :=
  be_bytes 1 (page_type p) ++ be_bytes 4 (page_id p) ++ be_bytes 2 (blen (slot_arr p)) ++ be_bytes 2 (header_end p)
  ++ be_bytes 2 (get_free_space_end p) ++ be_bytes 8 (lsn p) ++ be_bytes 4 (checksum p).
Definition slots_bytes (ss : list SlotEntry) : list byte := concat (slot_bytes <$> ss).
Definition image (p : Page) : list byte :=
  header_bytes p ++ slots_bytes (slot_arr p) ++ replicate (N.to_nat (base p - header_end p)) (u8 0) ++ tuples p.

(** Writing behind what has been written. *)
Lemma copy_next pre n src a : a = blen pre -> (length src <= n)%nat ->
  copy_at (pre ++ replicate n (u8 0)) a src = Some ((pre ++ src) ++ replicate (n - length src) (u8 0)).
Proof.
  intros -> H. unfold copy_at. rewrite (proj2 (N.leb_le _ _)) by (rewrite blen_app; unfold blen; rewrite length_replicate; lia).
  rewrite to_nat_blen, take_app_length, <- app_assoc. do 3 f_equal. rewrite drop_app_ge by lia.
  rewrite drop_replicate. f_equal. lia.
Qed.

Lemma put_slots_next ss pre n i : blen pre = HEADER_SIZE + i * SLOT_ENTRY_SIZE -> (4 * length ss <= n)%nat ->
  put_slots (pre ++ replicate n (u8 0)) i ss = Some ((pre ++ slots_bytes ss) ++ replicate (n - 4 * length ss) (u8 0)).
Proof.
  revert pre n i. induction ss as [|s ss IH]; intros pre n i Hp Hn; cbn [put_slots].
  - change (slots_bytes []) with (@nil byte). rewrite app_nil_r. do 3 f_equal. cbn. lia.
  - cbn [length] in Hn. rewrite copy_next by (rewrite ?length_be_bytes; lia). cbn [mbind option_bind]. rewrite length_be_bytes.
    change (SLOT_ENTRY_SIZE / 2) with 2. rewrite copy_next by (rewrite ?blen_app, ?blen_be_bytes, ?length_be_bytes; lia).
    cbn [mbind option_bind]. rewrite length_be_bytes. rewrite IH.
    + unfold slots_bytes. cbn [fmap list_fmap concat]. unfold slot_bytes at 2. rewrite <- !app_assoc. do 5 f_equal. cbn [length]. f_equal. lia.
    + rewrite !blen_app, !blen_be_bytes. unfold SLOT_ENTRY_SIZE in *. lia.
    + lia.
Qed.

Lemma length_slots_bytes ss : length (slots_bytes ss) = (4 * length ss)%nat.
Proof.
  induction ss as [|s ss IH]; [done|]. unfold slots_bytes in *. cbn [fmap list_fmap concat length]. rewrite length_app, IH.
  unfold slot_bytes. rewrite length_app, !length_be_bytes. lia.
Qed.

Lemma length_header_bytes p : length (header_bytes p) = 23%nat.
Proof. unfold header_bytes. by rewrite !length_app, !length_be_bytes. Qed.

Lemma serialize_image p : page_ok p -> HeapPage.serialize p = Some (image p).
Proof.
  intros H. pose proof (ok_room p H) as Hr. pose proof (ok_size p H) as Hs. unfold HeapPage.serialize.
  fold (header_end p). rewrite !to_u16_small by (unfold base, header_end, PAGE_SIZE, HEADER_SIZE, SLOT_ENTRY_SIZE in *; lia).
  assert (exists n, N.to_nat PAGE_SIZE = n /\ N.of_nat n = 4096) as (n & -> & Hn) by (eexists; split; [reflexivity|reflexivity]).
  rewrite <- (app_nil_l (replicate _ _)).
  do 7 (rewrite copy_next by (rewrite ?blen_app, ?blen_nil, ?blen_be_bytes, ?length_be_bytes; first [reflexivity | lia]); cbn [mbind option_bind]).
  match goal with |- context [put_slots (?h ++ replicate _ _)] => replace h with (header_bytes p) by (unfold header_bytes; by rewrite app_nil_l, <- !app_assoc) end.
  rewrite !length_be_bytes, put_slots_next.
  2:{ unfold blen. by rewrite length_header_bytes. }
  2:{ unfold base, header_end, blen, PAGE_SIZE, HEADER_SIZE, SLOT_ENTRY_SIZE in *. lia. }
  cbn [mbind option_bind]. rewrite (proj2 (N.ltb_ge _ _)) by done. fold (base p). unfold copy_at.
  set (pre := header_bytes p ++ slots_bytes (slot_arr p)). assert (length pre = N.to_nat (header_end p)) as Lp.
  { unfold pre, header_end, blen, HEADER_SIZE, SLOT_ENTRY_SIZE. rewrite length_app, length_header_bytes, length_slots_bytes. lia. }
  set (m := (n - _ - _ - _ - _ - _ - _ - _ - _)%nat). assert (m = N.to_nat (PAGE_SIZE - header_end p)) as Em.
  { unfold m, header_end, blen, PAGE_SIZE, HEADER_SIZE, SLOT_ENTRY_SIZE in *. lia. }
  assert (PAGE_SIZE = base p + blen (tuples p)) as Eb by (unfold base; lia).
  rewrite (proj2 (N.leb_le _ _)) by (unfold blen; rewrite length_app, length_replicate, Lp, Em; unfold blen in *; lia).
  f_equal. unfold image. rewrite (app_assoc (header_bytes p)). fold pre. rewrite take_app_ge, drop_ge by (rewrite ?length_app, ?length_replicate, ?Lp, ?Em; unfold blen in *; lia).
  rewrite app_nil_r, <- app_assoc, take_replicate. do 3 f_equal. rewrite Lp, Em. lia.
Qed.

Lemma get_slots_bytes ss : Forall (fun s => offset s <= PAGE_SIZE /\ slength s <= PAGE_SIZE) ss -> get_slots (slots_bytes ss) = Some ss.
Proof.
  induction 1 as [|s ss [Ho Hl] _ IH]; [done|]. unfold slots_bytes in *. cbn [fmap list_fmap concat]. unfold slot_bytes at 1.
  pose proof (of_be_be_bytes_small 2 (offset s) ltac:(cbn; unfold PAGE_SIZE in Ho; lia)) as E1.
  pose proof (of_be_be_bytes_small 2 (slength s) ltac:(cbn; unfold PAGE_SIZE in Hl; lia)) as E2.
  pose proof (length_be_bytes 2 (offset s)) as L1. pose proof (length_be_bytes 2 (slength s)) as L2.
  destruct (be_bytes 2 (offset s)) as [|a [|b []]]; try discriminate L1. destruct (be_bytes 2 (slength s)) as [|c [|d []]]; try discriminate L2.
  cbn [app get_slots]. rewrite IH, E1, E2. cbn. by destruct s.
Qed.

Lemma slots_small p : page_ok p -> Forall (fun s => offset s <= PAGE_SIZE /\ slength s <= PAGE_SIZE) (slot_arr p).
Proof.
  intros H. eapply Forall_impl; [apply H|]. intros s [Hd|Hp]; [|lia]. unfold deleted in Hd. apply andb_true_iff in Hd as [H1 H2].
  apply N.eqb_eq in H1, H2. unfold PAGE_SIZE. lia.
Qed.

(** The page as it is loaded: the bytes no slot reaches are gone. *)
Definition reloaded (p : Page) : Page :=
  set_slots (slot_arr p) (drop (N.to_nat (get_free_space_end p - base p)) (tuples p)) p.

Lemma get_range_part (pre w rest bytes : list byte) a b :
  bytes = pre ++ w ++ rest -> a = length pre -> b = (length pre + length w)%nat -> get_range bytes a b = Some w.
Proof. intros ->. apply WalRecord.get_range_mid. Qed.

Lemma deserialize_image p : page_ok p -> HeapPage.deserialize (image p) = Some (reloaded p).
Proof.
  intros H. destruct (ok_header p H) as (T1 & T2 & T3 & T4). pose proof (base_le_end p H) as [B1 B2].
  pose proof (ok_room p H) as Hr. pose proof (ok_size p H) as Hs. set (rest := slots_bytes (slot_arr p) ++ replicate (N.to_nat (base p - header_end p)) (u8 0) ++ tuples p).
  set (a1 := be_bytes 1 (page_type p)). set (a2 := be_bytes 4 (page_id p)). set (a3 := be_bytes 2 (blen (slot_arr p))).
  set (a4 := be_bytes 2 (header_end p)). set (a5 := be_bytes 2 (get_free_space_end p)). set (a6 := be_bytes 8 (lsn p)). set (a7 := be_bytes 4 (checksum p)).
  assert (image p = a1 ++ a2 ++ a3 ++ a4 ++ a5 ++ a6 ++ a7 ++ rest) as Ei by (unfold image, header_bytes; by rewrite <- !app_assoc).
  unfold HeapPage.deserialize.
  rewrite (get_range_part [] a1 (a2 ++ a3 ++ a4 ++ a5 ++ a6 ++ a7 ++ rest) (image p) 0 1) by (rewrite ?Ei; done).
  cbn [mbind option_bind]. rewrite (get_range_part a1 a2 (a3 ++ a4 ++ a5 ++ a6 ++ a7 ++ rest) (image p) 1 5) by (rewrite ?Ei; done).
  cbn [mbind option_bind]. rewrite (get_range_part (a1 ++ a2 ++ a3) a4 (a5 ++ a6 ++ a7 ++ rest) (image p) 7 9) by (rewrite ?Ei, <- ?app_assoc; done).
  cbn [mbind option_bind]. rewrite (get_range_part (a1 ++ a2 ++ a3 ++ a4) a5 (a6 ++ a7 ++ rest) (image p) 9 11) by (rewrite ?Ei, <- ?app_assoc; done).
  cbn [mbind option_bind]. rewrite (get_range_part (a1 ++ a2 ++ a3 ++ a4 ++ a5) a6 (a7 ++ rest) (image p) 11 19) by (rewrite ?Ei, <- ?app_assoc; done).
  cbn [mbind option_bind]. rewrite (get_range_part (a1 ++ a2 ++ a3 ++ a4 ++ a5 ++ a6) a7 rest (image p) 19 23) by (rewrite ?Ei, <- ?app_assoc; done).
  cbn [mbind option_bind]. assert (header_end p <= 4096) as H4 by (unfold base, PAGE_SIZE in *; lia).
  unfold a4, a5. rewrite !of_be_be_bytes_small by (cbn; unfold PAGE_SIZE in *; lia).
  rewrite (get_range_part (header_bytes p) (slots_bytes (slot_arr p)) (replicate (N.to_nat (base p - header_end p)) (u8 0) ++ tuples p) (image p) (N.to_nat HEADER_SIZE) (N.to_nat (header_end p))).
  2:{ done. }
  2:{ by rewrite length_header_bytes. }
  2:{ rewrite length_header_bytes, length_slots_bytes. unfold header_end, blen, HEADER_SIZE, SLOT_ENTRY_SIZE. lia. }
  cbn [mbind option_bind]. rewrite get_slots_bytes by (by apply slots_small). cbn [mbind option_bind].
  set (k := N.to_nat (get_free_space_end p - base p)).
  rewrite (get_range_part (header_bytes p ++ slots_bytes (slot_arr p) ++ replicate (N.to_nat (base p - header_end p)) (u8 0) ++ take k (tuples p)) (drop k (tuples p)) []).
  2:{ unfold image. rewrite app_nil_r, <- !app_assoc. by rewrite take_drop. }
  2:{ rewrite !length_app, length_header_bytes, length_slots_bytes, length_replicate, length_take. unfold k, header_end, base, blen, PAGE_SIZE, HEADER_SIZE, SLOT_ENTRY_SIZE in *. lia. }
  2:{ rewrite !length_app, length_header_bytes, length_slots_bytes, length_replicate, length_take, length_drop. unfold k, header_end, base, blen, PAGE_SIZE, HEADER_SIZE, SLOT_ENTRY_SIZE in *. lia. }
  cbn [mbind option_bind]. unfold a1, a2, a6, a7. rewrite !of_be_be_bytes_small by (cbn; unfold max_u32, max_u64 in *; lia). done.
Qed.

Lemma reloaded_base p : page_ok p -> base (reloaded p) = get_free_space_end p.
Proof.
  intros H. pose proof (base_le_end p H) as [B1 B2]. pose proof (ok_size p H). unfold reloaded, base, blen in *. cbn. rewrite length_drop. lia.
Qed.

Lemma reloaded_rows p : page_ok p -> rows (reloaded p) = rows p.
Proof.
  intros H. pose proof (base_le_end p H) as [B1 B2]. unfold rows. rewrite reloaded_base by done. unfold reloaded. cbn [slot_arr tuples set_slots].
  apply list_fmap_ext. intros i s Hs. unfold row. destruct (deleted s) eqn:E; [done|]. f_equal. unfold view. rewrite drop_drop. do 2 f_equal.
  pose proof (lower_slot (slot_arr p) PAGE_SIZE s ltac:(by eapply list_elem_of_lookup_2) E). unfold get_free_space_end in *. lia.
Qed.

Lemma reloaded_ok p : page_ok p -> page_ok (reloaded p) /\ tight (reloaded p).
Proof.
  intros H. pose proof (base_le_end p H) as [B1 B2]. pose proof (ok_room p H) as Hr. split; [split|].
  - pose proof (ok_size p H). unfold reloaded, blen in *. cbn. rewrite length_drop. lia.
  - rewrite reloaded_base by done. unfold header_end in *. cbn. lia.
  - rewrite reloaded_base by done. cbn. apply Forall_lookup. intros i s Hs. destruct (ok_lookup p i s H Hs) as [Hd|Hp]; [by left|].
    destruct (deleted s) eqn:E; [by left|right]. pose proof (lower_slot (slot_arr p) PAGE_SIZE s ltac:(by eapply list_elem_of_lookup_2) E).
    unfold get_free_space_end in *. lia.
  - apply (ok_apart p H).
  - apply H.
  - unfold tight. rewrite reloaded_base by done. done.
Qed.

(** * Operations on the stored page *)

Definition set_lsn (l : N) (p : Page) : Page := mkPage (page_type p) (page_id p) l (checksum p) (slot_arr p) (tuples p).

(** [with_page]: load, change, stamp, store; a refused change stores nothing. *)
Definition with_page (bytes : list byte) (l : N) (f : Page -> option (Result FerroError Page)) : option (Result FerroError (list byte)) :=
  p ← HeapPage.deserialize bytes;
  r ← f p;
  match r with
  | Ok p => bytes ← HeapPage.serialize (set_lsn l p); Some (Ok bytes)
  | Err e => Some (Err e)
  end.

Inductive PageOp := OpInsert (d : list byte) | OpUpdate (i : nat) (d : list byte) | OpDelete (i : nat) | OpRestore (i : nat) (d : list byte).

Definition page_op (op : PageOp) (p : Page) : option (Result FerroError Page) :=
  match op with
  | OpInsert d => Some (match HeapPage.insert p d with Ok (p, _) => Ok p | Err e => Err e end)
  | OpUpdate i d => HeapPage.update p i d
  | OpDelete i => Some (HeapPage.delete p i)
  | OpRestore i d => Some (restore_at p i d)
  end.

Fixpoint edits (bytes : list byte) (ops : list (N * PageOp)) : option (list byte * list (Result FerroError unit)) :=
  match ops with
  | [] => Some (bytes, [])
  | (l, op) :: ops =>
      r ← with_page bytes l (page_op op);
      match r with
      | Ok bytes => '(bytes, out) ← edits bytes ops; Some (bytes, Ok tt :: out)
      | Err e => '(bytes, out) ← edits bytes ops; Some (bytes, Err e :: out)
      end
  end.

(** * The rows and the room a stored page has *)

Definition holds (bytes : list byte) (rs : list (option (list byte))) (room : N) : Prop :=
  exists p, HeapPage.deserialize bytes = Some p /\ page_ok p /\ tight p /\ rows p = rs /\ base p - header_end p = room.

(** What one operation does to the rows and the room: the result is decided by
    them, except how much room a deletion gives back. *)
Inductive row_step : list (option (list byte)) -> N -> PageOp -> Result FerroError unit -> list (option (list byte)) -> N -> Prop :=
| step_insert rs g d : blen d + SLOT_ENTRY_SIZE <= g -> row_step rs g (OpInsert d) (Ok tt) (rs ++ [Some d]) (g - blen d - SLOT_ENTRY_SIZE)
| step_insert_full rs g d : g < blen d + SLOT_ENTRY_SIZE -> row_step rs g (OpInsert d) (Err NotEnoughSpace) rs g
| step_overwrite rs g i old d : rs !! i = Some (Some old) -> blen d <= blen old -> row_step rs g (OpUpdate i d) (Ok tt) (<[i := Some d]> rs) g
| step_relocate rs g i old d : rs !! i = Some (Some old) -> blen old < blen d <= g ->
    row_step rs g (OpUpdate i d) (Ok tt) (<[i := Some d]> rs) (g - blen d)
| step_update_full rs g i old d : rs !! i = Some (Some old) -> blen old < blen d -> g < blen d ->
    row_step rs g (OpUpdate i d) (Err NotEnoughSpace) rs g
| step_delete rs g g' i : (i < length rs)%nat -> g <= g' -> row_step rs g (OpDelete i) (Ok tt) (<[i := None]> rs) g'
| step_delete_none rs g i : (length rs <= i)%nat -> row_step rs g (OpDelete i) (Err (Io SlotOutOfBounds)) rs g
| step_restore rs g i d : (i < length rs)%nat -> blen d <= g -> row_step rs g (OpRestore i d) (Ok tt) (<[i := Some d]> rs) (g - blen d)
| step_restore_full rs g i d : (i < length rs)%nat -> g < blen d -> row_step rs g (OpRestore i d) (Err NotEnoughSpace) rs g
| step_restore_none rs g i d : (length rs <= i)%nat ->
    row_step rs g (OpRestore i d) (Err (Wal (SlotPastPage (N.of_nat i) (blen rs)))) rs g.

Inductive row_steps : list (option (list byte)) -> N -> list PageOp -> list (Result FerroError unit) -> list (option (list byte)) -> N -> Prop :=
| steps_done rs g : row_steps rs g [] [] rs g
| steps_more rs g op r rs1 g1 ops out rs2 g2 : row_step rs g op r rs1 g1 -> row_steps rs1 g1 ops out rs2 g2 ->
    row_steps rs g (op :: ops) (r :: out) rs2 g2.

(** What the callers keep: no empty tuple, and updates only of live rows
    ([Page::update] unwraps the read). *)
Definition op_ok (rs : list (option (list byte))) (op : PageOp) : Prop :=
  match op with
  | OpInsert d | OpRestore _ d => d <> []
  | OpUpdate i d => d <> [] /\ exists old, rs !! i = Some (Some old)
  | OpDelete _ => True
  end.

Fixpoint safe (rs : list (option (list byte))) (g : N) (ops : list PageOp) : Prop :=
  match ops with
  | [] => True
  | op :: ops => op_ok rs op /\ forall r rs' g', row_step rs g op r rs' g' -> safe rs' g' ops
  end.

Lemma stored_holds p l : page_ok p -> l <= max_u64 ->
  exists bytes, HeapPage.serialize (set_lsn l p) = Some bytes /\ holds bytes (rows p) (get_free_space_end p - header_end p).
Proof.
  intros H Hl. assert (page_ok (set_lsn l p)) as H'.
  { destruct H as [A B C D (E1 & E2 & E3 & E4)]. split; [done|done|done|done|]. cbn. done. }
  exists (image (set_lsn l p)). split; [by apply serialize_image|]. exists (reloaded (set_lsn l p)).
  destruct (reloaded_ok _ H') as [R1 R2]. split; [by apply deserialize_image|]. split; [done|]. split; [done|].
  split; [by rewrite reloaded_rows|]. by rewrite reloaded_base.
Qed.

Lemma page_gap p : page_ok p -> tight p -> get_free_space_end p - header_end p = base p - header_end p.
Proof. intros _ Ht. unfold tight in Ht. by rewrite Ht. Qed.

(** One operation on the loaded page. *)
Definition steps_on (p : Page) (op : PageOp) : Prop :=
  match page_op op p with
  | Some (Ok p') => page_ok p' /\ row_step (rows p) (base p - header_end p) op (Ok tt) (rows p') (get_free_space_end p' - header_end p')
  | Some (Err e) => row_step (rows p) (base p - header_end p) op (Err e) (rows p) (base p - header_end p)
  | None => False
  end.

(** The room after a step is [g]. *)
Ltac room_is g :=
  match goal with |- row_step _ _ _ _ _ ?x => replace x with g; [|unfold base, header_end, blen in *; cbn; rewrite ?length_insert, ?length_app, ?length_take, ?length_drop; cbn; lia] end.

Lemma insert_steps p d : page_ok p -> tight p -> d <> [] -> steps_on p (OpInsert d).
Proof.
  intros H Ht Hd. pose proof (ok_room p H) as Hr. unfold steps_on. cbn [page_op].
  pose proof (insert_row p d H Ht Hd) as Hi. destruct (HeapPage.insert p d) as [[p' k]|e] eqn:E.
  - destruct Hi as (_ & Er & H' & Ht'). split; [done|]. rewrite Er, page_gap by done.
    unfold HeapPage.insert in E. rewrite start_ok in E by done. unfold tight in Ht. rewrite Ht, usub_le in E by done.
    destruct (N.ltb_spec (base p - header_end p) (blen d + SLOT_ENTRY_SIZE)) as [|Hge]; [done|]. injection E as <- _.
    room_is (base p - header_end p - blen d - SLOT_ENTRY_SIZE). by constructor.
  - destruct Hi as [-> Hlt]. constructor. lia.
Qed.

Lemma update_steps p i old d : page_ok p -> tight p -> d <> [] -> rows p !! i = Some (Some old) -> steps_on p (OpUpdate i d).
Proof.
  intros H Ht Hd Ho. pose proof (ok_room p H) as Hr. unfold steps_on. cbn [page_op].
  pose proof (update_row p i old d H Ht Ho Hd) as Hi. destruct (HeapPage.update p i d) as [[p'|e]|] eqn:E; [| |done].
  - destruct Hi as (Er & H' & Ht'). split; [done|]. rewrite Er, page_gap by done. unfold HeapPage.update in E. rewrite read_row in E by done.
    unfold row_result in E. rewrite Ho in E. cbn [mbind option_bind] in E. destruct (slot_arr p !! i) as [s|] eqn:Es; [|done]. cbn [mbind option_bind] in E.
    unfold tight in Ht. rewrite start_ok, Ht, (usub_le (base p) (header_end p)) in E by done.
    destruct (N.leb_spec (blen d) (blen old)) as [Hle|Hgt].
    + destruct (copy_at _ _ d) as [ts|] eqn:Ec; [|done]. injection E as <-. unfold copy_at in Ec. case_match eqn:El; [|done]. injection Ec as <-.
      apply N.leb_le in El. room_is (base p - header_end p). by eapply step_overwrite.
    + destruct (N.leb_spec (blen d) (base p - header_end p)) as [Hf|]; [|done]. injection E as <-.
      room_is (base p - header_end p - blen d). by eapply step_relocate.
  - destruct Hi as (-> & H1 & H2). eapply step_update_full; [done|done|lia].
Qed.

Lemma delete_steps p i : page_ok p -> steps_on p (OpDelete i).
Proof.
  intros H. unfold steps_on. cbn [page_op]. pose proof (delete_row p i H) as Hi. unfold HeapPage.delete in *. destruct (slot_arr p !! i) as [s|] eqn:Es.
  - destruct Hi as (Hl & Er & H'). split; [done|]. rewrite Er. apply step_delete; [done|]. pose proof (base_le_end _ H') as [B _].
    unfold base, header_end, blen in *. cbn in *. rewrite length_insert in *. lia.
  - destruct Hi as [_ Hl]. by apply step_delete_none.
Qed.

Lemma restore_steps p i d : page_ok p -> d <> [] -> steps_on p (OpRestore i d).
Proof.
  intros H Hd. pose proof (ok_room p H) as Hr. unfold steps_on. cbn [page_op]. pose proof (restore_row p i d H Hd) as Hi.
  destruct (restore_at p i d) as [p'|e] eqn:E; unfold restore_at in E; rewrite start_ok, usub_le in E by (done || apply H); fold (base p) in E.
  - destruct Hi as (Hl & Er & H' & Ht'). split; [done|]. rewrite Er, page_gap by done. destruct (negb _); [done|].
    destruct (N.ltb_spec (base p - header_end p) (blen d)) as [|Hge]; [done|]. injection E as <-.
    room_is (base p - header_end p - blen d). by apply step_restore.
  - destruct (Nat.ltb_spec i (length (slot_arr p))) as [Hl|Hl]; cbn [negb] in E.
    + destruct (N.ltb_spec (base p - header_end p) (blen d)); [|done]. injection E as <-. apply step_restore_full; [by rewrite length_rows|lia].
    + injection E as <-. replace (blen (slot_arr p)) with (blen (rows p)) by (unfold blen; by rewrite length_rows).
      apply step_restore_none. by rewrite length_rows.
Qed.

Lemma page_op_step p op : page_ok p -> tight p -> op_ok (rows p) op -> steps_on p op.
Proof.
  intros H Ht Hop. destruct op as [d|i d|i|i d]; cbn [op_ok] in Hop.
  - by apply insert_steps.
  - destruct Hop as [Hd [old Ho]]. by apply (update_steps p i old).
  - by apply delete_steps.
  - by apply restore_steps.
Qed.

(** The same, on the stored page. *)
Lemma with_page_step bytes rs g l op : holds bytes rs g -> op_ok rs op -> l <= max_u64 ->
  match with_page bytes l (page_op op) with
  | Some (Ok bytes') => exists rs' g', row_step rs g op (Ok tt) rs' g' /\ holds bytes' rs' g'
  | Some (Err e) => row_step rs g op (Err e) rs g
  | None => False
  end.
Proof.
  intros (p & Ep & H & Ht & <- & <-) Hop Hl. pose proof (page_op_step p op H Ht Hop) as Hs. unfold steps_on in Hs. unfold with_page. rewrite Ep.
  cbn [mbind option_bind]. destruct (page_op op p) as [[p'|e]|]; cbn [mbind option_bind]; [|done|done]. destruct Hs as [H' Hstep].
  destruct (stored_holds p' l H' Hl) as (bytes' & -> & Hh). cbn [mbind option_bind]. eauto.
Qed.


(** * A fresh page *)

Lemma empty_ok id : id <= max_u32 -> page_ok (HeapPage.empty id) /\ tight (HeapPage.empty id).
Proof. intros H. split; [|done]. split; [done|done|constructor|done|]. repeat split; first [exact H | by vm_compute]. Qed.

Definition row_of (n : N) : list byte := replicate (N.to_nat n) (u8 n).

(** Two rows, the first grown, the second deleted and restored, a slot past the
    end, and a tuple for which there is no room. *)
Definition sample_ops : list (N * PageOp) :=
  [(1, OpInsert (row_of 30)); (2, OpUpdate 0 (row_of 40)); (2, OpInsert (row_of 24)); (3, OpDelete 1); (4, OpRestore 1 (row_of 24)); (5, OpDelete 9);
   (6, OpInsert (replicate (N.to_nat 4000) (u8 7)))].


(** Reading a slot of a page from which the lowest tuple was deleted, without
    storing and loading it in between, yields the bytes of the deleted tuple. *)
Example read_needs_reload :
  let p := match HeapPage.insert (HeapPage.empty 1) (row_of 30) with Ok (p, _) => p | Err _ => HeapPage.empty 1 end in
  let q := match HeapPage.insert p (row_of 24) with Ok (q, _) => q | Err _ => p end in
  match HeapPage.delete q 1 with
  | Ok d => rows d = [Some (row_of 30); None] /\ read d 0 = Some (Ok (row_of 24 ++ take 6 (row_of 30)))
  | Err _ => False
  end.
Proof. vm_compute. done. Qed.
