(* ===== verification/Wal.v ===== *)
(** The write-ahead log: [WalManager] of [src/src/wal/log.rs]. Records are framed
    with their length, their position and a checksum, buffered, and flushed to a
    file that opens with a header; opening a file keeps the frames that are whole
    and cuts the rest. The file is its bytes; a write may fail after some bytes
    of it ([Failed]). [None] is a panic. *)
From S2P Require Import Prelude Bytes Errors.
From S2P Require Import WalRecord.

#[local] Open Scope N_scope.

(** * Checksums *)

Definition crc_step (crc : N) : N :=
  if N.land crc 1 =? 1 then N.lxor (N.shiftr crc 1) 3988292384 else N.shiftr crc 1.
Definition crc32_entry (i : N) : N := Nat.iter 8 crc_step i.
Definition crc32_table : list N := (fun i => crc32_entry (N.of_nat i)) <$> seq 0 256.

Definition crc32_byte (crc : N) (b : byte) : N :=
  let idx := N.land (N.lxor crc (byteN b)) 255 in
  N.lxor (N.shiftr crc 8) (default 0 (crc32_table !! N.to_nat idx)).
Definition crc32 (data : list byte) : N := N.lxor (fold_left crc32_byte data max_u32) max_u32.

(** * State *)

Record LogRecord := mkLogRecord { rec_lsn : N; prev_lsn : N; rec_txn : N; rec_kind : RecKind }.

Record WalManager := mkWal {
  file : list byte; buffer : list byte; start_lsn : N; next_lsn : N; flushed_lsn : N; base_lsn : N;
  header_txn_id : N; pins : list (N * N); next_pin_id : N }.

Definition HEADER_SIZE : N := 24.
Definition MAGIC : N := 4092517121.
Definition VERSION : N := 2.
Definition INITIAL_LSN : N := 1.
Definition MIN_FRAME : N := 33.

Inductive Outcome := Written | Failed (n : nat).

(** * Files *)

(** [pread_all]: all the bytes asked for, or an error at the end of the file. *)
Definition pread_all (f : list byte) (off n : N) : Result FerroError (list byte) :=
  match get_range f (N.to_nat off) (N.to_nat (off + n)) with
  | Some w => Ok w
  | None => Err (Wal EofBeforeRecord)
  end.

(** Bytes written at an offset; a gap reads as zeros. *)
Definition pwrite (f : list byte) (off : N) (src : list byte) : list byte :=
  let at_ := N.to_nat off in
  take at_ f ++ replicate (at_ - length f) (u8 0) ++ src ++ drop (at_ + length src) f.
Definition pwrite_all (f : list byte) (off : N) (src : list byte) (o : Outcome) : list byte * bool :=
  match o with
  | Written => (pwrite f off src, true)
  | Failed n => (pwrite f off (take n src), false)
  end.

(** * Appending and flushing *)

Definition append (w : WalManager) (txn_id prev : N) (kind : RecKind) : Result FerroError (WalManager * N) :=
  let lsn := next_lsn w in
  body ← serialize (be_bytes 8 lsn ++ be_bytes 8 prev ++ be_bytes 8 txn_id) kind;
  let total_len := (4 + blen body + 4) mod 4294967296 in
  let framed := be_bytes 4 total_len ++ body in
  let crc := crc32 framed in
  Ok (mkWal (file w) (buffer w ++ framed ++ be_bytes 4 crc) (start_lsn w) (wadd64 lsn total_len) (flushed_lsn w)
        (base_lsn w) (header_txn_id w) (pins w) (next_pin_id w), lsn).

Definition flush (w : WalManager) (o : Outcome) : WalManager * bool :=
  if bool_decide (buffer w = []) then (w, true)
  else
    let offset := HEADER_SIZE + (start_lsn w - base_lsn w) in
    let '(f, wrote) := pwrite_all (file w) offset (buffer w) o in
    if wrote then
      let end_lsn := start_lsn w + blen (buffer w) in
      (mkWal f [] end_lsn (next_lsn w) (N.max (flushed_lsn w) end_lsn) (base_lsn w) (header_txn_id w) (pins w) (next_pin_id w), true)
    else (mkWal f (buffer w) (start_lsn w) (next_lsn w) (flushed_lsn w) (base_lsn w) (header_txn_id w) (pins w) (next_pin_id w), false).

Definition flush_up_to (w : WalManager) (lsn : N) (o : Outcome) : WalManager * bool :=
  if lsn <? flushed_lsn w then (w, true) else flush w o.

(** * Reading *)

Definition parse_frame (frame : list byte) (lsn : N) : option (Result FerroError (LogRecord * N)) :=
  let total := blen frame in
  if total <? MIN_FRAME then Some (Err (Wal RecordTooShort))
  else
    rl ← get_range frame 4 12;
    stored ← get_range frame (N.to_nat (total - 4)) (N.to_nat total);
    if negb (crc32 (take (N.to_nat (total - 4)) frame) =? of_be stored) then Some (Err (Wal CrcMismatch))
    else
      pl ← get_range frame 12 20;
      tx ← get_range frame 20 28;
      kb ← get_range frame 28 (N.to_nat (total - 4));
      r ← deserialize kb;
      Some (match r with
            | Ok kind => Ok (mkLogRecord (of_be rl) (of_be pl) (of_be tx) kind, wadd64 lsn total)
            | Err e => Err e
            end).

Definition read_record (w : WalManager) (lsn : N) : option (Result FerroError (LogRecord * N)) :=
  if start_lsn w <=? lsn then
    let rel := lsn - start_lsn w in
    if blen (buffer w) <? rel + 4 then Some (Err (Wal LsnPastBuffer))
    else
      lw ← get_range (buffer w) (N.to_nat rel) (N.to_nat (rel + 4));
      let total := of_be lw in
      if (total <? MIN_FRAME) || (blen (buffer w) <? rel + total) then Some (Err (Wal RecordPastBuffer))
      else frame ← get_range (buffer w) (N.to_nat rel) (N.to_nat (rel + total)); parse_frame frame lsn
  else if lsn <? base_lsn w then Some (Err (Wal (BelowLogBase lsn)))
  else
    let offset := HEADER_SIZE + (lsn - base_lsn w) in
    match pread_all (file w) offset 4 with
    | Err e => Some (Err e)
    | Ok lw =>
        let total := of_be lw in
        if total <? MIN_FRAME then Some (Err (Wal RecordLength))
        else match pread_all (file w) offset total with
             | Err e => Some (Err e)
             | Ok frame => parse_frame frame lsn
             end
    end.

(** * Opening *)

(** The loop of [scan_valid_end]: every whole frame is at least [MIN_FRAME]
    bytes, so the length of the file is fuel enough. *)
Fixpoint scan_loop (fuel : nat) (f : list byte) (base offset : N) : Result FerroError N :=
  match fuel with
  | O => Ok offset
  | S fuel =>
      if blen f <? offset + 4 then Ok offset
      else
        lw ← pread_all f offset 4;
        let total := of_be lw in
        if (total <? MIN_FRAME) || (blen f <? offset + total) then Ok offset
        else
          frame ← pread_all f offset total;
          let stored := of_be (drop (N.to_nat (total - 4)) frame) in
          if negb (crc32 (take (N.to_nat (total - 4)) frame) =? stored) then Ok offset
          else
            let expected := base + (offset - HEADER_SIZE) in
            let embedded := of_be (take 8 (drop 4 frame)) in
            if negb (embedded =? expected) then Ok offset
            else scan_loop fuel f base (offset + total)
  end.
Definition scan_valid_end (f : list byte) (base : N) : Result FerroError N :=
  offset ← scan_loop (length f) f base HEADER_SIZE;
  Ok (base + (offset - HEADER_SIZE)).

Definition header_bytes (base txn : N) : list byte :=
  be_bytes 4 MAGIC ++ be_bytes 4 VERSION ++ be_bytes 8 base ++ be_bytes 8 txn.

Definition with_storage (f : list byte) : Result FerroError WalManager :=
  r ← (if bool_decide (f = []) then Ok (header_bytes INITIAL_LSN 1, INITIAL_LSN, 1)
       else
         header ← pread_all f 0 HEADER_SIZE;
         if negb (of_be (take 4 header) =? MAGIC) then Err (Wal LogMagic)
         else if negb (of_be (take 4 (drop 4 header)) =? VERSION) then Err (Wal LogVersion)
         else Ok (f, of_be (take 8 (drop 8 header)), of_be (take 8 (drop 16 header))));
  let '(f', base, txn) := r in
  valid_end ← scan_valid_end f base;
  let file_end := HEADER_SIZE + (valid_end - base) in
  let f' := if file_end <? blen f then take (N.to_nat file_end) f' else f' in
  Ok (mkWal f' [] valid_end valid_end valid_end base txn [] 1).

(** * Pins and truncation *)

Definition set_pins (ps : list (N * N)) (id : N) (w : WalManager) : WalManager :=
  mkWal (file w) (buffer w) (start_lsn w) (next_lsn w) (flushed_lsn w) (base_lsn w) (header_txn_id w) ps id.

Definition pin_durable (w : WalManager) : WalManager * (N * N) :=
  let id := next_pin_id w in
  (set_pins (pins w ++ [(id, flushed_lsn w)]) (id + 1) w, (id, flushed_lsn w)).
Definition pin (w : WalManager) (lsn : N) : Result FerroError (WalManager * (N * N)) :=
  if lsn <? base_lsn w then Err (Wal (PinBelowBase lsn (base_lsn w)))
  else let id := next_pin_id w in Ok (set_pins (pins w ++ [(id, lsn)]) (id + 1) w, (id, lsn)).
(** Dropping the pin. *)
Definition unpin (w : WalManager) (id : N) : WalManager :=
  set_pins (List.filter (fun p => negb (p.1 =? id)) (pins w)) (next_pin_id w) w.
Definition min_pinned_lsn (w : WalManager) : option N :=
  match (pins w).*2 with [] => None | p :: ps => Some (fold_left N.min ps p) end.

(** [truncate], whose writes all succeed: the log is emptied unless a reader has
    pinned a part of it. *)
Definition truncate (w : WalManager) (next_txn_id : N) : WalManager :=
  let w := (flush w Written).1 in
  let next := next_lsn w in
  let emptied := mkWal (header_bytes next next_txn_id) [] next next next next (header_txn_id w) (pins w) (next_pin_id w) in
  match min_pinned_lsn w with
  | Some oldest => if oldest <? next then w else emptied
  | None => emptied
  end.
