(* ===== verification/WalProps.v ===== *)
(** The log survives a crash. Whatever was appended and flushed, and however much
    of a failed flush reached the file, a file cut anywhere behind its header
    opens to a log that holds the leading whole records, every flushed one among
    them, and each reads back as it was appended. *)
From S2P Require Import Prelude Bytes Errors WalRecord Wal.

#[local] Open Scope N_scope.

(** * Checksums fit their field *)

Lemma lxor_lt n a b : a < 2 ^ n -> b < 2 ^ n -> N.lxor a b < 2 ^ n.
Proof.
  intros Ha Hb. destruct (decide (N.lxor a b = 0)) as [->|H0]; [apply N.neq_0_lt_0, N.pow_nonzero; lia|].
  apply N.log2_lt_pow2; [lia|]. pose proof (N.log2_lxor a b) as Hl. 
  assert (forall x, x < 2 ^ n -> x = 0 \/ N.log2 x < n) as Hx.
  { intros x Hx. destruct (decide (x = 0)); [by left|right]. apply N.log2_lt_pow2; [lia|done]. }
  assert (n <> 0) as Hn.
  { intros ->. change (2 ^ 0) with 1 in *. replace a with 0 in H0 by lia. replace b with 0 in H0 by lia. done. }
  destruct (Hx a Ha) as [->|Ea], (Hx b Hb) as [->|Eb]; cbn in Hl; lia.
Qed.

Lemma crc32_table_lt i : default 0 (crc32_table !! i) < 2 ^ 32.
Proof.
  assert (Forall (fun x => x < 2 ^ 32) crc32_table) as F by (apply (bool_decide_eq_true_1 _); vm_compute; reflexivity).
  destruct (crc32_table !! i) as [x|] eqn:E; [|done]. cbn. rewrite Forall_lookup in F. by apply (F i).
Qed.

Lemma crc32_lt data : crc32 data < 2 ^ 32.
Proof.
  unfold crc32. apply lxor_lt; [|done]. assert (max_u32 < 2 ^ 32) as H by done. revert H. generalize max_u32.
  induction data as [|b data IH]; intros c Hc; [done|]. cbn [fold_left]. apply IH. unfold crc32_byte. apply lxor_lt; [|apply crc32_table_lt].
  rewrite N.shiftr_div_pow2. eapply N.le_lt_trans; [|exact Hc]. apply N.Div0.div_le_upper_bound. change (2 ^ 8) with 256. lia.
Qed.

(** * Frames *)

Definition record_ok (r : LogRecord) : Prop := u64_ok (rec_lsn r) /\ u64_ok (prev_lsn r) /\ u64_ok (rec_txn r) /\ rec_ok (rec_kind r).

Definition framed (r : LogRecord) (fr : list byte) : Prop :=
  exists body, serialize (be_bytes 8 (rec_lsn r) ++ be_bytes 8 (prev_lsn r) ++ be_bytes 8 (rec_txn r)) (rec_kind r) = Ok body /\
    blen fr <= max_u32 /\ fr = be_bytes 4 (blen fr) ++ body ++ be_bytes 4 (crc32 (be_bytes 4 (blen fr) ++ body)).

Lemma serialize_kind r b out : rec_ok r -> serialize b r = Ok out -> exists w, out = b ++ w /\ deserialize w = Some (Ok r).
Proof.
  intros Hok H. destruct (serialize_deserialize r b out Hok H) as (w & -> & Hw). exists w. split; [done|].
  assert (deserialize (w ++ []) = Some (Ok r)) as H0 by (apply Hw; rewrite length_app; lia). by rewrite app_nil_r in H0.
Qed.

(** The parts of a frame. *)
Lemma framed_parts r fr : record_ok r -> framed r fr ->
  exists kb, fr = be_bytes 4 (blen fr) ++ (be_bytes 8 (rec_lsn r) ++ be_bytes 8 (prev_lsn r) ++ be_bytes 8 (rec_txn r) ++ kb)
                  ++ be_bytes 4 (crc32 (take (N.to_nat (blen fr - 4)) fr)) /\
    blen fr = 32 + blen kb /\ 0 < blen kb /\ deserialize kb = Some (Ok (rec_kind r)).
Proof.
  intros (_ & _ & _ & Hk) (body & Hs & Hl & Hf).
  destruct (serialize_kind (rec_kind r) _ _ Hk Hs) as (kb & -> & Hd). exists kb.
  assert (blen fr = 32 + blen kb) as El.
  { rewrite Hf at 1. rewrite !blen_app, !blen_be_bytes. lia. }
  assert (take (N.to_nat (blen fr - 4)) fr = be_bytes 4 (blen fr) ++ (be_bytes 8 (rec_lsn r) ++ be_bytes 8 (prev_lsn r) ++ be_bytes 8 (rec_txn r)) ++ kb) as Et.
  { rewrite Hf at 2. rewrite app_assoc, take_app_length'; [by rewrite <- !app_assoc|].
    rewrite !length_app, !length_be_bytes. unfold blen in El |- *. lia. }
  split; [|split; [done|split]].
  - rewrite Et. rewrite Hf at 1. by rewrite <- !app_assoc.
  - destruct kb; [|rewrite blen_cons; lia]. by vm_compute in Hd.
  - done.
Qed.

Lemma framed_size r fr : record_ok r -> framed r fr -> MIN_FRAME <= blen fr /\ blen fr <= max_u32.
Proof.
  intros Hr Hf. destruct (framed_parts r fr Hr Hf) as (kb & _ & El & Hk & _). destruct Hf as (body & _ & Hl & _). unfold MIN_FRAME. lia.
Qed.

Lemma framed_length r fr : record_ok r -> framed r fr -> exists rest, fr = be_bytes 4 (blen fr) ++ rest.
Proof. intros Hr Hf. destruct (framed_parts r fr Hr Hf) as (kb & E & _). eauto. Qed.

Lemma parse_framed r fr lsn : record_ok r -> framed r fr -> parse_frame fr lsn = Some (Ok (r, wadd64 lsn (blen fr))).
Proof.
  intros Hr Hf. destruct (framed_size r fr Hr Hf) as [H1 H2]. destruct (framed_parts r fr Hr Hf) as (kb & E & El & _ & Hd).
  destruct Hr as (R1 & R2 & R3 & _). unfold parse_frame. rewrite (proj2 (N.ltb_ge _ _)) by done.
  set (crc := crc32 (take (N.to_nat (blen fr - 4)) fr)) in *. set (n4 := be_bytes 4 (blen fr)) in *.
  set (b1 := be_bytes 8 (rec_lsn r)) in *. set (b2 := be_bytes 8 (prev_lsn r)) in *. set (b3 := be_bytes 8 (rec_txn r)) in *.
  assert (forall pre w rest a b, fr = pre ++ w ++ rest -> a = length pre -> b = (length pre + length w)%nat -> get_range fr a b = Some w) as G.
  { intros pre w rest a b ->. apply get_range_mid. }
  assert (length fr = (32 + length kb)%nat) as Ln by (unfold blen in El; lia).
  rewrite (G n4 b1 (b2 ++ b3 ++ kb ++ be_bytes 4 crc) 4%nat 12%nat) by (rewrite ?E, <- ?app_assoc; done). cbn [mbind option_bind].
  rewrite (G (n4 ++ b1 ++ b2 ++ b3 ++ kb) (be_bytes 4 crc) [] (N.to_nat (blen fr - 4)) (N.to_nat (blen fr))).
  2:{ rewrite E at 1. by rewrite app_nil_r, <- !app_assoc. }
  2:{ unfold n4, b1, b2, b3. rewrite !length_app, !length_be_bytes. unfold blen. lia. }
  2:{ unfold n4, b1, b2, b3. rewrite !length_app, !length_be_bytes. unfold blen. lia. }
  cbn [mbind option_bind]. rewrite of_be_be_bytes_small by (apply crc32_lt). fold crc. rewrite N.eqb_refl. cbn [negb].
  rewrite (G (n4 ++ b1) b2 (b3 ++ kb ++ be_bytes 4 crc) 12%nat 20%nat) by (rewrite ?E, <- ?app_assoc; done). cbn [mbind option_bind].
  rewrite (G (n4 ++ b1 ++ b2) b3 (kb ++ be_bytes 4 crc) 20%nat 28%nat) by (rewrite ?E, <- ?app_assoc; done). cbn [mbind option_bind].
  rewrite (G (n4 ++ b1 ++ b2 ++ b3) kb (be_bytes 4 crc) 28%nat (N.to_nat (blen fr - 4))).
  2:{ rewrite E at 1. by rewrite <- !app_assoc. }
  2:{ done. }
  2:{ unfold n4, b1, b2, b3. rewrite !length_app, !length_be_bytes. unfold blen. lia. }
  cbn [mbind option_bind]. rewrite Hd. cbn [mbind option_bind]. unfold b1, b2, b3.
  rewrite !of_be_be_bytes_small by (cbn; unfold u64_ok, max_u64 in *; lia). by destruct r.
Qed.

(** * Runs of frames *)

Abbreviation frames := (list (LogRecord * list byte)) (only parsing).

Definition bytes_of (rs : frames) : list byte := concat rs.*2.

(** Frames that follow each other from position [b]. *)
Fixpoint chain (b : N) (rs : frames) : Prop :=
  match rs with
  | [] => True
  | (r, fr) :: rs => rec_lsn r = b /\ record_ok r /\ framed r fr /\ chain (b + blen fr) rs
  end.

(** How many of them fit whole in [m] bytes. *)
Fixpoint whole (m : nat) (rs : frames) : nat :=
  match rs with
  | [] => O
  | (r, fr) :: rs => if (length fr <=? m)%nat then S (whole (m - length fr) rs) else O
  end.

Lemma bytes_cons r fr rs : bytes_of ((r, fr) :: rs) = fr ++ bytes_of rs.
Proof. done. Qed.

Lemma bytes_app rs1 rs2 : bytes_of (rs1 ++ rs2) = bytes_of rs1 ++ bytes_of rs2.
Proof. unfold bytes_of. by rewrite fmap_app, concat_app. Qed.

Lemma chain_app b rs1 rs2 : chain b (rs1 ++ rs2) <-> chain b rs1 /\ chain (b + blen (bytes_of rs1)) rs2.
Proof.
  revert b. induction rs1 as [|[r fr] rs1 IH]; intros b; cbn [app chain].
  - change (bytes_of []) with (@nil byte). rewrite blen_nil, N.add_0_r. tauto.
  - rewrite IH, bytes_cons, blen_app, N.add_assoc. tauto.
Qed.

Lemma whole_bytes m rs : (length (bytes_of (take (whole m rs) rs)) <= m)%nat.
Proof.
  revert m. induction rs as [|[r fr] rs IH]; intros m; [cbn; lia|]. cbn [whole]. destruct (Nat.leb_spec (length fr) m); [|cbn; lia].
  cbn [take]. rewrite bytes_cons, length_app. pose proof (IH (m - length fr)%nat). lia.
Qed.

Lemma whole_ge m n rs : (length (bytes_of (take n rs)) <= m)%nat -> (n <= length rs)%nat -> (n <= whole m rs)%nat.
Proof.
  revert m n. induction rs as [|[r fr] rs IH]; intros m n Hm Hn; [cbn in Hn; lia|]. destruct n as [|n]; [lia|]. cbn [take] in Hm.
  rewrite bytes_cons, length_app in Hm. cbn [whole]. cbn in Hn. destruct (Nat.leb_spec (length fr) m); [|lia].
  apply le_n_S, IH; lia.
Qed.

(** * Scanning *)

Lemma pread_part (pre w rest : list byte) off n : off = blen pre -> n = blen w -> pread_all (pre ++ w ++ rest) off n = Ok w.
Proof.
  intros -> ->. unfold pread_all. rewrite get_range_mid; [done|by rewrite to_nat_blen|]. rewrite <- blen_app, to_nat_blen. apply length_app.
Qed.

(** A frame in the file, and what follows it. *)
Lemma scan_frame fuel pre r fr rest base : record_ok r -> framed r fr -> rec_lsn r = base + (blen pre - HEADER_SIZE) ->
  scan_loop (S fuel) (pre ++ fr ++ rest) base (blen pre) = scan_loop fuel ((pre ++ fr) ++ rest) base (blen (pre ++ fr)).
Proof.
  intros Hr Hf Hl. destruct (framed_size r fr Hr Hf) as [H1 H2]. unfold MIN_FRAME in H1.
  destruct (framed_parts r fr Hr Hf) as (kb & E & El & _ & _).
  cbn [scan_loop]. rewrite (proj2 (N.ltb_ge _ _)) by (rewrite !blen_app; lia).
  set (crc := crc32 (take (N.to_nat (blen fr - 4)) fr)) in *.
  assert (fr = be_bytes 4 (blen fr) ++ (be_bytes 8 (rec_lsn r) ++ be_bytes 8 (prev_lsn r) ++ be_bytes 8 (rec_txn r) ++ kb) ++ be_bytes 4 crc) as E' by done.
  assert (pread_all (pre ++ fr ++ rest) (blen pre) 4 = Ok (be_bytes 4 (blen fr))) as ->.
  { rewrite E' at 1. rewrite <- app_assoc. apply pread_part; [done|by rewrite blen_be_bytes]. }
  cbn [mbind result_bind]. rewrite of_be_be_bytes_small by (unfold max_u32 in H2; cbn; lia).
  rewrite (proj2 (N.ltb_ge _ _)) by done. rewrite (proj2 (N.ltb_ge _ _)) by (rewrite !blen_app; lia). cbn [orb].
  rewrite (pread_part pre fr rest) by done. cbn [mbind result_bind].
  assert (drop (N.to_nat (blen fr - 4)) fr = be_bytes 4 crc) as ->.
  { rewrite E' at 2. rewrite app_assoc, drop_app_length'; [done|]. rewrite !length_app, !length_be_bytes. unfold blen in *. lia. }
  rewrite of_be_be_bytes_small by apply crc32_lt. fold crc. rewrite N.eqb_refl. cbn [negb].
  assert (take 8 (drop 4 fr) = be_bytes 8 (rec_lsn r)) as ->.
  { rewrite E' at 1. rewrite drop_app_length' by (by rewrite length_be_bytes). rewrite <- !app_assoc, take_app_length' by (by rewrite length_be_bytes). done. }
  rewrite of_be_be_bytes_small by (destruct Hr as (R & _); unfold u64_ok, max_u64 in R; cbn; lia). rewrite Hl, N.eqb_refl. cbn [negb].
  by rewrite <- app_assoc, blen_app.
Qed.

(** A frame of which the end is missing. *)
Lemma scan_torn fuel pre r fr m base : record_ok r -> framed r fr -> (m < length fr)%nat ->
  scan_loop (S fuel) (pre ++ take m fr) base (blen pre) = Ok (blen pre).
Proof.
  intros Hr Hf Hm. destruct (framed_size r fr Hr Hf) as [H1 H2]. destruct (framed_length r fr Hr Hf) as [rest E]. cbn [scan_loop].
  destruct (N.ltb_spec (blen (pre ++ take m fr)) (blen pre + 4)) as [|Hge]; [done|]. rewrite blen_app in Hge.
  assert (blen (take m fr) = N.of_nat m) as Lm by (unfold blen; rewrite length_take; lia). rewrite Lm in Hge.
  assert (take m fr = be_bytes 4 (blen fr) ++ take (m - 4) rest) as Et.
  { rewrite E at 1. rewrite take_app_ge by (rewrite length_be_bytes; lia). by rewrite length_be_bytes. }
  rewrite Et, (pread_part pre (be_bytes 4 (blen fr))) by (by rewrite ?blen_be_bytes). cbn [mbind result_bind].
  rewrite of_be_be_bytes_small by (unfold max_u32 in H2; cbn; lia). rewrite <- Et.
  rewrite (proj2 (N.ltb_lt (blen (pre ++ take m fr)) _)); [by rewrite orb_true_r|]. rewrite blen_app. unfold blen. rewrite length_take. lia.
Qed.

Lemma scan_prefix rs pre m fuel base : chain (base + (blen pre - HEADER_SIZE)) rs -> HEADER_SIZE <= blen pre -> (whole m rs < fuel)%nat ->
  scan_loop fuel (pre ++ take m (bytes_of rs)) base (blen pre) = Ok (blen pre + blen (bytes_of (take (whole m rs) rs))).
Proof.
  revert pre m fuel. induction rs as [|[r fr] rs IH]; intros pre m fuel Hc Hp Hf; (destruct fuel as [|fuel]; [lia|]).
  - change (bytes_of []) with (@nil byte). rewrite take_nil, app_nil_r. cbn [scan_loop]. rewrite (proj2 (N.ltb_lt _ _)) by lia.
    cbn. by rewrite N.add_0_r.
  - destruct Hc as (Hl & Hr & Hfr & Hc). rewrite bytes_cons. cbn [whole]. destruct (Nat.leb_spec (length fr) m) as [Hle|Hgt].
    + rewrite take_app_ge by done. rewrite (scan_frame fuel pre r fr _ base Hr Hfr Hl). rewrite IH.
      * cbn [take]. rewrite bytes_cons, !blen_app. f_equal. lia.
      * rewrite blen_app. replace (base + (blen pre + blen fr - HEADER_SIZE)) with (base + (blen pre - HEADER_SIZE) + blen fr) by lia. done.
      * rewrite blen_app. lia.
      * cbn [whole] in Hf. rewrite (proj2 (Nat.leb_le _ _) Hle) in Hf. lia.
    + rewrite take_app_le by lia. rewrite (scan_torn fuel pre r fr m base Hr Hfr Hgt). cbn. by rewrite N.add_0_r.
Qed.

(** * What the manager holds *)

(** The flushed and the buffered records of a log. *)
Record logs (w : WalManager) (rs1 rs2 : frames) : Prop := {
  lg_file : exists txn n, u64_ok txn /\ file w = header_bytes (base_lsn w) txn ++ bytes_of rs1 ++ take n (bytes_of rs2);
  lg_buffer : buffer w = bytes_of rs2;
  lg_chain : chain (base_lsn w) (rs1 ++ rs2);
  lg_start : start_lsn w = base_lsn w + blen (bytes_of rs1);
  lg_next : next_lsn w = start_lsn w + blen (buffer w);
  lg_flushed : flushed_lsn w = start_lsn w;
  lg_max : next_lsn w <= max_u64 }.

Lemma length_log_header base txn : length (header_bytes base txn) = 24%nat.
Proof. unfold header_bytes. by rewrite !length_app, !length_be_bytes. Qed.

Lemma append_logs w rs1 rs2 txn prev kind w' lsn : logs w rs1 rs2 -> append w txn prev kind = Ok (w', lsn) ->
  u64_ok txn -> u64_ok prev -> rec_ok kind -> blen (buffer w') <= blen (buffer w) + max_u32 -> start_lsn w + blen (buffer w') <= max_u64 ->
  exists fr, lsn = next_lsn w /\ logs w' rs1 (rs2 ++ [(mkLogRecord lsn prev txn kind, fr)]).
Proof.
  intros [(t & n & Ht & Hfile) Hb Hc Hst Hn Hfl Hm] Ha H1 H2 H3 Hlen Hmax. unfold append in Ha.
  destruct (serialize _ kind) as [body|] eqn:Es; [|done]. cbn [mbind result_bind] in Ha. set (wn := mkWal _ _ _ _ _ _ _ _ _) in Ha. injection Ha as <- <-. unfold wn in *. clear wn. cbn [file buffer base_lsn start_lsn next_lsn flushed_lsn] in Hlen, Hmax.
  set (total := 4 + blen body + 4) in *.
  assert (total <= max_u32) as Ht'.
  { rewrite !blen_app, !blen_be_bytes in Hlen. unfold total. lia. }
  rewrite (N.mod_small total) in * by (unfold max_u32 in *; lia).
  set (fr := be_bytes 4 total ++ body ++ be_bytes 4 (crc32 (be_bytes 4 total ++ body))).
  assert (blen fr = total) as Lf by (unfold fr; rewrite !blen_app, !blen_be_bytes; unfold total; lia).
  exists fr. split; [done|]. set (r := mkLogRecord (next_lsn w) prev txn kind).
  assert (record_ok r) as Hr by (split; [exact Hm|done]).
  assert (framed r fr) as Hf by (exists body; rewrite Lf; split; [done|]; split; [done|reflexivity]).
  assert (bytes_of [(r, fr)] = fr) as E1 by (unfold bytes_of; cbn; by rewrite app_nil_r). split; cbn [file buffer base_lsn start_lsn next_lsn flushed_lsn].
  - exists t, (Nat.min n (length (bytes_of rs2))). split; [done|]. rewrite Hfile, bytes_app. rewrite (take_app_le (bytes_of rs2)) by lia.
    do 2 f_equal. destruct (decide (n <= length (bytes_of rs2))%nat); [f_equal; lia|]. rewrite !take_ge by lia. done.
  - by rewrite Hb, bytes_app, E1, <- app_assoc.
  - rewrite app_assoc, chain_app. split; [done|]. cbn. split; [|done]. rewrite bytes_app, blen_app, Hn, Hst, Hb. lia.
  - done.
  - rewrite wadd64_small; [|rewrite Hn; rewrite <- app_assoc, !blen_app, !blen_be_bytes in Hmax; unfold total; lia].
    rewrite Hn, !blen_app, !blen_be_bytes. unfold total. lia.
  - done.
  - apply wadd64_le.
Qed.

Lemma flush_logs w rs1 rs2 o : logs w rs1 rs2 ->
  match flush w o with
  | (w', true) => logs w' (rs1 ++ rs2) []
  | (w', false) => logs w' rs1 rs2
  end.
Proof.
  intros H. pose proof H as [(t & n & Ht & Hfile) Hb Hc Hst Hn Hfl Hm]. unfold flush. case_bool_decide as Hemp.
  - rewrite Hb in Hemp. assert (rs2 = []) as ->; [|by rewrite app_nil_r].
    destruct rs2 as [|[r fr] rs2]; [done|]. apply chain_app in Hc as [_ (_ & Hr & Hf & _)]. destruct (framed_size r fr Hr Hf) as [Hs _].
    rewrite bytes_cons in Hemp. destruct fr; [|done]. change (33 <= 0) in Hs. lia.
  - assert (HEADER_SIZE + (start_lsn w - base_lsn w) = blen (header_bytes (base_lsn w) t ++ bytes_of rs1)) as Eo.
    { rewrite blen_app. replace (blen (header_bytes (base_lsn w) t)) with 24 by (unfold blen; by rewrite length_log_header). unfold HEADER_SIZE. lia. }
    assert (forall src, pwrite (file w) (HEADER_SIZE + (start_lsn w - base_lsn w)) src
      = header_bytes (base_lsn w) t ++ bytes_of rs1 ++ src ++ drop (length src) (take n (bytes_of rs2))) as Hw.
    { intros src. unfold pwrite. rewrite Eo, to_nat_blen. rewrite app_assoc in Hfile. set (A := header_bytes (base_lsn w) t ++ bytes_of rs1) in *.
      rewrite Hfile, take_app_length, length_app. replace (length A - _)%nat with O by lia. cbn [replicate app].
      rewrite <- drop_drop, drop_app_length. unfold A. by rewrite <- !app_assoc. }
    destruct o as [|j]; unfold pwrite_all; rewrite Hw, Hb.
    + split; cbn [file buffer base_lsn start_lsn next_lsn flushed_lsn].
      * exists t, O. split; [done|]. rewrite drop_ge by (rewrite length_take; lia). by rewrite bytes_app, app_nil_r, <- app_assoc, take_0, !app_nil_r.
      * done.
      * by rewrite app_nil_r.
      * rewrite bytes_app, blen_app, Hst. lia.
      * rewrite Hn, Hb. change (blen []) with 0. lia.
      * rewrite Hfl. lia.
      * done.
    + split; cbn [file buffer base_lsn start_lsn next_lsn flushed_lsn]; try done.
      * exists t, (Nat.max j n). split; [done|]. do 2 f_equal. destruct (decide (j <= n)%nat) as [Hj|Hj].
        -- replace (Nat.max j n) with n by lia. rewrite <- (take_drop (length (take j (bytes_of rs2))) (take n (bytes_of rs2))) at 2.
           f_equal. rewrite take_take. destruct (decide (j <= length (bytes_of rs2))%nat).
           ++ rewrite length_take. f_equal. lia.
           ++ rewrite (take_ge (bytes_of rs2) j) by lia. rewrite Nat.min_l by lia. by rewrite (take_ge (bytes_of rs2)).
        -- replace (Nat.max j n) with j by lia. rewrite drop_ge, app_nil_r; [done|]. rewrite !length_take. lia.
      * rewrite Hn, Hb. done.
Qed.

(** * Every record reads back *)

Lemma frame_range r fr (pre post total : list byte) : record_ok r -> framed r fr -> total = pre ++ fr ++ post ->
  get_range total (N.to_nat (blen pre)) (N.to_nat (blen pre + 4)) = Some (be_bytes 4 (blen fr)) /\
  get_range total (N.to_nat (blen pre)) (N.to_nat (blen pre + blen fr)) = Some fr /\ of_be (be_bytes 4 (blen fr)) = blen fr.
Proof.
  intros Hr Hf ->. destruct (framed_size r fr Hr Hf) as [_ S2]. destruct (framed_length r fr Hr Hf) as [rest Ef].
  replace (N.to_nat (blen pre + 4)) with (length pre + 4)%nat by (unfold blen; lia).
  replace (N.to_nat (blen pre + blen fr)) with (length pre + length fr)%nat by (unfold blen; lia). rewrite to_nat_blen.
  split; [rewrite Ef at 1; rewrite <- app_assoc; apply get_range_mid; [done|by rewrite length_be_bytes]|].
  split; [by apply get_range_mid|]. apply of_be_be_bytes_small. unfold max_u32 in S2. cbn. lia.
Qed.

(** A record in the buffer. *)
Lemma read_buffered w rs1 pre r fr post : logs w rs1 (pre ++ (r, fr) :: post) ->
  read_record w (rec_lsn r) = Some (Ok (r, rec_lsn r + blen fr)).
Proof.
  intros [_ Hb Hc Hst Hn _ Hm]. rewrite app_assoc in Hc. apply chain_app in Hc as [_ (Hl & Hr & Hf & _)].
  rewrite bytes_app, bytes_cons in Hb. rewrite bytes_app, blen_app in Hl. destruct (framed_size r fr Hr Hf) as [S1 _].
  destruct (frame_range r fr (bytes_of pre) (bytes_of post) (buffer w) Hr Hf Hb) as (G1 & G2 & Et).
  assert (blen (buffer w) = blen (bytes_of pre) + blen fr + blen (bytes_of post)) as Lq by (rewrite Hb, !blen_app; lia).
  unfold read_record. rewrite (proj2 (N.leb_le _ _)) by lia. replace (rec_lsn r - start_lsn w) with (blen (bytes_of pre)) by lia.
  rewrite (proj2 (N.ltb_ge _ _)) by (unfold MIN_FRAME in S1; lia). rewrite G1. cbn [mbind option_bind]. rewrite Et.
  rewrite (proj2 (N.ltb_ge _ _)) by done. rewrite (proj2 (N.ltb_ge _ _)) by lia. cbn [orb]. rewrite G2. cbn [mbind option_bind].
  rewrite (parse_framed r fr) by done. rewrite wadd64_small; [done|]. lia.
Qed.

(** A record in the file. *)
Lemma read_flushed w pre r fr post rs2 : logs w (pre ++ (r, fr) :: post) rs2 ->
  read_record w (rec_lsn r) = Some (Ok (r, rec_lsn r + blen fr)).
Proof.
  intros [(t & n & _ & Hfile) Hb Hc Hst Hn _ Hm]. apply chain_app in Hc as [Hc _]. apply chain_app in Hc as [_ (Hl & Hr & Hf & _)].
  rewrite bytes_app, bytes_cons in Hfile, Hst. destruct (framed_size r fr Hr Hf) as [S1 _]. rewrite !blen_app in Hst.
  assert (file w = (header_bytes (base_lsn w) t ++ bytes_of pre) ++ fr ++ (bytes_of post ++ take n (bytes_of rs2))) as Ef.
  { rewrite Hfile. by rewrite <- !app_assoc. }
  destruct (frame_range r fr _ _ (file w) Hr Hf Ef) as (G1 & G2 & Et).
  assert (blen (header_bytes (base_lsn w) t ++ bytes_of pre) = HEADER_SIZE + (rec_lsn r - base_lsn w)) as Eo.
  { rewrite blen_app. replace (blen (header_bytes (base_lsn w) t)) with HEADER_SIZE by (unfold blen; by rewrite length_log_header). lia. }
  rewrite Eo in G1, G2. unfold MIN_FRAME in S1. unfold read_record. rewrite (proj2 (N.leb_gt _ _)) by lia. rewrite (proj2 (N.ltb_ge _ _)) by lia.
  unfold pread_all. rewrite G1, Et, (proj2 (N.ltb_ge _ _)) by done. rewrite G2.
  rewrite (parse_framed r fr) by done. rewrite wadd64_small; [done|]. lia.
Qed.

Lemma read_logged w rs1 rs2 r fr : logs w rs1 rs2 -> (r, fr) ∈ rs1 ++ rs2 -> read_record w (rec_lsn r) = Some (Ok (r, rec_lsn r + blen fr)).
Proof.
  intros H Hin. apply elem_of_app in Hin as [Hin|Hin]; apply list_elem_of_split in Hin as (l1 & l2 & ->).
  - by eapply read_flushed.
  - by eapply read_buffered.
Qed.

(** * Opening a file that was cut *)

Lemma take_torn (A B : list byte) n k : take k (A ++ take n B) = take (Nat.min k (length A + n)) (A ++ B).
Proof.
  replace (A ++ take n B) with (take (length A + n) (A ++ B)); [by rewrite take_take|]. by rewrite take_app_add.
Qed.

Lemma bytes_take_le n rs : (length (bytes_of (take n rs)) <= length (bytes_of rs))%nat.
Proof. rewrite <- (take_drop n rs) at 2. rewrite bytes_app, length_app. lia. Qed.

Lemma chain_count b rs : chain b rs -> (length rs <= length (bytes_of rs))%nat.
Proof.
  revert b. induction rs as [|[r fr] rs IH]; intros b Hc; [cbn; lia|]. destruct Hc as (_ & Hr & Hf & Hc). destruct (framed_size r fr Hr Hf) as [S1 _].
  rewrite bytes_cons, length_app. specialize (IH _ Hc). unfold MIN_FRAME, blen in S1. cbn. lia.
Qed.

Lemma whole_le m rs : (whole m rs <= length rs)%nat.
Proof. revert m. induction rs as [|[r fr] rs IH]; intros m; [done|]. cbn. destruct (_ <=? m)%nat; [|lia]. apply le_n_S, IH. Qed.

Lemma log_header_fields base txn rest : u64_ok base -> u64_ok txn -> let h := header_bytes base txn in
  pread_all (h ++ rest) 0 HEADER_SIZE = Ok h /\ of_be (take 4 h) = MAGIC /\ of_be (take 4 (drop 4 h)) = VERSION /\
  of_be (take 8 (drop 8 h)) = base /\ of_be (take 8 (drop 16 h)) = txn.
Proof.
  intros Hb Ht h. unfold u64_ok, max_u64 in *. split; [apply (pread_part []); [done|unfold h, blen; by rewrite length_log_header]|].
  unfold h, header_bytes. rewrite take_app_length' by (by rewrite length_be_bytes). rewrite drop_app_length' by (by rewrite length_be_bytes).
  rewrite take_app_length' by (by rewrite length_be_bytes). rewrite app_assoc. rewrite drop_app_length' by (by rewrite length_app, !length_be_bytes).
  rewrite take_app_length' by (by rewrite length_be_bytes). rewrite app_assoc. rewrite drop_app_length' by (by rewrite !length_app, !length_be_bytes).
  rewrite take_ge by (by rewrite length_be_bytes). rewrite !of_be_be_bytes_small by (unfold MAGIC, VERSION; cbn; lia). done.
Qed.

Lemma open_header base txn rs m : chain base rs -> u64_ok base -> u64_ok txn ->
  with_storage (header_bytes base txn ++ take m (bytes_of rs))
  = Ok (mkWal (header_bytes base txn ++ bytes_of (take (whole m rs) rs)) [] (base + blen (bytes_of (take (whole m rs) rs)))
          (base + blen (bytes_of (take (whole m rs) rs))) (base + blen (bytes_of (take (whole m rs) rs))) base txn [] 1).
Proof.
  intros Hc Hb Ht. destruct (log_header_fields base txn (take m (bytes_of rs)) Hb Ht) as (H1 & H2 & H3 & H4 & H5).
  pose proof (length_log_header base txn) as Lh. set (h := header_bytes base txn) in *. set (n := whole m rs). set (X := bytes_of (take n rs)).
  unfold with_storage. rewrite bool_decide_eq_false_2.
  2:{ intros E. apply (f_equal length) in E. rewrite length_app, Lh in E. cbn in E. lia. }
  rewrite H1. cbn [mbind result_bind]. rewrite H2, H3, H4, H5, !N.eqb_refl. cbn [negb mbind result_bind].
  assert (blen h = HEADER_SIZE) as Bh by (unfold blen; by rewrite Lh).
  assert (take m (bytes_of rs) = X ++ take (m - length X) (bytes_of (drop n rs))) as ET.
  { rewrite <- (take_drop n rs) at 1. rewrite bytes_app. fold X. rewrite take_app_ge; [done|]. apply whole_bytes. }
  assert (scan_loop (length (h ++ take m (bytes_of rs))) (h ++ take m (bytes_of rs)) base (blen h) = Ok (blen h + blen X)) as Es.
  { apply scan_prefix; [rewrite Bh; by rewrite N.sub_diag, N.add_0_r|lia|]. rewrite ET, !length_app, Lh.
    assert (n <= length X)%nat; [|unfold n in *; lia]. unfold X.
    assert (chain base (take n rs)) as Hc' by (rewrite <- (take_drop n rs) in Hc; by apply chain_app in Hc as [Hc _]).
    apply chain_count in Hc'. rewrite length_take in Hc'. pose proof (whole_le m rs). unfold n in *. lia. }
  unfold scan_valid_end. rewrite <- Bh, Es. cbn [mbind result_bind]. replace (base + (blen h + blen X - blen h)) with (base + blen X) by lia.
  do 2 f_equal. replace (blen h + (base + blen X - base)) with (blen (h ++ X)) by (rewrite blen_app; lia).
  destruct (N.ltb_spec (blen (h ++ X)) (blen (h ++ take m (bytes_of rs)))) as [Hlt|Hge].
  - rewrite ET, app_assoc, to_nat_blen. apply take_app_length.
  - rewrite ET in *. rewrite !blen_app in Hge. assert (take (m - length X) (bytes_of (drop n rs)) = []) as ->; [|by rewrite app_nil_r].
    apply nil_length_inv. unfold blen in Hge. lia.
Qed.

Lemma open_cut w rs1 rs2 k : logs w rs1 rs2 -> u64_ok (base_lsn w) -> (24 <= k)%nat ->
  exists w' n, with_storage (take k (file w)) = Ok w' /\ logs w' (take n (rs1 ++ rs2)) [] /\ base_lsn w' = base_lsn w /\
    ((24 + length (bytes_of rs1) <= k)%nat -> (length rs1 <= n)%nat).
Proof.
  intros [(t & j & Ht & Hfile) Hb Hc Hst Hn Hfl Hm] Hbase Hk. set (hdr := header_bytes (base_lsn w) t) in *.
  pose proof (length_log_header (base_lsn w) t) as Lh. fold hdr in Lh.
  assert (take k (file w) = hdr ++ take (Nat.min (k - 24) (length (bytes_of rs1) + j)) (bytes_of (rs1 ++ rs2))) as Ef.
  { rewrite Hfile, take_app_ge by lia. by rewrite Lh, take_torn, bytes_app. }
  set (m := Nat.min _ _) in Ef. exists (mkWal (hdr ++ bytes_of (take (whole m (rs1 ++ rs2)) (rs1 ++ rs2))) []
    (base_lsn w + blen (bytes_of (take (whole m (rs1 ++ rs2)) (rs1 ++ rs2)))) (base_lsn w + blen (bytes_of (take (whole m (rs1 ++ rs2)) (rs1 ++ rs2))))
    (base_lsn w + blen (bytes_of (take (whole m (rs1 ++ rs2)) (rs1 ++ rs2)))) (base_lsn w) t [] 1), (whole m (rs1 ++ rs2)).
  set (rs := rs1 ++ rs2) in *. set (n := whole m rs) in *. rewrite Ef. split; [|split; [|split; [done|]]].
  - by apply open_header.
  - split; cbn [file buffer base_lsn start_lsn next_lsn flushed_lsn].
    + exists t, O. split; [done|]. by rewrite take_0, app_nil_r.
    + done.
    + rewrite app_nil_r. rewrite <- (take_drop n rs) in Hc. by apply chain_app in Hc as [Hc _].
    + done.
    + change (blen []) with 0. lia.
    + done.
    + rewrite Hn, Hst, Hb in Hm. pose proof (bytes_take_le n rs) as Hle.
      assert (length (bytes_of rs) = length (bytes_of rs1) + length (bytes_of rs2))%nat as Hsum by (unfold rs; by rewrite bytes_app, length_app).
      unfold blen in *. lia.
  - intros Hk'. apply whole_ge; [|unfold rs; rewrite length_app; lia]. unfold rs. rewrite take_app_length. unfold m. lia.
Qed.

(** * Runs *)

Inductive WalOp := DoAppend (txn prev : N) (kind : RecKind) | DoFlush (o : Outcome).

(** The manager after a run, the records it appended, and how many of them the
    last flush that succeeded covered. *)
Fixpoint wal_run (w : WalManager) (recs : list LogRecord) (d : nat) (ops : list WalOp) : WalManager * list LogRecord * nat :=
  match ops with
  | [] => (w, recs, d)
  | DoAppend txn prev kind :: ops =>
      match append w txn prev kind with
      | Ok (w', lsn) => wal_run w' (recs ++ [mkLogRecord lsn prev txn kind]) d ops
      | Err _ => wal_run w recs d ops
      end
  | DoFlush o :: ops => let '(w', ok) := flush w o in wal_run w' recs (if ok : bool then length recs else d) ops
  end.

(** What is appended is of its Rust types and fits its fields: a buffer below
    4 GiB, positions below 2^64. *)
Fixpoint fits (w : WalManager) (ops : list WalOp) : Prop :=
  match ops with
  | [] => True
  | DoAppend txn prev kind :: ops =>
      u64_ok txn /\ u64_ok prev /\ rec_ok kind /\
      match append w txn prev kind with
      | Ok (w', _) => blen (buffer w') <= max_u32 /\ start_lsn w + blen (buffer w') <= max_u64 /\ fits w' ops
      | Err _ => fits w ops
      end
  | DoFlush o :: ops => fits (flush w o).1 ops
  end.

(** Reading a log from a position on, record by record, to its end. *)
Fixpoint walk (fuel : nat) (w : WalManager) (lsn : N) : list LogRecord :=
  match fuel with
  | O => []
  | S fuel => match read_record w lsn with Some (Ok (r, next)) => r :: walk fuel w next | _ => [] end
  end.

Definition fresh_log : WalManager := mkWal (header_bytes INITIAL_LSN 1) [] INITIAL_LSN INITIAL_LSN INITIAL_LSN INITIAL_LSN 1 [] 1.

Lemma fresh_opened : with_storage [] = Ok fresh_log.
Proof. reflexivity. Qed.

Lemma fresh_logs : logs fresh_log [] [].
Proof. split; try done. exists 1, O. split; [done|reflexivity]. Qed.

Lemma append_base w t p k w' lsn : append w t p k = Ok (w', lsn) -> base_lsn w' = base_lsn w.
Proof. unfold append. destruct (serialize _ k); [|done]. cbn [mbind result_bind]. intros [= <- _]. done. Qed.

Lemma flush_base w o : base_lsn (flush w o).1 = base_lsn w.
Proof. unfold flush. case_bool_decide; [done|]. by destruct o. Qed.

Lemma wal_run_logs ops w recs d rs1 rs2 : logs w rs1 rs2 -> (rs1 ++ rs2).*1 = recs -> length rs1 = d -> fits w ops ->
  let '(w', recs', d') := wal_run w recs d ops in
  exists rs1' rs2', logs w' rs1' rs2' /\ (rs1' ++ rs2').*1 = recs' /\ length rs1' = d' /\ base_lsn w' = base_lsn w.
Proof.
  revert w recs d rs1 rs2. induction ops as [|[txn prev kind|o] ops IH]; intros w recs d rs1 rs2 Hl Hr Hd Hf; cbn [wal_run].
  - by exists rs1, rs2.
  - destruct Hf as (F1 & F2 & F3 & Hf). destruct (append w txn prev kind) as [[w' lsn]|e] eqn:E; [|by apply (IH w recs d rs1 rs2)].
    destruct Hf as (F4 & F5 & Hf). destruct (append_logs w rs1 rs2 _ _ _ _ _ Hl E F1 F2 F3 ltac:(lia) F5) as (fr & _ & Hl').
    rewrite <- (append_base _ _ _ _ _ _ E). apply (IH w' _ d rs1 _ Hl'); [|done|done]. by rewrite app_assoc, fmap_app, Hr.
  - pose proof (flush_logs w rs1 rs2 o Hl) as Hl'. pose proof (flush_base w o) as Hb. cbn [fits] in Hf. destruct (flush w o) as [w' ok]. cbn in Hb, Hf.
    rewrite <- Hb. destruct ok.
    + apply (IH w' recs _ _ _ Hl'); [by rewrite app_nil_r|by rewrite <- Hr, length_fmap|done].
    + by apply (IH w' recs d _ _ Hl').
Qed.

Lemma walk_logs fuel w rs1 pre post : logs w rs1 [] -> rs1 = pre ++ post -> (length post < fuel)%nat ->
  walk fuel w (base_lsn w + blen (bytes_of pre)) = post.*1.
Proof.
  intros Hl. revert fuel pre. induction post as [|[r fr] post IH]; intros fuel pre E Hf; (destruct fuel as [|fuel]; [cbn in Hf; lia|]); cbn [walk].
  - destruct Hl as [_ Hb _ Hst _ _ _]. rewrite app_nil_r in E. subst. unfold read_record. rewrite Hst, (proj2 (N.leb_le _ _)) by lia.
    rewrite N.sub_diag, Hb. done.
  - assert (chain (base_lsn w) rs1) as Hc by (destruct Hl as [_ _ Hc _ _ _ _]; by rewrite app_nil_r in Hc).
    rewrite E in Hc. apply chain_app in Hc as [_ (Hlsn & _)]. rewrite <- Hlsn.
    rewrite (read_logged w rs1 [] r fr Hl) by (rewrite app_nil_r, E; apply elem_of_app; right; left). cbn. f_equal.
    rewrite Hlsn. replace (base_lsn w + blen (bytes_of pre) + blen fr) with (base_lsn w + blen (bytes_of (pre ++ [(r, fr)]))).
    + apply IH; [by rewrite <- app_assoc|cbn in Hf; lia].
    + rewrite bytes_app, blen_app. assert (bytes_of [(r, fr)] = fr) as -> by (unfold bytes_of; cbn; by rewrite app_nil_r). lia.
Qed.

(** C8: the log survives a crash. After any run of appends and flushes, some of
    which may have failed part-way, a crash that leaves any prefix of the file
    behind its header opens to a log whose records, read one after the other
    from its base, are a prefix of the appended ones; when the flushed bytes
    are in what is left, every record of the last flush that succeeded is in
    that prefix. No flushed record is lost, none is altered, and no record is
    read that was not appended. *)
Theorem wal_survives_crash ops k : fits fresh_log ops -> (24 <= k)%nat ->
  let '(w, recs, d) := wal_run fresh_log [] 0 ops in
  exists w' n, with_storage (take k (file w)) = Ok w' /\ (n <= length recs)%nat /\
    ((24 + N.to_nat (flushed_lsn w - base_lsn w) <= k)%nat -> (d <= n)%nat) /\
    forall fuel, (n < fuel)%nat -> walk fuel w' (base_lsn w') = take n recs.
Proof.
  intros Hf Hk. pose proof (wal_run_logs ops fresh_log [] 0 [] [] fresh_logs eq_refl eq_refl Hf) as H.
  destruct (wal_run fresh_log [] 0 ops) as [[w recs] d]. destruct H as (rs1 & rs2 & Hl & <- & <- & Hb).
  assert (u64_ok (base_lsn w)) as Hu by (by rewrite Hb). destruct (open_cut w rs1 rs2 k Hl Hu Hk) as (w' & n & Ho & Hl' & _ & Hn).
  exists w', (Nat.min n (length (rs1 ++ rs2))). split; [done|]. split; [rewrite length_fmap; lia|]. split.
  - intros Hd. assert (24 + length (bytes_of rs1) <= k)%nat as Hd'.
    { destruct Hl as [_ _ _ Hst _ Hfl _]. rewrite Hfl, Hst in Hd. unfold blen in Hd. lia. }
    rewrite length_app. specialize (Hn Hd'). lia.
  - intros fuel Hfuel. pose proof (walk_logs fuel w' _ [] (take n (rs1 ++ rs2)) Hl' eq_refl) as Hw. change (blen (bytes_of [])) with 0 in Hw.
    rewrite N.add_0_r in Hw. rewrite Hw by (rewrite length_take; lia). rewrite <- fmap_take. f_equal.
    destruct (decide (n <= length (rs1 ++ rs2))%nat); [f_equal; lia|]. rewrite !take_ge by lia. done.
Qed.

Definition sample_run : list WalOp :=
  [DoAppend 1 0 RecBegin; DoAppend 1 1 (RecHeapInsert 1 2 3 [u8 5; u8 6]); DoFlush Written; DoAppend 1 34 RecCommit; DoFlush (Failed 20); DoAppend 2 0 RecBegin].

(** A crash after a flush that wrote 20 bytes of two frames. *)
Lemma wal_survives_crash_witness :
  fits fresh_log sample_run /\
  let '(w, recs, d) := wal_run fresh_log [] 0 sample_run in
  exists w' n, with_storage (take (length (file w)) (file w)) = Ok w' /\ (d <= n)%nat /\ walk 9 w' (base_lsn w') = take n recs.
Proof.
  assert (fits fresh_log sample_run) as Hf by (vm_compute; repeat split; discriminate). split; [exact Hf|].
  assert (24 <= length (file (wal_run fresh_log [] 0 sample_run).1.1))%nat as Hk by (vm_compute; lia).
  pose proof (wal_survives_crash sample_run _ Hf Hk) as H.
  destruct (wal_run fresh_log [] 0 sample_run) as [[w recs] d] eqn:E. destruct H as (w' & n & H1 & H2 & H3 & H4).
  exists w', n. split; [exact H1|]. vm_compute in E. injection E as <- <- <-. split; [apply H3; vm_compute; lia|]. apply H4. cbn in H2. lia.
Defined.
