(* ===== verification/Grants.v ===== *)
(** Ids handed out of granted ranges: [Grants] of [src/src/cluster/mod.rs], the
    counter behind transaction ids. A standalone node grants itself chunks, a
    cluster member takes only from ranges the replicated log granted to it; a
    value is never issued twice. *)
From stdpp Require Import sorting.
From S2P Require Import Prelude Bytes Errors.

#[local] Open Scope N_scope.

(** * Data *)

Inductive Authority := Standalone | Member (node : N).

Record Held := mkHeld { h_lo : N; h_hi : N }.

Record Grants := mkGrants { held : list Held; accepted_through : N; issued : N; chunk : N; epoch : N }.

Inductive Applied := Accepted (usable : N) | Duplicate.

(** * Operations *)

Definition new (start chunk : N) : Grants := mkGrants [] start start chunk 0.

Definition observe_epoch (now_epoch : N) (g : Grants) : Grants :=
  if epoch g =? now_epoch then g else mkGrants [] (issued g) (issued g) (chunk g) now_epoch.

(** [position(|h| h.hi - h.lo >= n)], and the range taken from there. *)
Fixpoint take_range (n : N) (hs : list Held) : option (N * list Held) :=
  match hs with
  | [] => None
  | h :: hs =>
      if n <=? h_hi h - h_lo h then
        let lo := h_lo h + n in
        Some (h_lo h, if lo =? h_hi h then hs else mkHeld lo (h_hi h) :: hs)
      else '(v, hs) ← take_range n hs; Some (v, h :: hs)
  end.

Definition take_from_held (n : N) (g : Grants) : option (N * Grants) :=
  '(v, hs) ← take_range n (held g);
  Some (v, mkGrants hs (accepted_through g) (N.max (issued g) (sadd64 v n)) (chunk g) (epoch g)).

(** [sort_unstable_by_key(|h| h.lo)] of a sorted list with one more range. *)
Fixpoint insert_range (h : Held) (hs : list Held) : list Held :=
  match hs with
  | [] => [h]
  | x :: xs => if h_lo h <? h_lo x then h :: hs else x :: insert_range h xs
  end.
Definition push_range (lo hi : N) (g : Grants) : Grants :=
  mkGrants (if lo <? hi then insert_range (mkHeld lo hi) (held g) else held g) (N.max (accepted_through g) hi)
    (issued g) (chunk g) (epoch g).

Definition take (n : N) (auth : Authority) (now_epoch : N) (g : Grants) : Grants * Result FerroError N :=
  let g := observe_epoch now_epoch g in
  match take_from_held n g with
  | Some (v, g) => (g, Ok v)
  | None =>
      match auth with
      | Standalone =>
          let lo := N.max (accepted_through g) (issued g) in
          let hi := sadd64 lo (N.max (chunk g) n) in
          let g := push_range lo hi g in
          match take_from_held n g with
          | Some (v, g) => (g, Ok v)
          | None => (g, Err (Branch (GrantSpaceExhausted (issued g))))
          end
      | Member node => (g, Err (Branch (GrantExhausted node n)))
      end
  end.

Definition remaining_values (now_epoch : N) (g : Grants) : Grants * N :=
  let g := observe_epoch now_epoch g in (g, foldr (fun h n => h_hi h - h_lo h + n) 0 (held g)).

Definition apply_grant (to lo hi : N) (auth : Authority) (now_epoch : N) (g : Grants) : Grants * Result FerroError Applied :=
  match auth with
  | Standalone => (g, Err (Branch GrantNotClustered))
  | Member me =>
      if negb (me =? to) then (g, Err (Branch (GrantWrongNode to me)))
      else if hi <=? lo then (g, Err (Branch (GrantEmptyRange lo hi)))
      else
        let g := observe_epoch now_epoch g in
        if hi <=? accepted_through g then (g, Ok Duplicate)
        else
          let lo := N.max (N.max lo (accepted_through g)) (issued g) in
          let usable := hi - lo in
          (push_range lo hi g, Ok (Accepted usable))
  end.

(** [retain_mut] of [raise_issued_through]. *)
Fixpoint clamp (w : N) (hs : list Held) : list Held :=
  match hs with
  | [] => []
  | h :: hs => let lo := N.max (h_lo h) w in if lo <? h_hi h then mkHeld lo (h_hi h) :: clamp w hs else clamp w hs
  end.
Definition raise_issued_through (i : N) (g : Grants) : Grants :=
  let issued' := N.max (issued g) i in
  mkGrants (clamp issued' (held g)) (N.max (accepted_through g) issued') issued' (chunk g) (epoch g).

(** * The life of a counter *)

Inductive GrantOp :=
| Take (n : N) (auth : Authority) (epoch : N)
| Apply (to lo hi : N) (auth : Authority) (epoch : N)
| Raise (i : N)
| Remaining (epoch : N).

(** The counter after a step, and the range of values it issued. *)
Definition grant_step (op : GrantOp) (g : Grants) : Grants * option (N * N) :=
  match op with
  | Take n auth e => let '(g, r) := take n auth e g in (g, match r with Ok v => Some (v, n) | Err _ => None end)
  | Apply to lo hi auth e => ((apply_grant to lo hi auth e g).1, None)
  | Raise i => (raise_issued_through i g, None)
  | Remaining e => ((remaining_values e g).1, None)
  end.
Fixpoint grant_run (g : Grants) (ops : list GrantOp) : Grants * list (N * N) :=
  match ops with
  | [] => (g, [])
  | op :: ops =>
      let '(g, r) := grant_step op g in
      let '(g, rs) := grant_run g ops in
      (g, match r with Some x => x :: rs | None => rs end)
  end.

(** * Invariant *)

Definition within (v : N) (h : Held) : Prop := h_lo h <= v < h_hi h.
Definition free (v : N) (hs : list Held) : Prop := Exists (within v) hs.
Definition issued_in (v : N) (r : N * N) : Prop := r.1 <= v < r.1 + r.2.

(** Ranges in ascending order between two bounds, none empty. *)
Fixpoint ranges (b : N) (hs : list Held) (e : N) : Prop :=
  match hs with
  | [] => True
  | h :: hs => b <= h_lo h /\ h_lo h < h_hi h /\ h_hi h <= e /\ ranges (h_hi h) hs e
  end.

(** [past] values were issued before: they are below [issued], and in no held
    range. *)
Record grants_ok (g : Grants) (past : N -> Prop) : Prop := {
  go_ranges : ranges 0 (held g) (accepted_through g);
  go_max : accepted_through g <= max_u64 /\ issued g <= max_u64;
  go_past v : past v -> v < issued g /\ ~ free v (held g) }.

Lemma ranges_weaken b b' hs e e' : b' <= b -> e <= e' -> ranges b hs e -> ranges b' hs e'.
Proof.
  intros Hb He. revert b b' Hb. induction hs as [|h hs IH]; intros b b' Hb; [done|]. cbn. intros (H1 & H2 & H3 & H4).
  repeat split; [lia|done|lia|]. by eapply IH; [|exact H4].
Qed.

Lemma free_bounds v b hs e : ranges b hs e -> free v hs -> b <= v < e.
Proof.
  revert b. induction hs as [|h hs IH]; intros b Hr Hf; [by inversion Hf|]. destruct Hr as (H1 & H2 & H3 & H4).
  inversion Hf as [? ? Hw|? ? Hf']; subst; [unfold within in Hw; lia|]. specialize (IH _ H4 Hf'). lia.
Qed.

Lemma free_cons v h hs : free v (h :: hs) <-> within v h \/ free v hs.
Proof. apply Exists_cons. Qed.

(** What is taken was free and is not any more; nothing else changes. *)
Lemma take_range_spec n b hs e v hs' : ranges b hs e -> take_range n hs = Some (v, hs') ->
  b <= v /\ v + n <= e /\ ranges b hs' e /\ forall x, free x hs' <-> free x hs /\ ~ issued_in x (v, n).
Proof.
  revert b hs'. induction hs as [|h hs IH]; intros b hs' Hr Ht; [done|]. destruct Hr as (H1 & H2 & H3 & H4). cbn in Ht.
  destruct (N.leb_spec n (h_hi h - h_lo h)) as [Hn|Hn].
  - injection Ht as <- <-. split; [done|]. split; [lia|].
    assert (forall x, free x hs -> h_hi h <= x) as Hup by (intros x Hx; apply (free_bounds x _ _ _ H4 Hx)).
    destruct (N.eqb_spec (h_lo h + n) (h_hi h)) as [E|E].
    + split; [by apply (ranges_weaken (h_hi h) b hs e e); [lia|done|]|]. intros x. rewrite free_cons. unfold within, issued_in. cbn.
      split; [intros Hx; specialize (Hup x Hx); split; [by right|lia]|]. intros [[Hx|Hx] Hno]; [lia|done].
    + split; [cbn; repeat split; (lia || done)|]. intros x. rewrite !free_cons. unfold within, issued_in. cbn.
      split; [intros [Hx|Hx]; [split; [left|]; lia|specialize (Hup x Hx); split; [by right|lia]]|]. intros [[Hx|Hx] Hno]; [left; lia|by right].
  - destruct (take_range n hs) as [[v' hs1]|] eqn:E; [|done]. injection Ht as <- <-. destruct (IH _ _ H4 eq_refl) as (A & B & C & D).
    split; [lia|]. split; [done|]. split; [done|]. intros x. rewrite !free_cons, D. unfold within, issued_in. cbn.
    split; [intros [Hx|Hx]; [split; [by left|lia]|tauto]|]. tauto.
Qed.

Lemma insert_range_spec h b hs e e' : ranges b hs e -> e <= h_lo h -> b <= h_lo h -> h_lo h < h_hi h -> e <= e' -> h_hi h <= e' ->
  ranges b (insert_range h hs) e' /\ forall x, free x (insert_range h hs) <-> free x hs \/ within x h.
Proof.
  revert b. induction hs as [|y hs IH]; intros b Hr H1 H2 H3 H4 H5; cbn.
  - split; [done|]. intros x. rewrite free_cons. unfold free. rewrite Exists_nil. tauto.
  - destruct Hr as (R1 & R2 & R3 & R4). rewrite (proj2 (N.ltb_ge _ _)) by lia. destruct (IH _ R4 H1 ltac:(lia) H3 H4 H5) as [A B].
    split; [cbn; repeat split; (lia || done)|]. intros x. rewrite !free_cons, B. tauto.
Qed.

Lemma clamp_spec w b hs e : ranges b hs e -> ranges b (clamp w hs) e /\ forall x, free x (clamp w hs) -> free x hs /\ w <= x.
Proof.
  revert b. induction hs as [|h hs IH]; intros b Hr; [split; [done|]; intros x Hx; by inversion Hx|]. destruct Hr as (R1 & R2 & R3 & R4).
  destruct (IH _ R4) as [A B]. cbn. destruct (N.ltb_spec (N.max (h_lo h) w) (h_hi h)) as [H|H].
  - split; [cbn; repeat split; (lia || done)|]. intros x. rewrite !free_cons. intros [Hx|Hx]; [unfold within in *; cbn in Hx; split; [left|]; lia|].
    specialize (B x Hx). tauto.
  - split; [by apply (ranges_weaken (h_hi h) b _ e e); [lia|done|]|]. intros x Hx. rewrite free_cons. specialize (B x Hx). tauto.
Qed.

Definition and_past (past : N -> Prop) (r : option (N * N)) : N -> Prop :=
  fun v => past v \/ match r with Some r => issued_in v r | None => False end.

Lemma observe_ok e g past : grants_ok g past -> grants_ok (observe_epoch e g) past.
Proof.
  intros [R M P]. unfold observe_epoch. destruct (epoch g =? e); [done|]. split; cbn; [done|lia|]. intros v Hv. split; [by apply P|].
  intros Hf. by inversion Hf.
Qed.

Lemma take_held_ok n g v g' past : grants_ok g past -> take_from_held n g = Some (v, g') ->
  grants_ok g' (and_past past (Some (v, n))) /\ forall x, past x -> ~ issued_in x (v, n).
Proof.
  intros [R M P] H. unfold take_from_held in H. destruct (take_range n (held g)) as [[v' hs]|] eqn:E; [|done]. cbn in H. injection H as <- <-.
  destruct (take_range_spec n 0 _ _ _ _ R E) as (A & B & C & D). assert (sadd64 v' n = v' + n) as Es by (apply sadd64_small; lia).
  assert (forall x, issued_in x (v', n) -> free x (held g)) as Hfree.
  { intros x Hx. clear -E Hx. revert hs E. induction (held g) as [|h l IH]; intros hs E; [done|]. cbn in E. rewrite free_cons.
    destruct (N.leb_spec n (h_hi h - h_lo h)); [injection E as <- <-; left; unfold within, issued_in in *; cbn in *; lia|].
    destruct (take_range n l) as [[v1 l1]|]; [|done]. injection E as -> <-. right. by eapply IH. }
  split.
  - split; cbn; [done|rewrite Es; lia|]. rewrite Es. intros x [Hx|Hx].
    + destruct (P x Hx) as [P1 P2]. split; [lia|]. rewrite D. tauto.
    + split; [unfold issued_in in Hx; cbn in Hx; lia|]. rewrite D. tauto.
  - intros x Hx Hi. destruct (P x Hx) as [_ P2]. by apply P2, Hfree.
Qed.

Lemma push_ok lo hi g past : grants_ok g past -> accepted_through g <= lo -> issued g <= lo -> hi <= max_u64 -> grants_ok (push_range lo hi g) past.
Proof.
  intros [R M P] H1 H2 H3. unfold push_range. destruct (N.ltb_spec lo hi) as [H|H]; split; cbn; try lia.
  - apply (insert_range_spec (mkHeld lo hi) 0 _ (accepted_through g)); cbn; (done || lia).
  - destruct (insert_range_spec (mkHeld lo hi) 0 (held g) (accepted_through g) (N.max (accepted_through g) hi)) as [_ F]; cbn; try (done || lia).
    intros v Hv. destruct (P v Hv) as [P1 P2]. split; [done|]. rewrite F. unfold within. cbn. intros [Hx|Hx]; [done|lia].
  - apply (ranges_weaken 0 0 _ (accepted_through g)); (done || lia).
  - done.
Qed.

Lemma take_ok n auth e g past : grants_ok g past ->
  let '(g', r) := take n auth e g in let out := match r with Ok v => Some (v, n) | Err _ => None end in
  grants_ok g' (and_past past out) /\ forall x, past x -> match out with Some r => ~ issued_in x r | None => True end.
Proof.
  intros H. apply (observe_ok e) in H. unfold take. set (g1 := observe_epoch e g) in *. clearbody g1.
  assert (forall g2, grants_ok g2 past -> grants_ok g2 (and_past past None)) as Hnone.
  { intros g2 [R M P]. split; [done|done|]. intros v [Hv|[]]. auto. }
  destruct (take_from_held n g1) as [[v g2]|] eqn:E; [by apply (take_held_ok n g1)|].
  destruct auth as [|node]; [|split; [by apply Hnone|done]].
  set (g2 := push_range _ _ g1). assert (grants_ok g2 past) as H2 by (apply push_ok; [done|lia|lia|unfold sadd64; lia]).
  destruct (take_from_held n g2) as [[v g3]|] eqn:E2; [by apply (take_held_ok n g2)|split; [by apply Hnone|done]].
Qed.

(** The types of the arguments. *)
Definition grant_op_ok (op : GrantOp) : Prop := match op with Apply _ _ hi _ _ => hi <= max_u64 | Raise i => i <= max_u64 | _ => True end.

Lemma grant_step_ok op g past : grants_ok g past -> grant_op_ok op ->
  let '(g', r) := grant_step op g in
  grants_ok g' (and_past past r) /\ forall x, past x -> match r with Some r => ~ issued_in x r | None => True end.
Proof.
  intros H Hop. assert (forall g2, grants_ok g2 past -> grants_ok g2 (and_past past None)) as Hnone.
  { intros g2 [R M P]. split; [done|done|]. intros v [Hv|[]]. auto. }
  destruct op as [n auth e|to lo hi auth e|i|e]; cbn [grant_step grant_op_ok] in *.
  - pose proof (take_ok n auth e g past H) as Ht. destruct (take n auth e g) as [g' r]. done.
  - split; [|done]. apply Hnone. unfold apply_grant. destruct auth as [|me]; [done|]. destruct (negb _); [done|]. destruct (hi <=? lo); [done|].
    apply (observe_ok e) in H. destruct (_ <=? _); [done|]. apply push_ok; (done || lia).
  - split; [|done]. apply Hnone. destruct H as [R M P]. destruct (clamp_spec (N.max (issued g) i) 0 _ _ R) as [A B].
    split; cbn; [eapply ranges_weaken; [done| |exact A]; lia|lia|]. intros v Hv. destruct (P v Hv) as [P1 P2]. split; [lia|]. intros Hf.
    destruct (B v Hf). lia.
  - split; [|done]. apply Hnone. by apply (observe_ok e).
Qed.

Lemma grant_run_ok ops g past : grants_ok g past -> Forall grant_op_ok ops ->
  forall rs, (grant_run g ops).2 = rs ->
  (forall v r, past v -> r ∈ rs -> ~ issued_in v r) /\
  (forall i j r r' v, rs !! i = Some r -> rs !! j = Some r' -> issued_in v r -> issued_in v r' -> i = j).
Proof.
  intros H Hops rs <-. revert g past H. induction Hops as [|op ops Hop _ IH]; intros g past H; cbn [grant_run].
  - cbn. split; [intros v r _ Hr; by apply not_elem_of_nil in Hr|done].
  - pose proof (grant_step_ok op g past H Hop) as Hs. destruct (grant_step op g) as [g' r]. destruct Hs as [H' Hnew].
    destruct (IH g' _ H') as [I1 I2]. destruct (grant_run g' ops) as [g2 rs]. cbn in *. destruct r as [r|].
    + split.
      * intros v r' Hv Hr. apply elem_of_cons in Hr as [->|Hr]; [by apply Hnew|]. apply (I1 v); [by left|done].
      * intros i j r1 r2 v Hi Hj H1 H2. destruct i as [|i], j as [|j]; cbn in Hi, Hj; simplify_eq; [done| | |f_equal; by eapply I2].
        -- exfalso. apply (I1 v r2); [by right|by eapply list_elem_of_lookup_2|done].
        -- exfalso. apply (I1 v r1); [by right|by eapply list_elem_of_lookup_2|done].
    + split; [|done]. intros v r' Hv Hr. apply (I1 v); [by left|done].
Qed.

(** C18: no value is issued twice. Whatever a node does with its counter, in
    any order (takes, standalone or as a member of the cluster, grants applied
    again or reaching below what was issued, a watermark raised, the authority
    changing its epoch in between), the ranges its takes return are disjoint,
    up to the end of the 64-bit space. *)
Theorem granted_values_never_repeat start c ops rs : start <= max_u64 -> Forall grant_op_ok ops ->
  (grant_run (new start c) ops).2 = rs ->
  forall i j r r' v, rs !! i = Some r -> rs !! j = Some r' -> issued_in v r -> issued_in v r' -> i = j.
Proof.
  intros Hs Hops Hr. apply (grant_run_ok ops (new start c) (fun _ => False)); [|done|done].
  split; cbn; [done|lia|]. intros v [].
Qed.

Definition sample_grants : list GrantOp :=
  [Take 3 Standalone 0; Take 2 Standalone 0; Apply 7 5 40 (Member 7) 1; Take 30 (Member 7) 1; Raise 50; Apply 7 5 40 (Member 7) 1;
   Take 1 (Member 7) 1; Apply 7 45 60 (Member 7) 1; Take 4 (Member 7) 1; Take 1 Standalone 2].

Lemma granted_values_never_repeat_witness :
  (grant_run (new 1 64) sample_grants).2 = [(1, 3); (4, 2); (6, 30); (50, 4); (54, 1)] /\ Forall grant_op_ok sample_grants /\
  forall i j r r' v, (grant_run (new 1 64) sample_grants).2 !! i = Some r -> (grant_run (new 1 64) sample_grants).2 !! j = Some r' ->
    issued_in v r -> issued_in v r' -> i = j.
Proof.
  assert (Forall grant_op_ok sample_grants) as Hops by (repeat constructor; vm_compute; discriminate).
  split; [vm_compute; reflexivity|]. split; [exact Hops|].
  apply (granted_values_never_repeat 1 64 sample_grants _ ltac:(vm_compute; discriminate) Hops eq_refl).
Defined.
