(* ===== verification/Escrow.v ===== *)
(** Bounded counters: the escrow ledger of [src/src/agent_sql/escrow.rs] and the
    charge [AgentRuntime::stage_all] computes for it ([src/src/agent_sql/runtime.rs]).
    The slack of a cell is partitioned into claims, and a branch spends only what
    it claimed. [i64] arithmetic wraps, as in a release build. *)
From Stdlib Require Import ZArith.
From S2P Require Import Prelude Bytes Errors WalRecord Values.

#[local] Open Scope Z_scope.

(** * Data *)

Abbreviation BranchId := (N * N)%type (only parsing).
Abbreviation Cell := (N * N * N)%type (only parsing).

Definition max_i64 : Z := 9223372036854775807.
(** [i64] arithmetic: the result modulo 2^64, as a signed number. *)
Definition wrap64 (z : Z) : Z := (z + 9223372036854775808) mod 18446744073709551616 - 9223372036854775808.

Record Pool := mkPool { slack : Z; claimed : gmap BranchId Z; spent : gmap BranchId Z }.
Abbreviation EscrowLedger := (gmap (N * N * N) Pool) (only parsing).

Definition get (m : gmap BranchId Z) (b : BranchId) : Z := default 0 (m !! b).
Definition sum (m : gmap BranchId Z) : Z := map_fold (fun _ v acc => acc + v) 0 m.

(** The wrapped sum of the values does not depend on where it is wrapped. *)
Definition outstanding (p : Pool) : Z := wrap64 (sum (claimed p)).
Definition unclaimed (p : Pool) : Z := wrap64 (slack p - outstanding p).

(** * Operations *)

Definition open (l : EscrowLedger) (cell : Cell) (s : Z) : Result FerroError EscrowLedger :=
  if s <? 0 then Err (Bind (NegativeSlack s))
  else match l !! cell with
       | Some _ => Err (Bind PoolAlreadyOpen)
       | None => Ok (<[cell := mkPool s ∅ ∅]> l)
       end.

Definition is_bounded (l : EscrowLedger) (cell : Cell) : bool := bool_decide (is_Some (l !! cell)).

Definition remaining (l : EscrowLedger) (b : BranchId) (cell : Cell) : option Z :=
  (fun p => wrap64 (get (claimed p) b - get (spent p) b)) <$> l !! cell.

Definition claim (l : EscrowLedger) (b : BranchId) (cell : Cell) (amount : Z) : Result FerroError EscrowLedger :=
  if amount <=? 0 then Err (Bind (ClaimNotPositive amount))
  else match l !! cell with
       | None => Err (Bind NotBounded)
       | Some p =>
           let free := unclaimed p in
           if free <? amount then Err (Constraint (ClaimExceeds amount free))
           else Ok (<[cell := mkPool (slack p) (<[b := wrap64 (get (claimed p) b + amount)]> (claimed p)) (spent p)]> l)
       end.

(** [BTreeMap<Cell, i64>]: the entries in the order of the cells. *)
Definition cell_cmp (x y : Cell) : comparison :=
  match (x.1.1 ?= y.1.1)%N with
  | Eq => match (x.1.2 ?= y.1.2)%N with Eq => (x.2 ?= y.2)%N | c => c end
  | c => c
  end.
Fixpoint bump (cell : Cell) (amount : Z) (wanted : list (Cell * Z)) : list (Cell * Z) :=
  match wanted with
  | [] => [(cell, wrap64 amount)]
  | (c, a) :: rest =>
      match cell_cmp cell c with
      | Eq => (c, wrap64 (a + amount)) :: rest
      | Lt => (cell, wrap64 amount) :: wanted
      | Gt => (c, a) :: bump cell amount rest
      end
  end.
Fixpoint want (spends : list (Cell * Z)) (wanted : list (Cell * Z)) : list (Cell * Z) :=
  match spends with
  | [] => wanted
  | (c, a) :: spends => want spends (if a <=? 0 then wanted else bump c a wanted)
  end.

Definition exceeded (p : Pool) (b : BranchId) (amount : Z) : option FerroError :=
  let c := get (claimed p) b in
  let s := get (spent p) b in
  let left := wrap64 (c - s) in
  if left <? amount then Some (Constraint (EscrowExceeded amount left c s)) else None.

Fixpoint check_wanted (l : EscrowLedger) (b : BranchId) (wanted : list (Cell * Z)) : Result FerroError unit :=
  match wanted with
  | [] => Ok tt
  | (c, a) :: rest =>
      match l !! c with
      | None => check_wanted l b rest
      | Some p => match exceeded p b a with Some e => Err e | None => check_wanted l b rest end
      end
  end.
Definition check_all (l : EscrowLedger) (b : BranchId) (spends : list (Cell * Z)) : Result FerroError unit :=
  check_wanted l b (want spends []).

Definition spend_pool (p : Pool) (b : BranchId) (amount : Z) : Pool :=
  mkPool (slack p) (claimed p) (<[b := wrap64 (get (spent p) b + amount)]> (spent p)).

Definition spend (l : EscrowLedger) (b : BranchId) (cell : Cell) (amount : Z) : Result FerroError EscrowLedger :=
  match l !! cell with
  | None => Ok l
  | Some p =>
      if amount <=? 0 then Ok l
      else match exceeded p b amount with
           | Some e => Err e
           | None => Ok (<[cell := spend_pool p b amount]> l)
           end
  end.

Fixpoint charge_all (l : EscrowLedger) (b : BranchId) (spends : list (Cell * Z)) : EscrowLedger :=
  match spends with
  | [] => l
  | (c, a) :: spends =>
      charge_all (if a <=? 0 then l else match l !! c with Some p => <[c := spend_pool p b a]> l | None => l end) b spends
  end.
Definition spend_all (l : EscrowLedger) (b : BranchId) (spends : list (Cell * Z)) : Result FerroError EscrowLedger :=
  _ ← check_all l b spends; Ok (charge_all l b spends).

Fixpoint refund_all (l : EscrowLedger) (b : BranchId) (spends : list (Cell * Z)) : EscrowLedger :=
  match spends with
  | [] => l
  | (c, a) :: spends =>
      refund_all
        (if a <=? 0 then l
         else match l !! c with
              | None => l
              | Some p => match spent p !! b with
                          | Some s => <[c := mkPool (slack p) (claimed p) (<[b := wrap64 (s - Z.min a s)]> (spent p))]> l
                          | None => l
                          end
              end) b spends
  end.

Definition release (l : EscrowLedger) (b : BranchId) : EscrowLedger :=
  (fun p => mkPool (slack p) (delete b (claimed p)) (delete b (spent p))) <$> l.

Definition settle_pool (b : BranchId) (p : Pool) : Pool :=
  mkPool (wrap64 (slack p - get (spent p) b)) (delete b (claimed p)) (delete b (spent p)).
Definition settle_all (l : EscrowLedger) (b : BranchId) : EscrowLedger := settle_pool b <$> l.
Definition settle (l : EscrowLedger) (b : BranchId) (cell : Cell) : EscrowLedger :=
  match l !! cell with Some p => <[cell := settle_pool b p]> l | None => l end.

(** * What a write is charged *)

(** [f as i64] truncates and saturates. *)
Definition f64_as_i64 (bits : N) : Z := Z.max (- 9223372036854775808) (Z.min max_i64 (f_trunc bits)).
Definition numeric (v : Value) : option Z :=
  match v with
  | VInteger i => Some i
  | VFloat f => if is_nan f || is_infinite f then None else Some (f64_as_i64 f)
  | _ => None
  end.

(** The spends of one row's change: every bounded cell whose value dropped. *)
Fixpoint row_spends (l : EscrowLedger) (tbl row : N) (idx : N) (before after : list Value) : list (Cell * Z) :=
  match before, after with
  | b :: before, a :: after =>
      let rest := row_spends l tbl row (idx + 1) before after in
      let cell := (tbl, row, idx) in
      if is_bounded l cell then
        match numeric b, numeric a with
        | Some b, Some a => let drop := wrap64 (b - a) in if 0 <? drop then (cell, drop) :: rest else rest
        | _, _ => rest
        end
      else rest
  | _, _ => []
  end.
