(* ===== verification/EscrowProps.v ===== *)
(** The bound of a bounded counter holds: whatever claims, spends, refunds,
    releases and settlements follow each other, what branches have taken from a
    cell, settled or not, never exceeds the slack it was opened with. *)
From Stdlib Require Import ZArith.
From S2P Require Import Prelude Bytes Errors Escrow.

#[local] Open Scope Z_scope.

Lemma wrap64_id z : - 9223372036854775808 <= z <= max_i64 -> wrap64 z = z.
Proof. unfold wrap64, max_i64. intros H. rewrite Z.mod_small; lia. Qed.

(** * Sums over branches *)

Lemma get_insert m b v b' : get (<[b := v]> m) b' = if decide (b' = b) then v else get m b'.
Proof. unfold get. destruct (decide (b' = b)) as [->|Hne]; [by rewrite lookup_insert_eq|by rewrite lookup_insert_ne]. Qed.

Lemma get_delete m b b' : get (delete b m) b' = if decide (b' = b) then 0 else get m b'.
Proof. unfold get. destruct (decide (b' = b)) as [->|Hne]; [by rewrite lookup_delete_eq|by rewrite lookup_delete_ne]. Qed.

Lemma sum_fresh m b v : m !! b = None -> sum (<[b := v]> m) = v + sum m.
Proof. intros H. unfold sum. rewrite map_fold_insert_L; [lia| |done]. intros. lia. Qed.

Lemma sum_delete m b : sum (delete b m) = sum m - get m b.
Proof.
  unfold get. destruct (m !! b) as [v|] eqn:E; cbn.
  - rewrite <- (insert_delete_id m b v E) at 2. rewrite sum_fresh by apply lookup_delete_eq. lia.
  - rewrite delete_id by done. lia.
Qed.

Lemma sum_insert m b v : sum (<[b := v]> m) = sum m - get m b + v.
Proof.
  rewrite <- insert_delete_eq. rewrite sum_fresh by apply lookup_delete_eq. rewrite sum_delete. lia.
Qed.

Lemma sum_nonneg m : (forall b, 0 <= get m b) -> 0 <= sum m.
Proof.
  induction m as [|b v m Hb IH] using map_ind; intros H; [done|]. rewrite sum_fresh by done.
  assert (0 <= v) by (specialize (H b); rewrite get_insert in H; by case_decide). assert (0 <= sum m); [|lia]. apply IH. intros b'.
  specialize (H b'). rewrite get_insert in H. case_decide; [subst; unfold get; by rewrite Hb|done].
Qed.

Lemma sum_le m m' : (forall b, 0 <= get m b <= get m' b) -> sum m <= sum m'.
Proof.
  revert m'. induction m as [|b v m Hb IH] using map_ind; intros m' H.
  - change (sum ∅) with 0. apply sum_nonneg. intros b. specialize (H b). lia.
  - rewrite sum_fresh by done. assert (sum m <= sum (delete b m')) as Hm.
    { apply IH. intros b'. rewrite get_delete. specialize (H b'). rewrite get_insert in H. case_decide; [|done].
      subst. unfold get. by rewrite Hb. }
    rewrite sum_delete in Hm. specialize (H b). rewrite get_insert, decide_True in H by done. lia.
Qed.

Lemma get_le_sum m b : (forall b, 0 <= get m b) -> get m b <= sum m.
Proof.
  intros H. pose proof (sum_delete m b). assert (0 <= sum (delete b m)); [|lia]. apply sum_nonneg. intros b'. rewrite get_delete. case_decide; [done|apply H].
Qed.

(** * Pools *)

Record pool_ok (p : Pool) : Prop := {
  po_slack : 0 <= slack p <= max_i64;
  po_spent b : 0 <= get (spent p) b <= get (claimed p) b;
  po_claimed : sum (claimed p) <= slack p }.

Lemma claimed_nonneg p b : pool_ok p -> 0 <= get (claimed p) b.
Proof. intros H. pose proof (po_spent p H b). lia. Qed.

Lemma claimed_bound p b : pool_ok p -> 0 <= get (spent p) b <= get (claimed p) b /\ get (claimed p) b <= sum (claimed p) <= slack p.
Proof. intros H. split; [apply H|]. split; [|apply H]. apply get_le_sum. intros b'. by apply claimed_nonneg. Qed.

Lemma spent_bound p : pool_ok p -> 0 <= sum (spent p) <= slack p.
Proof.
  intros H. split; [apply sum_nonneg; intros b; apply H|]. transitivity (sum (claimed p)); [|apply (po_claimed p H)]. apply sum_le. intros b. apply H.
Qed.

Lemma unclaimed_eq p : pool_ok p -> unclaimed p = slack p - sum (claimed p).
Proof.
  intros H. pose proof (po_slack p H). pose proof (po_claimed p H).
  assert (0 <= sum (claimed p)) by (apply sum_nonneg; intros b; by apply claimed_nonneg).
  unfold unclaimed, outstanding. unfold max_i64 in *. rewrite (wrap64_id (sum (claimed p))) by (unfold max_i64; lia). apply wrap64_id. unfold max_i64. lia.
Qed.

Lemma exceeded_none p b a : pool_ok p -> exceeded p b a = None -> get (spent p) b + a <= get (claimed p) b.
Proof.
  intros H. destruct (claimed_bound p b H) as [B1 B2]. pose proof (po_slack p H). unfold exceeded. rewrite wrap64_id by (unfold max_i64 in *; lia).
  destruct (Z.ltb_spec (get (claimed p) b - get (spent p) b) a); [done|lia].
Qed.

Lemma spend_pool_ok p b a : pool_ok p -> 0 <= a -> get (spent p) b + a <= get (claimed p) b -> pool_ok (spend_pool p b a).
Proof.
  intros H Ha Hs. destruct (claimed_bound p b H) as [B1 B2]. pose proof (po_slack p H). split; cbn; [done| |apply H].
  intros b'. rewrite get_insert. case_decide; [subst|apply H]. rewrite wrap64_id; unfold max_i64 in *; lia.
Qed.

Lemma drop_branch_ok p b s : pool_ok p -> s = slack p \/ s = slack p - get (spent p) b ->
  pool_ok (mkPool s (delete b (claimed p)) (delete b (spent p))).
Proof.
  intros H Hs. destruct (claimed_bound p b H) as [B1 B2]. pose proof (po_slack p H). split; cbn.
  - unfold max_i64 in *. lia.
  - intros b'. rewrite !get_delete. case_decide; [done|apply H].
  - rewrite sum_delete. lia.
Qed.

Lemma settle_pool_eq p b : pool_ok p -> settle_pool b p = mkPool (slack p - get (spent p) b) (delete b (claimed p)) (delete b (spent p)).
Proof.
  intros H. destruct (claimed_bound p b H) as [B1 B2]. pose proof (po_slack p H). unfold settle_pool. rewrite wrap64_id; [done|]. unfold max_i64 in *. lia.
Qed.

(** * Batches *)

(** What a batch takes from a cell. *)
Fixpoint total (c : Cell) (spends : list (Cell * Z)) : Z :=
  match spends with
  | [] => 0
  | (c', a) :: spends => (if decide (c' = c) then Z.max a 0 else 0) + total c spends
  end.

Lemma total_nonneg c ss : 0 <= total c ss.
Proof. induction ss as [|[c' a] ss IH]; cbn; [done|]. destruct (decide (c' = c)); lia. Qed.

Definition cell_lt (x y : Cell) : Prop := cell_cmp x y = Lt.

Lemma cell_cmp_spec (x y : Cell) : match cell_cmp x y with Eq => x = y | Lt => cell_lt x y | Gt => cell_lt y x end.
Proof.
  destruct x as [[a b] c], y as [[a' b'] c']. unfold cell_lt, cell_cmp. cbn.
  rewrite (N.compare_antisym a a'), (N.compare_antisym b b'), (N.compare_antisym c c').
  destruct (N.compare_spec a a') as [->| |]; cbn; [|done|done]. destruct (N.compare_spec b b') as [->| |]; cbn; [|done|done].
  by destruct (N.compare_spec c c') as [->| |].
Qed.

Lemma cell_lt_trans x y z : cell_lt x y -> cell_lt y z -> cell_lt x z.
Proof.
  destruct x as [[a b] c], y as [[a' b'] c'], z as [[a2 b2] c2]. unfold cell_lt, cell_cmp. cbn.
  destruct (N.compare_spec a a'), (N.compare_spec a' a2), (N.compare_spec a a2); try done; try lia;
    destruct (N.compare_spec b b'), (N.compare_spec b' b2), (N.compare_spec b b2); try done; try lia;
    destruct (N.compare_spec c c'), (N.compare_spec c' c2), (N.compare_spec c c2); try done; lia.
Qed.

Lemma cell_lt_irrefl x : ~ cell_lt x x.
Proof. destruct x as [[a b] c]. unfold cell_lt, cell_cmp. cbn. by rewrite !N.compare_refl. Qed.

(** Entries in ascending order above a cell. *)
Fixpoint ascending (lo : option Cell) (w : list (Cell * Z)) : Prop :=
  match w with
  | [] => True
  | (c, _) :: w => (match lo with Some l => cell_lt l c | None => True end) /\ ascending (Some c) w
  end.
Fixpoint assoc (c : Cell) (w : list (Cell * Z)) : Z :=
  match w with [] => 0 | (c', a) :: w => if decide (c' = c) then a else assoc c w end.

Lemma assoc_below lo c w : ascending (Some lo) w -> cell_lt c lo \/ c = lo -> assoc c w = 0.
Proof.
  revert lo. induction w as [|[c' a] w IH]; intros lo Ha Hc; [done|]. destruct Ha as [H1 H2]. cbn.
  assert (cell_lt c c') as Hlt by (destruct Hc as [Hc| ->]; [by eapply cell_lt_trans|done]).
  destruct (decide (c' = c)) as [->|]; [by apply cell_lt_irrefl in Hlt|]. apply (IH c'); [done|by left].
Qed.

Lemma bump_spec c a w lo : ascending lo w -> (match lo with Some l => cell_lt l c | None => True end) ->
  ascending lo (bump c a w) /\ forall c', assoc c' (bump c a w) = if decide (c' = c) then wrap64 (assoc c w + a) else assoc c' w.
Proof.
  revert lo. induction w as [|[c1 a1] w IH]; intros lo Ha Hlo; cbn [bump].
  - split; [done|]. intros c'. cbn. destruct (decide (c' = c)) as [->|Hne]; [by rewrite decide_True by done|]. by rewrite decide_False by congruence.
  - destruct Ha as [H1 H2]. pose proof (cell_cmp_spec c c1) as Hs. destruct (cell_cmp c c1) eqn:E.
    + subst c1. split; [done|]. intros c'. cbn. rewrite (decide_True _ _ (eq_refl c)). destruct (decide (c' = c)) as [->|Hne]; [by rewrite decide_True by done|].
      by rewrite !decide_False by congruence.
    + split; [done|]. intros c'. cbn [assoc]. assert (assoc c ((c1, a1) :: w) = 0) as Hz.
      { apply (assoc_below c c); [split; [exact Hs|exact H2]|by right]. }
      cbn [assoc] in Hz. rewrite Hz. destruct (decide (c' = c)) as [->|Hne]; [by rewrite decide_True by done|]. by rewrite (decide_False _ _ (P := c = c')) by congruence.
    + destruct (IH (Some c1) H2 Hs) as [I1 I2]. split; [done|]. intros c'. cbn [assoc]. rewrite I2.
      assert (c1 <> c) as Hne by (intros ->; by apply cell_lt_irrefl in Hs). rewrite (decide_False _ _ Hne).
      destruct (decide (c' = c)) as [->|]; [by rewrite decide_False by done|done].
Qed.

Lemma want_spec ss w : ascending None w -> (forall c, 0 <= assoc c w) -> (forall c, assoc c w + total c ss <= max_i64) ->
  ascending None (want ss w) /\ forall c, assoc c (want ss w) = assoc c w + total c ss.
Proof.
  revert w. induction ss as [|[c a] ss IH]; intros w Ha Hn Hm; cbn [want].
  - split; [done|]. intros c. cbn. lia.
  - assert (forall c', 0 <= total c' ss) as Ht by (intros; apply total_nonneg). destruct (Z.leb_spec a 0) as [Hle|Hgt].
    + destruct (IH w Ha Hn) as [I1 I2]; [intros c'; specialize (Hm c'); cbn in Hm; destruct (decide (c = c')); lia|].
      split; [done|]. intros c'. rewrite I2. cbn. destruct (decide (c = c')); lia.
    + destruct (bump_spec c a w None Ha I) as [B1 B2]. assert (wrap64 (assoc c w + a) = assoc c w + a) as Hw.
      { apply wrap64_id. specialize (Hm c). specialize (Hn c). specialize (Ht c). cbn in Hm. rewrite decide_True in Hm by done. unfold max_i64 in *. lia. }
      assert (forall c', assoc c' (bump c a w) = assoc c' w + (if decide (c = c') then a else 0)) as B3.
      { intros c'. rewrite B2, Hw. destruct (decide (c' = c)) as [->|Hne]; [by rewrite decide_True by done|]. rewrite decide_False by congruence. lia. }
      destruct (IH (bump c a w) B1) as [I1 I2].
      * intros c'. rewrite B3. specialize (Hn c'). destruct (decide (c = c')); lia.
      * intros c'. rewrite B3. specialize (Hm c'). cbn in Hm. destruct (decide (c = c')); lia.
      * split; [done|]. intros c'. rewrite I2, B3. cbn. destruct (decide (c = c')); lia.
Qed.

Definition ledger_ok (l : EscrowLedger) : Prop := forall c p, l !! c = Some p -> pool_ok p.

Lemma check_wanted_ok l b w : ledger_ok l -> check_wanted l b w = Ok tt ->
  forall c p, l !! c = Some p -> get (spent p) b + assoc c w <= get (claimed p) b.
Proof.
  intros Hl. induction w as [|[c1 a] w IH]; intros Hc c p Hp; cbn in Hc |- *.
  - pose proof (po_spent p (Hl c p Hp) b). lia.
  - destruct (decide (c1 = c)) as [->|Hne].
    + rewrite Hp in Hc. destruct (exceeded p b a) eqn:E; [done|]. by apply exceeded_none; [eapply Hl|].
    + apply IH; [|done]. destruct (l !! c1) as [p1|]; [|done]. by destruct (exceeded p1 b a).
Qed.

(** A batch whose sums fit is accepted only when every cell affords it. *)
Lemma check_all_ok l b ss : ledger_ok l -> (forall c, total c ss <= max_i64) -> check_all l b ss = Ok tt ->
  forall c p, l !! c = Some p -> get (spent p) b + total c ss <= get (claimed p) b.
Proof.
  intros Hl Hm Hc c p Hp. destruct (want_spec ss [] I) as [_ W]; [done|intros c'; cbn; specialize (Hm c'); lia|].
  pose proof (check_wanted_ok l b _ Hl Hc c p Hp) as H. rewrite W in H. cbn in H. lia.
Qed.

(** Pools keep their slack. *)
Definition same_slack (l l' : EscrowLedger) : Prop := forall c, slack <$> l !! c = slack <$> l' !! c.

Lemma same_slack_insert l c p p' : l !! c = Some p -> slack p' = slack p -> same_slack l (<[c := p']> l).
Proof. intros Hp Hs c'. destruct (decide (c' = c)) as [->|]; [by rewrite lookup_insert_eq, Hp; cbn; rewrite Hs|by rewrite lookup_insert_ne]. Qed.

Lemma ledger_insert l c p : ledger_ok l -> pool_ok p -> ledger_ok (<[c := p]> l).
Proof. intros Hl Hp c' p'. destruct (decide (c' = c)) as [->|]; [rewrite lookup_insert_eq; by intros [= <-]|rewrite lookup_insert_ne by done; apply Hl]. Qed.

Lemma charge_all_ok l b ss : ledger_ok l -> (forall c p, l !! c = Some p -> get (spent p) b + total c ss <= get (claimed p) b) ->
  ledger_ok (charge_all l b ss) /\ same_slack l (charge_all l b ss).
Proof.
  revert l. induction ss as [|[c a] ss IH]; intros l Hl Ht; cbn [charge_all]; [done|].
  assert (forall c', 0 <= total c' ss) as Hn by (intros; apply total_nonneg).
  destruct (Z.leb_spec a 0) as [Hle|Hgt].
  - apply IH; [done|]. intros c' p Hp. specialize (Ht c' p Hp). cbn in Ht. destruct (decide (c = c')); lia.
  - destruct (l !! c) as [p|] eqn:E.
    + pose proof (Ht c p E) as Hc. cbn in Hc. rewrite decide_True in Hc by done. specialize (Hn c) as Hnc.
      assert (pool_ok (spend_pool p b a)) as Hp by (apply spend_pool_ok; [by eapply Hl|lia|lia]).
      destruct (claimed_bound p b (Hl c p E)) as [B1 B2]. pose proof (po_slack p (Hl c p E)) as Hs.
      destruct (IH (<[c := spend_pool p b a]> l)) as [I1 I2].
      * by apply ledger_insert.
      * intros c' p'. destruct (decide (c' = c)) as [->|Hne].
        -- rewrite lookup_insert_eq. intros [= <-]. cbn. rewrite get_insert, decide_True by done. rewrite wrap64_id by (unfold max_i64 in *; lia). lia.
        -- rewrite lookup_insert_ne by done. intros Hp'. specialize (Ht c' p' Hp'). cbn in Ht. rewrite decide_False in Ht by congruence. lia.
      * split; [done|]. intros c'. rewrite <- I2. by apply (same_slack_insert l c p).
    + apply IH; [done|]. intros c' p Hp. specialize (Ht c' p Hp). cbn in Ht. destruct (decide (c = c')); [congruence|lia].
Qed.

Lemma refund_all_ok l b ss : ledger_ok l -> ledger_ok (refund_all l b ss) /\ same_slack l (refund_all l b ss).
Proof.
  revert l. induction ss as [|[c a] ss IH]; intros l Hl; cbn [refund_all]; [done|].
  destruct (Z.leb_spec a 0) as [Hle|Hgt]; [by apply IH|]. destruct (l !! c) as [p|] eqn:E; [|by apply IH].
  destruct (spent p !! b) as [s|] eqn:Es; [|by apply IH]. set (p' := mkPool _ _ _).
  destruct (claimed_bound p b (Hl c p E)) as [B1 B2]. pose proof (po_slack p (Hl c p E)) as Hs.
  assert (get (spent p) b = s) as Eg by (unfold get; by rewrite Es). assert (pool_ok p') as Hp'.
  { split; cbn; [done| |apply (Hl c p E)]. intros b'. rewrite get_insert. case_decide; [subst|apply (Hl c p E)].
    rewrite wrap64_id by (unfold max_i64 in *; lia). lia. }
  destruct (IH (<[c := p']> l)) as [I1 I2]; [by apply ledger_insert|]. split; [done|]. intros c'. rewrite <- I2. by apply (same_slack_insert l c p).
Qed.

(** * Runs *)

Inductive EscrowOp :=
| OOpen (c : Cell) (s : Z)
| OClaim (b : BranchId) (c : Cell) (a : Z)
| OSpend (b : BranchId) (c : Cell) (a : Z)
| OSpendAll (b : BranchId) (ss : list (Cell * Z))
| ORefund (b : BranchId) (ss : list (Cell * Z))
| ORelease (b : BranchId)
| OSettle (b : BranchId) (c : Cell)
| OSettleAll (b : BranchId).

Definition escrow_op (op : EscrowOp) (l : EscrowLedger) : Result FerroError EscrowLedger :=
  match op with
  | OOpen c s => open l c s
  | OClaim b c a => claim l b c a
  | OSpend b c a => spend l b c a
  | OSpendAll b ss => spend_all l b ss
  | ORefund b ss => Ok (refund_all l b ss)
  | ORelease b => Ok (release l b)
  | OSettle b c => Ok (settle l b c)
  | OSettleAll b => Ok (settle_all l b)
  end.

(** What a step opens a cell with, and what it settles of it. *)
Definition opens (op : EscrowOp) (l : EscrowLedger) (c : Cell) : Z :=
  match op with OOpen c' s => if decide (c' = c) then s else 0 | _ => 0 end.
Definition settles (op : EscrowOp) (l : EscrowLedger) (c : Cell) : Z :=
  match op, l !! c with
  | OSettle b c', Some p => if decide (c' = c) then get (spent p) b else 0
  | OSettleAll b, Some p => get (spent p) b
  | _, _ => 0
  end.

(** A run, with for each cell what it was opened with and what was settled. A
    refused step leaves the ledger. *)
Fixpoint escrow_run (l : EscrowLedger) (opened settled : Cell -> Z) (ops : list EscrowOp) : EscrowLedger * (Cell -> Z) * (Cell -> Z) :=
  match ops with
  | [] => (l, opened, settled)
  | op :: ops =>
      match escrow_op op l with
      | Ok l' => escrow_run l' (fun c => opened c + opens op l c) (fun c => settled c + settles op l c) ops
      | Err _ => escrow_run l opened settled ops
      end
  end.

(** Arguments of their types, and batches that fit the type. *)
Definition escrow_op_ok (op : EscrowOp) : Prop :=
  match op with
  | OOpen _ s => s <= max_i64
  | OClaim _ _ a => a <= max_i64
  | OSpendAll _ ss => forall c, total c ss <= max_i64
  | _ => True
  end.

Record accounts (l : EscrowLedger) (opened settled : Cell -> Z) : Prop := {
  ac_pools : ledger_ok l;
  ac_open c p : l !! c = Some p -> slack p + settled c = opened c;
  ac_none c : l !! c = None -> opened c = 0 /\ settled c = 0;
  ac_settled c : 0 <= settled c }.

(** Steps that neither open nor settle. *)
Lemma accounts_same op l l' opened settled : accounts l opened settled -> ledger_ok l' -> same_slack l l' ->
  (forall c, opens op l c = 0) -> (forall c, settles op l c = 0) ->
  accounts l' (fun c => opened c + opens op l c) (fun c => settled c + settles op l c).
Proof.
  intros [P O N S] Hl Hs Ho Hset. split.
  - done.
  - intros c p Hp. rewrite Ho, Hset. specialize (Hs c). rewrite Hp in Hs. destruct (l !! c) as [p0|] eqn:E; [|done]. cbn in Hs. injection Hs as Hs.
    specialize (O c p0 E). lia.
  - intros c Hc. rewrite Ho, Hset. specialize (Hs c). rewrite Hc in Hs. destruct (l !! c) as [p0|] eqn:E; [done|]. destruct (N c E). lia.
  - intros c. rewrite Hset. specialize (S c). lia.
Qed.

Lemma claim_ok l b c a l' : ledger_ok l -> claim l b c a = Ok l' -> a <= max_i64 -> ledger_ok l' /\ same_slack l l'.
Proof.
  intros Hl Hc Ha. unfold claim in Hc. destruct (Z.leb_spec a 0) as [|Hpos]; [done|]. destruct (l !! c) as [p|] eqn:E; [|done].
  rewrite (unclaimed_eq p (Hl c p E)) in Hc. destruct (Z.ltb_spec (slack p - sum (claimed p)) a) as [|Hfree]; [done|]. injection Hc as <-.
  destruct (claimed_bound p b (Hl c p E)) as [B1 B2]. pose proof (po_slack p (Hl c p E)) as Hs.
  split; [|by apply (same_slack_insert l c p)]. apply ledger_insert; [done|]. rewrite wrap64_id by (unfold max_i64 in *; lia). split; cbn; [done| |].
  - intros b'. rewrite get_insert. case_decide; [subst; lia|apply (Hl c p E)].
  - rewrite sum_insert. lia.
Qed.

Lemma spend_ok l b c a l' : ledger_ok l -> spend l b c a = Ok l' -> ledger_ok l' /\ same_slack l l'.
Proof.
  intros Hl Hc. unfold spend in Hc. destruct (l !! c) as [p|] eqn:E; [|by injection Hc as <-]. destruct (Z.leb_spec a 0) as [|Hpos]; [by injection Hc as <-|].
  destruct (exceeded p b a) eqn:Ex; [done|]. injection Hc as <-. pose proof (exceeded_none p b a (Hl c p E) Ex).
  split; [|by apply (same_slack_insert l c p)]. apply ledger_insert; [done|]. apply spend_pool_ok; [by eapply Hl|lia|done].
Qed.

Lemma release_ok l b : ledger_ok l -> ledger_ok (release l b) /\ same_slack l (release l b).
Proof.
  intros Hl. split.
  - intros c p. unfold release. rewrite lookup_fmap. destruct (l !! c) as [p0|] eqn:E; [|done]. cbn. intros [= <-].
    apply drop_branch_ok; [by eapply Hl|by left].
  - intros c. unfold release. rewrite lookup_fmap. by destruct (l !! c).
Qed.

(** Settling one branch's spends of some cells. *)
Lemma settle_accounts l l' opened settled (used : Cell -> Z) b : accounts l opened settled ->
  (forall c, match l !! c, l' !! c with
             | Some p, Some p' => (p' = p /\ used c = 0) \/ (p' = settle_pool b p /\ used c = get (spent p) b)
             | None, None => used c = 0
             | _, _ => False
             end) ->
  accounts l' (fun c => opened c + 0) (fun c => settled c + used c).
Proof.
  intros [P O N S] H. split.
  - intros c p Hp. specialize (H c). rewrite Hp in H. destruct (l !! c) as [p0|] eqn:E; [|done]. destruct H as [[-> _]|[-> _]]; [by eapply P|].
    rewrite settle_pool_eq by (by eapply P). apply drop_branch_ok; [by eapply P|by right].
  - intros c p Hp. specialize (H c). rewrite Hp in H. destruct (l !! c) as [p0|] eqn:E; [|done]. specialize (O c p0 E).
    destruct H as [[-> ->]|[-> ->]]; [lia|]. rewrite settle_pool_eq by (by eapply P). cbn. lia.
  - intros c Hc. specialize (H c). rewrite Hc in H. destruct (l !! c) eqn:E; [done|]. destruct (N c E). lia.
  - intros c. specialize (H c). specialize (S c). destruct (l !! c) as [p0|] eqn:E, (l' !! c) as [p'|]; try done; [|lia].
    pose proof (po_spent p0 (P c p0 E) b). destruct H as [[_ ->]|[_ ->]]; lia.
Qed.

Lemma escrow_op_accounts op l l' opened settled : accounts l opened settled -> escrow_op_ok op -> escrow_op op l = Ok l' ->
  accounts l' (fun c => opened c + opens op l c) (fun c => settled c + settles op l c).
Proof.
  intros H Hop Hstep. pose proof (ac_pools _ _ _ H) as Hl. destruct op as [c s|b c a|b c a|b ss|b ss|b|b c|b]; cbn [escrow_op escrow_op_ok] in *.
  - unfold open in Hstep. destruct (Z.ltb_spec s 0) as [|Hs]; [done|]. destruct (l !! c) eqn:E; [done|]. injection Hstep as <-.
    destruct H as [P O N S]. split.
    + apply ledger_insert; [done|]. split; cbn; [done|intros b; unfold get; by rewrite lookup_empty|done].
    + intros c' p. unfold settles. cbn. destruct (decide (c = c')) as [<-|Hne].
      * rewrite lookup_insert_eq. intros [= <-]. cbn. destruct (N c E). lia.
      * rewrite lookup_insert_ne by congruence. intros Hp. specialize (O c' p Hp). lia.
    + intros c' Hc'. unfold settles. cbn. destruct (decide (c = c')) as [<-|Hne]; [by rewrite lookup_insert_eq in Hc'|].
      rewrite lookup_insert_ne in Hc' by congruence. destruct (N c' Hc'). lia.
    + intros c'. unfold settles. cbn. specialize (S c'). lia.
  - destruct (claim_ok l b c a l' Hl Hstep Hop). by apply accounts_same.
  - destruct (spend_ok l b c a l' Hl Hstep). by apply accounts_same.
  - unfold spend_all in Hstep. destruct (check_all l b ss) as [[]|] eqn:E; [|done]. cbn in Hstep. injection Hstep as <-.
    destruct (charge_all_ok l b ss Hl (check_all_ok l b ss Hl Hop E)). by apply accounts_same.
  - injection Hstep as <-. destruct (refund_all_ok l b ss Hl). by apply accounts_same.
  - injection Hstep as <-. destruct (release_ok l b Hl). by apply accounts_same.
  - injection Hstep as <-. apply (settle_accounts l _ opened settled (settles (OSettle b c) l) b H). intros c'. unfold settle, settles. cbn.
    destruct (decide (c = c')) as [<-|Hne].
    + destruct (l !! c) as [p|] eqn:E; [rewrite lookup_insert_eq; by right|by rewrite E].
    + destruct (l !! c) as [p|]; [rewrite lookup_insert_ne by congruence|]; destruct (l !! c'); by (done || left).
  - injection Hstep as <-. apply (settle_accounts l _ opened settled (settles (OSettleAll b) l) b H). intros c'. unfold settle_all, settles. cbn.
    rewrite lookup_fmap. destruct (l !! c'); [by right|done].
Qed.


Definition stock : Cell := (1, 1, 2)%N.
Definition sample_claims : list EscrowOp :=
  [OOpen stock 20; OClaim (1, 0)%N stock 12; OClaim (2, 0)%N stock 12; OSpendAll (1, 0)%N [(stock, 5); (stock, 8)];
   OSpendAll (1, 0)%N [(stock, 5); (stock, 4); (stock, -3)]; OClaim (2, 0)%N stock 8; OSpend (2, 0)%N stock 6; ORefund (2, 0)%N [(stock, 2)];
   OSettle (1, 0)%N stock; OOpen stock 99].


(** * What is charged *)

(** The drop of an integer cell is charged exactly. *)
Lemma integer_drop_charged l tbl row idx b a : - 2 ^ 31 <= b < 2 ^ 31 -> - 2 ^ 31 <= a < 2 ^ 31 -> is_bounded l (tbl, row, idx) = true ->
  row_spends l tbl row idx [Values.VInteger b] [Values.VInteger a] = if a <? b then [((tbl, row, idx), b - a)] else [].
Proof.
  intros Hb Ha Hc. cbn. rewrite Hc, wrap64_id by (unfold max_i64; lia). destruct (Z.ltb_spec 0 (b - a)), (Z.ltb_spec a b); (done || lia).
Qed.

(** A [BIGINT] cell is never charged, whatever its drop. *)
Lemma bigint_drop_free l tbl row idx b a : row_spends l tbl row idx [Values.VBigInt b] [Values.VBigInt a] = [].
Proof. cbn. by destruct (is_bounded l (tbl, row, idx)). Qed.

(** A [FLOAT] cell that falls to the lowest [i64] or below is not charged: the
    difference wraps. *)
Lemma float_drop_wraps l tbl row idx : row_spends l tbl row idx [Values.VFloat 0] [Values.VFloat 14123662039034560512] = [].
Proof. cbn. destruct (is_bounded l (tbl, row, idx)); [|done]. vm_compute. done. Qed.

(** A batch whose sum wraps is accepted whatever was claimed. *)
Lemma batch_sum_wraps l b c : check_all (<[c := mkPool 0 ∅ ∅]> l) b [(c, max_i64); (c, 2)] = Ok tt.
Proof.
  unfold check_all. cbn [want]. change (max_i64 <=? 0) with false. change (2 <=? 0) with false. cbn [bump].
  pose proof (cell_cmp_spec c c) as Hs. destruct (cell_cmp c c) eqn:E; [|by apply cell_lt_irrefl in Hs..].
  cbn [check_wanted]. rewrite lookup_insert_eq. unfold exceeded, get. cbn [claimed spent]. rewrite lookup_empty. vm_compute. done.
Qed.
