(* ===== verification/Visibility.v ===== *)
(** Which version of a row a transaction sees: [Snapshot] and [ReadView] of
    [src/src/wal/txn.rs], the walk over older versions and the conflict check of
    [src/src/wal/visibility.rs]. *)
From S2P Require Import Prelude Bytes Errors Tuple HeapPage.

#[local] Open Scope N_scope.

(** * Snapshots and views *)

Record Snapshot := mkSnapshot { high_water : N; active : gset N }.

Definition includes (s : Snapshot) (txn_id : N) : bool := (txn_id <? high_water s) && negb (bool_decide (txn_id ∈ active s)).
Definition already_delivered (s : Snapshot) (txn_id : N) : bool := negb (txn_id =? 0) && includes s txn_id.

Record ReadView := mkReadView { snapshot : Snapshot; view_txn : N }.

Definition is_commited_for_me (v : ReadView) (ts : N) : bool := (ts =? view_txn v) || includes (snapshot v) ts.

Definition visible (v : ReadView) (h : VersionHeader) : bool :=
  if negb (is_commited_for_me v (begin_ts h)) then false
  else negb (negb (end_ts h =? 0) && is_commited_for_me v (end_ts h)).

Definition check_write_conflict (v : ReadView) (h : VersionHeader) : Result FerroError unit :=
  if negb (is_commited_for_me v (begin_ts h)) then Err (Txn DoubleWriteConflict)
  else if negb (end_ts h =? 0) && negb (is_commited_for_me v (end_ts h)) then Err (Txn DoubleWriteConflict)
  else Ok tt.

(** * The heap of versions *)

(** The pages by id, each as its bytes; a page the file does not have is an
    error of the disk. *)
Abbreviation Pages := (gmap N (list byte)) (only parsing).

(** [HeapFileManager::read]. *)
Definition heap_read (pages : Pages) (page slot : N) : option (Result FerroError Tuple) :=
  match pages !! page with
  | None => Some (Err (Io DiskRefused))
  | Some bytes => p ← HeapPage.deserialize bytes; HeapPage.read p (N.to_nat slot)
  end.

(** The loop of [resolve_visibility_counted], with the number of hops. The fuel
    bounds the hops; [None] is a panic or a walk that outlasts it. *)
Fixpoint resolve_visibility (fuel : nat) (v : ReadView) (pages : Pages) (current : Tuple) (hops : N) :
    option (Result FerroError (option Tuple) * N) :=
  match fuel with
  | O => None
  | S fuel =>
      r ← version_header current;
      match r with
      | Err e => Some (Err e, hops)
      | Ok h =>
          if visible v h then Some (Ok (Some current), hops)
          else match prev h with
               | None => Some (Ok None, hops)
               | Some (page, slot) =>
                   r ← heap_read pages page slot;
                   match r with
                   | Err e => Some (Err e, hops + 1)
                   | Ok t => resolve_visibility fuel v pages t (hops + 1)
                   end
               end
      end
  end.

(** * The walk ends, with the newest visible version *)

(** The versions of a row, newest first, as the previous pointers link them. *)
Inductive versions (pages : Pages) : Tuple -> list (Tuple * VersionHeader) -> Prop :=
| vs_last t h : version_header t = Some (Ok h) -> prev h = None -> versions pages t [(t, h)]
| vs_more t h page slot t' vs : version_header t = Some (Ok h) -> prev h = Some (page, slot) ->
    heap_read pages page slot = Some (Ok t') -> versions pages t' vs -> versions pages t ((t, h) :: vs).

(** The first version a view sees, and how many come before it. *)
Fixpoint newest_visible (v : ReadView) (vs : list (Tuple * VersionHeader)) : option Tuple * nat :=
  match vs with
  | [] => (None, O)
  | (t, h) :: vs =>
      if visible v h then (Some t, O)
      else match vs with [] => (None, O) | _ => let '(r, n) := newest_visible v vs in (r, S n) end
  end.

Lemma versions_walk pages t vs v fuel hops : versions pages t vs -> (length vs <= fuel)%nat ->
  resolve_visibility fuel v pages t hops =
    let '(r, n) := newest_visible v vs in Some (Ok r, hops + N.of_nat n).
Proof.
  intros H. revert fuel hops. induction H as [t h Hh Hp|t h page slot t' vs Hh Hp Hr Hv IH]; intros fuel hops Hf; (destruct fuel as [|fuel]; [cbn in Hf; lia|]).
  - cbn [resolve_visibility newest_visible]. rewrite Hh. cbn [mbind option_bind]. destruct (visible v h); [by rewrite N.add_0_r|]. rewrite Hp. by rewrite N.add_0_r.
  - cbn [resolve_visibility newest_visible]. rewrite Hh. cbn [mbind option_bind]. destruct (visible v h); [by rewrite N.add_0_r|]. rewrite Hp, Hr. cbn [mbind option_bind].
    cbn in Hf. rewrite IH by lia. assert (exists x vs', vs = x :: vs') as (x & vs' & ->) by (inversion Hv; eauto).
    destruct (newest_visible v (x :: vs')) as [r n]. do 2 f_equal. lia.
Qed.

(** Versions appended one after the other: every previous pointer leads to a
    record written before. [order] numbers the records; the walk follows it
    down, so it ends. *)
Record appended (pages : Pages) (order : N * N -> option nat) : Prop := {
  ap_read page slot n : order (page, slot) = Some n ->
    exists t h, heap_read pages page slot = Some (Ok t) /\ version_header t = Some (Ok h) /\
      forall p s, prev h = Some (p, s) -> exists m, order (p, s) = Some m /\ (m < n)%nat }.

Lemma appended_versions pages order n page slot : appended pages order -> order (page, slot) = Some n ->
  exists t vs, heap_read pages page slot = Some (Ok t) /\ versions pages t vs /\ (length vs <= S n)%nat.
Proof.
  intros Ha. revert page slot. induction n as [n IH] using lt_wf_ind. intros page slot Ho. destruct (ap_read _ _ Ha page slot n Ho) as (t & h & Hr & Hh & Hp).
  destruct (prev h) as [[p s]|] eqn:E.
  - destruct (Hp p s eq_refl) as (m & Hm & Hlt). destruct (IH m Hlt p s Hm) as (t' & vs & Hr' & Hv & Hl).
    exists t, ((t, h) :: vs). split; [done|]. split; [by eapply vs_more|cbn; lia].
  - exists t, [(t, h)]. split; [done|]. split; [by apply vs_last|cbn; lia].
Qed.

(** Exactly the versions whose begin is committed for the view and whose end is
    not are visible. *)
Lemma visible_spec v h : visible v h = true <->
  is_commited_for_me v (begin_ts h) = true /\ (end_ts h = 0 \/ is_commited_for_me v (end_ts h) = false).
Proof.
  unfold visible. destruct (is_commited_for_me v (begin_ts h)); cbn [negb]; [|split; [done|by intros [? _]]].
  rewrite negb_true_iff, andb_false_iff, negb_false_iff, N.eqb_eq. tauto.
Qed.


(** A row of three versions on one page: created by 3, replaced by 6 and then
    by 9, which a view with 9 in flight does not see. *)
Definition version (b e p s : N) : Tuple := be_bytes 8 b ++ be_bytes 8 e ++ be_bytes 4 p ++ be_bytes 2 s ++ be_bytes 2 0 ++ [u8 b].
Definition version_page : option (list byte) :=
  let put r t := p ← r; match HeapPage.insert p t with Ok (p, _) => Some p | Err _ => None end in
  p ← put (put (put (Some (HeapPage.empty 1)) (version 3 6 0 0)) (version 6 9 1 0)) (version 9 0 1 1);
  HeapPage.serialize p.
Definition version_pages : Pages := match version_page with Some b => {[1 := b]} | None => ∅ end.
Definition version_order (r : N * N) : option nat := if (r.1 =? 1) && (r.2 <? 3) then Some (N.to_nat r.2) else None.

Lemma version_appended : appended version_pages version_order.
Proof.
  split. intros page slot n H. unfold version_order in H. cbn [fst snd] in H.
  destruct (N.eqb_spec page 1) as [->|]; [|done]. destruct (N.ltb_spec slot 3) as [Hs|]; [|done]. cbn in H. injection H as <-.
  assert (slot = 0 \/ slot = 1 \/ slot = 2) as [-> | [-> | ->]] by lia.
  - exists (version 3 6 0 0), (mkVersionHeader 3 6 0 0). split; [vm_compute; reflexivity|]. split; [vm_compute; reflexivity|]. done.
  - exists (version 6 9 1 0), (mkVersionHeader 6 9 1 0). split; [vm_compute; reflexivity|]. split; [vm_compute; reflexivity|].
    intros p s E. vm_compute in E. injection E as <- <-. exists O. split; [reflexivity|]. vm_compute. lia.
  - exists (version 9 0 1 1), (mkVersionHeader 9 0 1 1). split; [vm_compute; reflexivity|]. split; [vm_compute; reflexivity|].
    intros p s E. vm_compute in E. injection E as <- <-. exists 1%nat. split; [reflexivity|]. vm_compute. lia.
Qed.

