(* ===== verification/TxnManager.v ===== *)
(** Transactions: [TxnManager] of [src/src/wal/txn.rs] over the log, the pages
    the buffer pool shows and the active-transaction table, with the pool's
    write-back of [src/src/buffer/buffer_pool.rs]. A run of the model is a serial
    order of the critical sections the source takes. The trees of the primary
    indexes are behind the interface [Index]. *)
From stdpp Require Import sorting.
From S2P Require Import Prelude Bytes Errors Eff WalRecord Values Tuple HeapPage HeapPageProps Wal Grants Visibility.

#[local] Open Scope N_scope.

(** * Data *)

Inductive TxnStatus := Running | Commiting | Aborting.
#[export] Instance TxnStatus_eq_dec : EqDecision TxnStatus.
Proof. solve_decision. Defined.

Record TxnEntry := mkTxnEntry { status : TxnStatus; last_lsn : N; begin_lsn : N; entry_snapshot : option Snapshot }.

(** The cell of a tree's root is known by a number. *)
Record PrimaryWrite := mkPrimaryWrite { pw_root : N; pw_key : Value; pw_prev : option (N * N) }.

Record DdlRecord := mkDdlRecord {
  ddl_op : DdlOp; ddl_table : list byte; ddl_dir_root : N; ddl_time_travel_root : N;
  ddl_columns : list (list byte * DataType * bool) }.

(** What the manager asks of the trees of the primary indexes, the tree named by
    its root cell. *)
Class Index (T : Type) := {
  index_upsert : N -> Value -> N * N -> T -> Result FerroError unit * T;
  index_delete : N -> Value -> T -> Result FerroError unit * T }.

(** The manager with what it owns and shares. [pages] is what the pool shows and
    [disk] what has been written back; [dirty] are the pages whose frame was
    written since. [log_writes] and [page_writes] say how the next writes of the
    log and of pages end, a write beyond them succeeds; [fresh_pages] answers
    allocations, [None] a refusal. [interval], [authority] and [cluster_epoch] are
    the process's settings. *)
Record Db (T : Type) := mkDb {
  wal : WalManager; pages : gmap N (list byte); disk : gmap N (list byte); dirty : gset N;
  log_writes : list Outcome; page_writes : list bool; fresh_pages : list (option N);
  interval : N; authority : Authority; cluster_epoch : N;
  txn_ids : Grants; att : gmap N TxnEntry; commits_since_checkpoint : N;
  schema_log : list DdlRecord; run_log : list RunEntity; run_bindings : gmap N RunEntity;
  index_undo : gmap N (list PrimaryWrite); index_undo_failures : N; index : T }.
Arguments mkDb {T} _ _ _ _ _ _ _ _ _ _ _ _ _ _ _ _ _ _ _.
Arguments wal {T} _.
Arguments pages {T} _.
Arguments disk {T} _.
Arguments dirty {T} _.
Arguments log_writes {T} _.
Arguments page_writes {T} _.
Arguments fresh_pages {T} _.
Arguments interval {T} _.
Arguments authority {T} _.
Arguments cluster_epoch {T} _.
Arguments txn_ids {T} _.
Arguments att {T} _.
Arguments commits_since_checkpoint {T} _.
Arguments schema_log {T} _.
Arguments run_log {T} _.
Arguments run_bindings {T} _.
Arguments index_undo {T} _.
Arguments index_undo_failures {T} _.
Arguments index {T} _.

#[export] Instance eta_Db {T} : Eta (Db T) := fun s =>
  mkDb (wal s) (pages s) (disk s) (dirty s) (log_writes s) (page_writes s) (fresh_pages s) (interval s) (authority s)
    (cluster_epoch s) (txn_ids s) (att s) (commits_since_checkpoint s) (schema_log s) (run_log s) (run_bindings s)
    (index_undo s) (index_undo_failures s) (index s).
#[export] Instance set_wal {T} : Setter (@wal T). Proof. build_setter. Defined.
#[export] Instance set_db_pages {T} : Setter (@pages T). Proof. build_setter. Defined.
#[export] Instance set_db_disk {T} : Setter (@disk T). Proof. build_setter. Defined.
#[export] Instance set_dirty {T} : Setter (@dirty T). Proof. build_setter. Defined.
#[export] Instance set_log_writes {T} : Setter (@log_writes T). Proof. build_setter. Defined.
#[export] Instance set_page_writes {T} : Setter (@page_writes T). Proof. build_setter. Defined.
#[export] Instance set_fresh_pages {T} : Setter (@fresh_pages T). Proof. build_setter. Defined.
#[export] Instance set_txn_ids {T} : Setter (@txn_ids T). Proof. build_setter. Defined.
#[export] Instance set_att {T} : Setter (@att T). Proof. build_setter. Defined.
#[export] Instance set_commits {T} : Setter (@commits_since_checkpoint T). Proof. build_setter. Defined.
#[export] Instance set_schema_log {T} : Setter (@schema_log T). Proof. build_setter. Defined.
#[export] Instance set_run_log {T} : Setter (@run_log T). Proof. build_setter. Defined.
#[export] Instance set_run_bindings {T} : Setter (@run_bindings T). Proof. build_setter. Defined.
#[export] Instance set_index_undo {T} : Setter (@index_undo T). Proof. build_setter. Defined.
#[export] Instance set_index_undo_failures {T} : Setter (@index_undo_failures T). Proof. build_setter. Defined.
#[export] Instance set_index {T} : Setter (@index T). Proof. build_setter. Defined.

Section TxnManager.
Context {T : Type} `{!Index T}.

(** * The log and the pool below *)

Definition wal_append (txn_id prev : N) (kind : RecKind) : Eff (Db T) N :=
  s ← eget;
  '(w, lsn) ← lift (Wal.append (wal s) txn_id prev kind);
  _ ← eset (fun s => s <| wal := w |>);
  mret lsn.

Definition wal_flush : Eff (Db T) unit :=
  s ← eget;
  let '(w, wrote) := Wal.flush (wal s) (default Written (head (log_writes s))) in
  _ ← eset (fun s => s <| wal := w |> <| log_writes := tail (log_writes s) |>);
  if wrote then mret tt else throw (Io DiskRefused).

Definition wal_flush_up_to (lsn : N) : Eff (Db T) unit :=
  s ← eget;
  if lsn <? flushed_lsn (wal s) then mret tt else wal_flush.

(** The frame of a page, and a frame written under its latch and unpinned dirty. *)
Definition fetch (page_id : N) : Eff (Db T) (list byte) :=
  s ← eget;
  lift (ok_or (pages s !! page_id) (Io DiskRefused)).
Definition store (page_id : N) (data : list byte) : Eff (Db T) unit :=
  eset (fun s => s <| pages := <[page_id := data]> (pages s) |> <| dirty := {[page_id]} ∪ dirty s |>).

(** [page_lsn_of]; a page is always 4096 bytes long. *)
Definition page_lsn_of (data : list byte) : N :=
  match of_be (firstn 1 data) with
  | 0 => of_be (firstn 8 (drop 11 data))
  | 2 | 3 => of_be (firstn 8 (drop 5 data))
  | _ => 0
  end.

Definition wal_gate (data : list byte) : Eff (Db T) unit :=
  if 0 <? page_lsn_of data then wal_flush_up_to (page_lsn_of data) else mret tt.

(** [DiskManager::write]. *)
Definition disk_write (page_id : N) (data : list byte) : Eff (Db T) unit :=
  s ← eget;
  _ ← eset (fun s => s <| page_writes := tail (page_writes s) |>);
  if default true (head (page_writes s)) then eset (fun s => s <| disk := <[page_id := data]> (disk s) |>)
  else throw (Io DiskRefused).

Definition flush_page (page_id : N) : Eff (Db T) unit :=
  s ← eget;
  if bool_decide (page_id ∈ dirty s) then
    match pages s !! page_id with
    | None => mret tt
    | Some data =>
        _ ← wal_gate data;
        _ ← disk_write page_id data;
        eset (fun s => s <| dirty := dirty s ∖ {[page_id]} |>)
    end
  else mret tt.

Fixpoint flush_each (ids : list N) : Eff (Db T) unit :=
  match ids with
  | [] => mret tt
  | id :: ids => _ ← flush_page id; flush_each ids
  end.
Definition flush_all : Eff (Db T) unit :=
  s ← eget; flush_each (merge_sort N.le (elements (dirty s))).

(** * Beginning and logging *)

Definition begin : Eff (Db T) N :=
  s ← eget;
  let '(g, r) := Grants.take 1 (authority s) (cluster_epoch s) (txn_ids s) in
  _ ← eset (fun s => s <| txn_ids := g |>);
  txn_id ← lift r;
  lsn ← wal_append txn_id 0 RecBegin;
  _ ← eset (fun s =>
    s <| att := <[txn_id := mkTxnEntry Running lsn lsn (Some (mkSnapshot txn_id (dom (att s))))]> (att s) |>);
  mret txn_id.

Definition append_chained (txn_id : N) (kind : RecKind) : Eff (Db T) N :=
  s ← eget;
  entry ← lift (ok_or (att s !! txn_id) (Wal TxnNotActive));
  lsn ← wal_append txn_id (last_lsn entry) kind;
  _ ← eset (fun s =>
    s <| att := <[txn_id := mkTxnEntry (status entry) lsn (begin_lsn entry) (entry_snapshot entry)]> (att s) |>);
  mret lsn.

Definition log_insert (txn_id dir_root page_id slot : N) (tuple : list byte) : Eff (Db T) N :=
  append_chained txn_id (RecHeapInsert dir_root page_id slot tuple).
Definition log_delete (txn_id dir_root page_id slot : N) (old : list byte) : Eff (Db T) N :=
  append_chained txn_id (RecHeapDelete dir_root page_id slot old).
Definition log_update (txn_id dir_root page_id slot : N) (old new : list byte) : Eff (Db T) N :=
  append_chained txn_id (RecHeapUpdate dir_root page_id slot old new).

Definition record_primary_write (txn_id root : N) (key : Value) (prev : option (N * N)) : Eff (Db T) unit :=
  eset (fun s => s <| index_undo :=
    <[txn_id := default [] (index_undo s !! txn_id) ++ [mkPrimaryWrite root key prev]]> (index_undo s) |>).

(** * Snapshots *)

Definition is_aborting (txn_id : N) (s : Db T) : bool :=
  match att s !! txn_id with Some e => bool_decide (status e = Aborting) | None => false end.

Definition snapshot_of (txn_id : N) : Eff (Db T) Snapshot :=
  s ← eget;
  entry ← lift (ok_or (att s !! txn_id) (Txn NoSnapshot));
  if bool_decide (status entry = Aborting) then throw (Txn (RollingBack txn_id))
  else lift (ok_or (entry_snapshot entry) (Txn NoSnapshot)).

Definition read_snapshot (s : Db T) : Snapshot := mkSnapshot (issued (txn_ids s)) (dom (att s)).

Definition apply_txn_id_grant (node lo hi : N) : Eff (Db T) unit :=
  s ← eget;
  let '(g, r) := Grants.apply_grant node lo hi (authority s) (cluster_epoch s) (txn_ids s) in
  _ ← eset (fun s => s <| txn_ids := g |>);
  _ ← lift r;
  mret tt.
Definition raise_next_txn_id (at_least : N) : Eff (Db T) unit :=
  eset (fun s => s <| txn_ids := raise_issued_through at_least (txn_ids s) |>).

(** * Schema and run declarations *)

Definition append_ddl (r : DdlRecord) : Eff (Db T) unit :=
  _ ← wal_append 0 0 (RecDdl (ddl_op r) (ddl_table r) (ddl_dir_root r) (ddl_time_travel_root r) (ddl_columns r));
  mret tt.

(** [retain(|r| r.dir_root != d)]. *)
Definition without_root (d : N) (log : list DdlRecord) : list DdlRecord :=
  List.filter (fun r => negb (ddl_dir_root r =? d)) log.

Definition log_ddl (r : DdlRecord) : Eff (Db T) unit :=
  let kept log := without_root (ddl_dir_root r) log in
  _ ← eset (fun s => s <| schema_log :=
    match ddl_op r with
    | CreateTable => kept (schema_log s) ++ [r]
    | DropTable => kept (schema_log s)
    | AlterColumn _ => kept (schema_log s)
        ++ [mkDdlRecord CreateTable (ddl_table r) (ddl_dir_root r) (ddl_time_travel_root r) (ddl_columns r)]
    end |>);
  _ ← append_ddl r;
  wal_flush.

Fixpoint append_ddls (rs : list DdlRecord) : Eff (Db T) unit :=
  match rs with [] => mret tt | r :: rs => _ ← append_ddl r; append_ddls rs end.
Definition replay_schema : Eff (Db T) unit :=
  s ← eget;
  if bool_decide (length (schema_log s) = O) then mret tt
  else _ ← append_ddls (schema_log s); wal_flush.

Definition same_actor (a b : RunEntity) : bool :=
  bool_decide (agent_id a = agent_id b) && bool_decide (run_id a = run_id b) && bool_decide (model a = model b)
  && bool_decide (model_version a = model_version b) && bool_decide (prompt_hash a = prompt_hash b)
  && (branch_id (parent_branch a) =? branch_id (parent_branch b))
  && (branch_generation (parent_branch a) =? branch_generation (parent_branch b)).

Definition declare_run (run : RunEntity) : Eff (Db T) unit :=
  s ← eget;
  match List.find (fun r => prov_id r =? prov_id run) (run_log s) with
  | Some existing => if same_actor existing run then mret tt else throw (Provenance (ProvSlotTaken (prov_id run)))
  | None => eset (fun s => s <| run_log := run_log s ++ [run] |>)
  end.

Fixpoint append_runs (rs : list RunEntity) : Eff (Db T) unit :=
  match rs with [] => mret tt | r :: rs => _ ← wal_append 0 0 (RecRunIdentity r); append_runs rs end.
Definition replay_runs : Eff (Db T) unit :=
  s ← eget;
  if bool_decide (length (run_log s) = O) then mret tt
  else _ ← append_runs (run_log s); wal_flush.

(** * Checkpoints *)

(** [DiskManager::sync]. *)
Definition disk_sync : Eff (Db T) unit :=
  s ← eget;
  _ ← eset (fun s => s <| page_writes := tail (page_writes s) |>);
  if default true (head (page_writes s)) then mret tt else throw (Io DiskRefused).

Definition checkpoint_locked : Eff (Db T) unit :=
  _ ← wal_flush;
  _ ← flush_all;
  _ ← disk_sync;
  _ ← eset (fun s => s <| wal := Wal.truncate (wal s) (issued (txn_ids s)) |> <| commits_since_checkpoint := 0 |>);
  _ ← replay_schema;
  replay_runs.

Definition checkpoint : Eff (Db T) unit :=
  s ← eget;
  if bool_decide (dom (att s) = ∅) then checkpoint_locked else throw (Wal CheckpointWithActive).

Definition ddl_checkpointed {A : Type} (f : Eff (Db T) A) : Eff (Db T) A :=
  s ← eget;
  if bool_decide (dom (att s) = ∅) then out ← f; _ ← checkpoint_locked; mret out
  else throw (Wal CheckpointWithActive).

Definition checkpoint_due (s : Db T) : bool := interval s <=? commits_since_checkpoint s.

(** * Commit *)

Definition is_clustered (s : Db T) : bool := match authority s with Standalone => false | Member _ => true end.

Definition commit (txn_id : N) : Eff (Db T) unit :=
  s ← eget;
  if is_aborting txn_id s then throw (Txn (RollingBack txn_id))
  else
    _ ← match run_bindings s !! txn_id with
        | Some run => append_chained txn_id (RecRunIdentity run)
        | None => mret 0
        end;
    commit_lsn ← append_chained txn_id RecCommit;
    _ ← wal_flush_up_to commit_lsn;
    _ ← append_chained txn_id RecTxnEnd;
    _ ← eset (fun s => s <| att := base.delete txn_id (att s) |> <| run_bindings := base.delete txn_id (run_bindings s) |>
                         <| index_undo := base.delete txn_id (index_undo s) |>
                         <| commits_since_checkpoint := wadd64 (commits_since_checkpoint s) 1 |>);
    s ← eget;
    let due := checkpoint_due s && bool_decide (dom (att s) = ∅) in
    if due && negb (is_clustered s) then checkpoint else mret tt.

(** * Abort *)

Definition undo_insert (page : Page) (slot : N) : option (Result FerroError Page) := Some (HeapPage.delete page (N.to_nat slot)).
Definition undo_delete (page : Page) (slot : N) (old : list byte) : option (Result FerroError Page) :=
  Some (restore_at page (N.to_nat slot) old).
Definition undo_update (page : Page) (slot : N) (old : list byte) : option (Result FerroError Page) :=
  HeapPage.update page (N.to_nat slot) old.

(** A value that may be a panic, an error or a result. *)
Definition checked {A : Type} (o : option (Result FerroError A)) : Eff (Db T) A := fun s =>
  match o with Some r => Some (r, s) | None => None end.

(** The page is changed in a copy and shown to serialize before its record is
    appended. *)
Definition undo_then_log (txn_id page_id : N) (clr : RecKind) (undo : Page -> option (Result FerroError Page)) : Eff (Db T) unit :=
  data ← fetch page_id;
  page ← at_index (HeapPage.deserialize data);
  page ← checked (undo page);
  _ ← at_index (HeapPage.serialize page);
  clr_lsn ← append_chained txn_id clr;
  data ← at_index (HeapPage.serialize (set_lsn clr_lsn page));
  store page_id data.

Definition undo_write (w : PrimaryWrite) (t : T) : Result FerroError unit * T :=
  match pw_prev w with
  | Some rid => index_upsert (pw_root w) (pw_key w) rid t
  | None =>
      let '(r, t) := index_delete (pw_root w) (pw_key w) t in
      (match r with Err KeyNotFound => Ok tt | other => other end, t)
  end.

(** Every write is attempted; the first error is the result. The list is the
    writes newest first. *)
Fixpoint undo_primary_writes (ws : list PrimaryWrite) (t : T) : Result FerroError unit * T :=
  match ws with
  | [] => (Ok tt, t)
  | w :: ws =>
      let '(r, t) := undo_write w t in
      let '(rest, t) := undo_primary_writes ws t in
      (match r with Err e => Err e | Ok _ => rest end, t)
  end.

(** The undo of one record of a change to a page. *)
Definition undo_one (txn_id : N) (r : LogRecord) : Eff (Db T) unit :=
  match rec_kind r with
  | RecHeapInsert dir_root page_id slot _ =>
      let clr := RecClr (rec_lsn r) (prev_lsn r) (RecHeapDelete dir_root page_id slot []) in
      undo_then_log txn_id page_id clr (fun page => undo_insert page slot)
  | RecHeapDelete dir_root page_id slot old =>
      let clr := RecClr (rec_lsn r) (prev_lsn r) (RecHeapInsert dir_root page_id slot old) in
      undo_then_log txn_id page_id clr (fun page => undo_delete page slot old)
  | RecHeapUpdate dir_root page_id slot old new =>
      let clr := RecClr (rec_lsn r) (prev_lsn r) (RecHeapUpdate dir_root page_id slot new old) in
      undo_then_log txn_id page_id clr (fun page => undo_update page slot old)
  | _ => mret tt
  end.

(** The loop of [abort]. Each record is older than the one before it, so the
    records of the log are fuel enough. *)
Fixpoint undo_loop (fuel : nat) (txn_id lsn : N) : Eff (Db T) unit :=
  match fuel with
  | O => fun _ => None
  | S fuel =>
      s ← eget;
      '(r, _) ← checked (Wal.read_record (wal s) lsn);
      match rec_kind r with
      | RecBegin => mret tt
      | RecClr _ undo_next _ => if undo_next =? 0 then mret tt else undo_loop fuel txn_id undo_next
      | _ =>
          _ ← undo_one txn_id r;
          if prev_lsn r =? 0 then mret tt else undo_loop fuel txn_id (prev_lsn r)
      end
  end.

Definition set_status (st : TxnStatus) (e : TxnEntry) : TxnEntry :=
  mkTxnEntry st (last_lsn e) (begin_lsn e) (entry_snapshot e).

Definition abort (fuel : nat) (txn_id : N) : Eff (Db T) unit :=
  _ ← append_chained txn_id RecAbort;
  s ← eget;
  entry ← at_index (att s !! txn_id);
  _ ← eset (fun s => s <| att := <[txn_id := set_status Aborting entry]> (att s) |>);
  s ← eget;
  let writes := default [] (index_undo s !! txn_id) in
  let '(r, t) := undo_primary_writes (rev writes) (index s) in
  _ ← eset (fun s => s <| index_undo := base.delete txn_id (index_undo s) |> <| index := t |>
                       <| index_undo_failures := match r with
                            | Ok _ => index_undo_failures s
                            | Err _ => wadd64 (index_undo_failures s) 1 end |>);
  s ← eget;
  entry ← at_index (att s !! txn_id);
  _ ← undo_loop fuel txn_id (last_lsn entry);
  _ ← append_chained txn_id RecTxnEnd;
  eset (fun s => s <| att := base.delete txn_id (att s) |> <| run_bindings := base.delete txn_id (run_bindings s) |>).

(** * Snapshot readers *)

Definition end_read_only (fuel : nat) (txn_id : N) : Eff (Db T) unit :=
  s ← eget;
  entry ← lift (ok_or (att s !! txn_id) (Txn (TxnIsNotActive txn_id)));
  if negb (last_lsn entry =? begin_lsn entry) then
    _ ← abort fuel txn_id;
    throw (Txn (ReaderWrote txn_id))
  else
    _ ← catch (append_chained txn_id RecTxnEnd)
          (fun e => _ ← eset (fun s => s <| att := base.delete txn_id (att s) |>); throw e);
    eset (fun s => s <| att := base.delete txn_id (att s) |>).

(** The error of the close is dropped. *)
Definition abandon_reader (fuel : nat) (txn_id : N) : Eff (Db T) unit :=
  _ ← catch (end_read_only fuel txn_id) (fun _ => mret tt);
  eset (fun s => s <| att := base.delete txn_id (att s) |>).

Definition wal_pin (lsn : N) : Eff (Db T) (N * N) :=
  s ← eget;
  '(w, p) ← lift (Wal.pin (wal s) lsn);
  _ ← eset (fun s => s <| wal := w |>);
  mret p.

(** The least [begin_lsn] of the table. *)
Definition resume_point (att : gmap N TxnEntry) : option N :=
  match begin_lsn <$> (map_to_list att).*2 with [] => None | l :: ls => Some (fold_left N.min ls l) end.

(** The handoff: the reader, its snapshot, where the stream resumes, the pin. *)
Definition begin_snapshot_read (fuel : nat) : Eff (Db T) (N * Snapshot * N * (N * N)) :=
  txn_id ← begin;
  s ← eget;
  resume_lsn ← at_index (resume_point (att s));
  entry ← at_index (att s !! txn_id);
  snapshot ← at_index (entry_snapshot entry);
  p ← catch (_ ← wal_flush; wal_pin resume_lsn) (fun e => _ ← abandon_reader fuel txn_id; throw e);
  mret (txn_id, snapshot, resume_lsn, p).
End TxnManager.
