(* ===== verification/PageDirectory.v ===== *)
(** The page directory of a heap file: [src/src/storage/page_directory.rs]. A
    directory page lists data pages with the free space each was last known to
    have, and names the next directory page, 0 for none. *)
From S2P Require Import Prelude Bytes Errors HeapPage HeapPageProps.

#[local] Open Scope N_scope.

(** * Data *)

Record PageDirectoryEntry := mkDirEntry { de_page : N; free_space : N }.
Record PageDirectory := mkDir { dir_id : N; next_page_directory : N; num_entries : N; entries : list PageDirectoryEntry }.

Definition HEADER_SIZE : N := 11.
Definition ENTRY_SIZE : N := 6.
Definition PAGE_TYPE_DIRECTORY : N := 1.

Definition new (page_id : N) : PageDirectory := mkDir page_id 0 0 [].

(** * Operations *)

Definition find_page_with_space (d : PageDirectory) (needed : N) : option N :=
  de_page <$> List.find (fun e => needed <=? free_space e) (entries d).

Fixpoint update_first (page_id new_free_space : N) (es : list PageDirectoryEntry) : option (list PageDirectoryEntry) :=
  match es with
  | [] => None
  | e :: es =>
      if de_page e =? page_id then Some (mkDirEntry (de_page e) new_free_space :: es)
      else es ← update_first page_id new_free_space es; Some (e :: es)
  end.
Definition update_entry (d : PageDirectory) (page_id new_free_space : N) : Result FerroError PageDirectory :=
  match update_first page_id new_free_space (entries d) with
  | Some es => Ok (mkDir (dir_id d) (next_page_directory d) (num_entries d) es)
  | None => Err (Io DirectoryEntryMissing)
  end.

Definition add_entry (d : PageDirectory) (page_id space : N) : Result FerroError PageDirectory :=
  if HEADER_SIZE + (blen (entries d) + 1) * ENTRY_SIZE <=? PAGE_SIZE
  then Ok (mkDir (dir_id d) (next_page_directory d) (to_u16 (num_entries d + 1)) (entries d ++ [mkDirEntry page_id space]))
  else Err NotEnoughSpace.

Definition remove_entry (d : PageDirectory) (page_id : N) : Result FerroError PageDirectory :=
  let kept := List.filter (fun e => negb (de_page e =? page_id)) (entries d) in
  let dropped := blen (entries d) - blen kept in
  if dropped =? 0 then Err (Io DirectoryEntryMissing)
  else Ok (mkDir (dir_id d) (next_page_directory d) (wsub16 (num_entries d) (to_u16 dropped)) kept).

(** * On disk *)

Fixpoint put_entries (buffer : list byte) (i : N) (es : list PageDirectoryEntry) : option (list byte) :=
  match es with
  | [] => Some buffer
  | e :: es =>
      let offset := HEADER_SIZE + i * ENTRY_SIZE in
      buffer ← copy_at buffer offset (be_bytes 4 (de_page e));
      buffer ← copy_at buffer (offset + 4) (be_bytes 2 (free_space e));
      put_entries buffer (i + 1) es
  end.

Definition serialize (d : PageDirectory) : option (list byte) :=
  let buffer := replicate (N.to_nat PAGE_SIZE) (u8 0) in
  buffer ← copy_at buffer 0 (be_bytes 1 PAGE_TYPE_DIRECTORY);
  buffer ← copy_at buffer 1 (be_bytes 4 (dir_id d));
  buffer ← copy_at buffer 5 (be_bytes 4 (next_page_directory d));
  buffer ← copy_at buffer 9 (be_bytes 2 (to_u16 (blen (entries d))));
  put_entries buffer 0 (entries d).

Fixpoint get_entries (bytes : list byte) (i : N) (n : nat) : option (list PageDirectoryEntry) :=
  match n with
  | O => Some []
  | S n =>
      let offset := N.to_nat (HEADER_SIZE + i * ENTRY_SIZE) in
      p ← get_range bytes offset (offset + 4);
      f ← get_range bytes (offset + 4) (offset + 6);
      rest ← get_entries bytes (i + 1) n;
      Some (mkDirEntry (of_be p) (of_be f) :: rest)
  end.

Definition deserialize (bytes : list byte) : option PageDirectory :=
  id ← get_range bytes 1 5;
  nxt ← get_range bytes 5 9;
  n ← get_range bytes 9 11;
  es ← get_entries bytes 0 (N.to_nat (of_be n));
  Some (mkDir (of_be id) (of_be nxt) (of_be n) es).

(** * A stored directory reads back *)

Definition entry_ok (e : PageDirectoryEntry) : Prop := de_page e <= max_u32 /\ free_space e <= max_u16.
Record dir_ok (d : PageDirectory) : Prop := {
  dk_id : dir_id d <= max_u32;
  dk_next : next_page_directory d <= max_u32;
  dk_count : num_entries d = blen (entries d);
  dk_room : HEADER_SIZE + blen (entries d) * ENTRY_SIZE <= PAGE_SIZE;
  dk_entries : Forall entry_ok (entries d) }.

Definition entry_bytes (e : PageDirectoryEntry) : list byte := be_bytes 4 (de_page e) ++ be_bytes 2 (free_space e).
Definition entries_bytes (es : list PageDirectoryEntry) : list byte := concat (entry_bytes <$> es).
Definition dir_header (d : PageDirectory) : list byte :=
  be_bytes 1 PAGE_TYPE_DIRECTORY ++ be_bytes 4 (dir_id d) ++ be_bytes 4 (next_page_directory d) ++ be_bytes 2 (blen (entries d)).
Definition dir_image (d : PageDirectory) : list byte :=
  dir_header d ++ entries_bytes (entries d) ++ replicate (4085 - 6 * length (entries d)) (u8 0).

Lemma length_entries_bytes es : length (entries_bytes es) = (6 * length es)%nat.
Proof.
  induction es as [|e es IH]; [done|]. unfold entries_bytes in *. cbn [fmap list_fmap concat length]. rewrite length_app, IH.
  unfold entry_bytes. rewrite length_app, !length_be_bytes. lia.
Qed.

Lemma length_dir_header d : length (dir_header d) = 11%nat.
Proof. unfold dir_header. by rewrite !length_app, !length_be_bytes. Qed.

Lemma put_entries_next es pre n i : blen pre = HEADER_SIZE + i * ENTRY_SIZE -> (6 * length es <= n)%nat ->
  put_entries (pre ++ replicate n (u8 0)) i es = Some ((pre ++ entries_bytes es) ++ replicate (n - 6 * length es) (u8 0)).
Proof.
  revert pre n i. induction es as [|e es IH]; intros pre n i Hp Hn; cbn [put_entries].
  - change (entries_bytes []) with (@nil byte). rewrite app_nil_r. do 3 f_equal. cbn. lia.
  - cbn [length] in Hn. rewrite copy_next by (rewrite ?length_be_bytes; lia). cbn [mbind option_bind]. rewrite length_be_bytes.
    rewrite copy_next by (rewrite ?blen_app, ?blen_be_bytes, ?length_be_bytes; lia).
    cbn [mbind option_bind]. rewrite length_be_bytes. rewrite IH.
    + unfold entries_bytes. cbn [fmap list_fmap concat]. unfold entry_bytes at 2. rewrite <- !app_assoc. do 5 f_equal. cbn [length]. f_equal. lia.
    + rewrite !blen_app, !blen_be_bytes. unfold ENTRY_SIZE in *. lia.
    + lia.
Qed.

Lemma serialize_dir d : dir_ok d -> serialize d = Some (dir_image d).
Proof.
  intros [_ _ _ Hr _]. unfold HEADER_SIZE, ENTRY_SIZE, PAGE_SIZE, blen in Hr. unfold serialize.
  rewrite to_u16_small by (unfold blen; lia).
  assert (exists n, N.to_nat PAGE_SIZE = n /\ N.of_nat n = 4096) as (n & -> & Hn) by (eexists; split; [reflexivity|reflexivity]).
  rewrite <- (app_nil_l (replicate _ _)).
  do 4 (rewrite copy_next by (rewrite ?blen_app, ?blen_nil, ?blen_be_bytes, ?length_be_bytes; first [reflexivity | lia]); cbn [mbind option_bind]).
  match goal with |- context [put_entries (?h ++ replicate _ _)] => replace h with (dir_header d) by (unfold dir_header; by rewrite app_nil_l, <- !app_assoc) end.
  rewrite !length_be_bytes, put_entries_next.
  - unfold dir_image. rewrite <- app_assoc. do 4 f_equal. lia.
  - unfold blen. by rewrite length_dir_header.
  - lia.
Qed.

Lemma get_entries_bytes es pre rest i : blen pre = HEADER_SIZE + i * ENTRY_SIZE -> Forall entry_ok es ->
  get_entries (pre ++ entries_bytes es ++ rest) i (length es) = Some es.
Proof.
  intros Hp He. revert pre i Hp. induction He as [|e es [He1 He2] _ IH]; intros pre i Hp; cbn [get_entries length]; [done|].
  unfold entries_bytes. cbn [fmap list_fmap concat]. fold (entries_bytes es). unfold entry_bytes. unfold HEADER_SIZE, ENTRY_SIZE, blen in *.
  assert (N.to_nat (11 + i * 6) = length pre) as El by lia. rewrite El.
  rewrite (get_range_part pre (be_bytes 4 (de_page e)) (be_bytes 2 (free_space e) ++ entries_bytes es ++ rest) _ (length pre) (length pre + 4)) by (rewrite <- ?app_assoc, ?length_be_bytes; done).
  cbn [mbind option_bind]. rewrite (get_range_part (pre ++ be_bytes 4 (de_page e)) (be_bytes 2 (free_space e)) (entries_bytes es ++ rest) _ (length pre + 4) (length pre + 6))
    by (rewrite <- ?app_assoc, ?length_app, ?length_be_bytes; first [done|lia]).
  cbn [mbind option_bind].
  replace (pre ++ ((be_bytes 4 (de_page e) ++ be_bytes 2 (free_space e)) ++ entries_bytes es) ++ rest) with
    ((pre ++ be_bytes 4 (de_page e) ++ be_bytes 2 (free_space e)) ++ entries_bytes es ++ rest) by (by rewrite <- !app_assoc).
  rewrite IH by (rewrite !length_app, !length_be_bytes; lia). cbn [mbind option_bind].
  rewrite !of_be_be_bytes_small by (cbn; unfold max_u32, max_u16 in *; lia). by destruct e.
Qed.

Lemma deserialize_dir d : dir_ok d -> deserialize (dir_image d) = Some d.
Proof.
  intros [H1 H2 H3 H4 H5]. unfold HEADER_SIZE, ENTRY_SIZE, PAGE_SIZE, blen in H4.
  set (rest := entries_bytes (entries d) ++ replicate (4085 - 6 * length (entries d)) (u8 0)).
  set (a1 := be_bytes 1 PAGE_TYPE_DIRECTORY). set (a2 := be_bytes 4 (dir_id d)). set (a3 := be_bytes 4 (next_page_directory d)). set (a4 := be_bytes 2 (blen (entries d))).
  assert (dir_image d = a1 ++ a2 ++ a3 ++ a4 ++ rest) as Ei by (unfold dir_image, dir_header; by rewrite <- !app_assoc).
  unfold deserialize. rewrite (get_range_part a1 a2 (a3 ++ a4 ++ rest) (dir_image d) 1 5) by (rewrite ?Ei; done).
  cbn [mbind option_bind]. rewrite (get_range_part (a1 ++ a2) a3 (a4 ++ rest) (dir_image d) 5 9) by (rewrite ?Ei, <- ?app_assoc; done).
  cbn [mbind option_bind]. rewrite (get_range_part (a1 ++ a2 ++ a3) a4 rest (dir_image d) 9 11) by (rewrite ?Ei, <- ?app_assoc; done).
  cbn [mbind option_bind]. unfold a2, a3, a4. rewrite !of_be_be_bytes_small by (cbn; unfold max_u32, max_u16, blen in *; lia).
  rewrite to_nat_blen. unfold dir_image. rewrite get_entries_bytes; [|unfold blen; by rewrite length_dir_header|done].
  cbn [mbind option_bind]. rewrite <- H3. by destruct d.
Qed.
