(* ===== verification/HeapFile.v ===== *)
(** Heap files: [HeapFileManager] of [src/src/storage/heap_file_manager.rs]. A
    file is a chain of directory pages and the data pages they list; a file
    opened with a transaction logs every write before its page is stored. *)
From S2P Require Import Prelude Bytes Errors Eff WalRecord Tuple HeapPage HeapPageProps Wal Visibility TxnManager PageDirectory.

#[local] Open Scope N_scope.

(** [HeapScanner] of [src/src/storage/heap_scanner.rs]. *)
Record HeapScanner := mkScanner {
  dir_page_id : N; data_page_ids : list N; data_idx : nat; slot_idx : nat; current_page : option (N * Page) }.

(** The directory the file starts at, and the transaction it writes for. *)
Record HeapFileManager := mkHeapFile { first_directory_page_id : N; file_txn : option N }.

Section HeapFile.
Context {T : Type} `{!Index T}.

(** * Reading *)

Definition load_page (page_id : N) : Eff (Db T) Page :=
  data ← fetch page_id;
  at_index (HeapPage.deserialize data).
Definition load_dir (dir_id : N) : Eff (Db T) PageDirectory :=
  data ← fetch dir_id;
  at_index (PageDirectory.deserialize data).

Definition read_record_id (rid : N * N) : Eff (Db T) Tuple :=
  page ← load_page rid.1;
  checked (HeapPage.read page (N.to_nat rid.2)).

(** * The directory chain

    The walks follow the chain for as many steps as there are pages; one that
    outlasts them has met a page twice and does not return. *)

Definition chain_fuel : Eff (Db T) nat := s ← eget; mret (S (size (pages s))).

Fixpoint find_loop (fuel : nat) (dir_id needed : N) : Eff (Db T) (option N) :=
  match fuel with
  | O => fun _ => None
  | S fuel =>
      d ← load_dir dir_id;
      match PageDirectory.find_page_with_space d needed with
      | Some id => mret (Some id)
      | None => if next_page_directory d =? 0 then mret None else find_loop fuel (next_page_directory d) needed
      end
  end.
Definition find_page (h : HeapFileManager) (needed : N) : Eff (Db T) (option N) :=
  fuel ← chain_fuel; find_loop fuel (first_directory_page_id h) needed.

Definition store_dir (dir_id : N) (d : PageDirectory) : Eff (Db T) unit :=
  data ← at_index (PageDirectory.serialize d);
  store dir_id data.

Fixpoint update_loop (fuel : nat) (dir_id target new_free_space : N) : Eff (Db T) unit :=
  match fuel with
  | O => fun _ => None
  | S fuel =>
      d ← load_dir dir_id;
      match update_entry d target new_free_space with
      | Ok d' => store_dir dir_id d'
      | Err _ =>
          if next_page_directory d =? 0 then throw KeyNotFound
          else update_loop fuel (next_page_directory d) target new_free_space
      end
  end.
Definition update_directory_entry (h : HeapFileManager) (target new_free_space : N) : Eff (Db T) unit :=
  fuel ← chain_fuel; update_loop fuel (first_directory_page_id h) target new_free_space.

(** [BufferPoolManager::new_page]: a zeroed page, or the allocator's refusal. *)
Definition new_page : Eff (Db T) N :=
  s ← eget;
  _ ← eset (fun s => s <| fresh_pages := tail (fresh_pages s) |>);
  match head (fresh_pages s) with
  | Some (Some id) =>
      let zeros := replicate (N.to_nat PAGE_SIZE) (u8 0) in
      _ ← disk_write id zeros;
      _ ← eset (fun s => s <| pages := <[id := zeros]> (pages s) |>);
      mret id
  | _ => throw (Io DiskRefused)
  end.
(** [free_page], of a page nobody has pinned. *)
Definition free_page (id : N) : Eff (Db T) unit :=
  eset (fun s => s <| pages := base.delete id (pages s) |> <| dirty := dirty s ∖ {[id]} |>).

Fixpoint add_loop (fuel : nat) (dir_id new_page_id space : N) : Eff (Db T) unit :=
  match fuel with
  | O => fun _ => None
  | S fuel =>
      d ← load_dir dir_id;
      match add_entry d new_page_id space with
      | Ok d' => store_dir dir_id d'
      | Err NotEnoughSpace =>
          if next_page_directory d =? 0 then
            new_dir_id ← new_page;
            _ ← store_dir dir_id (mkDir (PageDirectory.dir_id d) new_dir_id (num_entries d) (entries d));
            d' ← lift (add_entry (PageDirectory.new new_dir_id) new_page_id space);
            store_dir new_dir_id d'
          else add_loop fuel (next_page_directory d) new_page_id space
      | Err e => throw e
      end
  end.
Definition add_to_directory (h : HeapFileManager) (new_page_id space : N) : Eff (Db T) unit :=
  fuel ← chain_fuel; add_loop fuel (first_directory_page_id h) new_page_id space.

Definition list_empty_page (h : HeapFileManager) (page_id : N) : Eff (Db T) unit :=
  _ ← fetch page_id;
  data ← at_index (HeapPage.serialize (HeapPage.empty page_id));
  _ ← store page_id data;
  add_to_directory h page_id (to_u16 (PAGE_SIZE - HeapPage.HEADER_SIZE)).

(** A page that cannot be listed is given back; the first error is returned. *)
Definition add_empty_page (h : HeapFileManager) : Eff (Db T) N :=
  new_page_id ← new_page;
  _ ← catch (list_empty_page h new_page_id) (fun e => _ ← free_page new_page_id; throw e);
  mret new_page_id.

(** * Writing *)

Definition space_needed (tuple_len : N) : Result FerroError N :=
  if MAX_TUPLE_SIZE <? tuple_len then Err (Constraint (RowTooWide tuple_len))
  else if max_u16 <? tuple_len + SLOT_ENTRY_SIZE then Err (Internal (SpacePastU16 tuple_len))
  else Ok (tuple_len + SLOT_ENTRY_SIZE).

Definition find_or_make_page (h : HeapFileManager) (tuple_len : N) : Eff (Db T) N :=
  needed ← lift (space_needed tuple_len);
  found ← find_page h needed;
  match found with Some id => mret id | None => add_empty_page h end.

(** [if let Some(txn) = &self.txn { page.lsn = log(..)? }], and the page stored. *)
Definition log_and_store (h : HeapFileManager) (page_id : N) (page : Page) (kind : RecKind) : Eff (Db T) unit :=
  page ← match file_txn h with
         | Some txn_id => lsn ← append_chained txn_id kind; mret (set_lsn lsn page)
         | None => mret page
         end;
  data ← at_index (HeapPage.serialize page);
  store page_id data.

Definition free_of (page : Page) : N := wsub16 (get_free_space_end page) (get_free_space_start page).

(** What [insert_into] does under the latch of its page. *)
Definition insert_page (h : HeapFileManager) (page_id : N) (tuple : Tuple) : Eff (Db T) (Page * N) :=
  page ← load_page page_id;
  '(page, slot_num) ← lift (HeapPage.insert page tuple);
  _ ← log_and_store h page_id page (RecHeapInsert (first_directory_page_id h) page_id slot_num tuple);
  mret (page, slot_num).

Definition insert_into (h : HeapFileManager) (page_id : N) (tuple : Tuple) : Eff (Db T) (N * N) :=
  '(page, slot_num) ← insert_page h page_id tuple;
  _ ← update_directory_entry h page_id (free_of page);
  mret (page_id, slot_num).

Definition insert (h : HeapFileManager) (tuple : Tuple) : Eff (Db T) (N * N) :=
  page_id ← find_or_make_page h (blen tuple);
  insert_into h page_id tuple.

(** What [update] does under the first latch of the page: the page as it is
    stored, or the old bytes of a tuple the page has no room for. *)
Definition update_page (h : HeapFileManager) (rid : N * N) (new_tuple : Tuple) : Eff (Db T) (Page + list byte) :=
  page ← load_page rid.1;
  old_bytes ← checked (HeapPage.read page (N.to_nat rid.2));
  r ← at_index (HeapPage.update page (N.to_nat rid.2) new_tuple);
  match r with
  | Ok page =>
      _ ← log_and_store h rid.1 page (RecHeapUpdate (first_directory_page_id h) rid.1 rid.2 old_bytes new_tuple);
      mret (inl page)
  | Err NotEnoughSpace => mret (inr old_bytes)
  | Err e => throw e
  end.

(** The deletion of a relocated tuple, under the latch taken again. *)
Definition delete_page (h : HeapFileManager) (rid : N * N) (old_bytes : list byte) : Eff (Db T) Page :=
  page ← load_page rid.1;
  page ← lift (HeapPage.delete page (N.to_nat rid.2));
  _ ← log_and_store h rid.1 page (RecHeapDelete (first_directory_page_id h) rid.1 rid.2 old_bytes);
  mret page.

(** A tuple its page has no room for: the page to move to is found first, then
    the slot is deleted, then the tuple inserted. *)
Definition update (h : HeapFileManager) (rid : N * N) (new_tuple : Tuple) : Eff (Db T) (N * N) :=
  r ← update_page h rid new_tuple;
  match r with
  | inl page =>
      _ ← update_directory_entry h rid.1 (free_of page);
      mret rid
  | inr old_bytes =>
      dest ← find_or_make_page h (blen new_tuple);
      page ← delete_page h rid old_bytes;
      new_rid ← insert_into h dest new_tuple;
      _ ← update_directory_entry h rid.1 (free_of page);
      mret new_rid
  end.

(** * Space *)

Fixpoint free_loop (fuel : nat) (dir_id total : N) : Eff (Db T) N :=
  match fuel with
  | O => fun _ => None
  | S fuel =>
      d ← load_dir dir_id;
      let total := total + foldr (fun e n => free_space e + n) 0 (entries d) in
      if next_page_directory d =? 0 then mret total else free_loop fuel (next_page_directory d) total
  end.
Definition file_free_space (h : HeapFileManager) : Eff (Db T) N :=
  fuel ← chain_fuel; free_loop fuel (first_directory_page_id h) 0.

(** The loop of [reserve_free_space]; [more] counts the pages still to add. *)
Fixpoint reserve_loop (more : nat) (h : HeapFileManager) (free bytes added : N) : Eff (Db T) N :=
  if bytes <=? free then mret added
  else match more with
       | O => fun _ => None
       | S more => _ ← add_empty_page h; reserve_loop more h (free + (PAGE_SIZE - HeapPage.HEADER_SIZE)) bytes (added + 1)
       end.
Definition reserve_free_space (h : HeapFileManager) (bytes : N) : Eff (Db T) N :=
  free ← file_free_space h;
  reserve_loop (S (N.to_nat (bytes / (PAGE_SIZE - HeapPage.HEADER_SIZE)))) h free bytes 0.

Fixpoint ids_loop (fuel : nat) (dir_id : N) (out : list N) : Eff (Db T) (list N) :=
  if dir_id =? 0 then mret out
  else match fuel with
       | O => fun _ => None
       | S fuel =>
           d ← load_dir dir_id;
           ids_loop fuel (next_page_directory d) (out ++ (de_page <$> entries d) ++ [dir_id])
       end.
Definition page_ids (h : HeapFileManager) : Eff (Db T) (list N) :=
  fuel ← chain_fuel; ids_loop fuel (first_directory_page_id h) [].

(** * Creating *)

Definition create : Eff (Db T) HeapFileManager :=
  dir_page_id ← new_page;
  _ ← fetch dir_page_id;
  _ ← store_dir dir_page_id (PageDirectory.new dir_page_id);
  mret (mkHeapFile dir_page_id None).

(** * Scanning *)

Definition scan (h : HeapFileManager) : HeapScanner := mkScanner (first_directory_page_id h) [] 0 0 None.

(** What one call of [next] yields, if anything. *)
Abbreviation Item := (Result FerroError (N * N * Tuple)).

(** [match self.load_page(..)]: an error is a value of the caller's. *)
Definition attempt {A : Type} (m : Eff (Db T) A) : Eff (Db T) (Result FerroError A) := fun s =>
  match m s with Some (r, s') => Some (Ok r, s') | None => None end.

(** The inner loop of [next] over the slots of the current page: the item it
    returns, if it does, and the slot it stops at. [more] counts the slots left. *)
Fixpoint next_slot (more : nat) (page_id : N) (page : Page) (slot : nat) : option (option Item * nat) :=
  match more with
  | O => Some (None, slot)
  | S more =>
      r ← HeapPage.read page slot;
      match r with
      | Ok tuple => Some (Some (Ok (page_id, to_u16 (N.of_nat slot), tuple)), S slot)
      | Err SlotDeleted => next_slot more page_id page (S slot)
      | Err e => Some (Some (Err e), S slot)
      end
  end.

(** [Iterator::next]. Every turn of the loop but the last reads a page the
    scanner has not read, so the pages shown are fuel enough. *)
Fixpoint next_loop (fuel : nat) (sc : HeapScanner) : Eff (Db T) (option Item * HeapScanner) :=
  match fuel with
  | O => fun _ => None
  | S fuel =>
      '(found, slot) ← at_index (match current_page sc with
        | Some (id, page) => next_slot (length (slot_arr page) - slot_idx sc) id page (slot_idx sc)
        | None => Some (None, slot_idx sc)
        end);
      let sc := mkScanner (dir_page_id sc) (data_page_ids sc) (data_idx sc) slot (current_page sc) in
      match found with
      | Some item => mret (Some item, sc)
      | None =>
          match data_page_ids sc !! data_idx sc with
          | Some page_id =>
              r ← attempt (load_page page_id);
              match r with
              | Ok page => next_loop fuel (mkScanner (dir_page_id sc) (data_page_ids sc) (S (data_idx sc)) 0 (Some (page_id, page)))
              | Err e => mret (Some (Err e), mkScanner (dir_page_id sc) (data_page_ids sc) (S (data_idx sc)) slot None)
              end
          | None =>
              if dir_page_id sc =? 0 then mret (None, mkScanner 0 (data_page_ids sc) (data_idx sc) slot None)
              else
                r ← attempt (load_dir (dir_page_id sc));
                match r with
                | Ok d => next_loop fuel (mkScanner (next_page_directory d) (de_page <$> entries d) 0 slot None)
                | Err e => mret (Some (Err e), mkScanner (dir_page_id sc) (data_page_ids sc) (data_idx sc) slot None)
                end
          end
      end
  end.
Definition next (sc : HeapScanner) : Eff (Db T) (option Item * HeapScanner) :=
  s ← eget; next_loop (S (S (size (pages s)))) sc.

(** A caller that takes every item: [for item in file.scan()]. *)
Fixpoint collect (fuel : nat) (sc : HeapScanner) : Eff (Db T) (list Item) :=
  match fuel with
  | O => fun _ => None
  | S fuel =>
      '(item, sc) ← next sc;
      match item with
      | None => mret []
      | Some item => rest ← collect fuel sc; mret (item :: rest)
      end
  end.
End HeapFile.
