(* ===== verification/Recovery.v ===== *)
(** Crash recovery of the heap: [recover] and [redo_one] of
    [src/src/wal/recovery.rs], which replay the log over the pages on disk, roll
    back the transactions that did not end, and repair the page directories. *)
From stdpp Require Import sorting.
From S2P Require Import Prelude Bytes Errors Eff WalRecord Tuple HeapPage HeapPageProps Wal Grants Visibility TxnManager PageDirectory HeapFile.

#[local] Open Scope N_scope.

(** * Redo *)

Definition redo_page_id (kind : RecKind) : option N :=
  match kind with
  | RecHeapDelete _ page_id _ _ | RecHeapInsert _ page_id _ _ | RecHeapUpdate _ page_id _ _ _ => Some page_id
  | _ => None
  end.

(** The change a record asks of its page. *)
Definition redo_change (page : Page) (kind : RecKind) : option (Result FerroError Page) :=
  match kind with
  | RecHeapDelete _ _ slot _ => Some (HeapPage.delete page (N.to_nat slot))
  | RecHeapInsert _ _ slot tuple =>
      if (N.to_nat slot =? length (slot_arr page))%nat then
        Some (match HeapPage.insert page tuple with Ok (page, _) => Ok page | Err e => Err e end)
      else Some (restore_at page (N.to_nat slot) tuple)
  | RecHeapUpdate _ _ slot _ new => HeapPage.update page (N.to_nat slot) new
  | _ => None
  end.

(** The bytes a record redone on a frame leaves there, none when the page has
    already seen the record. *)
Definition redo_frame (page_id lsn : N) (kind : RecKind) (data : list byte) : option (Result FerroError (option (list byte))) :=
  stored ← get_range data 1 5;
  page ← (if of_be stored =? page_id then HeapPage.deserialize data else Some (HeapPage.empty page_id));
  if lsn <=? HeapPage.lsn page then Some (Ok None)
  else
    r ← redo_change page kind;
    match r with
    | Err e => Some (Err e)
    | Ok page => data ← HeapPage.serialize (set_lsn lsn page); Some (Ok (Some data))
    end.

Section Recovery.
Context {T : Type} `{!Index T}.

Definition redo_one (lsn : N) (kind : RecKind) : Eff (Db T) unit :=
  match redo_page_id kind with
  | None => mret tt
  | Some page_id =>
      data ← fetch page_id;
      redone ← checked (redo_frame page_id lsn kind data);
      match redone with Some data => store page_id data | None => mret tt end
  end.

(** The kind a record is redone by: the compensation of a compensation record. *)
Definition redo_kind (kind : RecKind) : RecKind := match kind with RecClr _ _ redo => redo | _ => kind end.

Fixpoint redo_all (records : list LogRecord) : Eff (Db T) unit :=
  match records with
  | [] => mret tt
  | r :: records => _ ← redo_one (rec_lsn r) (redo_kind (rec_kind r)); redo_all records
  end.

(** * Reading and analysing the log *)

(** Every record is at least [MIN_FRAME] bytes, so the bytes of the log are fuel
    enough. *)
Fixpoint read_log (fuel : nat) (lsn end_ : N) : Eff (Db T) (list LogRecord) :=
  if lsn <? end_ then
    match fuel with
    | O => fun _ => None
    | S fuel =>
        s ← eget;
        '(r, next) ← checked (Wal.read_record (wal s) lsn);
        rest ← read_log fuel next end_;
        mret (r :: rest)
    end
  else mret [].

Record Analysis := mkAnalysis {
  max_txn : N; last_lsns : gmap N N; first_lsns : gmap N N; ended : gset N; touched : gset (N * N) }.

Definition touch (kind : RecKind) : gset (N * N) :=
  match kind with
  | RecHeapDelete dir_root page_id _ _ | RecHeapInsert dir_root page_id _ _ | RecHeapUpdate dir_root page_id _ _ _ =>
      {[(dir_root, page_id)]}
  | _ => ∅
  end.

Definition analyse_one (a : Analysis) (r : LogRecord) : Analysis :=
  mkAnalysis (N.max (max_txn a) (rec_txn r))
    (<[rec_txn r := rec_lsn r]> (last_lsns a))
    (<[rec_txn r := default (rec_lsn r) (first_lsns a !! rec_txn r)]> (first_lsns a))
    (match rec_kind r with RecCommit | RecTxnEnd => {[rec_txn r]} ∪ ended a | _ => ended a end)
    (touch (redo_kind (rec_kind r)) ∪ touched a).
Definition analyse (records : list LogRecord) : Analysis := fold_left analyse_one records (mkAnalysis 0 ∅ ∅ ∅ ∅).

(** [sort_unstable] of pairs. *)
Definition pair_le (a b : N * N) : Prop := a.1 < b.1 \/ (a.1 = b.1 /\ a.2 <= b.2).
#[export] Instance pair_le_dec a b : Decision (pair_le a b).
Proof. unfold pair_le. apply _. Defined.

Definition sorted_touched (a : Analysis) : list (N * N) := merge_sort pair_le (elements (touched a)).
Definition losers (a : Analysis) : list N :=
  merge_sort N.le (List.filter (fun id => negb (bool_decide (id ∈ ended a))) (elements (dom (last_lsns a)))).

(** * The passes *)

(** A page the file does not have is made empty; no frame holds it yet. *)
Fixpoint extend_file (ids : list N) : Eff (Db T) unit :=
  match ids with
  | [] => mret tt
  | id :: ids =>
      s ← eget;
      _ ← (match disk s !! id with
           | Some _ => mret tt
           | None =>
               data ← at_index (HeapPage.serialize (HeapPage.empty id));
               _ ← disk_write id data;
               eset (fun s => s <| pages := <[id := data]> (pages s) |>)
           end);
      extend_file ids
  end.

Fixpoint undo_losers (fuel : nat) (a : Analysis) (ids : list N) : Eff (Db T) unit :=
  match ids with
  | [] => mret tt
  | id :: ids =>
      last ← at_index (last_lsns a !! id);
      first ← at_index (first_lsns a !! id);
      _ ← eset (fun s => s <| att := <[id := mkTxnEntry Aborting last first None]> (att s) |>);
      _ ← abort fuel id;
      undo_losers fuel a ids
  end.

Fixpoint repair_directories (ps : list (N * N)) : Eff (Db T) unit :=
  match ps with
  | [] => mret tt
  | (dir_root, page_id) :: ps =>
      let h := mkHeapFile dir_root None in
      page ← load_page page_id;
      let free := free_of page in
      _ ← catch (update_directory_entry h page_id free)
            (fun e => match e with KeyNotFound => add_to_directory h page_id free | _ => throw e end);
      repair_directories ps
  end.

(** The first half of [recover]: the log read, and replayed on the pages. *)
Definition redo_pass : Eff (Db T) (list LogRecord) :=
  s ← eget;
  let fuel := S (N.to_nat (next_lsn (wal s) - base_lsn (wal s))) in
  records ← read_log fuel (base_lsn (wal s)) (next_lsn (wal s));
  if (length records =? 0)%nat then mret []
  else
    let a := analyse records in
    _ ← raise_next_txn_id (wadd64 (max_txn a) 1);
    _ ← extend_file (snd <$> sorted_touched a);
    _ ← redo_all records;
    mret records.

Definition recover : Eff (Db T) bool :=
  s ← eget;
  let fuel := S (S (N.to_nat (next_lsn (wal s) - base_lsn (wal s)))) in
  records ← redo_pass;
  if (length records =? 0)%nat then mret false
  else
    let a := analyse records in
    _ ← undo_losers fuel a (losers a);
    _ ← repair_directories (sorted_touched a);
    mret true.
End Recovery.
