(* ===== verification/RecoveryProps.v ===== *)
(** Redo repeats history: whatever was written back before a crash, replaying
    the surviving log over the pages on disk rebuilds the pages as they were
    when the last surviving record was appended. *)
From S2P Require Import Prelude Bytes Errors Eff WalRecord Values Tuple HeapPage HeapPageProps Wal WalProps Grants Visibility TxnManager PageDirectory HeapFile Recovery.

#[local] Open Scope N_scope.
#[local] Arguments N.of_nat : simpl never.
#[local] Arguments N.to_nat : simpl never.

(** * Frames of heap pages *)

(** A frame that holds the heap page [p] with id [id]. *)
Record loaded (id : N) (d : list byte) (p : Page) : Prop := {
  ld_page : HeapPage.deserialize d = Some p;
  ld_ok : page_ok p;
  ld_tight : tight p;
  ld_id : page_id p = id;
  ld_type : page_type p = HEAP_PAGE_TYPE;
  ld_stored : exists w, get_range d 1 5 = Some w /\ of_be w = id;
  ld_lsn : page_lsn_of d = HeapPage.lsn p }.

Lemma set_lsn_ok l p : page_ok p -> l <= max_u64 -> page_ok (set_lsn l p).
Proof. intros [A B C D (E1 & E2 & E3 & E4)] Hl. split; [done|done|done|done|]. cbn. done. Qed.

Lemma image_loaded p : page_ok p -> page_type p = HEAP_PAGE_TYPE -> loaded (page_id p) (image p) (reloaded p).
Proof.
  intros H Ht. destruct (ok_header p H) as (T1 & T2 & T3 & T4). destruct (reloaded_ok p H) as [R1 R2].
  set (rest := slots_bytes (slot_arr p) ++ replicate (N.to_nat (base p - header_end p)) (u8 0) ++ tuples p).
  assert (image p = be_bytes 1 (page_type p) ++ be_bytes 4 (page_id p) ++ be_bytes 2 (blen (slot_arr p)) ++ be_bytes 2 (header_end p)
    ++ be_bytes 2 (get_free_space_end p) ++ be_bytes 8 (HeapPage.lsn p) ++ be_bytes 4 (checksum p) ++ rest) as Ei by (unfold image, HeapPageProps.header_bytes; by rewrite <- !app_assoc).
  split; [by apply deserialize_image|done|done|done|done| |].
  - exists (be_bytes 4 (page_id p)). split; [|apply of_be_be_bytes_small; unfold max_u32 in *; cbn; lia].
    rewrite Ei. by apply (get_range_part (be_bytes 1 (page_type p)) (be_bytes 4 (page_id p)) (be_bytes 2 (blen (slot_arr p)) ++ be_bytes 2 (header_end p)
    ++ be_bytes 2 (get_free_space_end p) ++ be_bytes 8 (HeapPage.lsn p) ++ be_bytes 4 (checksum p) ++ rest)).
  - unfold page_lsn_of. rewrite Ei. rewrite take_app_length' by done. rewrite Ht. change (of_be (be_bytes 1 HEAP_PAGE_TYPE)) with 0.
    rewrite !app_assoc. rewrite <- (app_assoc _ (be_bytes 4 (checksum p))), <- (app_assoc _ (be_bytes 8 _)). rewrite drop_app_length' by done.
    rewrite take_app_length' by done. cbn. apply of_be_be_bytes_small. unfold max_u64 in *. cbn. lia.
Qed.

Lemma stored_loaded p l : page_ok p -> page_type p = HEAP_PAGE_TYPE -> l <= max_u64 ->
  HeapPage.serialize (set_lsn l p) = Some (image (set_lsn l p)) /\
  loaded (page_id p) (image (set_lsn l p)) (reloaded (set_lsn l p)).
Proof.
  intros H Ht Hl. pose proof (set_lsn_ok l p H Hl) as H'. split; [by apply serialize_image|]. by apply (image_loaded (set_lsn l p)).
Qed.

(** * One record *)

(** The bytes a record puts on a page are those of a row, which has a header. *)
Definition payload_ok (kind : RecKind) : Prop :=
  match kind with
  | RecHeapInsert _ _ _ tuple => tuple <> []
  | RecHeapUpdate _ _ _ _ new => new <> []
  | _ => True
  end.

Lemma insert_same p t p' i : HeapPage.insert p t = Ok (p', i) -> page_id p' = page_id p /\ page_type p' = page_type p.
Proof. unfold HeapPage.insert. destruct (_ <? _); [done|]. by intros [= <- _]. Qed.
Lemma restore_same p i t p' : restore_at p i t = Ok p' -> page_id p' = page_id p /\ page_type p' = page_type p.
Proof. unfold restore_at. destruct (negb _); [done|]. destruct (_ <? _); [done|]. by intros [= <-]. Qed.
Lemma delete_same p i p' : HeapPage.delete p i = Ok p' -> page_id p' = page_id p /\ page_type p' = page_type p.
Proof. unfold HeapPage.delete. destruct (_ !! _); [|done]. by intros [= <-]. Qed.
Lemma update_same p i t p' : HeapPage.update p i t = Some (Ok p') -> page_id p' = page_id p /\ page_type p' = page_type p.
Proof.
  unfold HeapPage.update. destruct (HeapPage.read p i) as [[old|e]|]; [|done|done]. cbn [mbind option_bind]. destruct (slot_arr p !! i) as [s|]; [|done]. cbn [mbind option_bind].
  destruct (_ <=? _); [destruct (copy_at _ _ _); [|done]; cbn [mbind option_bind]; by intros [= <-]|]. destruct (_ <=? _); [|done]. by intros [= <-].
Qed.

(** A page an update succeeds on has the row. *)
Lemma update_had p i t r : page_ok p -> tight p -> HeapPage.update p i t = Some r -> exists old, rows p !! i = Some (Some old).
Proof.
  intros H Ht. unfold HeapPage.update. rewrite read_row by done. unfold row_result. destruct (rows p !! i) as [[old|]|]; [eauto|done|done].
Qed.

Lemma redo_change_ok p kind p' : page_ok p -> tight p -> payload_ok kind -> redo_change p kind = Some (Ok p') ->
  page_ok p' /\ page_id p' = page_id p /\ page_type p' = page_type p.
Proof.
  intros H Ht Hp Hr. destruct kind; cbn in Hr, Hp; try done.
  - destruct (_ =? _)%nat.
    + pose proof (insert_row p tuple H Ht Hp) as Hi. destruct (HeapPage.insert p tuple) as [[q i]|e] eqn:E; [|done]. injection Hr as ->.
      split; [apply Hi|by eapply insert_same].
    + pose proof (restore_row p (N.to_nat slot) tuple H Hp) as Hi. destruct (restore_at p (N.to_nat slot) tuple) as [q|e] eqn:E; [|done]. injection Hr as ->.
      split; [apply Hi|by eapply restore_same].
  - pose proof (delete_row p (N.to_nat slot) H) as Hi. destruct (HeapPage.delete p (N.to_nat slot)) as [q|e] eqn:E; [|done]. injection Hr as ->.
    split; [apply Hi|by eapply delete_same].
  - destruct (update_had p (N.to_nat slot) new _ H Ht Hr) as [o Ho]. pose proof (update_row p (N.to_nat slot) o new H Ht Ho Hp) as Hi.
    rewrite Hr in Hi. split; [apply Hi|by eapply update_same].
Qed.

(** * The log replayed on one page *)

Definition touches (id : N) (r : LogRecord) : Prop := redo_page_id (redo_kind (rec_kind r)) = Some id.

Definition redo_record (id : N) (r : LogRecord) (d : list byte) : option (list byte) :=
  if bool_decide (redo_page_id (redo_kind (rec_kind r)) = Some id) then
    match redo_frame id (rec_lsn r) (redo_kind (rec_kind r)) d with
    | Some (Ok o) => Some (default d o)
    | _ => None
    end
  else Some d.

Fixpoint replay (id : N) (rs : list LogRecord) (d : list byte) : option (list byte) :=
  match rs with [] => Some d | r :: rs => d ← redo_record id r d; replay id rs d end.

Definition rec_fits (r : LogRecord) : Prop := rec_lsn r <= max_u64 /\ payload_ok (redo_kind (rec_kind r)).

Lemma replay_app id rs1 rs2 d : replay id (rs1 ++ rs2) d = (d' ← replay id rs1 d; replay id rs2 d').
Proof. revert d. induction rs1 as [|r rs1 IH]; intros d; [done|]. cbn. destruct (redo_record id r d); [|done]. cbn. apply IH. Qed.

(** A frame of the page, opened by redo. *)
Lemma redo_frame_loaded id d p l kind : loaded id d p ->
  redo_frame id l kind d = if l <=? HeapPage.lsn p then Some (Ok None) else
    r ← redo_change p kind;
    match r with
    | Err e => Some (Err e)
    | Ok page => data ← HeapPage.serialize (set_lsn l page); Some (Ok (Some data))
    end.
Proof.
  intros [H1 _ _ _ _ (w & Hw & Ew) _]. unfold redo_frame. rewrite Hw. cbn [mbind option_bind]. rewrite Ew, N.eqb_refl, H1. done.
Qed.

Lemma redo_record_loaded id r d p d' : loaded id d p -> rec_fits r -> redo_record id r d = Some d' ->
  exists p', loaded id d' p' /\ HeapPage.lsn p <= HeapPage.lsn p' /\ (touches id r -> rec_lsn r <= HeapPage.lsn p') /\
    HeapPage.lsn p' <= N.max (HeapPage.lsn p) (rec_lsn r).
Proof.
  intros Hl [Hm Hp] Hr. unfold redo_record in Hr. case_bool_decide as Ht; [|injection Hr as <-; exists p; split; [done|]; split; [done|]; split; [done|lia]].
  rewrite (redo_frame_loaded id d p) in Hr by done. destruct (N.leb_spec (rec_lsn r) (HeapPage.lsn p)) as [Hle|Hgt].
  - injection Hr as <-. exists p. split; [done|]. split; [lia|]. split; [done|lia].
  - destruct (redo_change p _) as [[q|e]|] eqn:E; [|done|done]. cbn [mbind option_bind] in Hr.
    destruct (redo_change_ok p _ q (ld_ok _ _ _ Hl) (ld_tight _ _ _ Hl) Hp E) as (Q1 & Q2 & Q3).
    destruct (stored_loaded q (rec_lsn r) Q1) as [S1 S2]; [by rewrite Q3, (ld_type _ _ _ Hl)|done|].
    rewrite S1 in Hr. injection Hr as <-. rewrite Q2, (ld_id _ _ _ Hl) in S2. eexists. split; [exact S2|]. cbn. split; [lia|]. split; [done|lia].
Qed.

Lemma replay_loaded id rs d p d' : loaded id d p -> Forall rec_fits rs -> replay id rs d = Some d' ->
  exists p', loaded id d' p' /\ HeapPage.lsn p <= HeapPage.lsn p' /\ (forall r, r ∈ rs -> touches id r -> rec_lsn r <= HeapPage.lsn p') /\
    forall b, HeapPage.lsn p < b -> (forall r, r ∈ rs -> rec_lsn r < b) -> HeapPage.lsn p' < b.
Proof.
  intros Hl Hf. revert d p Hl. induction Hf as [|r rs Hr Hf IH]; intros d p Hl He; cbn in He.
  - injection He as <-. exists p. split; [done|]. split; [done|]. split; [|done]. intros r Hr. by apply not_elem_of_nil in Hr.
  - destruct (redo_record id r d) as [d1|] eqn:E; [|done]. cbn in He. destruct (redo_record_loaded id r d p d1 Hl Hr E) as (p1 & L1 & G1 & T1 & U1).
    destruct (IH d1 p1 L1 He) as (p' & L & G & T & U). exists p'. split; [done|]. split; [lia|]. split.
    + intros r' Hin Ht. apply elem_of_cons in Hin as [->|Hin]; [specialize (T1 Ht); lia|by apply T].
    + intros b Hb Hrs. apply U; [|intros r' Hr'; apply Hrs; by right]. pose proof (Hrs r ltac:(left)). lia.
Qed.

(** Records the page has seen are skipped. *)
Lemma replay_seen id rs d p : loaded id d p -> (forall r, r ∈ rs -> touches id r -> rec_lsn r <= HeapPage.lsn p) -> replay id rs d = Some d.
Proof.
  intros Hl. induction rs as [|r rs IH]; intros Hs; [done|]. cbn. assert (redo_record id r d = Some d) as ->.
  - unfold redo_record. case_bool_decide as Ht; [|done]. rewrite (redo_frame_loaded id d p) by done.
    by rewrite (proj2 (N.leb_le _ _) (Hs r ltac:(left) Ht)).
  - cbn. apply IH. intros r' Hr'. apply Hs. by right.
Qed.

Lemma replay_untouched id rs d : (forall r, r ∈ rs -> ~ touches id r) -> replay id rs d = Some d.
Proof.
  induction rs as [|r rs IH]; intros Hs; [done|]. cbn. unfold redo_record. rewrite bool_decide_eq_false_2 by (apply Hs; left).
  cbn. apply IH. intros r' Hr'. apply Hs. by right.
Qed.

(** Replaying the whole log from a page that has seen a part of it. *)
Lemma replay_resume id rs1 rs2 d0 p0 dk dn : loaded id d0 p0 -> Forall rec_fits (rs1 ++ rs2) ->
  replay id rs1 d0 = Some dk -> replay id (rs1 ++ rs2) d0 = Some dn -> replay id (rs1 ++ rs2) dk = Some dn.
Proof.
  intros Hl Hf H1 H2. apply Forall_app in Hf as [F1 F2]. destruct (replay_loaded id rs1 d0 p0 dk Hl F1 H1) as (p' & L & _ & T & _).
  rewrite replay_app in *. rewrite H1 in H2. cbn in H2. rewrite (replay_seen id rs1 dk p' L T). done.
Qed.

(** * The log replayed on all pages *)

Section Run.
Context {T : Type} `{!Index T}.

Lemma redo_one_record (s : Db T) id r d d1 : touches id r -> pages s !! id = Some d -> redo_record id r d = Some d1 ->
  exists ps ds, redo_one (rec_lsn r) (redo_kind (rec_kind r)) s = Some (Ok tt, s <| pages := ps |> <| dirty := ds |>) /\
    ps !! id = Some d1 /\ forall i, i <> id -> ps !! i = pages s !! i.
Proof.
  intros Ht Hd Hr. unfold redo_record in Hr. rewrite bool_decide_eq_true_2 in Hr by done. unfold redo_one. unfold touches in Ht. rewrite Ht.
  destruct (redo_frame id _ _ d) as [[o|]|] eqn:E; [|done|done]. injection Hr as <-.
  unfold mbind, eff_bind, fetch, mbind, eff_bind, eget, lift, checked. rewrite Hd. cbn [ok_or]. rewrite E. destruct o as [d1|].
  - eexists (<[id := d1]> (pages s)), _. split; [reflexivity|]. split; [apply lookup_insert_eq|]. intros i Hi. by apply lookup_insert_ne.
  - exists (pages s), (dirty s). split; [by destruct s|]. done.
Qed.

Lemma redo_all_pages rs (s : Db T) :
  (forall id r, r ∈ rs -> touches id r -> exists d d', pages s !! id = Some d /\ replay id rs d = Some d') ->
  exists ps ds, redo_all rs s = Some (Ok tt, s <| pages := ps |> <| dirty := ds |>) /\
    forall id d d', pages s !! id = Some d -> replay id rs d = Some d' -> ps !! id = Some d'.
Proof.
  revert s. induction rs as [|r rs IH]; intros s Hrs.
  - exists (pages s), (dirty s). split; [by destruct s|]. intros id d d' Hd Hr. cbn in Hr. congruence.
  - cbn [redo_all]. destruct (redo_page_id (redo_kind (rec_kind r))) as [id|] eqn:Ht.
    + destruct (Hrs id r ltac:(left) Ht) as (d & d' & Hd & Hr). cbn in Hr. destruct (redo_record id r d) as [d1|] eqn:E1; [|done]. cbn in Hr.
      destruct (redo_one_record s id r d d1 Ht Hd E1) as (ps & ds & Eo & Hp1 & Hp2).
      assert (forall i e e', i <> id -> replay i (r :: rs) e = Some e' -> replay i rs e = Some e') as Hskip.
      { intros i e e' Hi He. cbn in He. unfold redo_record in He. rewrite bool_decide_eq_false_2 in He by congruence. done. }
      destruct (IH (s <| pages := ps |> <| dirty := ds |>)) as (ps' & ds' & Er & Hps).
      * intros i r' Hr' Ht'. destruct (Hrs i r' ltac:(by right) Ht') as (e & e' & He & Hre). destruct (decide (i = id)) as [->|Hi].
        -- exists d1, d'. split; [exact Hp1|]. done.
        -- exists e, e'. split; [cbn; by rewrite Hp2|]. by apply Hskip.
      * exists ps', ds'. split; [unfold mbind, eff_bind; rewrite Eo; exact Er|]. intros i e e' He Hre. destruct (decide (i = id)) as [->|Hi].
        -- rewrite Hd in He. injection He as <-. cbn in Hre. rewrite E1 in Hre. by apply (Hps id d1).
        -- apply (Hps i e); [cbn; by rewrite Hp2|by apply Hskip].
    + assert (forall i e, replay i (r :: rs) e = replay i rs e) as Hskip.
      { intros i e. cbn. unfold redo_record. by rewrite Ht. }
      unfold redo_one. rewrite Ht. destruct (IH s) as (ps & ds & Er & Hps).
      * intros i r' Hr' Ht'. destruct (Hrs i r' ltac:(by right) Ht') as (e & e' & He & Hre). rewrite Hskip in Hre. eauto.
      * exists ps, ds. split; [exact Er|]. intros i e e' He Hre. rewrite Hskip in Hre. by apply (Hps i e).
Qed.

(** * Critical sections

    What a running database does to its log and pages, one latch or lock at a
    time and in any order: transactions begin, change rows of the heap pages
    [H], are rolled back and end; the log is flushed, with or without success;
    pages are written back, and other pages (directories, indexes) change. *)

Context (H : N -> Prop).

(** Fields stay within their Rust types, and the log below 2^64. *)
Record typed (s : Db T) : Prop := {
  ty_buffer : blen (buffer (wal s)) <= max_u32;
  ty_end : start_lsn (wal s) + blen (buffer (wal s)) <= max_u64;
  ty_table : map_Forall (fun id e => u64_ok id /\ u64_ok (last_lsn e)) (att s) }.

Definition row_kind_ok (kind : RecKind) : Prop :=
  match kind with RecHeapDelete _ _ _ old | RecHeapUpdate _ _ _ old _ => old <> [] | _ => True end.

Variant section (s s' : Db T) : Prop :=
| sec_begin r : begin s = Some (r, s') -> section s s'
| sec_insert h id t r : H id -> file_txn h <> None -> u32_ok (first_directory_page_id h) -> t <> [] ->
    insert_page h id t s = Some (r, s') -> section s s'
| sec_update h rid t r : H rid.1 -> file_txn h <> None -> u32_ok (first_directory_page_id h) -> u16_ok rid.2 -> t <> [] -> u32_ok (blen t) ->
    update_page h rid t s = Some (r, s') -> section s s'
| sec_delete h rid old r : H rid.1 -> file_txn h <> None -> u32_ok (first_directory_page_id h) -> u16_ok rid.2 -> u32_ok (blen old) ->
    delete_page h rid old s = Some (r, s') -> section s s'
| sec_undo txn rec id r : redo_page_id (rec_kind rec) = Some id -> H id -> record_ok rec -> row_kind_ok (rec_kind rec) ->
    undo_one txn rec s = Some (r, s') -> section s s'
| sec_log txn kind r : redo_page_id (redo_kind kind) = None -> rec_ok kind -> append_chained txn kind s = Some (r, s') -> section s s'
| sec_declare kind r : redo_page_id (redo_kind kind) = None -> rec_ok kind -> wal_append 0 0 kind s = Some (r, s') -> section s s'
| sec_flush r : wal_flush s = Some (r, s') -> section s s'
| sec_write_back id r : flush_page id s = Some (r, s') -> section s s'
| sec_elsewhere id d r : ~ H id -> store id d s = Some (r, s') -> section s s'
| sec_table : wal s' = wal s -> pages s' = pages s -> disk s' = disk s -> section s s'.

Definition step (s s' : Db T) : Prop := section s s' /\ typed s'.

(** The state a checkpoint leaves: an empty log, every heap page on disk and
    older than what the log will hold. *)
Record checkpointed (s : Db T) : Prop := {
  cp_log : logs (wal s) [] [];
  cp_typed : typed s;
  cp_pages id : H id -> exists d p, pages s !! id = Some d /\ disk s !! id = Some d /\ loaded id d p /\ HeapPage.lsn p < base_lsn (wal s) }.

(** * What a section does to the log and the heap pages *)

Variant effect (s s' : Db T) : Prop :=
| ef_quiet : wal s' = wal s -> (forall id, H id -> pages s' !! id = pages s !! id) -> disk s' = disk s -> effect s s'
| ef_log txn prev kind lsn : Wal.append (wal s) txn prev kind = Ok (wal s', lsn) -> u64_ok txn -> u64_ok prev -> rec_ok kind ->
    redo_page_id (redo_kind kind) = None -> pages s' = pages s -> disk s' = disk s -> effect s s'
| ef_write txn prev kind lsn id d p q d' : Wal.append (wal s) txn prev kind = Ok (wal s', lsn) -> u64_ok txn -> u64_ok prev -> rec_ok kind ->
    redo_page_id (redo_kind kind) = Some id -> payload_ok (redo_kind kind) -> H id ->
    pages s !! id = Some d -> HeapPage.deserialize d = Some p -> redo_change p (redo_kind kind) = Some (Ok q) ->
    HeapPage.serialize (set_lsn lsn q) = Some d' -> pages s' = <[id := d']> (pages s) -> disk s' = disk s -> effect s s'
| ef_flush o : wal s' = (Wal.flush (wal s) o).1 -> pages s' = pages s -> disk s' = disk s -> effect s s'
| ef_write_back o id d : wal s' = wal s \/ wal s' = (Wal.flush (wal s) o).1 -> pages s !! id = Some d ->
    page_lsn_of d = 0 \/ page_lsn_of d < flushed_lsn (wal s') \/ buffer (wal s') = [] -> pages s' = pages s -> disk s' = <[id := d]> (disk s) -> effect s s'.

(** ** Runs taken apart *)

Lemma bind_inv {S A B : Type} (m : Eff S A) (k : A -> Eff S B) s r s' : (m ≫= k) s = Some (r, s') ->
  (exists e, m s = Some (Err e, s') /\ r = Err e) \/ exists a s1, m s = Some (Ok a, s1) /\ k a s1 = Some (r, s').
Proof. unfold mbind, eff_bind. destruct (m s) as [[[a|e] s1]|]; intros E; [right; eauto|left; injection E as <- <-; eauto|done]. Qed.

Lemma wal_append_inv txn prev kind (s : Db T) r s' : wal_append txn prev kind s = Some (r, s') ->
  (exists e, r = Err e /\ s' = s) \/ exists w lsn, r = Ok lsn /\ Wal.append (wal s) txn prev kind = Ok (w, lsn) /\ s' = s <| wal := w |>.
Proof.
  unfold wal_append, mbind, eff_bind, eget, lift, eset. destruct (Wal.append (wal s) txn prev kind) as [[w lsn]|e]; intros [= <- <-]; [right|left]; eauto.
Qed.

Lemma append_chained_inv txn kind (s : Db T) r s' : append_chained txn kind s = Some (r, s') ->
  (exists e, r = Err e /\ s' = s) \/ exists entry w lsn, r = Ok lsn /\ att s !! txn = Some entry /\
    Wal.append (wal s) txn (last_lsn entry) kind = Ok (w, lsn) /\
    s' = s <| wal := w |> <| att := <[txn := mkTxnEntry (status entry) lsn (begin_lsn entry) (entry_snapshot entry)]> (att s) |>.
Proof.
  unfold append_chained. intros E. apply bind_inv in E as [(e & [=] & _)|(a & s1 & [= <- <-] & E)].
  apply bind_inv in E as [(e & E & ->)|(entry & s1 & E & E2)].
  { unfold lift, ok_or in E. destruct (att s !! txn); [done|]. injection E as <- <-. eauto. }
  unfold lift, ok_or in E. destruct (att s !! txn) as [en|] eqn:Ea; [|done]. injection E as <- <-.
  apply bind_inv in E2 as [(e & E & ->)|(lsn & s1 & E & E2)]; apply wal_append_inv in E as [(e' & E & ->)|(w & l & E & Hw & ->)]; try done; [eauto|].
  injection E as <-. injection E2 as <- <-. right. exists en, w, lsn. done.
Qed.

(** The shared end of every change: its record appended, its page stored. *)
Definition logged (txn id : N) (page : Page) (kind : RecKind) (s s' : Db T) : Prop :=
  exists entry w lsn d', att s !! txn = Some entry /\ Wal.append (wal s) txn (last_lsn entry) kind = Ok (w, lsn) /\
    HeapPage.serialize (set_lsn lsn page) = Some d' /\ wal s' = w /\ pages s' = <[id := d']> (pages s) /\ disk s' = disk s.

Lemma append_store_inv txn id page kind (s : Db T) r s' :
  (lsn ← append_chained txn kind; data ← at_index (HeapPage.serialize (set_lsn lsn page)); store id data) s = Some (r, s') ->
  s' = s \/ logged txn id page kind s s'.
Proof.
  intros E. apply bind_inv in E as [(e & E & ->)|(lsn & s1 & E & E2)]; apply append_chained_inv in E as [(e' & E & ->)|(en & w & l & E & Ha & Hw & ->)];
    try done; [by left|]. injection E as <-. unfold mbind, eff_bind, at_index, store, eset in E2.
  destruct (HeapPage.serialize (set_lsn lsn page)) as [d'|] eqn:Es; [|done]. injection E2 as <- <-. right. exists en, w, lsn, d'. split; [exact Ha|]. split; [exact Hw|]. split; [exact Es|]. repeat split.
Qed.

Lemma log_and_store_inv h id page kind (s : Db T) r s' : file_txn h <> None -> log_and_store h id page kind s = Some (r, s') ->
  s' = s \/ exists txn, logged txn id page kind s s'.
Proof.
  intros Hh. unfold log_and_store. destruct (file_txn h) as [txn|]; [|done]. intros E.
  destruct (append_store_inv txn id page kind s r s') as [->|Hl]; [|by left|right; eauto].
  revert E. unfold mbind, eff_bind. destruct (append_chained txn kind s) as [[[lsn|e] s1]|]; done.
Qed.

(** Loading the page of a frame. *)
Lemma load_page_inv id (s : Db T) d p : pages s !! id = Some d -> HeapPage.deserialize d = Some p -> load_page id s = Some (Ok p, s).
Proof. intros Hd Hp. unfold load_page, fetch, mbind, eff_bind, eget, lift, at_index. rewrite Hd. cbn [ok_or]. by rewrite Hp. Qed.

Lemma logged_effect txn id d p page kind s s' : typed s -> H id -> pages s !! id = Some d -> loaded id d p -> rec_ok kind ->
  redo_page_id (redo_kind kind) = Some id -> payload_ok (redo_kind kind) -> redo_change p (redo_kind kind) = Some (Ok page) ->
  logged txn id page kind s s' -> effect s s'.
Proof.
  intros Ht Hi Hd Hl Hk Hid Hp Hr (en & w & lsn & d' & Ha & Hw & Hs & <- & Hps & Hds).
  destruct (ty_table s Ht txn en Ha) as [U1 U2]. by eapply (ef_write s s' txn (last_lsn en) kind lsn id d p page d'); try done; apply Hl.
Qed.
Lemma row_small p i d : page_ok p -> rows p !! i = Some (Some d) -> d <> [] /\ blen d <= PAGE_SIZE.
Proof.
  intros Hp Hr. rewrite rows_lookup in Hr. destruct (slot_arr p !! i) as [sl|] eqn:E; [|done]. cbn in Hr. injection Hr as Hr. unfold row in Hr.
  destruct (deleted sl) eqn:Ed; [done|]. injection Hr as Hr. destruct (ok_lookup p i sl Hp E) as [Hd|(P1 & P2 & P3)]; [congruence|].
  pose proof (ok_size p Hp) as Hs. assert (blen d = slength sl) as Hb by (rewrite <- Hr; apply length_view; [done|unfold base in *; lia]).
  split; [|lia]. rewrite <- blen_zero. lia.
Qed.

Lemma insert_slot p t q slot : page_ok p -> tight p -> t <> [] -> HeapPage.insert p t = Ok (q, slot) ->
  N.to_nat slot = length (slot_arr p) /\ u16_ok slot /\ u32_ok (blen t).
Proof.
  intros Hp Ht Hn E. pose proof (insert_row p t Hp Ht Hn) as Hi. rewrite E in Hi. destruct Hi as (H1 & H2 & H3 & _). rewrite length_rows in H1.
  split; [done|]. split.
  - unfold HeapPage.insert in E. destruct (_ <? _); [done|]. injection E as _ <-. unfold u16_ok, max_u16, to_u16.
    match goal with |- ?x mod _ <= _ => pose proof (N.mod_lt x 65536) end. lia.
  - destruct (row_small q (length (rows p)) t H3) as [_ Hb]; [rewrite H2; by apply list_lookup_middle|]. unfold u32_ok, max_u32, PAGE_SIZE in *. lia.
Qed.

Lemma restore_lt p i t q : restore_at p i t = Ok q -> (i < length (slot_arr p))%nat.
Proof. unfold restore_at. destruct (Nat.ltb_spec i (length (slot_arr p))); [done|]. done. Qed.

Lemma loaded_id_ok id d p : loaded id d p -> u32_ok id.
Proof. intros Hl. rewrite <- (ld_id _ _ _ Hl). apply (ok_header p (ld_ok _ _ _ Hl)). Qed.

Lemma quiet_refl (s : Db T) : effect s s.
Proof. by apply ef_quiet. Qed.

(** Frames that hold the heap pages. *)
Definition heap_loaded (s : Db T) : Prop := forall id, H id -> exists d p, pages s !! id = Some d /\ loaded id d p.

Lemma insert_page_effect h id t s r s' : typed s -> heap_loaded s -> H id -> file_txn h <> None -> u32_ok (first_directory_page_id h) ->
  t <> [] -> insert_page h id t s = Some (r, s') -> effect s s'.
Proof.
  intros Ht Hg Hi Hh Hu Hn E. destruct (Hg id Hi) as (d & p & Hd & Hl). unfold insert_page in E.
  apply bind_inv in E as [(e & E & ->)|(p1 & s1 & E & E2)]; rewrite (load_page_inv id s d p Hd (ld_page _ _ _ Hl)) in E; [done|]. injection E as <- <-.
  apply bind_inv in E2 as [(e & E & ->)|([q slot] & s1 & E & E2)]; injection E as E <-; [apply quiet_refl|].
  destruct (insert_slot p t q slot (ld_ok _ _ _ Hl) (ld_tight _ _ _ Hl) Hn E) as (Hs & U1 & U2).
  assert (log_and_store h id q (RecHeapInsert (first_directory_page_id h) id slot t) s = Some (Ok tt, s') \/
          exists e, log_and_store h id q (RecHeapInsert (first_directory_page_id h) id slot t) s = Some (Err e, s')) as E3.
  { apply bind_inv in E2 as [(e & E2 & ->)|([] & s1 & E2 & [= <- <-])]; eauto. }
  assert (s' = s \/ exists txn, logged txn id q (RecHeapInsert (first_directory_page_id h) id slot t) s s') as [->|[txn Hlog]];
    [destruct E3 as [E3|[e E3]]; by eapply log_and_store_inv|apply quiet_refl|].
  refine (logged_effect txn id d p q (RecHeapInsert (first_directory_page_id h) id slot t) s s' Ht Hi Hd Hl _ eq_refl _ _ Hlog); [|done|].
  - cbn. split; [done|]. split; [by eapply loaded_id_ok|done].
  - cbn [redo_kind redo_change]. rewrite Hs, Nat.eqb_refl. by rewrite E.
Qed.

Lemma update_page_effect h rid t s r s' : typed s -> heap_loaded s -> H rid.1 -> file_txn h <> None -> u32_ok (first_directory_page_id h) ->
  u16_ok rid.2 -> t <> [] -> u32_ok (blen t) -> update_page h rid t s = Some (r, s') -> effect s s'.
Proof.
  intros Ht Hg Hi Hh Hu Hu2 Hn Hb E. destruct (Hg rid.1 Hi) as (d & p & Hd & Hl). unfold update_page in E.
  apply bind_inv in E as [(e & E & ->)|(p1 & s1 & E & E2)]; rewrite (load_page_inv rid.1 s d p Hd (ld_page _ _ _ Hl)) in E; [done|]. injection E as <- <-.
  rewrite read_row in E2 by apply Hl. apply bind_inv in E2 as [(e & E & ->)|(old & s1 & E & E2)]; injection E as E <-; [apply quiet_refl|].
  assert (rows p !! N.to_nat rid.2 = Some (Some old)) as Hrow.
  { unfold row_result in E. destruct (rows p !! N.to_nat rid.2) as [[o|]|]; by simplify_eq. }
  apply bind_inv in E2 as [(e & E1 & ->)|(u & s1 & E1 & E2)]; unfold at_index in E1; destruct (HeapPage.update p (N.to_nat rid.2) t) as [u'|] eqn:Eu; try done.
  injection E1 as <- <-. destruct u' as [q|e].
  - assert (s' = s \/ exists txn, logged txn rid.1 q (RecHeapUpdate (first_directory_page_id h) rid.1 rid.2 old t) s s') as [->|[txn Hlog]].
    { apply bind_inv in E2 as [(e & E2 & ->)|([] & s1 & E2 & [= <- <-])]; by eapply log_and_store_inv. }
    { apply quiet_refl. }
    refine (logged_effect txn rid.1 d p q (RecHeapUpdate (first_directory_page_id h) rid.1 rid.2 old t) s s' Ht Hi Hd Hl _ eq_refl Hn Eu Hlog). cbn. split; [done|]. split; [by eapply loaded_id_ok|]. split; [done|]. split; [|done].
    destruct (row_small p _ old (ld_ok _ _ _ Hl) Hrow) as [_ Hs]. unfold u32_ok, max_u32, PAGE_SIZE in *. lia.
  - destruct e; injection E2 as <- <-; apply quiet_refl.
Qed.

Lemma delete_page_effect h rid old s r s' : typed s -> heap_loaded s -> H rid.1 -> file_txn h <> None -> u32_ok (first_directory_page_id h) ->
  u16_ok rid.2 -> u32_ok (blen old) -> delete_page h rid old s = Some (r, s') -> effect s s'.
Proof.
  intros Ht Hg Hi Hh Hu Hu2 Hb E. destruct (Hg rid.1 Hi) as (d & p & Hd & Hl). unfold delete_page in E.
  apply bind_inv in E as [(e & E & ->)|(p1 & s1 & E & E2)]; rewrite (load_page_inv rid.1 s d p Hd (ld_page _ _ _ Hl)) in E; [done|]. injection E as <- <-.
  apply bind_inv in E2 as [(e & E & ->)|(q & s1 & E & E2)]; injection E as E <-; [apply quiet_refl|].
  assert (s' = s \/ exists txn, logged txn rid.1 q (RecHeapDelete (first_directory_page_id h) rid.1 rid.2 old) s s') as [->|[txn Hlog]].
  { apply bind_inv in E2 as [(e & E2 & ->)|([] & s1 & E2 & [= <- <-])]; by eapply log_and_store_inv. }
  { apply quiet_refl. }
  refine (logged_effect txn rid.1 d p q (RecHeapDelete (first_directory_page_id h) rid.1 rid.2 old) s s' Ht Hi Hd Hl _ eq_refl _ _ Hlog); [|done|].
  - cbn. split; [done|]. split; [by eapply loaded_id_ok|done].
  - cbn. by rewrite E.
Qed.

(** An undo is the change its compensation record is redone by. *)
Lemma undo_then_log_effect txn id clr undo s r s' : typed s -> heap_loaded s -> H id -> rec_ok clr -> redo_page_id (redo_kind clr) = Some id ->
  payload_ok (redo_kind clr) -> (forall p q, page_ok p -> undo p = Some (Ok q) -> redo_change p (redo_kind clr) = Some (Ok q)) ->
  undo_then_log txn id clr undo s = Some (r, s') -> effect s s'.
Proof.
  intros Ht Hg Hi Hk Hid Hp Hu E. destruct (Hg id Hi) as (d & p & Hd & Hl). unfold undo_then_log in E.
  assert (fetch id s = Some (Ok d, s)) as Ef by (unfold fetch, mbind, eff_bind, eget, lift; by rewrite Hd).
  apply bind_inv in E as [(e & E & ->)|(d1 & s1 & E & E2)]; rewrite Ef in E; [done|]. injection E as <- <-. rewrite (ld_page _ _ _ Hl) in E2.
  apply bind_inv in E2 as [(e & [=] & ->)|(p1 & s2 & [= <- <-] & E2)].
  apply bind_inv in E2 as [(e & E & ->)|(q & s3 & E & E2)]; unfold checked in E; destruct (undo p) as [[q'|e']|] eqn:Eu; simplify_eq; [apply quiet_refl|].
  apply bind_inv in E2 as [(e & E & ->)|(d2 & s4 & E & E2)]; unfold at_index in E; destruct (HeapPage.serialize q); simplify_eq.
  apply append_store_inv in E2 as [->|Hlog]; [apply quiet_refl|]. refine (logged_effect txn id d p _ _ _ s' Ht Hi Hd Hl Hk Hid Hp _ Hlog). apply Hu; [apply Hl|done].
Qed.

Lemma undo_one_effect txn rec id s r s' : typed s -> heap_loaded s -> redo_page_id (rec_kind rec) = Some id -> H id -> record_ok rec ->
  row_kind_ok (rec_kind rec) -> undo_one txn rec s = Some (r, s') -> effect s s'.
Proof.
  intros Ht Hg Hid Hi (R1 & R2 & R3 & R4) Hrow E. unfold undo_one in E. destruct (rec_kind rec) as [| | | |dr pg sl tu|dr pg sl old|dr pg sl old new| | | |]; try done;
    injection Hid as ->; (eapply (undo_then_log_effect txn id); [exact Ht|exact Hg|exact Hi| | | | |exact E]); cbn in R4, Hrow |- *; try done.
  - split; [done|]. split; [done|]. split; [apply R4|]. split; [apply R4|]. split; [apply R4|]. done.
  - intros p q _ Eq. unfold undo_delete in Eq. injection Eq as Eq. pose proof (restore_lt _ _ _ _ Eq) as Hlt.
    rewrite (proj2 (Nat.eqb_neq _ _)) by lia. by rewrite Eq.
  - destruct R4 as (A & B & C & D & E'). done.
Qed.
Lemma flush_empties w o w' : Wal.flush w o = (w', true) -> buffer w' = [].
Proof. unfold Wal.flush. case_bool_decide as E; [by intros [= <-]|]. destruct o; cbn; by intros [= <-]. Qed.

Lemma wal_flush_inv (s : Db T) r s' : wal_flush s = Some (r, s') -> exists o, wal s' = (Wal.flush (wal s) o).1 /\
  pages s' = pages s /\ disk s' = disk s /\ (r = Ok tt -> buffer (wal s') = []).
Proof.
  unfold wal_flush, mbind, eff_bind, eget. set (o := default Written _). destruct (Wal.flush (wal s) o) as [w [|]] eqn:E; cbn; intros [= <- <-]; exists o; rewrite E; cbn; [|done].
  split; [done|]. split; [done|]. split; [done|]. intros _. by eapply flush_empties.
Qed.

Lemma wal_gate_inv d (s : Db T) r s' : wal_gate d s = Some (r, s') ->
  (s' = s /\ (page_lsn_of d = 0 \/ page_lsn_of d < flushed_lsn (wal s))) \/
  exists o, wal s' = (Wal.flush (wal s) o).1 /\ pages s' = pages s /\ disk s' = disk s /\ (r = Ok tt -> buffer (wal s') = []).
Proof.
  unfold wal_gate. destruct (N.ltb_spec 0 (page_lsn_of d)) as [Hl|Hl]; [|intros [= <- <-]; left; split; [done|left; lia]].
  unfold wal_flush_up_to, mbind, eff_bind, eget. destruct (N.ltb_spec (page_lsn_of d) (flushed_lsn (wal s))) as [Hf|Hf]; [intros [= <- <-]; left; auto|].
  intros E. right. by apply (wal_flush_inv s r).
Qed.

Lemma disk_write_inv id d (s : Db T) r s' : disk_write id d s = Some (r, s') ->
  wal s' = wal s /\ pages s' = pages s /\ (disk s' = disk s \/ disk s' = <[id := d]> (disk s)).
Proof. unfold disk_write, mbind, eff_bind, eget, eset. destruct (default true _); intros [= <- <-]; cbn; auto. Qed.

Lemma flush_page_effect id (s : Db T) r s' : flush_page id s = Some (r, s') -> effect s s'.
Proof.
  unfold flush_page. intros E. apply bind_inv in E as [(e & [=] & _)|(a & s1 & [= <- <-] & E)].
  case_bool_decide; [|injection E as <- <-; apply quiet_refl]. destruct (pages s !! id) as [d|] eqn:Ed; [|injection E as <- <-; apply quiet_refl].
  apply bind_inv in E as [(e & E & ->)|([] & s1 & E & E2)]; pose proof (wal_gate_inv d s _ _ E) as Hg.
  { destruct Hg as [[-> _]|(o & H1 & H2 & H3 & _)]; [apply quiet_refl|by eapply ef_flush]. }
  assert (wal s' = wal s1 /\ pages s' = pages s1 /\ (disk s' = disk s1 \/ disk s' = <[id := d]> (disk s1))) as (W & P & D).
  { apply bind_inv in E2 as [(e & E2 & ->)|([] & s2 & E2 & [= <- <-])]; by apply (disk_write_inv id d s1) in E2. }
  destruct Hg as [[-> Hl]|(o & H1 & H2 & H3 & H4)].
  - destruct D as [D|D]; [apply ef_quiet; [done|by intros; rewrite P|done]|]. eapply (ef_write_back s s' Written id d); try done; [by left|rewrite W; tauto].
  - rewrite H1 in W. rewrite H2 in P. rewrite H3 in D. destruct D as [D|D]; [by eapply ef_flush|].
    eapply (ef_write_back s s' o id d); try done; [by right|]. right. right. rewrite W, <- H1. by apply H4.
Qed.

Lemma begin_effect (s : Db T) r s' : typed s' -> begin s = Some (r, s') -> effect s s'.
Proof.
  intros Ht E. unfold begin in E. apply bind_inv in E as [(e & [=] & _)|(a & s1 & [= <- <-] & E)].
  destruct (Grants.take 1 _ _ _) as [g res]. apply bind_inv in E as [(e & [=] & _)|([] & s1 & [= <-] & E)].
  apply bind_inv in E as [(e & [= -> <-] & ->)|(n & s1 & [= -> <-] & E)]; [by apply ef_quiet|].
  apply bind_inv in E as [(e & E & ->)|(lsn & s1 & E & E2)]; apply wal_append_inv in E as [(e' & E & ->)|(w & l & E & Hw & ->)]; try done; [by apply ef_quiet|].
  injection E as <-. injection E2 as <- <-. destruct (ty_table _ Ht n _ (lookup_insert_eq _ _ _)) as [U _].
  by apply (ef_log s _ n 0 RecBegin lsn).
Qed.

Lemma append_effect txn kind (s : Db T) r s' : typed s -> redo_page_id (redo_kind kind) = None -> rec_ok kind ->
  append_chained txn kind s = Some (r, s') -> effect s s'.
Proof.
  intros Ht Hk Ho E. apply append_chained_inv in E as [(e & -> & ->)|(en & w & l & -> & Ha & Hw & ->)]; [apply quiet_refl|].
  destruct (ty_table s Ht txn en Ha) as [U1 U2]. by apply (ef_log s _ txn (last_lsn en) kind l).
Qed.

Lemma section_effect s s' : typed s -> typed s' -> heap_loaded s -> section s s' -> effect s s'.
Proof.
  intros Ht Ht' Hg. intros [r E|h id t r Hi Hh Hu Hn E|h rid t r Hi Hh Hu Hu2 Hn Hb E|h rid old r Hi Hh Hu Hu2 Hb E|txn rec id r Hid Hi Hr Hk E|txn kind r Hk Ho E|kind r Hk Ho E|r E|id r E|id d r Hi E|H1 H2 H3].
  - by eapply begin_effect.
  - by eapply insert_page_effect.
  - by eapply update_page_effect.
  - by eapply delete_page_effect.
  - by eapply undo_one_effect.
  - by eapply append_effect.
  - apply wal_append_inv in E as [(e & -> & ->)|(w & l & -> & Hw & ->)]; [apply quiet_refl|]. by apply (ef_log s _ 0 0 kind l).
  - apply wal_flush_inv in E as (o & H1 & H2 & H3 & _). by eapply ef_flush.
  - by eapply flush_page_effect.
  - injection E as <- <-. apply ef_quiet; [done| |done]. intros i Hi'. cbn. apply lookup_insert_ne. by intros ->.
  - apply ef_quiet; [done| |done]. intros i _. by rewrite H2.
Qed.
(** * The pages are the log, replayed *)

(** Every heap page in the pool is its page at the checkpoint with the log
    replayed on it; on disk it is that with a flushed part of the log. *)
Record history (s0 s : Db T) (rs1 rs2 : list (LogRecord * list byte)) : Prop := {
  hi_logs : logs (wal s) rs1 rs2;
  hi_typed : typed s;
  hi_base : base_lsn (wal s) = base_lsn (wal s0);
  hi_fits : Forall rec_fits (rs1 ++ rs2).*1;
  hi_touch : forall r id, r ∈ (rs1 ++ rs2).*1 -> touches id r -> H id;
  hi_pages id : H id -> exists d0 p0 d, pages s0 !! id = Some d0 /\ loaded id d0 p0 /\ HeapPage.lsn p0 < base_lsn (wal s0) /\
    replay id (rs1 ++ rs2).*1 d0 = Some d /\ pages s !! id = Some d;
  hi_disk id : H id -> exists d0 dd rs3, pages s0 !! id = Some d0 /\ disk s !! id = Some dd /\ rs3 `prefix_of` rs1 /\ replay id rs3.*1 d0 = Some dd }.

Lemma chain_below b rs r : chain b rs -> r ∈ rs.*1 -> b <= rec_lsn r < b + blen (bytes_of rs) /\ rec_lsn r <= max_u64.
Proof.
  revert b. induction rs as [|[x fr] rs IH]; intros b Hc Hr; [by apply not_elem_of_nil in Hr|]. destruct Hc as (H1 & H2 & H3 & Hc).
  destruct (framed_size x fr H2 H3) as [S1 _]. rewrite bytes_cons, blen_app. unfold MIN_FRAME in S1. cbn in Hr. apply elem_of_cons in Hr as [->|Hr].
  - destruct H2 as [U _]. unfold u64_ok in U. lia.
  - specialize (IH _ Hc Hr). lia.
Qed.

Lemma history_below s0 s rs1 rs2 r : history s0 s rs1 rs2 -> r ∈ (rs1 ++ rs2).*1 -> base_lsn (wal s0) <= rec_lsn r < next_lsn (wal s).
Proof.
  intros Hh Hr. destruct (hi_logs _ _ _ _ Hh) as [_ Hb Hc Hst Hn _ _]. rewrite <- (hi_base _ _ _ _ Hh).
  destruct (chain_below _ _ _ Hc Hr) as [? _]. rewrite Hn, Hst, Hb. rewrite bytes_app, blen_app in *. lia.
Qed.

Lemma history_loaded s0 s rs1 rs2 id : history s0 s rs1 rs2 -> H id ->
  exists d p, pages s !! id = Some d /\ loaded id d p /\ HeapPage.lsn p < next_lsn (wal s) /\
    forall r, r ∈ (rs1 ++ rs2).*1 -> touches id r -> rec_lsn r <= HeapPage.lsn p.
Proof.
  intros Hh Hi. destruct (hi_pages _ _ _ _ Hh id Hi) as (d0 & p0 & d & Hd0 & Hl & Hb & Hr & Hd).
  destruct (replay_loaded id _ d0 p0 d Hl (hi_fits _ _ _ _ Hh) Hr) as (p & L & _ & Ht & Hu). exists d, p. split; [done|]. split; [done|]. split; [|done].
  apply Hu; [|intros r Hr'; by eapply history_below]. destruct (hi_logs _ _ _ _ Hh) as [_ _ _ Hst Hn _ _]. rewrite (hi_base _ _ _ _ Hh) in Hst. lia.
Qed.

Lemma history_start s0 : checkpointed s0 -> history s0 s0 [] [].
Proof.
  intros [Hl Ht Hp]. split; [done|done|done|constructor|intros r id Hr; by apply not_elem_of_nil in Hr| |].
  - intros id Hi. destruct (Hp id Hi) as (d & p & H1 & H2 & H3 & H4). by exists d, p, d.
  - intros id Hi. destruct (Hp id Hi) as (d & p & H1 & H2 & H3 & H4). by exists d, d, [].
Qed.

(** The log grew by one record. *)
Lemma history_append s0 s s' rs1 rs2 txn prev kind lsn : history s0 s rs1 rs2 -> typed s' ->
  Wal.append (wal s) txn prev kind = Ok (wal s', lsn) -> u64_ok txn -> u64_ok prev -> rec_ok kind -> payload_ok (redo_kind kind) ->
  (forall id, redo_page_id (redo_kind kind) = Some id -> H id) -> disk s' = disk s ->
  (forall id d, H id -> pages s !! id = Some d -> exists d', redo_record id (mkLogRecord lsn prev txn kind) d = Some d' /\ pages s' !! id = Some d') ->
  exists fr, history s0 s' rs1 (rs2 ++ [(mkLogRecord lsn prev txn kind, fr)]).
Proof.
  intros Hh Ht Ha U1 U2 Ho Hp Hid Hdk Hpg. destruct Hh as [Hl Hty Hb Hf Htc Hps Hds].
  assert (start_lsn (wal s') = start_lsn (wal s)) as Es.
  { unfold Wal.append in Ha. destruct (WalRecord.serialize _ kind); [|done]. cbn [mbind result_bind] in Ha. injection Ha as <- _. done. }
  destruct (append_logs (wal s) rs1 rs2 txn prev kind (wal s') lsn Hl Ha U1 U2 Ho) as (fr & -> & Hl').
  { pose proof (ty_buffer s' Ht). lia. } { rewrite <- Es. apply Ht. }
  exists fr. split.
  - done.
  - done.
  - rewrite <- Hb. by eapply append_base.
  - rewrite app_assoc, fmap_app. apply Forall_app. split; [done|]. constructor; [|constructor]. split; [apply Hl|done].
  - intros r id Hr Htr. rewrite app_assoc, fmap_app in Hr. apply elem_of_app in Hr as [Hr|Hr]; [by eapply Htc|].
    apply list_elem_of_singleton in Hr as ->. by apply Hid.
  - intros id Hi. destruct (Hps id Hi) as (d0 & p0 & d & H1 & H2 & H3 & H4 & H5). destruct (Hpg id d Hi H5) as (d' & R1 & R2).
    exists d0, p0, d'. split; [done|]. split; [done|]. split; [done|]. split; [|done].
    rewrite app_assoc, fmap_app, replay_app, H4. cbn [mbind option_bind fmap list_fmap fst replay]. by rewrite R1.
  - intros id Hi. destruct (Hds id Hi) as (d0 & dd & rs3 & H1 & H2 & H3 & H4). exists d0, dd, rs3. by rewrite Hdk.
Qed.

(** The log was flushed, or not. *)
Lemma history_flush s0 s s' rs1 rs2 o : history s0 s rs1 rs2 -> typed s' -> wal s' = (Wal.flush (wal s) o).1 -> pages s' = pages s -> disk s' = disk s ->
  exists rs1' rs2', history s0 s' rs1' rs2' /\ rs1' ++ rs2' = rs1 ++ rs2.
Proof.
  intros [Hl Hty Hb Hf Htc Hps Hds] Ht Hw Hp Hd. pose proof (flush_logs (wal s) rs1 rs2 o Hl) as Hl'. pose proof (flush_base (wal s) o) as Hbs. rewrite <- Hw in Hbs.
  destruct (Wal.flush (wal s) o) as [w [|]]; cbn in Hw; subst w.
  - exists (rs1 ++ rs2), []. split; [|by rewrite app_nil_r]. split; [done|done|congruence|by rewrite app_nil_r|by rewrite app_nil_r| |].
    + rewrite app_nil_r. by rewrite Hp.
    + intros id Hi. destruct (Hds id Hi) as (d0 & dd & rs3 & H1 & H2 & H3 & H4). exists d0, dd, rs3. rewrite Hd. split; [done|]. split; [done|]. split; [by apply prefix_app_r|done].
  - exists rs1, rs2. split; [|done]. split; [done|done|congruence|done|done|by rewrite Hp|by rewrite Hd].
Qed.
(** A page whose last record is flushed has no record in the buffer. *)
Lemma flushed_untouched s0 s rs1 rs2 id d : history s0 s rs1 rs2 -> H id -> pages s !! id = Some d ->
  page_lsn_of d = 0 \/ page_lsn_of d < flushed_lsn (wal s) \/ buffer (wal s) = [] -> forall r, r ∈ rs2.*1 -> ~ touches id r.
Proof.
  intros Hh Hi Hd Hl r Hr Ht. destruct (history_loaded s0 s rs1 rs2 id Hh Hi) as (d' & p & Hd' & L & _ & Hs). rewrite Hd in Hd'. injection Hd' as <-.
  assert (r ∈ (rs1 ++ rs2).*1) as Hr' by (rewrite fmap_app; apply elem_of_app; by right). specialize (Hs r Hr' Ht). rewrite (ld_lsn _ _ _ L) in Hl.
  destruct (hi_logs _ _ _ _ Hh) as [_ Hb Hc Hst _ Hfl _]. apply chain_app in Hc as [_ Hc]. rewrite <- Hst in Hc. destruct (chain_below _ _ _ Hc Hr) as [Hlow _].
  destruct Hl as [Hl|[Hl|Hl]].
  - destruct (hi_pages _ _ _ _ Hh id Hi) as (_ & p0 & _ & _ & _ & Hb0 & _). pose proof (history_below _ _ _ _ _ Hh Hr'). lia.
  - lia.
  - rewrite Hb in Hl. rewrite Hl in Hlow. change (blen []) with 0 in Hlow. lia.
Qed.

Lemma history_write_back s0 s s' rs1 rs2 o id d : history s0 s rs1 rs2 -> typed s' ->
  wal s' = wal s \/ wal s' = (Wal.flush (wal s) o).1 -> pages s !! id = Some d ->
  page_lsn_of d = 0 \/ page_lsn_of d < flushed_lsn (wal s') \/ buffer (wal s') = [] -> pages s' = pages s -> disk s' = <[id := d]> (disk s) ->
  exists rs1' rs2', history s0 s' rs1' rs2' /\ rs1' ++ rs2' = rs1 ++ rs2.
Proof.
  intros Hh Ht Hw Hd Hl Hp Hdk. set (s1 := s' <| disk := disk s |>).
  assert (typed s1) as Ht1 by (destruct Ht; by split).
  assert (exists a b, history s0 s1 a b /\ a ++ b = rs1 ++ rs2) as (a & b & H1 & E).
  { destruct Hw as [Hw|Hw]; [|by apply (history_flush s0 s s1 rs1 rs2 o Hh)]. exists rs1, rs2. split; [|done].
    destruct Hh as [A B C D F G K]. split; [by change (wal s1) with (wal s'); rewrite Hw|done|by change (wal s1) with (wal s'); rewrite Hw|done|done|by change (pages s1) with (pages s'); rewrite Hp|done]. }
  exists a, b. split; [|done]. assert (pages s1 !! id = Some d) as Hd1 by (change (pages s1) with (pages s'); by rewrite Hp).
  destruct (H1) as [A _ C D F G K]. split; [done|done|done|done|done|done|]. intros i Hi. rewrite Hdk. destruct (decide (i = id)) as [->|Hne].
  - destruct (G id Hi) as (d0 & p0 & d' & G1 & G2 & G3 & G4 & G5). rewrite Hd1 in G5. injection G5 as <-.
    exists d0, d, a. split; [done|]. split; [apply lookup_insert_eq|]. split; [done|]. rewrite fmap_app, replay_app in G4.
    destruct (replay id a.*1 d0) as [da|]; [|done]. cbn in G4. rewrite replay_untouched in G4; [done|]. by eapply (flushed_untouched s0 s1 a b id d).
  - rewrite lookup_insert_ne by done. apply (K i Hi).
Qed.

Lemma history_after_step s0 s s' rs1 rs2 : history s0 s rs1 rs2 -> step s s' ->
  exists rs1' rs2', history s0 s' rs1' rs2' /\ (rs1' ++ rs2' = rs1 ++ rs2 \/ exists x, rs1' ++ rs2' = (rs1 ++ rs2) ++ [x]).
Proof.
  intros Hh [Hs Ht]. assert (heap_loaded s) as Hg.
  { intros id Hi. destruct (history_loaded s0 s rs1 rs2 id Hh Hi) as (d & p & ? & ? & _). eauto. }
  destruct (section_effect s s' (hi_typed _ _ _ _ Hh) Ht Hg Hs) as [Hw Hp Hd|txn prev kind lsn Ha U1 U2 Ho Hk Hp Hd|txn prev kind lsn id d p q d' Ha U1 U2 Ho Hk Hpl Hi Hpd Hde Hr Hse Hp Hd|o Hw Hp Hd|o id d Hw Hpd Hl Hp Hd].
  - exists rs1, rs2. split; [|by left]. destruct Hh as [A B C D F G K]. split; [by rewrite Hw|done|by rewrite Hw|done|done| |by rewrite Hd].
    intros id Hi. rewrite (Hp id Hi). apply (G id Hi).
  - destruct (history_append s0 s s' rs1 rs2 txn prev kind lsn) as [fr Hx]; try done.
    + destruct (redo_kind kind); done.
    + intros id. by rewrite Hk.
    + intros id d Hi Hpd. exists d. rewrite Hp. split; [|done]. unfold redo_record. cbn. by rewrite Hk.
    + eexists rs1, _. split; [exact Hx|]. right. eexists. by rewrite app_assoc.
  - destruct (history_append s0 s s' rs1 rs2 txn prev kind lsn) as [fr Hx]; try done.
    + intros i. rewrite Hk. intros [= ->]. done.
    + intros i e Hi' Hpe. unfold redo_record. cbn [rec_kind rec_lsn]. rewrite Hk, Hp. destruct (decide (i = id)) as [->|Hne].
      * rewrite Hpd in Hpe. injection Hpe as <-. exists d'. split; [|apply lookup_insert_eq]. rewrite bool_decide_eq_true_2 by done.
        destruct (history_loaded s0 s rs1 rs2 id Hh Hi) as (d1 & p1 & Hd1 & L & Hlt & _). rewrite Hpd in Hd1. injection Hd1 as <-.
        rewrite (ld_page _ _ _ L) in Hde. injection Hde as <-. rewrite (redo_frame_loaded id d p1) by done.
        assert (lsn = next_lsn (wal s)) as ->.
        { unfold Wal.append in Ha. destruct (WalRecord.serialize _ kind); [|done]. cbn [mbind result_bind] in Ha. injection Ha as _ <-. done. }
        rewrite (proj2 (N.leb_gt _ _) Hlt), Hr. cbn [mbind option_bind]. by rewrite Hse.
      * exists e. rewrite bool_decide_eq_false_2 by congruence. split; [done|]. by rewrite lookup_insert_ne.
    + eexists rs1, _. split; [exact Hx|]. right. eexists. by rewrite app_assoc.
  - destruct (history_flush s0 s s' rs1 rs2 o Hh Ht Hw Hp Hd) as (a & b & H1 & H2). exists a, b. auto.
  - destruct (history_write_back s0 s s' rs1 rs2 o id d Hh Ht Hw Hpd Hl Hp Hd) as (a & b & H1 & H2). exists a, b. auto.
Qed.

(** From a moment of the run on, every longer prefix of the log was the log at
    some later moment. *)
Lemma history_from s0 s s' a b : history s0 s a b -> rtc step s s' -> exists rs1 rs2, history s0 s' rs1 rs2 /\ a ++ b `prefix_of` rs1 ++ rs2 /\
  forall n, (length (a ++ b) <= n <= length (rs1 ++ rs2))%nat ->
    exists sm c d, rtc step s sm /\ rtc step sm s' /\ history s0 sm c d /\ c ++ d = firstn n (rs1 ++ rs2).
Proof.
  intros Hs Hrun. revert s' Hrun. apply rtc_ind_r; [|intros s1 s' Hr Hst (rs1 & rs2 & Hh & Hpre & Hn)].
  - exists a, b. split; [done|]. split; [done|]. intros n Hn. exists s, a, b. split; [done|]. split; [done|]. split; [done|]. rewrite take_ge; [done|lia].
  - destruct (history_after_step s0 s1 s' rs1 rs2 Hh Hst) as (c & d & Hcd & E). exists c, d. split; [done|].
    assert (rs1 ++ rs2 `prefix_of` c ++ d) as [z Ez] by (destruct E as [E|[x E]]; rewrite E; [done|by exists [x]]). split; [rewrite Ez; by apply prefix_app_r|].
    intros n Hle. assert (rtc step s s') as Hr' by (by eapply rtc_r). destruct (decide (n <= length (rs1 ++ rs2))%nat) as [Hl|Hl].
    + destruct (Hn n ltac:(lia)) as (sm & e & f & H1 & H2 & H3 & H4). exists sm, e, f. split; [done|]. split; [by eapply rtc_r|]. split; [done|].
      rewrite H4, Ez, (take_app_le (rs1 ++ rs2) z) by done. done.
    + exists s', c, d. split; [done|]. split; [done|]. split; [done|]. rewrite take_ge; [done|].
      destruct E as [E|[x E]]; rewrite E in *; [lia|]. rewrite !length_app in *. cbn in *. lia.
Qed.

(** * The redo pass *)

Lemma read_log_run (s : Db T) rs1 pre post fuel : logs (wal s) rs1 [] -> rs1 = pre ++ post -> (length post < fuel)%nat ->
  read_log fuel (base_lsn (wal s) + blen (bytes_of pre)) (next_lsn (wal s)) s = Some (Ok post.*1, s).
Proof.
  intros Hl. revert fuel pre. induction post as [|[r fr] post IH]; intros fuel pre E Hf; (destruct fuel as [|fuel]; [cbn in Hf; lia|]); cbn [read_log].
  - destruct Hl as [_ Hb _ Hst Hn _ _]. rewrite app_nil_r in E. subst. rewrite Hb in Hn. change (blen (bytes_of [])) with 0 in Hn.
    rewrite (proj2 (N.ltb_ge _ _)) by lia. done.
  - assert (chain (base_lsn (wal s)) rs1) as Hc by (destruct Hl as [_ _ Hc _ _ _ _]; by rewrite app_nil_r in Hc).
    rewrite E in Hc. apply chain_app in Hc as [_ (Hlsn & Hok & Hfr & _)]. destruct (framed_size r fr Hok Hfr) as [S1 _].
    assert (base_lsn (wal s) + blen (bytes_of pre) + blen fr <= next_lsn (wal s)) as Hle.
    { destruct Hl as [_ Hb _ Hst Hn _ _]. rewrite E, bytes_app, bytes_cons, !blen_app in Hst. lia. }
    unfold MIN_FRAME in S1. rewrite (proj2 (N.ltb_lt _ _)) by lia. unfold mbind, eff_bind, eget, checked. rewrite <- Hlsn.
    rewrite (read_logged (wal s) rs1 [] r fr Hl) by (rewrite app_nil_r, E; apply elem_of_app; right; left).
    rewrite Hlsn. replace (base_lsn (wal s) + blen (bytes_of pre) + blen fr) with (base_lsn (wal s) + blen (bytes_of (pre ++ [(r, fr)]))).
    + rewrite IH; [done|by rewrite <- app_assoc|cbn in Hf; lia].
    + rewrite bytes_app, blen_app. assert (bytes_of [(r, fr)] = fr) as -> by (unfold bytes_of; cbn; by rewrite app_nil_r). lia.
Qed.

Lemma touch_page kind dr id : (dr, id) ∈ touch kind -> redo_page_id kind = Some id.
Proof. destruct kind; cbn; set_solver. Qed.

Lemma analyse_touched rs a dr id : (dr, id) ∈ touched (fold_left analyse_one rs a) ->
  (dr, id) ∈ touched a \/ exists r, r ∈ rs /\ touches id r.
Proof.
  revert a. induction rs as [|r rs IH]; intros a Hin; [by left|]. cbn in Hin. apply IH in Hin as [Hin|(r' & Hr & Ht)].
  - cbn in Hin. apply elem_of_union in Hin as [Hin|Hin]; [|by left]. right. exists r. split; [left|]. by eapply touch_page.
  - right. exists r'. split; [by right|done].
Qed.

Lemma sorted_touched_pages rs id : id ∈ snd <$> sorted_touched (analyse rs) -> exists r, r ∈ rs /\ touches id r.
Proof.
  intros Hin. apply list_elem_of_fmap in Hin as ([dr i] & -> & Hin). unfold sorted_touched in Hin. rewrite merge_sort_Permutation in Hin.
  apply elem_of_elements in Hin. apply analyse_touched in Hin as [Hin|Hin]; [set_solver|done].
Qed.

Lemma extend_file_present ids (s : Db T) : (forall id, id ∈ ids -> is_Some (disk s !! id)) -> extend_file ids s = Some (Ok tt, s).
Proof.
  induction ids as [|id ids IH]; intros Hd; [done|]. cbn [extend_file]. unfold mbind, eff_bind, eget.
  destruct (Hd id ltac:(left)) as [d ->]. apply IH. intros i Hi. apply Hd. by right.
Qed.

(** The pass over a log whose pages are on disk. *)
Lemma redo_pass_run (s : Db T) rs : logs (wal s) rs [] -> disk s = pages s ->
  (forall id r, r ∈ rs.*1 -> touches id r -> exists d d', pages s !! id = Some d /\ replay id rs.*1 d = Some d') ->
  exists s2, redo_pass s = Some (Ok rs.*1, s2) /\ wal s2 = wal s /\
    forall id d d', pages s !! id = Some d -> replay id rs.*1 d = Some d' -> pages s2 !! id = Some d'.
Proof.
  intros Hl Hd Hrs. unfold redo_pass. set (fuel := S (N.to_nat (next_lsn (wal s) - base_lsn (wal s)))).
  pose proof (read_log_run s rs [] rs fuel Hl eq_refl) as Hread. change (blen (bytes_of [])) with 0 in Hread. rewrite N.add_0_r in Hread.
  assert (length rs < fuel)%nat as Hf.
  { unfold fuel. destruct Hl as [_ Hb Hc Hst Hn _ _]. rewrite app_nil_r in Hc. pose proof (chain_count _ _ Hc). rewrite Hn, Hst, Hb. unfold blen. cbn. lia. }
  specialize (Hread Hf). rewrite (bind_run eget _ s s s) by done. cbv zeta. rewrite (bind_run _ _ s _ s Hread). destruct rs as [|x rs].
  { exists s. split; [done|]. split; [done|]. intros id d d' Hp [= <-]. done. }
  set (recs := (x :: rs).*1) in *. change (length recs =? 0)%nat with false. cbv iota zeta.
  set (s1 := s <| txn_ids := raise_issued_through (wadd64 (max_txn (analyse recs)) 1) (txn_ids s) |>).
  rewrite (bind_run _ _ s tt s1) by done. rewrite (bind_run _ _ s1 tt s1).
  2:{ apply extend_file_present. intros id Hin. apply sorted_touched_pages in Hin as (r & Hr & Ht). destruct (Hrs id r Hr Ht) as (d & d' & Hp & _).
      change (disk s1) with (disk s). rewrite Hd, Hp. done. }
  destruct (redo_all_pages recs s1 Hrs) as (ps & ds & Er & Hps). rewrite (bind_run _ _ s1 tt _ Er). eexists. split; [done|]. split; [done|]. exact Hps.
Qed.

(** What is on disk, replayed over the first [n] records of the log, where [n]
    counts everything flushed, is what the pages were when the log ended there. *)
Lemma redo_core s0 s sm rs1 rs2 a b n (s1 : Db T) : history s0 s rs1 rs2 -> history s0 sm a b -> a ++ b = firstn n (rs1 ++ rs2) -> (length rs1 <= n)%nat ->
  logs (wal s1) (a ++ b) [] -> disk s1 = disk s -> pages s1 = disk s ->
  exists s2, redo_pass s1 = Some (Ok (a ++ b).*1, s2) /\ forall id, H id -> pages s2 !! id = pages sm !! id.
Proof.
  intros Hh Hm Eab Hn Hlw E2 E3. assert (rs1 `prefix_of` a ++ b) as Hpre by (rewrite Eab, take_app_ge by done; by apply prefix_app_r).
  assert (forall id, H id -> exists d d', pages s1 !! id = Some d /\ replay id (a ++ b).*1 d = Some d' /\ pages sm !! id = Some d') as Hall.
  { intros id Hi. destruct (hi_disk _ _ _ _ Hh id Hi) as (d0 & dd & rs3 & D1 & D2 & D3 & D4).
    destruct (hi_pages _ _ _ _ Hm id Hi) as (d0' & p0 & d & P1 & P2 & _ & P4 & P5). rewrite D1 in P1. injection P1 as <-.
    exists dd, d. split; [by rewrite E3|]. split; [|done]. assert (rs3 `prefix_of` a ++ b) as [c Ec] by (by etrans).
    pose proof (hi_fits _ _ _ _ Hm) as Hfit. rewrite Ec, fmap_app in *. by apply (replay_resume id rs3.*1 c.*1 d0 p0). }
  destruct (redo_pass_run s1 (a ++ b)) as (s2 & Hp & _ & Hps).
  { done. } { congruence. }
  { intros id r Hr' Ht. destruct (Hall id (hi_touch _ _ _ _ Hm r id Hr' Ht)) as (d & d' & ? & ? & _). eauto. }
  exists s2. split; [exact Hp|]. intros id Hi. destruct (Hall id Hi) as (d & d' & A1 & A2 & A3). rewrite A3. by apply (Hps id d).
Qed.

Lemma history_end s0 s rs1 rs2 : history s0 s rs1 rs2 -> next_lsn (wal s) = base_lsn (wal s0) + blen (bytes_of (rs1 ++ rs2)).
Proof.
  intros Hh. pose proof (hi_logs _ _ _ _ Hh) as [_ M2 _ M4 M5 _ _]. rewrite M5, M4, M2, (hi_base _ _ _ _ Hh), bytes_app, blen_app. lia.
Qed.

(** The log that a crash leaves: everything flushed, and a prefix of the rest. *)
Lemma crash_log s0 s rs1 rs2 k : history s0 s rs1 rs2 -> (24 + N.to_nat (flushed_lsn (wal s) - base_lsn (wal s)) <= k)%nat ->
  exists w n, with_storage (firstn k (file (wal s))) = Ok w /\ logs w (firstn n (rs1 ++ rs2)) [] /\ (length rs1 <= n <= length (rs1 ++ rs2))%nat /\
    flushed_lsn (wal s) <= next_lsn w /\ next_lsn w = base_lsn (wal s0) + blen (bytes_of (firstn n (rs1 ++ rs2))).
Proof.
  intros Hh Hk. pose proof (hi_logs _ _ _ _ Hh) as Hl.
  assert (flushed_lsn (wal s) = base_lsn (wal s) + blen (bytes_of rs1)) as Hfl by (destruct Hl as [_ _ _ A _ B _]; congruence).
  destruct (open_cut (wal s) rs1 rs2 k Hl) as (w & n & Hw & Hlw & Hbw & Hge).
  { destruct Hl as [_ _ _ A B _ C]. unfold u64_ok. lia. } { lia. }
  assert (length rs1 <= n)%nat as Hn1 by (apply Hge; rewrite Hfl in Hk; unfold blen in Hk; lia).
  set (m := Nat.min n (length (rs1 ++ rs2))). assert (firstn n (rs1 ++ rs2) = firstn m (rs1 ++ rs2)) as Em.
  { unfold m. destruct (decide (n <= length (rs1 ++ rs2))%nat); [f_equal; lia|]. rewrite !take_ge by lia. done. }
  assert (length rs1 <= m <= length (rs1 ++ rs2))%nat as Hm by (unfold m; rewrite length_app in *; lia). rewrite Em in Hlw. exists w, m.
  assert (next_lsn w = base_lsn (wal s) + blen (bytes_of (firstn m (rs1 ++ rs2)))) as En.
  { pose proof Hlw as [_ L2 _ L4 L5 _ _]. rewrite L5, L4, L2, Hbw. change (blen (bytes_of [])) with 0. lia. }
  split; [done|]. split; [done|]. split; [done|]. split; [|by rewrite <- (hi_base _ _ _ _ Hh)].
  rewrite En, Hfl, take_app_ge, bytes_app, blen_app by lia. lia.
Qed.

End Run.

(** * A run that crashes *)

(** A database of one heap page and no index. *)
#[export] Instance no_index : Index unit := {| index_upsert := fun _ _ _ t => (Ok tt, t); index_delete := fun _ _ t => (Err KeyNotFound, t) |}.

Definition one_page : gmap N (list byte) := {[5 := image (HeapPage.empty 5)]}.
Definition quiet_db : Db unit :=
  mkDb fresh_log one_page one_page ∅ [Written; Failed 20] [] [] 256 Standalone 0 (Grants.new 1 256) ∅ 0 [] [] ∅ ∅ 0 tt.
Definition five (id : N) : Prop := id = 5.

Definition after {A : Type} (m : Eff (Db unit) A) (s : Db unit) : Db unit := match m s with Some (_, s') => s' | None => s end.
Definition returns {A : Type} (m : Eff (Db unit) A) (s : Db unit) : bool := match m s with Some _ => true | None => false end.

Lemma after_run {A : Type} (m : Eff (Db unit) A) s : returns m s = true -> exists r, m s = Some (r, after m s).
Proof. unfold returns, after. destruct (m s) as [[r s']|]; [eauto|done]. Qed.

Definition typed_bool (s : Db unit) : bool :=
  (blen (buffer (wal s)) <=? max_u32) && (start_lsn (wal s) + blen (buffer (wal s)) <=? max_u64)
  && forallb (fun '(id, e) => (id <=? max_u64) && (last_lsn e <=? max_u64)) (map_to_list (att s)).

Lemma typed_bool_ok s : typed_bool s = true -> typed s.
Proof.
  unfold typed_bool. intros E. apply andb_true_iff in E as [E E3]. apply andb_true_iff in E as [E1 E2]. split; [by apply N.leb_le|by apply N.leb_le|].
  intros id e He. apply elem_of_map_to_list in He. apply List.forallb_forall with (x := (id, e)) in E3; [|by apply list_elem_of_In].
  apply andb_true_iff in E3 as [A B]. split; by apply N.leb_le.
Qed.

Definition heap5 : HeapFileManager := mkHeapFile 2 (Some 1).
Definition row_a : list byte := row_of 30.
Definition row_b : list byte := row_of 40.

(** A transaction begins and inserts a row, the log is flushed, a second row is
    inserted, the flush its page needs stops part-way. *)
Definition run1 : Db unit := after begin quiet_db.
Definition run2 : Db unit := after (insert_page heap5 5 row_a) run1.
Definition run3 : Db unit := after wal_flush run2.
Definition run4 : Db unit := after (insert_page heap5 5 row_b) run3.
Definition run5 : Db unit := after (flush_page 5) run4.

Lemma quiet_checkpointed : checkpointed five quiet_db.
Proof.
  split; [apply fresh_logs|by apply typed_bool_ok|]. intros id ->. destruct (empty_ok 5 ltac:(done)) as [H1 H2].
  exists (image (HeapPage.empty 5)), (reloaded (HeapPage.empty 5)). split; [apply lookup_singleton_eq|]. split; [apply lookup_singleton_eq|].
  split; [by apply (image_loaded (HeapPage.empty 5))|]. done.
Qed.

Lemma run2_steps : rtc (step five) quiet_db run2.
Proof.
  assert (step five quiet_db run1) as S1.
  { destruct (after_run begin quiet_db) as [r Hr]; [by vm_compute|]. split; [by eapply sec_begin|]. apply typed_bool_ok. by vm_compute. }
  assert (step five run1 run2) as S2.
  { destruct (after_run (insert_page heap5 5 row_a) run1) as [r Hr]; [by vm_compute|]. split; [by eapply (sec_insert five run1 run2 heap5 5 row_a r)|]. apply typed_bool_ok. by vm_compute. }
  exact (rtc_l _ _ _ _ S1 (rtc_once _ _ S2)).
Qed.

Lemma run_steps : rtc (step five) quiet_db run5.
Proof.
  assert (step five run2 run3) as S3.
  { destruct (after_run wal_flush run2) as [r Hr]; [by vm_compute|]. split; [by eapply sec_flush|]. apply typed_bool_ok. by vm_compute. }
  assert (step five run3 run4) as S4.
  { destruct (after_run (insert_page heap5 5 row_b) run3) as [r Hr]; [by vm_compute|]. split; [by eapply (sec_insert five run3 run4 heap5 5 row_b r)|]. apply typed_bool_ok. by vm_compute. }
  assert (step five run4 run5) as S5.
  { destruct (after_run (flush_page 5) run4) as [r Hr]; [by vm_compute|]. split; [by eapply sec_write_back|]. apply typed_bool_ok. by vm_compute. }
  etrans; [exact run2_steps|]. exact (rtc_l _ _ _ _ S3 (rtc_l _ _ _ _ S4 (rtc_once _ _ S5))).
Qed.

