(* ===== verification/Durability.v ===== *)
(** A commit that was acknowledged survives: the log of [src/src/wal/log.rs],
    [commit] of [src/src/wal/txn.rs] and the analysis of
    [src/src/wal/recovery.rs] together. *)
From stdpp Require Import sorting.
From S2P Require Import Prelude Bytes Errors Eff WalRecord Tuple HeapPage HeapPageProps Wal WalProps Grants Visibility TxnManager PageDirectory HeapFile.
From S2P Require Import Recovery RecoveryProps.

#[local] Open Scope N_scope.

(** * Who is rolled back *)

Definition ends (r : LogRecord) : Prop := rec_kind r = RecCommit \/ rec_kind r = RecTxnEnd.

Lemma analyse_ended rs a t : t ∈ ended (fold_left analyse_one rs a) <-> t ∈ ended a \/ exists r, r ∈ rs /\ rec_txn r = t /\ ends r.
Proof.
  revert a. induction rs as [|r rs IH]; intros a; cbn [fold_left].
  - split; [by left|]. intros [Ht|(r & Hr & _)]; [done|by apply not_elem_of_nil in Hr].
  - rewrite IH. assert (t ∈ ended (analyse_one a r) <-> t ∈ ended a \/ rec_txn r = t /\ ends r) as ->.
    { unfold ends. cbn. destruct (rec_kind r); rewrite ?elem_of_union, ?elem_of_singleton; naive_solver. }
    setoid_rewrite elem_of_cons. naive_solver.
Qed.

Lemma analyse_seen rs a t : t ∈ dom (last_lsns (fold_left analyse_one rs a)) <-> t ∈ dom (last_lsns a) \/ exists r, r ∈ rs /\ rec_txn r = t.
Proof.
  revert a. induction rs as [|r rs IH]; intros a; cbn [fold_left].
  - split; [by left|]. intros [Ht|(r & Hr & _)]; [done|by apply not_elem_of_nil in Hr].
  - rewrite IH. cbn. rewrite dom_insert_L. setoid_rewrite elem_of_cons. set_solver.
Qed.

(** The losers are the transactions with a record and no end. *)
Lemma losers_spec rs t : t ∈ losers (analyse rs) <->
  (exists r, r ∈ rs /\ rec_txn r = t) /\ ~ exists r, r ∈ rs /\ rec_txn r = t /\ ends r.
Proof.
  unfold losers. rewrite merge_sort_Permutation, list_elem_of_In, filter_In, <- list_elem_of_In, elem_of_elements, negb_true_iff, bool_decide_eq_false.
  unfold analyse. rewrite analyse_ended, analyse_seen. set_solver.
Qed.

Section Durable.
Context {T : Type} `{!Index T} (H : N -> Prop).

(** * What was flushed stays flushed *)

Lemma flush_grows w o : flushed_lsn w <= flushed_lsn (Wal.flush w o).1.
Proof. unfold Wal.flush. destruct (bool_decide _); [done|]. destruct (pwrite_all _ _ _ _) as [f [|]]; cbn; lia. Qed.

Lemma append_flushed w txn prev kind w' lsn : Wal.append w txn prev kind = Ok (w', lsn) -> flushed_lsn w' = flushed_lsn w.
Proof. unfold Wal.append. destruct (WalRecord.serialize _ kind); [|done]. cbn [mbind result_bind]. by intros [= <- _]. Qed.

Lemma step_flushed s0 s s' rs1 rs2 : history (T:=T) H s0 s rs1 rs2 -> RecoveryProps.step H s s' -> flushed_lsn (wal s) <= flushed_lsn (wal s').
Proof.
  intros Hh [Hs Ht]. assert (heap_loaded H s) as Hg.
  { intros id Hi. destruct (history_loaded H s0 s rs1 rs2 id Hh Hi) as (d & p & ? & ? & _). eauto. }
  destruct (section_effect H s s' (hi_typed _ _ _ _ _ Hh) Ht Hg Hs) as [Hw _ _|txn prev kind lsn Ha _ _ _ _ _ _|txn prev kind lsn id d p q d' Ha|o Hw _ _|o id d Hw _ _ _ _].
  - by rewrite Hw.
  - apply append_flushed in Ha. lia.
  - apply append_flushed in Ha. lia.
  - rewrite Hw. apply flush_grows.
  - destruct Hw as [->| ->]; [done|apply flush_grows].
Qed.

Lemma run_flushed s0 s s' a b : history (T:=T) H s0 s a b -> rtc (RecoveryProps.step H) s s' -> flushed_lsn (wal s) <= flushed_lsn (wal s').
Proof.
  intros Hh Hr. revert a b Hh. induction Hr as [s|s s1 s' Hs Hr IH]; intros a b Hh; [done|].
  etrans; [by eapply step_flushed|]. destruct (history_after_step H s0 s s1 a b Hh Hs) as (a' & b' & Hh' & _). by eapply IH.
Qed.

(** * The commit record *)

Lemma commit_logged s0 sa sb a b txn lsn : history (T:=T) H s0 sa a b -> append_chained txn RecCommit sa = Some (Ok lsn, sb) -> typed sb ->
  exists r fr, history H s0 sb a (b ++ [(r, fr)]) /\ lsn = next_lsn (wal sa) /\ rec_lsn r = lsn /\ rec_txn r = txn /\ rec_kind r = RecCommit.
Proof.
  intros Hh E Ht. apply append_chained_inv in E as [(e & [=] & _)|(en & w & l & [= <-] & Ha & Hw & Es)].
  destruct (ty_table sa (hi_typed _ _ _ _ _ Hh) txn en Ha) as [U1 U2].
  assert (wal sb = w /\ pages sb = pages sa /\ disk sb = disk sa) as (E1 & E2 & E3) by (by rewrite Es). clear Es.
  destruct (history_append H s0 sa sb a b txn (last_lsn en) RecCommit lsn Hh Ht) as [fr Hx]; try done.
  - by rewrite E1.
  - intros id d Hi Hd. exists d. rewrite E2. split; [|done]. by unfold redo_record.
  - exists (mkLogRecord lsn (last_lsn en) txn RecCommit), fr. split; [exact Hx|]. split; [|done].
    unfold Wal.append in Hw. destruct (WalRecord.serialize _ RecCommit); [|done]. cbn [mbind result_bind] in Hw. by injection Hw as _ <-.
Qed.

Lemma flushed_up_to s0 sc sd a b lsn : history (T:=T) H s0 sc a b -> lsn < next_lsn (wal sc) -> wal_flush_up_to lsn sc = Some (Ok tt, sd) ->
  rtc (RecoveryProps.step H) sc sd /\ lsn < flushed_lsn (wal sd).
Proof.
  intros Hh Hlt. unfold wal_flush_up_to, mbind, eff_bind, eget. destruct (N.ltb_spec lsn (flushed_lsn (wal sc))) as [Hl|Hl].
  - by intros [= <-].
  - intros E. pose proof E as E0. unfold wal_flush, mbind, eff_bind, eget, eset in E. set (o := default Written (head (log_writes sc))) in E.
    pose proof (flush_logs (wal sc) a b o (hi_logs _ _ _ _ _ Hh)) as Hf. pose proof (hi_logs _ _ _ _ _ Hh) as [_ L2 _ L4 L5 L6 L7].
    destruct (Wal.flush (wal sc) o) as [w [|]] eqn:Ew; [|done]. destruct Hf as [_ F2 _ F4 F5 F6 F7]. injection E as Es.
    assert (wal sd = w /\ att sd = att sc) as [E1 E2] by (by rewrite <- Es). clear Es.
    assert (next_lsn w = next_lsn (wal sc)) as En by (unfold Wal.flush in Ew; destruct (bool_decide _); [by injection Ew as <-|]; destruct (pwrite_all _ _ _ _) as [f [|]]; by injection Ew as <-).
    change (bytes_of []) with ([] : list byte) in F2. rewrite F2 in F5. change (blen []) with 0 in F5.
    split; [|rewrite E1, F6; lia]. apply rtc_once. split; [by eapply sec_flush|]. split; [rewrite E1, F2; done|rewrite E1, F2; change (blen []) with 0; lia|].
    rewrite E2. apply (hi_typed _ _ _ _ _ Hh).
Qed.

(** A record below the flushed point is in the flushed part of the log. *)
Lemma below_flushed s0 s rs1 rs2 r : history (T:=T) H s0 s rs1 rs2 -> r ∈ (rs1 ++ rs2).*1 -> rec_lsn r < flushed_lsn (wal s) -> r ∈ rs1.*1.
Proof.
  intros Hh Hr Hlt. rewrite fmap_app in Hr. apply elem_of_app in Hr as [Hr|Hr]; [done|]. destruct (hi_logs _ _ _ _ _ Hh) as [_ _ Hc Hst _ Hfl _].
  apply chain_app in Hc as [_ Hc]. destruct (chain_below _ _ _ Hc Hr) as [Hle _]. lia.
Qed.

(** The flushed part of a log that has the record appended in [sa] goes beyond
    the log of [sa]. *)
Lemma logged_before s0 sa a b x rs1 rs2 : history (T:=T) H s0 sa a b -> a ++ b ++ [x] `prefix_of` rs1 ++ rs2 -> x.1 ∈ rs1.*1 ->
  rec_lsn x.1 = next_lsn (wal sa) -> (length (a ++ b ++ [x]) <= length rs1)%nat.
Proof.
  intros Hh [y Ey] Hx Hl. destruct (decide (length (a ++ b ++ [x]) <= length rs1)%nat) as [Hle|Hgt]; [done|]. exfalso.
  rewrite app_assoc in *. rewrite length_app in Hgt. cbn in Hgt. assert (rs1 = firstn (length rs1) (a ++ b)) as E.
  { rewrite <- (take_app_le (a ++ b) ([x] ++ y)) by lia. rewrite app_assoc, <- Ey. by rewrite take_app_length. }
  assert (x.1 ∈ (a ++ b).*1) as Hin.
  { rewrite <- (take_drop (length rs1) (a ++ b)), <- E, fmap_app. apply elem_of_app. by left. }
  pose proof (history_below H s0 sa a b x.1 Hh Hin). lia.
Qed.

(** [commit] answers only after both: its record appended, and flushed. *)
Lemma commit_acknowledges txn (s s' : Db T) : TxnManager.commit txn s = Some (Ok tt, s') ->
  exists (sa : Db T) lsn (sb sd : Db T), append_chained txn RecCommit sa = Some (Ok lsn, sb) /\ wal_flush_up_to lsn sb = Some (Ok tt, sd).
Proof.
  unfold TxnManager.commit. intros E. apply bind_inv in E as [(e & [=] & _)|(x & s1 & [= <- <-] & E)]. destruct (is_aborting txn s); [done|].
  apply bind_inv in E as [(e & _ & [=])|(y & sa & _ & E)]. apply bind_inv in E as [(e & _ & [=])|(lsn & sb & Ea & E)].
  apply bind_inv in E as [(e & _ & [=])|([] & sd & Ef & _)]. by exists sa, lsn, sb, sd.
Qed.

End Durable.

(** * A commit that a crash follows *)

Definition value {A : Type} (d : A) (m : Eff (Db unit) A) (s : Db unit) : A := match m s with Some (Ok a, _) => a | _ => d end.
Definition answers {A : Type} (m : Eff (Db unit) A) (s : Db unit) : bool := match m s with Some (Ok _, _) => true | _ => false end.

Lemma answered {A : Type} (d : A) (m : Eff (Db unit) A) s : answers m s = true -> m s = Some (Ok (value d m s), RecoveryProps.after m s).
Proof. unfold answers, value, RecoveryProps.after. by destruct (m s) as [[[a|e] s']|]. Qed.

Lemma answered_unit (m : Eff (Db unit) unit) s : answers m s = true -> m s = Some (Ok tt, RecoveryProps.after m s).
Proof. unfold answers, RecoveryProps.after. by destruct (m s) as [[[[]|e] s']|]. Qed.

(** The transaction of the run above commits after its first row. *)
Definition commit_lsn : N := value 0 (append_chained 1 RecCommit) run2.
Definition promised : Db unit := RecoveryProps.after (append_chained 1 RecCommit) run2.
Definition flushed : Db unit := RecoveryProps.after (wal_flush_up_to commit_lsn) promised.

