(* ===== verification/AbortProps.v ===== *)
(** Rolling a transaction back: [abort] gives every row the transaction changed
    the image it had before the first change, or stops where a page has no room
    for an image, in a state from which a retry goes on with that very record. *)
From S2P Require Import Prelude Bytes Errors Eff WalRecord Values Tuple HeapPage HeapPageProps Wal WalProps Grants Visibility TxnManager PageDirectory HeapFile Recovery RecoveryProps.

#[local] Open Scope N_scope.
#[local] Arguments N.of_nat : simpl never.
#[local] Arguments N.to_nat : simpl never.
#[local] Arguments be_bytes : simpl never.

(** * Rows by page and slot *)

Abbreviation Rows := (gmap N (list (option (list byte)))) (only parsing).

(** The page, the slot, and the images before and after a logged change. *)
Record Change := mkChange { ch_page : N; ch_slot : N; ch_before : option (list byte); ch_after : option (list byte) }.

Definition change_of (kind : RecKind) : option Change :=
  match kind with
  | RecHeapInsert _ page slot tuple => Some (mkChange page slot None (Some tuple))
  | RecHeapDelete _ page slot old => Some (mkChange page slot (Some old) None)
  | RecHeapUpdate _ page slot old new => Some (mkChange page slot (Some old) (Some new))
  | _ => None
  end.

Definition cell (R : Rows) (page slot : N) : option (option (list byte)) := rs ← R !! page; rs !! N.to_nat slot.
Definition put_cell (page slot : N) (v : option (list byte)) (R : Rows) : Rows := alter (<[N.to_nat slot := v]>) page R.

Definition take_back (c : Change) (R : Rows) : Rows := put_cell (ch_page c) (ch_slot c) (ch_before c) R.

(** The rows are those the changes, newest first, left. *)
Fixpoint left_by (cs : list Change) (R : Rows) : Prop :=
  match cs with
  | [] => True
  | c :: cs => cell R (ch_page c) (ch_slot c) = Some (ch_after c) /\ left_by cs (take_back c R)
  end.

Definition on_cell (page slot : N) (c : Change) : Prop := ch_page c = page /\ ch_slot c = slot.

Lemma cell_put_eq R page slot v : is_Some (cell R page slot) -> cell (put_cell page slot v R) page slot = Some v.
Proof.
  intros [x Hx]. unfold cell, put_cell in *. rewrite lookup_alter_eq. destruct (R !! page) as [rs|]; [|done]. cbn in *.
  apply list_lookup_insert_eq. by eapply lookup_lt_Some.
Qed.

Lemma cell_put_ne R page slot v p s : ~ (page = p /\ slot = s) -> cell (put_cell page slot v R) p s = cell R p s.
Proof.
  intros Hne. unfold cell, put_cell. destruct (decide (page = p)) as [->|Hp]; [|by rewrite lookup_alter_ne].
  rewrite lookup_alter_eq. destruct (R !! p) as [rs|]; [|done]. cbn. apply list_lookup_insert_ne. intros E. apply Hne. split; [done|]. lia.
Qed.

Lemma cell_put_some R page slot v p s : is_Some (cell R p s) -> is_Some (cell (put_cell page slot v R) p s).
Proof.
  intros Hs. destruct (decide (page = p /\ slot = s)) as [[-> ->]|Hne]; [rewrite cell_put_eq by done; eauto|by rewrite cell_put_ne].
Qed.

Fixpoint taken_back (cs : list Change) (R : Rows) : Rows :=
  match cs with [] => R | c :: cs => taken_back cs (take_back c R) end.

Lemma taken_back_app cs1 cs2 R : taken_back (cs1 ++ cs2) R = taken_back cs2 (taken_back cs1 R).
Proof. revert R. induction cs1 as [|c cs1 IH]; intros R; [done|]. apply IH. Qed.

Lemma left_by_app cs1 cs2 R : left_by (cs1 ++ cs2) R <-> left_by cs1 R /\ left_by cs2 (taken_back cs1 R).
Proof. revert R. induction cs1 as [|c cs1 IH]; intros R; [cbn; tauto|]. cbn. rewrite IH. tauto. Qed.

Lemma taken_back_untouched cs R page slot : Forall (fun c => ~ on_cell page slot c) cs -> cell (taken_back cs R) page slot = cell R page slot.
Proof.
  intros Hf. revert R. induction Hf as [|c cs Hc Hf IH]; intros R; [done|]. cbn. rewrite IH. by apply cell_put_ne.
Qed.

(** The oldest change of a cell decides what it goes back to. *)
Lemma taken_back_oldest newer c older R : left_by (newer ++ c :: older) R -> Forall (fun x => ~ on_cell (ch_page c) (ch_slot c) x) older ->
  cell (taken_back (newer ++ c :: older) R) (ch_page c) (ch_slot c) = Some (ch_before c).
Proof.
  intros Hl Ho. apply left_by_app in Hl as [_ [Hc _]]. rewrite taken_back_app. cbn. rewrite taken_back_untouched by done. apply cell_put_eq. rewrite Hc. eauto.
Qed.

Lemma taken_back_dom cs R : dom (taken_back cs R) = dom R.
Proof. revert R. induction cs as [|c cs IH]; intros R; [done|]. cbn. rewrite IH. apply dom_alter_L. Qed.

(** * What is left to undo *)

(** The walk of [abort] from a position of the log: the changes it meets, newest
    first, and the number of records it reads. *)
Inductive todo (recs : list LogRecord) : nat -> N -> list LogRecord -> Prop :=
| td_begin r : r ∈ recs -> rec_kind r = RecBegin -> todo recs 1 (rec_lsn r) []
| td_change r c n rs : r ∈ recs -> change_of (rec_kind r) = Some c -> prev_lsn r <> 0 -> todo recs n (prev_lsn r) rs ->
    todo recs (S n) (rec_lsn r) (r :: rs)
| td_undone r u nxt redo n rs : r ∈ recs -> rec_kind r = RecClr u nxt redo -> nxt <> 0 -> todo recs n nxt rs -> todo recs (S n) (rec_lsn r) rs
| td_other r n rs : r ∈ recs -> rec_kind r = RecAbort \/ (exists run, rec_kind r = RecRunIdentity run) -> prev_lsn r <> 0 ->
    todo recs n (prev_lsn r) rs -> todo recs (S n) (rec_lsn r) rs.

Lemma todo_mono recs recs' n l rs : recs ⊆ recs' -> todo recs n l rs -> todo recs' n l rs.
Proof.
  intros Hs. induction 1 as [r Hr Hk|r c n rs Hr Hk Hp Ht IH|r u nxt redo n rs Hr Hk Hp Ht IH|r n rs Hr Hk Hp Ht IH].
  - by apply td_begin; [apply Hs|].
  - by eapply td_change; [apply Hs| | |].
  - by eapply td_undone; [apply Hs| | |].
  - by eapply td_other; [apply Hs| | |].
Qed.

(** * Room in the log *)

(** A record that takes at most 16384 bytes of the log. *)
Definition small_kind (kind : RecKind) : Prop := forall b, exists w, WalRecord.serialize b kind = Ok (b ++ w) /\ blen w <= 16000.

Definition log_room (m : N) (w : WalManager) : Prop :=
  blen (buffer w) + m * 16384 <= max_u32 /\ start_lsn w + blen (buffer w) + m * 16384 <= max_u64.

Lemma small_append w txn prev kind m : small_kind kind -> log_room (m + 1) w ->
  exists w', Wal.append w txn prev kind = Ok (w', next_lsn w) /\ log_room m w' /\ start_lsn w' = start_lsn w /\ blen (buffer w') <= blen (buffer w) + 16384.
Proof.
  intros Hs [R1 R2]. destruct (Hs (be_bytes 8 (next_lsn w) ++ be_bytes 8 prev ++ be_bytes 8 txn)) as (b & Eb & Lb).
  unfold Wal.append. rewrite Eb. cbn [mbind result_bind]. eexists. split; [reflexivity|]. unfold log_room. cbn [buffer start_lsn].
  rewrite !blen_app, !blen_be_bytes. lia.
Qed.

Lemma small_abort : small_kind RecAbort.
Proof. intros b. eexists. split; [reflexivity|]. change (1 <= 16000). lia. Qed.
Lemma small_end : small_kind RecTxnEnd.
Proof. intros b. eexists. split; [reflexivity|]. change (1 <= 16000). lia. Qed.

Lemma small_heap_insert d p s t : blen t <= PAGE_SIZE -> forall b, exists w, WalRecord.serialize b (RecHeapInsert d p s t) = Ok (b ++ w) /\ blen w <= 8300.
Proof.
  intros Ht b. eexists. split; [cbn [WalRecord.serialize]; unfold write_heap; rewrite <- ?app_assoc; reflexivity|].
  rewrite ?blen_app, ?blen_be_bytes. unfold PAGE_SIZE in Ht. change (blen [_]) with 1. lia.
Qed.
Lemma small_heap_delete d p s t : blen t <= PAGE_SIZE -> forall b, exists w, WalRecord.serialize b (RecHeapDelete d p s t) = Ok (b ++ w) /\ blen w <= 8300.
Proof.
  intros Ht b. eexists. split; [cbn [WalRecord.serialize]; unfold write_heap; rewrite <- ?app_assoc; reflexivity|].
  rewrite ?blen_app, ?blen_be_bytes. unfold PAGE_SIZE in Ht. change (blen [_]) with 1. lia.
Qed.
Lemma small_heap_update d p s o t : blen o <= PAGE_SIZE -> blen t <= PAGE_SIZE ->
  forall b, exists w, WalRecord.serialize b (RecHeapUpdate d p s o t) = Ok (b ++ w) /\ blen w <= 8300.
Proof.
  intros Ho Ht b. eexists. split; [cbn [WalRecord.serialize]; unfold write_heap; rewrite <- ?app_assoc; reflexivity|].
  rewrite ?blen_app, ?blen_be_bytes. unfold PAGE_SIZE in Ho, Ht. change (blen [_]) with 1. lia.
Qed.

Lemma small_clr u n redo : (forall b, exists w, WalRecord.serialize b redo = Ok (b ++ w) /\ blen w <= 8300) -> small_kind (RecClr u n redo).
Proof.
  intros Hr b. cbn [WalRecord.serialize]. destruct (Hr (b ++ [u8 8] ++ be_bytes 8 u ++ be_bytes 8 n)) as (w & -> & Hw).
  exists (([u8 8] ++ be_bytes 8 u ++ be_bytes 8 n) ++ w). split; [by rewrite <- !app_assoc|]. rewrite !blen_app, !blen_be_bytes. change (blen [_]) with 1. lia.
Qed.

Section Rollback.
Context {T : Type} `{!Index T}.

(** * A transaction on its way back *)

Definition shows (s : Db T) (R : Rows) : Prop :=
  forall id rs, R !! id = Some rs -> exists d p, pages s !! id = Some d /\ loaded id d p /\ rows p = rs.

(** The log holds [recs], the last record of [txn] is at [l], the pages show
    [R]. *)
Record rolling (s : Db T) (txn l : N) (recs : list LogRecord) (R : Rows) : Prop := {
  ro_logs : exists rs1 rs2, logs (wal s) rs1 rs2 /\ (rs1 ++ rs2).*1 = recs;
  ro_txn : u64_ok txn;
  ro_entry : exists e, att s !! txn = Some e /\ last_lsn e = l;
  ro_lsn : u64_ok l;
  ro_base : 0 < base_lsn (wal s);
  ro_shows : shows s R }.

(** What the steps of a rollback leave alone. *)
Record aside (txn : N) (s s' : Db T) : Prop := {
  as_index : index s' = index s;
  as_undo : index_undo s' = index_undo s;
  as_table t : t <> txn -> att s' !! t = att s !! t;
  as_status : is_aborting txn s' = is_aborting txn s }.

Lemma aside_refl txn s : aside txn s s.
Proof. done. Qed.
Lemma aside_trans txn s1 s2 s3 : aside txn s1 s2 -> aside txn s2 s3 -> aside txn s1 s3.
Proof. intros [A1 A2 A3 A4] [B1 B2 B3 B4]. split; [congruence|congruence| |congruence]. intros t Ht. rewrite B3 by done. by apply A3. Qed.

Lemma chained_runs s txn l recs R kind m : rolling s txn l recs R -> log_room (m + 1) (wal s) -> rec_ok kind -> small_kind kind ->
  exists lsn s', append_chained txn kind s = Some (Ok lsn, s') /\ rolling s' txn lsn (recs ++ [mkLogRecord lsn l txn kind]) R /\
    log_room m (wal s') /\ pages s' = pages s /\ aside txn s s' /\ lsn <= max_u64.
Proof.
  intros [(rs1 & rs2 & Hl & <-) Ht (e & He & <-) Hu Hba Hs] Hm Hk Hsm. destruct (small_append (wal s) txn (last_lsn e) kind m Hsm Hm) as (w & Ha & Hm' & Est & Hlen).
  destruct (append_logs (wal s) rs1 rs2 txn (last_lsn e) kind w _ Hl Ha Ht Hu Hk) as (fr & _ & Hl').
  { unfold max_u32. lia. } { rewrite <- Est. destruct Hm'. lia. }
  exists (next_lsn (wal s)). eexists. split.
  { unfold append_chained. rewrite (bind_run eget _ s s s) by done. rewrite (bind_run _ _ s e s) by (unfold lift; by rewrite He).
    rewrite (bind_run _ _ s (next_lsn (wal s)) (s <| wal := w |>)); [reflexivity|]. unfold wal_append.
    rewrite (bind_run eget _ s s s) by done. rewrite (bind_run _ _ s (w, next_lsn (wal s)) s) by (unfold lift; by rewrite Ha). reflexivity. }
  assert (u64_ok (next_lsn (wal s))) as Hnx by apply Hl.
  split; [|split; [exact Hm'|split; [reflexivity|split; [|exact Hnx]]]].
  - split; [|exact Ht| |exact Hnx|cbn; by rewrite (append_base _ _ _ _ _ _ Ha)|exact Hs].
    + exists rs1, (rs2 ++ [(mkLogRecord (next_lsn (wal s)) (last_lsn e) txn kind, fr)]). split; [exact Hl'|]. by rewrite app_assoc, fmap_app.
    + eexists. split; [apply lookup_insert_eq|reflexivity].
  - split; [reflexivity|reflexivity|intros t Hne; by apply lookup_insert_ne|].
    unfold is_aborting. cbn. rewrite lookup_insert_eq, He. reflexivity.
Qed.

(** * One undo *)

Lemma shows_put s s' R id d' p' slot v : shows s R -> pages s' = <[id := d']> (pages s) -> loaded id d' p' ->
  (forall rs, R !! id = Some rs -> rows p' = <[N.to_nat slot := v]> rs) -> shows s' (put_cell id slot v R).
Proof.
  intros Hs Hp Hl Hr i rs Hi. unfold put_cell in Hi. destruct (decide (i = id)) as [->|Hne].
  - rewrite lookup_alter_eq in Hi. destruct (R !! id) as [rs0|]; [|done]. cbn in Hi. injection Hi as <-.
    exists d', p'. rewrite Hp. split; [apply lookup_insert_eq|]. split; [done|]. by apply Hr.
  - rewrite lookup_alter_ne in Hi by done. destruct (Hs i rs Hi) as (d & p & H1 & H2 & H3). exists d, p. rewrite Hp, lookup_insert_ne by done. done.
Qed.

Lemma undo_then_log_runs s txn l recs R m id slot v clr undo p d : rolling s txn l recs R -> log_room (m + 1) (wal s) ->
  pages s !! id = Some d -> loaded id d p -> R !! id = Some (rows p) -> rec_ok clr -> small_kind clr ->
  (undo p = Some (Err NotEnoughSpace) \/ exists q, undo p = Some (Ok q) /\ page_ok q /\ rows q = <[N.to_nat slot := v]> (rows p) /\ page_id q = page_id p /\ page_type q = page_type p) ->
  undo_then_log txn id clr undo s = Some (Err NotEnoughSpace, s) \/
  exists lsn s', undo_then_log txn id clr undo s = Some (Ok tt, s') /\ rolling s' txn lsn (recs ++ [mkLogRecord lsn l txn clr]) (put_cell id slot v R) /\
    log_room m (wal s') /\ aside txn s s'.
Proof.
  intros Hro Hm Hd Hl Hr Hk Hsm Hu. unfold undo_then_log.
  rewrite (bind_run _ _ s d s) by (unfold fetch; rewrite (bind_run eget _ s s s) by done; unfold lift; by rewrite Hd).
  rewrite (ld_page _ _ _ Hl). rewrite (bind_run _ _ s p s) by done. destruct Hu as [Hu|(q & Hu & Q1 & Q2 & Q3 & Q4)]; rewrite Hu; [by left|right].
  rewrite (bind_run _ _ s q s) by done. rewrite (serialize_image q Q1). rewrite (bind_run _ _ s (image q) s) by done.
  destruct (chained_runs s txn l recs R clr m Hro Hm Hk Hsm) as (lsn & s' & Ha & Hro' & Hm' & Hp' & Has & Hlsn).
  rewrite (bind_run _ _ s lsn s' Ha). destruct (stored_loaded q lsn Q1) as [S1 S2]; [by rewrite Q4, (ld_type _ _ _ Hl)|done|].
  rewrite S1. rewrite (bind_run _ _ s' (image (set_lsn lsn q)) s') by done. rewrite Q3, (ld_id _ _ _ Hl) in S2.
  exists lsn. eexists. split; [reflexivity|]. split; [|split; [exact Hm'|]].
  - destruct Hro' as [L1 L2 L3 L4 L0 L5]. split; [exact L1|exact L2|exact L3|exact L4|exact L0|].
    eapply (shows_put s' _ R id (image (set_lsn lsn q)) _ slot v L5); [reflexivity|exact S2|]. intros rs E. rewrite Hr in E. injection E as <-.
    rewrite reloaded_rows by (by apply set_lsn_ok). exact Q2.
  - destruct Has as [A1 A2 A3 A4]. split; [exact A1|exact A2|exact A3|exact A4].
Qed.

(** A record as it is written: fields of their types, images that are rows. *)
Definition undoable (r : LogRecord) : Prop :=
  record_ok r /\ exists c, change_of (rec_kind r) = Some c /\ forall old, ch_before c = Some old -> old <> [] /\ blen old <= PAGE_SIZE.

Lemma undo_one_runs s txn l recs R m r c : rolling s txn l recs R -> log_room (m + 1) (wal s) -> undoable r -> change_of (rec_kind r) = Some c ->
  cell R (ch_page c) (ch_slot c) = Some (ch_after c) ->
  undo_one txn r s = Some (Err NotEnoughSpace, s) \/
  exists lsn s' redo, undo_one txn r s = Some (Ok tt, s') /\
    rolling s' txn lsn (recs ++ [mkLogRecord lsn l txn (RecClr (rec_lsn r) (prev_lsn r) redo)]) (take_back c R) /\ log_room m (wal s') /\ aside txn s s'.
Proof.
  intros Hro Hm [(U1 & U2 & U3 & U4) (c' & Hc' & Hb)] Hc Hcell. rewrite Hc in Hc'. injection Hc' as <-.
  unfold cell in Hcell. destruct (R !! ch_page c) as [rs|] eqn:ER; [|done]. cbn in Hcell.
  destruct (ro_shows _ _ _ _ _ Hro _ rs ER) as (d & p & Hd & Hl & <-). pose proof (ld_ok _ _ _ Hl) as Hok. pose proof (ld_tight _ _ _ Hl) as Htt.
  assert (N.to_nat (ch_slot c) < length (rows p))%nat as Hlt by (by eapply lookup_lt_Some).
  unfold undo_one. destruct (rec_kind r) as [| | | |dr pg sl tu|dr pg sl old|dr pg sl old new| | | |]; try done; injection Hc as <-; cbn [ch_page ch_slot ch_before ch_after] in *; unfold take_back; cbn [ch_page ch_slot ch_before].
  - destruct (undo_then_log_runs s txn l recs R m pg sl None (RecClr (rec_lsn r) (prev_lsn r) (RecHeapDelete dr pg sl [])) (fun page => undo_insert page sl) p d) as [E|(lsn & s' & E)]; try done.
    + cbn. cbn in U4. repeat (split; [done || apply U4|]). done.
    + apply small_clr. by apply small_heap_delete.
    + right. pose proof (delete_row p (N.to_nat sl) Hok) as Hdel. unfold undo_insert. destruct (HeapPage.delete p (N.to_nat sl)) as [q|e] eqn:E; [|lia].
      exists q. split; [done|]. split; [apply Hdel|]. split; [apply Hdel|by eapply delete_same].
    + by left.
    + right. by exists lsn, s', (RecHeapDelete dr pg sl []).
  - destruct (Hb old eq_refl) as [B1 B2].
    destruct (undo_then_log_runs s txn l recs R m pg sl (Some old) (RecClr (rec_lsn r) (prev_lsn r) (RecHeapInsert dr pg sl old)) (fun page => undo_delete page sl old) p d) as [E|(lsn & s' & E)]; try done.
    + apply small_clr. by apply small_heap_insert.
    + pose proof (restore_row p (N.to_nat sl) old Hok B1) as Hres. unfold undo_delete. destruct (restore_at p (N.to_nat sl) old) as [q|e] eqn:E.
      * right. exists q. split; [done|]. split; [apply Hres|]. split; [apply Hres|by eapply restore_same].
      * left. destruct e; try (by destruct Hres as [-> _]); try (by destruct Hres as [? _]). lia.
    + by left.
    + right. by exists lsn, s', (RecHeapInsert dr pg sl old).
  - destruct (Hb old eq_refl) as [B1 B2]. destruct (row_small p _ new Hok Hcell) as [N1 N2].
    destruct (undo_then_log_runs s txn l recs R m pg sl (Some old) (RecClr (rec_lsn r) (prev_lsn r) (RecHeapUpdate dr pg sl new old)) (fun page => undo_update page sl old) p d) as [E|(lsn & s' & E)]; try done.
    + cbn. cbn in U4. destruct U4 as (V1 & V2 & V3 & V4 & V5). repeat (split; [done|]). done.
    + apply small_clr. by apply small_heap_update.
    + pose proof (update_row p (N.to_nat sl) new old Hok Htt Hcell B1) as Hup. unfold undo_update. destruct (HeapPage.update p (N.to_nat sl) old) as [[q|e]|] eqn:E; [|left; by destruct Hup as [-> _]|done].
      right. exists q. split; [done|]. split; [apply Hup|]. split; [apply Hup|by eapply update_same].
    + by left.
    + right. by exists lsn, s', (RecHeapUpdate dr pg sl new old).
Qed.
(** * The loop *)

Definition changes (rs : list LogRecord) : list Change := omap (fun r => change_of (rec_kind r)) rs.

(** What is known before a rollback and after one that stopped: what the walk
    from the transaction's last record will meet, over rows it left. *)
Definition ready (s : Db T) (txn : N) (R : Rows) (rs : list LogRecord) (k : nat) : Prop :=
  exists recs l n, (n <= k)%nat /\ rolling s txn l recs R /\ todo recs n l rs /\ left_by (changes rs) R /\ Forall undoable rs.

Lemma ready_mono s txn R rs k k' : (k <= k')%nat -> ready s txn R rs k -> ready s txn R rs k'.
Proof. intros Hk (recs & l & n & H1 & H2). exists recs, l, n. split; [lia|done]. Qed.

Lemma read_known s txn l recs R r : rolling s txn l recs R -> r ∈ recs -> exists nxt, Wal.read_record (wal s) (rec_lsn r) = Some (Ok (r, nxt)).
Proof.
  intros Hro Hr. destruct (ro_logs _ _ _ _ _ Hro) as (rs1 & rs2 & Hl & <-). apply list_elem_of_fmap in Hr as ([r' fr] & -> & Hin).
  exists (rec_lsn r' + blen fr). by apply (read_logged (wal s) rs1 rs2 r' fr).
Qed.

Lemma todo_nonzero s txn l0 recs R n l rs : rolling s txn l0 recs R -> todo recs n l rs -> l <> 0.
Proof.
  intros Hro Ht. assert (exists r, r ∈ recs /\ rec_lsn r = l) as (r & Hr & <-) by (destruct Ht; eauto). pose proof (ro_base _ _ _ _ _ Hro).
  destruct (ro_logs _ _ _ _ _ Hro) as (rs1 & rs2 & [_ _ Hc _ _ _ _] & <-). pose proof (chain_below _ _ _ Hc Hr). lia.
Qed.

(** One turn of the loop. *)
Lemma undo_turn s txn l recs R r fuel : rolling s txn l recs R -> r ∈ recs ->
  undo_loop (S fuel) txn (rec_lsn r) s =
    (match rec_kind r with
     | RecBegin => mret tt
     | RecClr _ undo_next _ => if undo_next =? 0 then mret tt else undo_loop fuel txn undo_next
     | _ => _ ← undo_one txn r; if prev_lsn r =? 0 then mret tt else undo_loop fuel txn (prev_lsn r)
     end) s.
Proof.
  intros Hro Hr. destruct (read_known s txn l recs R r Hro Hr) as [nxt E]. cbn [undo_loop]. rewrite (bind_run eget _ s s s) by done.
  rewrite (bind_run _ _ s (r, nxt) s) by (unfold checked; by rewrite E). done.
Qed.

Lemma undo_turn_back s txn l recs R r fuel : rolling s txn l recs R -> r ∈ recs -> prev_lsn r <> 0 ->
  match rec_kind r with RecBegin | RecClr _ _ _ => False | _ => True end ->
  undo_loop (S fuel) txn (rec_lsn r) s = (_ ← undo_one txn r; undo_loop fuel txn (prev_lsn r)) s.
Proof. intros Hro Hr Hp Hk. rewrite (undo_turn s txn l recs R r fuel Hro Hr), (proj2 (N.eqb_neq _ _) Hp). by destruct (rec_kind r). Qed.

Lemma undo_loop_runs txn recs0 n l0 rs : todo recs0 n l0 rs -> forall s l recs R k m fuel,
  recs0 ⊆ recs -> rolling s txn l recs R -> todo recs k l rs -> left_by (changes rs) R -> Forall undoable rs -> (n <= k)%nat ->
  log_room (m + N.of_nat (length rs)) (wal s) -> (n <= fuel)%nat ->
  exists s' done rest, rs = done ++ rest /\ aside txn s s' /\
    ((undo_loop fuel txn l0 s = Some (Ok tt, s') /\ rest = [] /\ log_room m (wal s') /\ exists l' recs', rolling s' txn l' recs' (taken_back (changes rs) R)) \/
     (undo_loop fuel txn l0 s = Some (Err NotEnoughSpace, s') /\ rest <> [] /\ ready s' txn (taken_back (changes done) R) rest k)).
Proof.
  induction 1 as [r Hr Hk|r c n rs Hr Hk Hp Ht IH|r u nxt redo n rs Hr Hk Hp Ht IH|r n rs Hr Hk Hp Ht IH];
    intros s l recs R k m fuel Hsub Hro Htd Hlb Hun Hnk Hm Hf; (destruct fuel as [|fuel]; [lia|]).
  - rewrite (undo_turn s txn l recs R r fuel Hro (Hsub _ Hr)), Hk. exists s, [], []. split; [done|]. split; [apply aside_refl|]. left. split; [done|]. split; [done|].
    cbn [length] in Hm. replace (m + N.of_nat 0) with m in Hm by lia. split; [done|]. by exists l, recs.
  - rewrite (undo_turn_back s txn l recs R r fuel Hro (Hsub _ Hr) Hp) by (by destruct (rec_kind r)).
    apply Forall_cons in Hun as [Hur Hun]. unfold changes in Hlb. cbn [omap list_omap] in Hlb. rewrite Hk in Hlb. destruct Hlb as [Hcell Hlb]. fold (changes rs) in Hlb.
    assert (log_room (m + N.of_nat (length rs) + 1) (wal s)) as Hm1 by (cbn [length] in Hm; by replace (m + N.of_nat (S (length rs))) with (m + N.of_nat (length rs) + 1) in Hm by lia).
    destruct (undo_one_runs s txn l recs R _ r c Hro Hm1 Hur Hk Hcell) as [E|(lsn & s1 & redo & E & Hro1 & Hm' & Has)].
    + exists s, [], (r :: rs). split; [done|]. split; [apply aside_refl|]. right. split; [unfold mbind, eff_bind; by rewrite E|]. split; [done|].
      exists recs, l, k. split; [done|]. split; [done|]. split; [done|]. split; [|by constructor]. unfold changes. cbn [omap list_omap]. rewrite Hk. done.
    + rewrite (bind_run _ _ s tt s1 E). set (clr := mkLogRecord lsn l txn _) in Hro1.
      assert (todo (recs ++ [clr]) (S n) lsn rs) as Htd1.
      { apply (td_undone (recs ++ [clr]) clr (rec_lsn r) (prev_lsn r) redo); [apply elem_of_app; right; left|done|done|]. eapply todo_mono; [|exact Ht]. set_solver. }
      assert (recs0 ⊆ recs ++ [clr]) as Hsub1 by set_solver.
      destruct (IH s1 lsn (recs ++ [clr]) (take_back c R) (S n) m fuel Hsub1 Hro1 Htd1 Hlb Hun ltac:(lia) Hm' ltac:(lia)) as (s' & done' & rest & -> & Has' & Hcase).
      assert (changes (r :: done') = c :: changes done') as Ec by (unfold changes; cbn [omap list_omap]; by rewrite Hk).
      exists s', (r :: done'), rest. split; [done|]. split; [by eapply aside_trans|]. rewrite Ec. destruct Hcase as [(C1 & C2 & C3 & C4)|(C1 & C2 & C3)]; [left|right].
      * split; [done|]. split; [done|]. split; [done|]. destruct C4 as (l' & recs' & C4). exists l', recs'.
        assert (changes (r :: done' ++ rest) = c :: changes (done' ++ rest)) as -> by (unfold changes; cbn [omap list_omap]; by rewrite Hk). done.
      * split; [done|]. split; [done|]. by apply (ready_mono _ _ _ _ (S n)).
  - rewrite (undo_turn s txn l recs R r fuel Hro (Hsub _ Hr)), Hk, (proj2 (N.eqb_neq _ _) Hp). apply (IH s l recs R k m fuel); try done; lia.
  - assert (exists x, undo_one txn r s = Some (x, s) /\ x = Ok tt) as (x & E & ->) by (unfold undo_one; destruct Hk as [->|[run ->]]; eauto).
    rewrite (undo_turn_back s txn l recs R r fuel Hro (Hsub _ Hr) Hp) by (by destruct Hk as [->|[run ->]]).
    rewrite (bind_run _ _ s tt s E). apply (IH s l recs R k m fuel); try done; lia.
Qed.
(** C11: a rollback puts every row back, or stops where it can go on. When the
    rows are those the transaction left, [abort] with fuel for its walk returns
    without a panic. Either it succeeds: the transaction is gone from the table
    and no other entry changed, every cell the transaction changed is back at
    its image before the oldest of the changes and every other cell is as it
    was; or a page has no room for an image: the transaction is still there,
    rolling back, exactly the changes newer than the refused one are undone, and
    the state is again one from which [abort] goes on, with the refused record
    first. In both cases the primary-index writes were undone newest first. *)
Theorem abort_restores_rows (s : Db T) (txn : N) (R : Rows) (rs : list LogRecord) (k fuel : nat) :
  ready s txn R rs k -> log_room (N.of_nat (length rs) + 2) (wal s) -> (k < fuel)%nat ->
  exists s', index s' = (undo_primary_writes (rev (default [] (index_undo s !! txn))) (index s)).2 /\
    (forall t, t <> txn -> att s' !! t = att s !! t) /\
    ((abort fuel txn s = Some (Ok tt, s') /\ att s' !! txn = None /\
      exists R', shows s' R' /\ dom R' = dom R /\
        (forall page slot, Forall (fun c => ~ on_cell page slot c) (changes rs) -> cell R' page slot = cell R page slot) /\
        (forall newer c older, changes rs = newer ++ c :: older -> Forall (fun x => ~ on_cell (ch_page c) (ch_slot c) x) older ->
           cell R' (ch_page c) (ch_slot c) = Some (ch_before c))) \/
     (abort fuel txn s = Some (Err NotEnoughSpace, s') /\ is_aborting txn s' = true /\
      exists undone rest, rs = undone ++ rest /\ rest <> [] /\ ready s' txn (taken_back (changes undone) R) rest (S k))).
Proof.
  intros (recs & l & n & Hn & Hro & Htd & Hlb & Hun) Hm Hf.
  assert (log_room (N.of_nat (length rs) + 1 + 1) (wal s)) as Hm1 by (by replace (N.of_nat (length rs) + 1 + 1) with (N.of_nat (length rs) + 2) by lia).
  destruct (chained_runs s txn l recs R RecAbort _ Hro Hm1 I small_abort) as (lsn & s1 & Ea & Hro1 & Hm2 & Hp1 & Has1 & _).
  destruct (ro_entry _ _ _ _ _ Hro1) as (e1 & He1 & Hl1).
  set (writes := default [] (index_undo s1 !! txn)). destruct (undo_primary_writes (rev writes) (index s1)) as [res t] eqn:Eu.
  set (s2 := s1 <| att := <[txn := set_status Aborting e1]> (att s1) |>).
  set (s3 := s2 <| index_undo := base.delete txn (index_undo s2) |> <| index := t |>
    <| index_undo_failures := match res with Ok _ => index_undo_failures s2 | Err _ => wadd64 (index_undo_failures s2) 1 end |>).
  assert (abort fuel txn s = (_ ← undo_loop fuel txn lsn; _ ← append_chained txn RecTxnEnd;
    eset (fun s => s <| att := base.delete txn (att s) |> <| run_bindings := base.delete txn (run_bindings s) |>)) s3) as Eab.
  { unfold abort. rewrite (bind_run _ _ s lsn s1 Ea), (bind_run eget _ s1 s1 s1) by done. rewrite (bind_run _ _ s1 e1 s1) by (by rewrite He1).
    rewrite (bind_run _ _ s1 tt s2) by done. rewrite (bind_run eget _ s2 s2 s2) by done. cbv zeta. change (default [] (index_undo s2 !! txn)) with writes.
    change (index s2) with (index s1). rewrite Eu. rewrite (bind_run _ _ s2 tt s3) by done. rewrite (bind_run eget _ s3 s3 s3) by done.
    rewrite (bind_run _ _ s3 (set_status Aborting e1) s3).
    - change (last_lsn (set_status Aborting e1)) with (last_lsn e1). by rewrite Hl1.
    - unfold at_index. change (att s3) with (<[txn := set_status Aborting e1]> (att s1)). by rewrite lookup_insert_eq. }
  assert (rolling s3 txn lsn (recs ++ [mkLogRecord lsn l txn RecAbort]) R) as Hro3.
  { destruct Hro1 as [L1 L2 L3 L4 L0 L5]. split; [exact L1|exact L2| |exact L4|exact L0|exact L5].
    exists (set_status Aborting e1). split; [apply lookup_insert_eq|exact Hl1]. }
  set (ab := mkLogRecord lsn l txn RecAbort) in *. assert (todo (recs ++ [ab]) (S n) lsn rs) as Htd3.
  { apply (td_other (recs ++ [ab]) ab); [apply elem_of_app; right; left|by left| |eapply todo_mono; [|exact Htd]; set_solver].
    exact (todo_nonzero s txn l recs R n l rs Hro Htd). }
  assert (log_room (1 + N.of_nat (length rs)) (wal s3)) as Hm3 by (change (wal s3) with (wal s1); by replace (1 + N.of_nat (length rs)) with (N.of_nat (length rs) + 1) by lia).
  destruct (undo_loop_runs txn _ (S n) lsn rs Htd3 s3 lsn _ R (S n) 1 fuel (reflexivity _) Hro3 Htd3 Hlb Hun (le_n _) Hm3 ltac:(lia))
    as (s4 & undone & rest & Ers & Has & [(El & -> & Hm4 & l4 & recs4 & Hro4)|(El & Hre & Hrd)]).
  - destruct (chained_runs s4 txn l4 recs4 _ RecTxnEnd 0 Hro4 Hm4 I small_end) as (lsn5 & s5 & E5 & Hro5 & _ & _ & Has5 & _).
    set (s6 := s5 <| att := base.delete txn (att s5) |> <| run_bindings := base.delete txn (run_bindings s5) |>).
    destruct (aside_trans _ _ _ _ Has Has5) as [A1 A2 A3 _]. exists s6. split; [|split].
    + change (index s6) with (index s5). rewrite A1. change (index s3) with t. destruct Has1 as [B1 B2 _ _]. unfold writes in Eu. rewrite B1, B2 in Eu. by rewrite Eu.
    + intros x Hx. change (att s6) with (base.delete txn (att s5)). rewrite lookup_delete_ne, A3 by done.
      change (att s3) with (<[txn := set_status Aborting e1]> (att s1)). rewrite lookup_insert_ne by done. by apply Has1.
    + left. split; [rewrite Eab, (bind_run _ _ s3 tt s4 El), (bind_run _ _ s4 lsn5 s5 E5); reflexivity|]. split; [apply lookup_delete_eq|].
      exists (taken_back (changes rs) R). split; [exact (ro_shows _ _ _ _ _ Hro5)|]. split; [apply taken_back_dom|]. split; [intros page slot; apply taken_back_untouched|].
      intros newer c older E. rewrite E in *. by apply taken_back_oldest.
  - destruct Has as [A1 A2 A3 A4]. exists s4. split; [|split].
    + rewrite A1. change (index s3) with t. destruct Has1 as [B1 B2 _ _]. unfold writes in Eu. rewrite B1, B2 in Eu. by rewrite Eu.
    + intros x Hx. rewrite A3 by done. change (att s3) with (<[txn := set_status Aborting e1]> (att s1)). rewrite lookup_insert_ne by done. by apply Has1.
    + right. split; [rewrite Eab; unfold mbind, eff_bind; by rewrite El|]. split.
      * rewrite A4. unfold is_aborting. change (att s3) with (<[txn := set_status Aborting e1]> (att s1)). by rewrite lookup_insert_eq.
      * exists undone, rest. split; [done|]. split; [done|]. by apply (ready_mono _ _ _ _ (S n)); [lia|].
Qed.
End Rollback.

(** * A row changed twice and given up *)

Definition run_updated : Db unit := after (update_page heap5 (5, 0) row_b) run2.
Definition updated_log : list WalOp :=
  [DoAppend 1 0 RecBegin; DoAppend 1 1 (RecHeapInsert 2 5 0 row_a); DoAppend 1 34 (RecHeapUpdate 2 5 0 row_a row_b)].
Definition updated_records : list LogRecord := (wal_run fresh_log [] 0 updated_log).1.2.
Definition updated_rows : Rows := {[5 := [Some row_b]]}.
Definition updated_changes : list LogRecord :=
  [mkLogRecord 111 34 1 (RecHeapUpdate 2 5 0 row_a row_b); mkLogRecord 34 1 1 (RecHeapInsert 2 5 0 row_a)].

Lemma updated_steps : rtc (step five) quiet_db run_updated.
Proof.
  assert (step five quiet_db run1) as S1.
  { destruct (after_run begin quiet_db) as [r Hr]; [by vm_compute|]. split; [by eapply sec_begin|]. apply typed_bool_ok. by vm_compute. }
  assert (step five run1 run2) as S2.
  { destruct (after_run (insert_page heap5 5 row_a) run1) as [r Hr]; [by vm_compute|]. split; [by eapply (sec_insert five run1 run2 heap5 5 row_a r)|]. apply typed_bool_ok. by vm_compute. }
  assert (step five run2 run_updated) as S3.
  { destruct (after_run (update_page heap5 (5, 0) row_b) run2) as [r Hr]; [by vm_compute|]. split; [by eapply (sec_update five run2 run_updated heap5 (5, 0) row_b r)|]. apply typed_bool_ok. by vm_compute. }
  exact (rtc_l _ _ _ _ S1 (rtc_l _ _ _ _ S2 (rtc_once _ _ S3))).
Qed.

Lemma updated_ready : ready run_updated 1 updated_rows updated_changes 3.
Proof.
  exists updated_records, 111, 3%nat. split; [done|]. split; [split|split; [|split]].
  - assert (fits fresh_log updated_log) as Hf by (vm_compute; repeat split; discriminate).
    pose proof (wal_run_logs updated_log fresh_log [] 0 [] [] fresh_logs eq_refl eq_refl Hf) as Hl.
    unfold updated_records. destruct (wal_run fresh_log [] 0 updated_log) as [[w recs] d] eqn:E. destruct Hl as (rs1 & rs2 & L1 & L2 & _).
    exists rs1, rs2. split; [|exact L2]. assert (wal run_updated = (wal_run fresh_log [] 0 updated_log).1.1) as Ew by (by vm_compute). rewrite Ew, E. exact L1.
  - done.
  - eexists. split; [by vm_compute|reflexivity].
  - done.
  - by vm_compute.
  - intros id rs Hid. unfold updated_rows in Hid. apply lookup_singleton_Some in Hid as [<- <-]. destruct (history_from five quiet_db quiet_db run_updated [] [] (history_start five quiet_db quiet_checkpointed) updated_steps) as (rs1 & rs2 & Hh & _).
    destruct (history_loaded five _ _ _ _ 5 Hh eq_refl) as (d & p & Hd & Hl & _). exists d, p. split; [done|]. split; [done|].
    assert (option_map rows (d ← pages run_updated !! 5; HeapPage.deserialize d) = Some [Some row_b]) as Er by (by vm_compute).
    rewrite Hd in Er. cbn [mbind option_bind] in Er. rewrite (ld_page _ _ _ Hl) in Er. by injection Er.
  - unfold updated_changes. apply (td_change _ (mkLogRecord 111 34 1 (RecHeapUpdate 2 5 0 row_a row_b)) (mkChange 5 0 (Some row_a) (Some row_b)) 2); [by apply (list_elem_of_lookup_2 _ 2); vm_compute|reflexivity|done|].
    apply (td_change _ (mkLogRecord 34 1 1 (RecHeapInsert 2 5 0 row_a)) (mkChange 5 0 None (Some row_a)) 1); [by apply (list_elem_of_lookup_2 _ 1); vm_compute|reflexivity|done|].
    apply (td_begin _ (mkLogRecord 1 0 1 RecBegin)); [by apply (list_elem_of_lookup_2 _ 0); vm_compute|done].
  - split; [reflexivity|]. split; [reflexivity|done].
  - repeat constructor; try done; (eexists; split; [reflexivity|]; intros old E; cbn in E; simplify_eq; by split).
Qed.

(** Rolling the transaction back frees the slot. *)
Lemma abort_restores_rows_witness :
  ready run_updated 1 updated_rows updated_changes 3 /\ log_room 4 (wal run_updated) /\
  exists s', abort 4 1 run_updated = Some (Ok tt, s') /\ att s' !! 1 = None /\ exists R', shows s' R' /\ cell R' 5 0 = Some None.
Proof.
  assert (log_room 4 (wal run_updated)) as Hroom by (split; apply N.leb_le; by vm_compute). split; [exact updated_ready|]. split; [exact Hroom|].
  destruct (abort_restores_rows run_updated 1 updated_rows updated_changes 3 4 updated_ready Hroom ltac:(lia)) as (s' & _ & _ & [(E & Ha & R' & H1 & _ & _ & H2)|(E & _)]).
  - exists s'. split; [exact E|]. split; [exact Ha|]. exists R'. split; [exact H1|].
    apply (H2 [mkChange 5 0 (Some row_a) (Some row_b)] (mkChange 5 0 None (Some row_a)) [] eq_refl). constructor.
  - exfalso. assert (option_map (fun x => match x.1 with Ok _ => true | Err _ => false end) (abort 4 1 run_updated) = Some true) as Eo by (by vm_compute).
    rewrite E in Eo. done.
Defined.
