(* ===== verification/HeapFileProps.v ===== *)
(** Heap files keep their rows: an insertion through the directory chain puts
    one row into one page, where it is read back, and leaves every other row of
    the file as it was ([src/src/storage/heap_file_manager.rs] over
    [page_directory.rs], [heap_page.rs] and the log). *)
From S2P Require Import Prelude Bytes Errors Eff WalRecord Tuple HeapPage HeapPageProps Wal WalProps Grants Visibility TxnManager PageDirectory HeapFile.
From S2P Require Import Recovery RecoveryProps.

#[local] Open Scope N_scope.

(** * The chain of directories *)

Definition dir_at (ps : gmap N (list byte)) (id : N) (d : PageDirectory) : Prop := ps !! id = Some (dir_image d) /\ dir_ok d.

Inductive linked (ps : gmap N (list byte)) : N -> list (N * PageDirectory) -> Prop :=
| linked_last id d : dir_at ps id d -> next_page_directory d = 0 -> linked ps id [(id, d)]
| linked_more id d ds : dir_at ps id d -> next_page_directory d <> 0 -> linked ps (next_page_directory d) ds -> linked ps id ((id, d) :: ds).

(** The entries of a chain, and the data pages it lists. *)
Definition all (ds : list (N * PageDirectory)) : list PageDirectoryEntry := concat ((fun d => entries d.2) <$> ds).
Abbreviation listed ds := (de_page <$> all ds).

Lemma all_cons id d ds : all ((id, d) :: ds) = entries d ++ all ds.
Proof. done. Qed.

Lemma linked_store ps i b id ds : linked ps id ds -> i ∉ ds.*1 -> linked (<[i := b]> ps) id ds.
Proof.
  induction 1 as [id d [Hd Ho] Hn|id d ds [Hd Ho] Hn Hl IH]; cbn; rewrite not_elem_of_cons; intros [Hne Hni].
  - apply linked_last; [|done]. split; [|done]. by rewrite lookup_insert_ne.
  - apply linked_more; [|done|by apply IH]. split; [|done]. by rewrite lookup_insert_ne.
Qed.

Lemma linked_in ps id ds : linked ps id ds -> forall i, i ∈ ds.*1 -> is_Some (ps !! i).
Proof. induction 1 as [id d [Hd _] _|id d ds [Hd _] _ _ IH]; intros i; cbn; rewrite elem_of_cons; [intros [->|?%not_elem_of_nil]; eauto; done|intros [->|?]; eauto]. Qed.

Lemma linked_size ps id ds : linked ps id ds -> NoDup ds.*1 -> (length ds <= size ps)%nat.
Proof.
  intros Hl Hn. rewrite <- (length_fmap fst), <- (size_list_to_set (C:=gset N) ds.*1 Hn), <- size_dom. apply subseteq_size.
  intros i Hi%elem_of_list_to_set. apply elem_of_dom. by eapply linked_in.
Qed.

Section Files.
Context {T : Type} `{!Index T}.
Implicit Types s : Db T.

(** A frame written: what [store] leaves. *)
Definition shown (id : N) (b : list byte) s : Db T := s <| pages := <[id := b]> (pages s) |> <| dirty := {[id]} ∪ dirty s |>.

Lemma load_dir_run id d s : dir_at (pages s) id d -> load_dir id s = Some (Ok d, s).
Proof. intros [Hd Ho]. unfold load_dir, fetch, mbind, eff_bind, eget, lift, at_index. rewrite Hd. cbn [ok_or]. by rewrite deserialize_dir. Qed.

Lemma store_dir_run id d s : dir_ok d -> store_dir id d s = Some (Ok tt, shown id (dir_image d) s).
Proof. intros Ho. unfold store_dir, mbind, eff_bind, at_index. by rewrite serialize_dir. Qed.

Lemma chain_fuel_run s : chain_fuel s = Some (Ok (S (size (pages s))), s).
Proof. done. Qed.

(** ** Looking for room *)

Lemma find_page_listed d needed p : PageDirectory.find_page_with_space d needed = Some p -> exists e, e ∈ entries d /\ de_page e = p /\ needed <= free_space e.
Proof.
  unfold PageDirectory.find_page_with_space. destruct (List.find _ _) as [e|] eqn:E; [|done]. cbn. intros [= <-].
  apply List.find_some in E as [Hin Hn]. exists e. split; [by apply list_elem_of_In|]. split; [done|]. by apply N.leb_le.
Qed.

Lemma find_loop_run s id ds needed : linked (pages s) id ds -> forall fuel, (length ds <= fuel)%nat ->
  exists o, find_loop fuel id needed s = Some (Ok o, s) /\ forall p, o = Some p -> exists e, e ∈ all ds /\ de_page e = p /\ needed <= free_space e.
Proof.
  induction 1 as [id d Hd Hn|id d ds Hd Hn Hl IH]; intros fuel Hf; (destruct fuel as [|fuel]; [cbn in Hf; lia|]); cbn [find_loop];
    rewrite (bind_run _ _ s d s (load_dir_run id d s Hd)); destruct (PageDirectory.find_page_with_space d needed) as [p|] eqn:Ef.
  1,3: exists (Some p); split; [done|]; intros q [= <-]; destruct (find_page_listed _ _ _ Ef) as (e & He & Hq); exists e; split; [rewrite all_cons; apply elem_of_app; by left|done].
  - rewrite Hn. by exists None.
  - rewrite (proj2 (N.eqb_neq _ _) Hn). destruct (IH fuel ltac:(cbn in Hf; lia)) as (o & Eo & Ho). exists o. split; [done|].
    intros p Hp. destruct (Ho p Hp) as (e & He & Hq). exists e. split; [rewrite all_cons; apply elem_of_app; by right|done].
Qed.

(** ** Noting the room of a page *)

Lemma update_first_spec p f es : p ∈ de_page <$> es -> exists pre e post, es = pre ++ e :: post /\ de_page e = p /\ update_first p f es = Some (pre ++ mkDirEntry p f :: post).
Proof.
  induction es as [|e es IH]; cbn [fmap list_fmap]; [intros H%not_elem_of_nil; done|]. intros Hin. cbn [update_first]. destruct (N.eqb_spec (de_page e) p) as [Ee|Ee].
  - exists [], e, es. subst p. done.
  - apply elem_of_cons in Hin as [->|Hin]; [done|]. destruct (IH Hin) as (pre & x & post & -> & E1 & ->). by exists (e :: pre), x, post.
Qed.

Lemma update_first_none p f es : p ∉ de_page <$> es -> update_first p f es = None.
Proof.
  induction es as [|e es IH]; [done|]. cbn [fmap list_fmap update_first]. rewrite not_elem_of_cons. intros [Hne Hin].
  rewrite (proj2 (N.eqb_neq _ _)) by done. by rewrite IH.
Qed.

(** The entries of a chain with the one of page [p] set to [f]. *)
Definition noted (p f : N) (es es' : list PageDirectoryEntry) : Prop :=
  exists pre e post, es = pre ++ e :: post /\ de_page e = p /\ es' = pre ++ mkDirEntry p f :: post.

Lemma noted_front es p f es1 es2 : noted p f es1 es2 -> noted p f (es ++ es1) (es ++ es2).
Proof. intros (pre & e & post & -> & E & ->). exists (es ++ pre), e, post. by rewrite <- !app_assoc. Qed.
Lemma noted_back es p f es1 es2 : noted p f es1 es2 -> noted p f (es1 ++ es) (es2 ++ es).
Proof. intros (pre & e & post & -> & E & ->). exists pre, e, (post ++ es). by rewrite <- !app_assoc. Qed.
Lemma noted_listed p f es es' : noted p f es es' -> de_page <$> es' = de_page <$> es.
Proof. intros (pre & e & post & -> & <- & ->). by rewrite !fmap_app. Qed.

Lemma noted_dir d p f es : dir_ok d -> f <= max_u16 -> noted p f (entries d) es -> dir_ok (mkDir (dir_id d) (next_page_directory d) (num_entries d) es).
Proof.
  intros [D1 D2 D3 D4 D5] Hf (pre & e & post & E & Ep & ->). assert (blen (pre ++ mkDirEntry p f :: post) = blen (entries d)) as El.
  { unfold blen. by rewrite E, !length_app. }
  split; cbn [dir_id next_page_directory num_entries entries]; [done|done|by rewrite El|by rewrite El|].
  rewrite E in D5. apply Forall_app in D5 as [F1 F2]. apply Forall_cons in F2 as [[F2 _] F3]. apply Forall_app. split; [done|]. constructor; [|done]. subst p. done.
Qed.

Lemma update_loop_run s id ds p f : f <= max_u16 -> linked (pages s) id ds -> NoDup ds.*1 -> p ∈ listed ds -> forall fuel, (length ds <= fuel)%nat ->
  exists i b ds', update_loop fuel id p f s = Some (Ok tt, shown i b s) /\ i ∈ ds.*1 /\ linked (<[i := b]> (pages s)) id ds' /\ ds'.*1 = ds.*1 /\ noted p f (all ds) (all ds').
Proof.
  intros Hf Hl. induction Hl as [id d Hd Hn|id d ds Hd Hn Hl IH]; intros Hnd Hp fuel Hfu; (destruct fuel as [|fuel]; [cbn in Hfu; lia|]);
    cbn [update_loop]; rewrite (bind_run _ _ s d s (load_dir_run id d s Hd)); unfold update_entry; rewrite all_cons, fmap_app in Hp;
    (destruct (decide (p ∈ de_page <$> entries d)) as [Hin|Hni];
      [destruct (update_first_spec p f (entries d) Hin) as (pre & e & post & E1 & E2 & ->); destruct Hd as [Hd Hdo];
       set (es := pre ++ mkDirEntry p f :: post); assert (noted p f (entries d) es) as Hno by (by exists pre, e, post);
       set (d' := mkDir (dir_id d) (next_page_directory d) (num_entries d) es); pose proof (noted_dir d p f es Hdo Hf Hno : dir_ok d') as Hok;
       rewrite (store_dir_run id d' s Hok); exists id, (dir_image d')|]).
  - exists [(id, d')]. split; [done|]. split; [left|]. split; [apply linked_last; [|done]; split; [apply lookup_insert_eq|done]|]. split; [done|].
    rewrite !all_cons. by apply noted_back.
  - exfalso. apply elem_of_app in Hp as [Hp|Hp%not_elem_of_nil]; done.
  - exists ((id, d') :: ds). split; [done|]. split; [left|]. split; [|split; [done|]; rewrite !all_cons; by apply noted_back]. cbn in Hnd. apply NoDup_cons in Hnd as [Hnd _].
    apply linked_more; [split; [apply lookup_insert_eq|done]|done|]. by apply linked_store.
  - rewrite update_first_none by done. rewrite (proj2 (N.eqb_neq _ _) Hn). apply elem_of_app in Hp as [Hp|Hp]; [done|]. cbn in Hnd. apply NoDup_cons in Hnd as [Hnid Hnd].
    destruct (IH Hnd Hp fuel ltac:(cbn in Hfu; lia)) as (i & b & ds' & Eu & Hi & Hl' & I1 & I2). exists i, b, ((id, d) :: ds').
    split; [done|]. split; [by right|]. split; [|split; [cbn; by rewrite I1|rewrite !all_cons; by apply noted_front]].
    apply linked_more; [|done|done]. destruct Hd as [Hd Ho]. split; [|done]. rewrite lookup_insert_ne; [done|]. intros ->. done.
Qed.

(** ** Taking a page *)

Definition quiet s s' : Prop := wal s' = wal s /\ att s' = att s.
Lemma quiet_trans s1 s2 s3 : quiet s1 s2 -> quiet s2 s3 -> quiet s1 s3.
Proof. intros [A1 A2] [B1 B2]. split; congruence. Qed.

(** The pages the allocator will hand out are new, and each is handed out once. *)
Definition allotted s : list N := omap (fun o : option N => o) (fresh_pages s).
Definition fresh_ok s : Prop := NoDup (allotted s) /\ forall i, i ∈ allotted s -> i <> 0 /\ i <= max_u32 /\ pages s !! i = None.

Lemma fresh_same s s' : fresh_ok s -> fresh_pages s' = fresh_pages s -> (forall i, pages s !! i = None -> pages s' !! i = None) -> fresh_ok s'.
Proof. intros [H1 H2] E Hp. unfold fresh_ok, allotted in *. rewrite E. split; [done|]. intros i Hi. destruct (H2 i Hi) as (A & B & C). auto. Qed.

Lemma fresh_shown s i b : fresh_ok s -> is_Some (pages s !! i) -> fresh_ok (shown i b s).
Proof.
  intros H [x Hi]. apply (fresh_same s); [done|done|]. intros j Hj. change (pages (shown i b s)) with (<[i := b]> (pages s)).
  rewrite lookup_insert_ne; [done|]. intros ->. congruence.
Qed.

Lemma new_page_run s : fresh_ok s ->
  (exists s', new_page s = Some (Err (Io DiskRefused), s') /\ quiet s s' /\ fresh_ok s' /\ pages s' = pages s) \/
  (exists id s' b, new_page s = Some (Ok id, s') /\ quiet s s' /\ fresh_ok s' /\ pages s !! id = None /\ id <> 0 /\ id <= max_u32 /\ pages s' = <[id := b]> (pages s)
    /\ forall j, j ∈ allotted s' -> j <> id).
Proof.
  intros [Hn Hf]. unfold new_page. rewrite (bind_run eget _ s s s) by done. set (s1 := s <| fresh_pages := tail (fresh_pages s) |>).
  rewrite (bind_run _ _ s tt s1) by done. assert (allotted s1 = omap (fun o : option N => o) (tail (fresh_pages s))) as Ea by done.
  unfold fresh_ok, allotted in Hn, Hf. destruct (fresh_pages s) as [|[id|] fs] eqn:Efs; cbn [head].
  - left. exists s1. split; [done|]. split; [done|]. split; [|done]. split; rewrite Ea; [constructor|]. intros i Hi%not_elem_of_nil. done.
  - cbn [omap list_omap] in Hn, Hf. apply NoDup_cons in Hn as [Hni Hn]. destruct (Hf id ltac:(left)) as (I1 & I2 & I3).
    assert (fresh_ok s1) as Hf1 by (split; rewrite Ea; [done|]; intros i Hi; by apply Hf; right).
    unfold disk_write, mbind, eff_bind, eget, eset. destruct (default true (head (page_writes s1))).
    + right. eexists id, _, _. split; [reflexivity|]. split; [done|]. split; [|split; [done|]; split; [done|]; split; [done|]; split; [reflexivity|]].
      * split; [exact Hn|]. intros i Hi. destruct (Hf i ltac:(by right)) as (J1 & J2 & J3). split; [done|]. split; [done|].
        cbn. rewrite lookup_insert_ne; [done|]. intros <-. done.
      * intros j Hj ->. by apply Hni.
    + left. eexists. split; [reflexivity|]. split; [done|]. split; [|done]. by apply (fresh_same s1).
  - left. exists s1. split; [done|]. split; [done|]. split; [|done]. cbn [omap list_omap] in Hn, Hf. by split.
Qed.

(** ** Listing a page *)

Lemma add_entry_ok d np f : dir_ok d -> np <= max_u32 -> f <= max_u16 ->
  add_entry d np f = Err NotEnoughSpace \/
  exists d', add_entry d np f = Ok d' /\ dir_ok d' /\ next_page_directory d' = next_page_directory d /\ entries d' = entries d ++ [mkDirEntry np f].
Proof.
  intros [D1 D2 D3 D4 D5] Hn Hf. unfold add_entry. destruct (N.leb_spec (PageDirectory.HEADER_SIZE + (blen (entries d) + 1) * ENTRY_SIZE) PAGE_SIZE) as [H|H]; [right|by left].
  eexists. split; [done|]. split; [|done]. unfold PageDirectory.HEADER_SIZE, ENTRY_SIZE, PAGE_SIZE, blen in *. split; cbn; [done|done| | |].
  - rewrite to_u16_small by lia. unfold blen. rewrite length_app. cbn. lia.
  - unfold blen. rewrite length_app. cbn. unfold PageDirectory.HEADER_SIZE, ENTRY_SIZE, PAGE_SIZE. lia.
  - apply Forall_app. split; [done|]. constructor; [by split|constructor].
Qed.

(** What a chain with one page more looks like. *)
Definition grown s s' (id np f : N) (ds ds' : list (N * PageDirectory)) : Prop :=
  linked (pages s') id ds' /\ NoDup ds'.*1 /\ all ds' ≡ₚ mkDirEntry np f :: all ds /\
  (forall i, i ∈ ds'.*1 -> i ∈ ds.*1 \/ pages s !! i = None) /\ (forall i, i ∉ ds'.*1 -> pages s' !! i = pages s !! i).

Lemma add_here s id d np f d' ds : add_entry d np f = Ok d' -> dir_ok d' -> next_page_directory d' = next_page_directory d -> entries d' = entries d ++ [mkDirEntry np f] ->
  NoDup (id :: ds.*1) -> (next_page_directory d = 0 /\ ds = [] \/ next_page_directory d <> 0 /\ linked (pages s) (next_page_directory d) ds) ->
  grown s (shown id (dir_image d') s) id np f ((id, d) :: ds) ((id, d') :: ds).
Proof.
  intros _ Hok Hn He Hnd Hds. split.
  { destruct Hds as [[H0 ->]|[H0 Hl]]; [apply linked_last|apply linked_more]; try (rewrite Hn; done); try (split; [apply lookup_insert_eq|done]).
    rewrite Hn. apply linked_store; [done|]. by apply NoDup_cons in Hnd as [? _]. }
  split; [done|]. split.
  { rewrite !all_cons, He, <- app_assoc. cbn. symmetry. apply Permutation_middle. }
  split; [intros i Hi; by left|]. intros i Hi. cbn in Hi. apply not_elem_of_cons in Hi as [Hi _].
  change (pages (shown id (dir_image d') s)) with (<[id := dir_image d']> (pages s)). by rewrite lookup_insert_ne.
Qed.

Lemma add_behind s s1 s' id d nd np f b d2 : dir_ok d -> next_page_directory d = 0 -> nd <> 0 -> nd <= max_u32 -> pages s !! nd = None -> is_Some (pages s !! id) ->
  pages s1 = <[nd := b]> (pages s) -> dir_ok d2 -> next_page_directory d2 = 0 -> entries d2 = [mkDirEntry np f] ->
  s' = shown nd (dir_image d2) (shown id (dir_image (mkDir (dir_id d) nd (num_entries d) (entries d))) s1) ->
  grown s s' id np f [(id, d)] [(id, mkDir (dir_id d) nd (num_entries d) (entries d)); (nd, d2)].
Proof.
  intros [D1 D2 D3 D4 D5] H0 Hnz Hnm Hnew [x Hid] Hp1 Hok2 Hn2 He2 Es'. set (d1 := mkDir _ _ _ _) in *.
  assert (pages s' = <[nd := dir_image d2]> (<[id := dir_image d1]> (<[nd := b]> (pages s)))) as Hp by (rewrite Es', <- Hp1; done). clear Es'.
  assert (id <> nd) as Hne by congruence. assert (dir_ok d1) as Hok1 by (by split). split.
  { rewrite Hp. apply linked_more; [split; [|done]|done|].
    - rewrite lookup_insert_ne by done. apply lookup_insert_eq.
    - apply linked_last; [split; [apply lookup_insert_eq|done]|done]. }
  split; [cbn; apply NoDup_cons; split; [by rewrite list_elem_of_singleton|apply NoDup_singleton]|]. split.
  { rewrite !all_cons, He2. change (entries d1) with (entries d). cbn. symmetry. apply Permutation_middle. }
  split.
  { intros i Hi. cbn in Hi. apply elem_of_cons in Hi as [->|Hi]; [left; left|]. apply list_elem_of_singleton in Hi as ->. by right. }
  intros i Hi. cbn in Hi. apply not_elem_of_cons in Hi as [Hi1 Hi]. apply not_elem_of_cons in Hi as [Hi2 _]. rewrite Hp, !lookup_insert_ne by done. done.
Qed.

Lemma add_loop_run s id ds np f : np <= max_u32 -> f <= max_u16 -> fresh_ok s -> linked (pages s) id ds -> NoDup ds.*1 -> forall fuel, (length ds <= fuel)%nat ->
  exists r s', add_loop fuel id np f s = Some (r, s') /\ quiet s s' /\ fresh_ok s' /\
    match r with Ok _ => exists ds', grown s s' id np f ds ds' | Err _ => pages s' = pages s end.
Proof.
  intros Hnp Hf Hfr Hl. induction Hl as [id d Hd Hn|id d ds Hd Hn Hl IH]; intros Hnd fuel Hfu; (destruct fuel as [|fuel]; [cbn in Hfu; lia|]);
    cbn [add_loop]; rewrite (bind_run _ _ s d s (load_dir_run id d s Hd));
    assert (is_Some (pages s !! id)) as Hsome by (destruct Hd; eauto);
    (destruct (add_entry_ok d np f (proj2 Hd) Hnp Hf) as [E|(d' & E & Hok & En & Ee)]; rewrite E;
      [|rewrite (store_dir_run id d' s Hok); eexists _, _; split; [done|]; split; [done|]; split; [by apply fresh_shown|]; eexists; by eapply add_here; eauto]).
  - rewrite Hn. cbn [N.eqb]. destruct (new_page_run s Hfr) as [(s1 & E1 & Q1 & F1 & P1)|(nd & s1 & b & E1 & Q1 & F1 & Hnew & Hnz & Hnm & P1 & _)].
    + exists (Err (Io DiskRefused)), s1. unfold mbind, eff_bind. by rewrite E1.
    + rewrite (bind_run _ _ s nd s1 E1). destruct (proj2 Hd) as [D1 D2 D3 D4 D5].
      set (d1 := mkDir (dir_id d) nd (num_entries d) (entries d)). assert (dir_ok d1) as Hok1 by (by split).
      rewrite (bind_run _ _ s1 tt _ (store_dir_run id d1 s1 Hok1)). set (s2 := shown id (dir_image d1) s1).
      assert (dir_ok (PageDirectory.new nd)) as Hoke by (by split; [| | | |constructor]).
      destruct (add_entry_ok (PageDirectory.new nd) np f Hoke Hnp Hf) as [E2|(d2 & E2 & Hok2 & En2 & Ee2)]; [done|]. rewrite E2.
      rewrite (bind_run _ _ s2 d2 s2) by done. rewrite (store_dir_run nd d2 s2 Hok2). eexists _, _. split; [done|].
      split; [exact Q1|]. assert (pages s2 = <[id := dir_image d1]> (<[nd := b]> (pages s))) as P2 by (unfold s2; rewrite <- P1; done). split.
      * apply fresh_shown; [apply fresh_shown; [done|]|].
        -- rewrite P1. destruct Hsome as [y Hy]. rewrite lookup_insert_ne by congruence. eauto.
        -- rewrite P2. destruct Hsome as [y Hy]. rewrite lookup_insert_ne by congruence. rewrite lookup_insert_eq. eauto.
      * eexists. eapply (add_behind s s1 _ id d nd np f b d2); done.
  - rewrite (proj2 (N.eqb_neq _ _) Hn). cbn in Hnd. apply NoDup_cons in Hnd as [Hni Hnd].
    destruct (IH Hnd fuel ltac:(cbn in Hfu; lia)) as (r & s' & Er & Q & F & Hr). exists r, s'. split; [done|]. split; [done|]. split; [done|].
    destruct r as [x|e]; [|done]. destruct Hr as (ds' & G1 & G2 & G3 & G4 & G5). exists ((id, d) :: ds').
    assert (id ∉ ds'.*1) as Hid. { intros Hin. destruct (G4 id Hin) as [?|?]; [done|]. destruct Hsome. congruence. }
    split; [apply linked_more; [split; [|apply Hd]|done|done]; rewrite (G5 id Hid); apply Hd|]. split; [cbn; by apply NoDup_cons|]. split.
    { rewrite !all_cons, G3. symmetry. apply Permutation_middle. }
    split.
    + intros i Hi. cbn in Hi. apply elem_of_cons in Hi as [->|Hi]; [left; left|]. destruct (G4 i Hi) as [?|?]; [left; by right|by right].
    + intros i Hi. cbn in Hi. apply not_elem_of_cons in Hi as [_ Hi]. by apply G5.
Qed.

(** * Files *)

(** A file: its chain of directories, and the heap pages they list. *)
Record file_ok s (h : HeapFileManager) (ds : list (N * PageDirectory)) : Prop := {
  fo_linked : linked (pages s) (first_directory_page_id h) ds;
  fo_once : NoDup ds.*1;
  fo_unique : NoDup (listed ds);
  fo_apart id : id ∈ listed ds -> id ∉ ds.*1;
  fo_data id : id ∈ listed ds -> exists b p, pages s !! id = Some b /\ loaded id b p }.

(** The room of a page, and a file none of whose directories promises more of a
    page than it has. *)
Definition page_room (p : Page) : N := base p - header_end p.
Definition fits s (e : PageDirectoryEntry) : Prop := exists b p, pages s !! de_page e = Some b /\ loaded (de_page e) b p /\ free_space e <= page_room p.
Definition fair s (ds : list (N * PageDirectory)) : Prop := Forall (fits s) (all ds).

Lemma fair_moved s s' ds : fair s ds -> (forall i, i ∈ listed ds -> pages s' !! i = pages s !! i) -> fair s' ds.
Proof.
  intros Hf Hs. unfold fair in *. apply Forall_forall. intros e He. rewrite Forall_forall in Hf. destruct (Hf e He) as (b & p & Hb & Hp). exists b, p. split; [|done].
  rewrite Hs; [done|]. by apply list_elem_of_fmap_2.
Qed.

Lemma file_fuel s h ds : file_ok s h ds -> (length ds <= S (size (pages s)))%nat.
Proof. intros [Hl Hn _ _ _]. pose proof (linked_size _ _ _ Hl Hn). lia. Qed.

Lemma find_page_run s h ds needed : file_ok s h ds -> exists o, find_page h needed s = Some (Ok o, s) /\
  forall p, o = Some p -> exists e, e ∈ all ds /\ de_page e = p /\ needed <= free_space e.
Proof.
  intros Hfo. unfold find_page. rewrite (bind_run _ _ s _ s (chain_fuel_run s)). apply find_loop_run; [apply Hfo|by eapply file_fuel].
Qed.

(** A chain found as it was in a state whose other pages are also as they were. *)
Lemma file_moved s s' h ds : file_ok s h ds -> (forall i, i ∈ ds.*1 \/ i ∈ listed ds -> pages s' !! i = pages s !! i) -> file_ok s' h ds.
Proof.
  intros [Hl Hn Hu Ha Hd] Hs. split; [|done|done|done|].
  - clear Hn Hu Ha Hd. revert Hs. induction Hl as [id d [Hd Ho] H0|id d ds [Hd Ho] H0 Hl IH]; intros Hs.
    + apply linked_last; [|done]. split; [|done]. rewrite Hs; [done|]. left. left.
    + apply linked_more; [split; [|done]|done|].
      * rewrite Hs; [done|]. left. left.
      * apply IH. intros i Hi. apply Hs. rewrite all_cons, fmap_app, elem_of_app. cbn. rewrite elem_of_cons. tauto.
  - intros id Hid. destruct (Hd id Hid) as (b & p & Hb & Hp). exists b, p. split; [|done]. rewrite Hs; [done|]. by right.
Qed.

(** One data page rewritten, with no less room than before. *)
Lemma file_stored s s' h ds id b p b' p' : file_ok s h ds -> id ∈ listed ds -> pages s !! id = Some b -> loaded id b p -> loaded id b' p' -> pages s' = <[id := b']> (pages s) ->
  file_ok s' h ds.
Proof.
  intros [A B C D E] Hid Hb Hl Hl' Hp. split; [rewrite Hp; apply linked_store; [done|by apply D]|done|done|done|].
  intros i Hi. rewrite Hp. destruct (decide (i = id)) as [->|Hne]; [rewrite lookup_insert_eq; eauto|]. rewrite lookup_insert_ne by done. by apply E.
Qed.

Lemma update_entry_run s h ds p f : file_ok s h ds -> fresh_ok s -> p ∈ listed ds -> f <= max_u16 ->
  exists s' ds', update_directory_entry h p f s = Some (Ok tt, s') /\ quiet s s' /\ fresh_ok s' /\ file_ok s' h ds' /\ noted p f (all ds) (all ds') /\
    forall i, i ∈ listed ds -> pages s' !! i = pages s !! i.
Proof.
  intros Hfo Hfr Hp Hf. unfold update_directory_entry. rewrite (bind_run _ _ s _ s (chain_fuel_run s)). destruct Hfo as [Hl Hn Hu Ha Hd].
  destruct (update_loop_run s _ ds p f Hf Hl Hn Hp (S (size (pages s)))) as (i & b & ds' & -> & Hi & Hl' & I1 & I2).
  { pose proof (linked_size _ _ _ Hl Hn). lia. }
  assert (forall j, j ∈ listed ds -> pages (shown i b s) !! j = pages s !! j) as Hsame.
  { intros j Hj. change (pages (shown i b s)) with (<[i := b]> (pages s)). rewrite lookup_insert_ne; [done|]. intros ->. by apply (Ha j). }
  pose proof (noted_listed _ _ _ _ I2) as I3.
  exists (shown i b s), ds'. split; [done|]. split; [done|]. split; [apply fresh_shown; [done|]; by eapply linked_in|]. split; [|done].
  split; [done|by rewrite I1|by rewrite I3|intros j; rewrite I1, I3; apply Ha|].
  intros j Hj. rewrite I3 in Hj. rewrite Hsame by done. by apply Hd.
Qed.

(** Noting the true room of a page keeps a file fair. *)
Lemma noted_fair s s' ds ds' p f b q : fair s ds -> NoDup (listed ds) -> noted p f (all ds) (all ds') -> (forall i, i ∈ listed ds -> i <> p -> pages s' !! i = pages s !! i) ->
  pages s' !! p = Some b -> loaded p b q -> f <= page_room q -> fair s' ds'.
Proof.
  intros Hf Hu (pre & e & post & E & Ep & E') Hs Hb Hl Hr. unfold fair in *. rewrite E'. rewrite E in Hf, Hu. rewrite fmap_app in Hu. cbn in Hu. rewrite Ep in Hu.
  apply NoDup_app in Hu as (_ & Hpre & Hu). apply NoDup_cons in Hu as [Hpost _]. apply Forall_app in Hf as [F1 F2]. apply Forall_cons in F2 as [_ F2].
  assert (forall es, Forall (fits s) es -> (forall x, x ∈ es -> x ∈ all ds /\ de_page x <> p) -> Forall (fits s') es) as Hkeep.
  { intros es He Hx. apply Forall_forall. intros x Hxe. destruct (Hx x Hxe) as [X1 X2]. rewrite Forall_forall in He. destruct (He x Hxe) as (b1 & p1 & B1 & B2).
    exists b1, p1. split; [|done]. rewrite Hs; [done|by apply list_elem_of_fmap_2|done]. }
  apply Forall_app. split; [|constructor].
  - apply Hkeep; [done|]. intros x Hx. split; [rewrite E; apply elem_of_app; by left|]. intros <-. apply (Hpre (de_page x)); [by apply list_elem_of_fmap_2|left].
  - by exists b, q.
  - apply Hkeep; [done|]. intros x Hx. split; [rewrite E; apply elem_of_app; right; by right|]. intros <-. by apply Hpost, list_elem_of_fmap_2.
Qed.

(** The same file, perhaps with pages more, and every row as it was. *)
Definition extends s s' h (ds ds' : list (N * PageDirectory)) : Prop :=
  quiet s s' /\ fresh_ok s' /\ file_ok s' h ds' /\ (fair s ds -> fair s' ds') /\ forall x, x ∈ listed ds -> x ∈ listed ds' /\ pages s' !! x = pages s !! x.

Lemma empty_room np : page_room (reloaded (HeapPage.empty np)) = 4073.
Proof. done. Qed.

Lemma list_empty_page_run s h ds np b : file_ok s h ds -> fresh_ok s -> pages s !! np = Some b -> np ∉ ds.*1 -> np ∉ listed ds -> np <= max_u32 ->
  exists r s', list_empty_page h np s = Some (r, s') /\ quiet s s' /\ fresh_ok s' /\
    match r with
    | Ok _ => exists ds', extends s s' h ds ds' /\ np ∈ listed ds' /\ pages s' !! np = Some (image (HeapPage.empty np))
    | Err _ => forall i, i <> np -> pages s' !! i = pages s !! i
    end.
Proof.
  intros Hfo Hfr Hb Hnd Hnl Hnm. destruct (empty_ok np Hnm) as [Ho Ht]. unfold list_empty_page. set (img := image (HeapPage.empty np)).
  rewrite (bind_run _ _ s b s) by (unfold fetch, mbind, eff_bind, eget, lift; by rewrite Hb).
  rewrite (bind_run _ _ s img s) by (unfold at_index; by rewrite (serialize_image _ Ho)).
  set (s1 := shown np img s). rewrite (bind_run _ _ s tt s1) by done.
  assert (pages s1 !! np = Some img) as Hnp by apply lookup_insert_eq.
  assert (forall i, i <> np -> pages s1 !! i = pages s !! i) as Hs1.
  { intros i Hi. change (pages s1) with (<[np := img]> (pages s)). by rewrite lookup_insert_ne. }
  assert (file_ok s1 h ds) as Hfo1 by (apply (file_moved s); [done|]; intros i Hi; apply Hs1; intros ->; tauto).
  assert (fair s ds -> fair s1 ds) as Hfa1 by (intros Hf; apply (fair_moved s); [done|]; intros i Hi; apply Hs1; by intros ->).
  unfold add_to_directory. rewrite (bind_run _ _ s1 _ s1 (chain_fuel_run s1)). assert (fresh_ok s1) as Hf1 by (apply fresh_shown; eauto).
  change (to_u16 (PAGE_SIZE - HeapPage.HEADER_SIZE)) with 4073.
  destruct (add_loop_run s1 (first_directory_page_id h) ds np 4073 Hnm ltac:(done) Hf1 (fo_linked _ _ _ Hfo1) (fo_once _ _ _ Hfo1) (S (size (pages s1))) ltac:(by eapply file_fuel))
    as (r & s' & Er & Q & F & Hr). exists r, s'. split; [done|]. split; [done|]. split; [done|]. destruct r as [x|e]; [|intros i Hi; rewrite Hr; by apply Hs1].
  destruct Hr as (ds' & G1 & G2 & G3 & G4 & G5). exists ds'.
  assert (listed ds' ≡ₚ np :: listed ds) as G3' by (by rewrite G3).
  assert (forall x, x ∈ listed ds' -> x ∉ ds'.*1) as Hdis.
  { intros y Hy Hin. rewrite G3' in Hy. assert ((y ∉ ds.*1) /\ is_Some (pages s1 !! y)) as [N1 N2].
    { apply elem_of_cons in Hy as [->|Hy]; [eauto|]. destruct (fo_data _ _ _ Hfo1 y Hy) as (? & ? & ? & _). split; [by apply (fo_apart _ _ _ Hfo1)|eauto]. }
    destruct (G4 y Hin) as [?|HN]; [done|]. rewrite HN in N2. by destruct N2. }
  pose proof (image_loaded (HeapPage.empty np) Ho eq_refl : loaded np img _) as Hl.
  assert (forall id, id ∈ listed ds' -> pages s' !! id = pages s1 !! id) as Hs' by (intros id Hid; apply G5; by apply Hdis).
  assert (np ∈ listed ds') as Hin by (rewrite G3'; left). split; [split; [done|]; split; [done|]; split; [split; [done|done| |done|]|split]|].
  - rewrite G3'. apply NoDup_cons. split; [done|apply Hfo].
  - intros id Hid. rewrite (Hs' id Hid). rewrite G3' in Hid. apply elem_of_cons in Hid as [->|Hid]; [eauto|by apply (fo_data _ _ _ Hfo1)].
  - intros Hf. apply (fair_moved s1); [|done]. unfold fair. rewrite G3. constructor; [|by apply Hfa1].
    exists img, (reloaded (HeapPage.empty np)). split; [done|]. split; [done|]. by rewrite empty_room.
  - intros y Hy. assert (y ∈ listed ds') as Hy' by (rewrite G3'; by right). split; [done|]. rewrite (Hs' y Hy'). apply Hs1. intros ->. done.
  - split; [done|]. by rewrite (Hs' np Hin).
Qed.

Lemma add_empty_page_run s h ds : file_ok s h ds -> fresh_ok s -> exists r s', add_empty_page h s = Some (r, s') /\
  match r with
  | Ok np => exists ds', extends s s' h ds ds' /\ np ∈ listed ds' /\ pages s' !! np = Some (image (HeapPage.empty np)) /\ np <= max_u32
  | Err _ => quiet s s' /\ fresh_ok s' /\ pages s' = pages s
  end.
Proof.
  intros Hfo Hfr. unfold add_empty_page. destruct (new_page_run s Hfr) as [(s1 & E1 & Q1 & F1 & P1)|(np & s1 & b & E1 & Q1 & F1 & Hnew & Hnz & Hnm & P1 & Hrest)].
  { exists (Err (Io DiskRefused)), s1. unfold mbind, eff_bind. by rewrite E1. }
  rewrite (bind_run _ _ s np s1 E1).
  assert (forall i, i ∈ ds.*1 \/ i ∈ listed ds -> i <> np) as Hne.
  { intros i Hi ->. assert (is_Some (pages s !! np)) as [? ?]; [|congruence]. destruct Hi as [Hi|Hi]; [eapply linked_in; [apply Hfo|done]|].
    destruct (fo_data _ _ _ Hfo np Hi) as (x & _ & Hx & _). eauto. }
  assert (forall i, i <> np -> pages s1 !! i = pages s !! i) as Hs1 by (intros i Hi; rewrite P1; by rewrite lookup_insert_ne).
  assert (file_ok s1 h ds) as Hfo1 by (apply (file_moved s); [done|]; intros i Hi; apply Hs1; by apply Hne).
  destruct (list_empty_page_run s1 h ds np b Hfo1 F1) as (r & s2 & E2 & Q2 & F2 & H2).
  { rewrite P1. apply lookup_insert_eq. } { intros Hi. by apply (Hne np); [left|]. } { intros Hi. by apply (Hne np); [right|]. } { done. }
  destruct r as [x|e].
  - rewrite (bind_run _ _ s1 x s2) by (unfold catch; by rewrite E2). exists (Ok np), s2. split; [done|].
    destruct H2 as (ds' & (D1 & D2 & D3 & D4 & D5) & D6 & D7). exists ds'. split; [|done]. split; [by eapply quiet_trans|]. split; [done|]. split; [done|]. split.
    + intros Hf. apply D4. apply (fair_moved s); [done|]. intros i Hi. apply Hs1, Hne. by right.
    + intros y Hy. destruct (D5 y Hy) as [D8 D9]. split; [done|]. rewrite D9. apply Hs1, Hne. by right.
  - set (s3 := s2 <| pages := base.delete np (pages s2) |> <| dirty := dirty s2 ∖ {[np]} |>).
    assert (catch (list_empty_page h np) (fun e => _ ← free_page np; throw e) s1 = Some (Err e, s3)) as E3 by (unfold catch; rewrite E2; done).
    unfold mbind at 1, eff_bind at 1. rewrite E3. exists (Err e), s3. split; [done|]. split; [by eapply quiet_trans|].
    assert (pages s3 = pages s) as P3.
    { apply map_eq. intros i. change (pages s3) with (base.delete np (pages s2)). destruct (decide (i = np)) as [->|Hi]; [by rewrite lookup_delete_eq|].
      rewrite lookup_delete_ne, H2, Hs1 by done. done. }
    split; [|done]. destruct F2 as [A B]. split; [done|]. intros i Hi. destruct (B i Hi) as (B1 & B2 & B3). split; [done|]. split; [done|].
    change (pages s3) with (base.delete np (pages s2)). rewrite lookup_delete_None. by right.
Qed.

Lemma extends_refl s h ds : file_ok s h ds -> fresh_ok s -> extends s s h ds ds.
Proof. intros Hfo Hfr. split; [done|]. split; [done|]. split; [done|]. split; [done|]. done. Qed.

(** A page of the file; in a fair file it has the room asked for. *)
Lemma find_or_make_page_run s h ds len : file_ok s h ds -> fresh_ok s -> exists r s', find_or_make_page h len s = Some (r, s') /\
  match r with
  | Ok p => exists ds', extends s s' h ds ds' /\ p ∈ listed ds' /\
      (fair s ds -> exists b q, pages s' !! p = Some b /\ loaded p b q /\ len + SLOT_ENTRY_SIZE <= page_room q)
  | Err _ => quiet s s' /\ fresh_ok s' /\ pages s' = pages s
  end.
Proof.
  intros Hfo Hfr. unfold find_or_make_page. destruct (space_needed len) as [needed|e] eqn:En.
  2:{ by exists (Err e), s. }
  assert (needed = len + SLOT_ENTRY_SIZE /\ len <= MAX_TUPLE_SIZE) as [-> Hlen].
  { unfold space_needed in En. destruct (N.ltb_spec MAX_TUPLE_SIZE len); [done|]. destruct (_ <? _); [done|]. injection En as <-. done. }
  rewrite (bind_run _ _ s (len + SLOT_ENTRY_SIZE) s) by done. destruct (find_page_run s h ds (len + SLOT_ENTRY_SIZE) Hfo) as (o & Eo & Ho). rewrite (bind_run _ _ s o s Eo).
  destruct o as [p|].
  - destruct (Ho p eq_refl) as (e & He & <- & Hn). exists (Ok (de_page e)), s. split; [done|]. exists ds. split; [by apply extends_refl|]. split; [by apply list_elem_of_fmap_2|].
    intros Hf. unfold fair in Hf. rewrite Forall_forall in Hf. destruct (Hf e He) as (b & q & B1 & B2 & B3). exists b, q. split; [done|]. split; [done|]. lia.
  - destruct (add_empty_page_run s h ds Hfo Hfr) as (r & s' & -> & Hr). exists r, s'. split; [done|]. destruct r as [np|e]; [|done].
    destruct Hr as (ds' & X & Hin & Himg & Hnm). exists ds'. split; [done|]. split; [done|]. intros _. destruct (empty_ok np Hnm) as [Eo' _].
    eexists _, (reloaded (HeapPage.empty np)). split; [exact Himg|]. split; [by apply (image_loaded (HeapPage.empty np))|]. rewrite empty_room. unfold MAX_TUPLE_SIZE in Hlen.
    change (PAGE_SIZE - HeapPage.HEADER_SIZE - SLOT_ENTRY_SIZE) with 4069 in Hlen. unfold SLOT_ENTRY_SIZE. lia.
Qed.

(** * Rows *)

(** What a reader of a record gets. *)
Definition row_at s (rid : N * N) : option (Result FerroError Tuple) := fst <$> read_record_id rid s.

Lemma row_at_same s s' rid : pages s' !! rid.1 = pages s !! rid.1 -> row_at s' rid = row_at s rid.
Proof.
  intros E. unfold row_at, read_record_id, load_page, fetch, checked, at_index, mbind, eff_bind, eget, lift. rewrite E.
  destruct (pages s !! rid.1) as [b|]; [|done]. cbn [ok_or]. destruct (HeapPage.deserialize b) as [p|]; [|done]. by destruct (HeapPage.read p _).
Qed.

Lemma row_at_loaded s id b p i : pages s !! id = Some b -> loaded id b p -> row_at s (id, i) = Some (row_result (rows p) (N.to_nat i)).
Proof.
  intros Hb Hl. unfold row_at, read_record_id. rewrite (bind_run _ _ s p s (load_page_inv id s b p Hb (ld_page _ _ _ Hl))).
  unfold checked. by rewrite (read_row p _ (ld_ok _ _ _ Hl) (ld_tight _ _ _ Hl)).
Qed.

(** A change to one slot of one page, as its readers see it. *)
Lemma rows_changed s s' id b p b' p' (j : N) : pages s !! id = Some b -> loaded id b p -> pages s' !! id = Some b' -> loaded id b' p' ->
  (forall i, i <> id -> pages s' !! i = pages s !! i) -> (forall i, i <> N.to_nat j -> rows p' !! i = rows p !! i) ->
  forall other, other <> (id, j) -> row_at s' other = row_at s other.
Proof.
  intros Hb Hl Hb' Hl' Hs Hr [i k] Hne. destruct (decide (i = id)) as [->|Hi]; [|by apply row_at_same, Hs].
  rewrite (row_at_loaded s' id b' p' k Hb' Hl'), (row_at_loaded s id b p k Hb Hl). unfold row_result. rewrite Hr; [done|]. intros Hc%N2Nat.inj. by subst.
Qed.

(** The transaction the file writes for is active, and the log has positions left. *)
Definition can_log s (h : HeapFileManager) : Prop := next_lsn (wal s) <= max_u64 /\ forall txn, file_txn h = Some txn -> is_Some (att s !! txn).

Lemma can_log_quiet s s' h : can_log s h -> quiet s s' -> can_log s' h.
Proof. unfold can_log, quiet. intros [H1 H2] [-> ->]. done. Qed.

Lemma free_of_room q : page_ok q -> free_of q = get_free_space_end q - header_end q /\ free_of q <= max_u16.
Proof.
  intros H. pose proof (base_le_end q H) as [B1 B2]. pose proof (ok_room q H) as Hr. unfold free_of. rewrite (start_ok q H). unfold PAGE_SIZE in B2.
  rewrite wsub16_le by lia. split; [done|]. unfold max_u16. lia.
Qed.

Lemma reloaded_room q : page_ok q -> page_room (reloaded q) = free_of q.
Proof. intros H. unfold page_room. rewrite (reloaded_base q H). change (header_end (reloaded q)) with (header_end q). symmetry. by apply free_of_room. Qed.

(** What storing a changed page leaves; it fails only when the file's transaction
    is not active. *)
Record stored s s' h (id : N) (q : Page) (b : list byte) (p' : Page) : Prop := {
  st_pages : pages s' = <[id := b]> (pages s);
  st_fresh : fresh_pages s' = fresh_pages s;
  st_log : can_log s' h;
  st_loaded : loaded id b p';
  st_rows : rows p' = rows q;
  st_room : page_room p' = free_of q }.

Lemma log_and_store_run s h id q kind : page_ok q -> page_type q = HEAP_PAGE_TYPE -> page_id q = id -> (forall b, exists c, WalRecord.serialize b kind = Ok c) -> can_log s h ->
  exists s' b p', log_and_store h id q kind s = Some (Ok tt, s') /\ stored s s' h id q b p'.
Proof.
  intros Hq Ht Hid Hk [Hm Hact]. unfold log_and_store. destruct (file_txn h) as [txn|] eqn:Etx.
  - destruct (Hact txn eq_refl) as [en Hen].
    destruct (Hk (be_bytes 8 (next_lsn (wal s)) ++ be_bytes 8 (last_lsn en) ++ be_bytes 8 txn)) as [c Hc].
    assert (exists w, Wal.append (wal s) txn (last_lsn en) kind = Ok (w, next_lsn (wal s)) /\ next_lsn w <= max_u64) as (w & Hw & Hwm).
    { unfold Wal.append. rewrite Hc. cbn [mbind result_bind]. eexists. split; [done|]. apply wadd64_le. }
    set (lsn := next_lsn (wal s)) in *. set (s1 := s <| wal := w |> <| att := <[txn := mkTxnEntry (status en) lsn (begin_lsn en) (entry_snapshot en)]> (att s) |>).
    assert (append_chained txn kind s = Some (Ok lsn, s1)) as Ea.
    { unfold append_chained, wal_append, mbind, eff_bind, eget, lift, eset. rewrite Hen. cbn [ok_or]. by rewrite Hw. }
    destruct (stored_loaded q lsn Hq Ht Hm) as [S1 S2]. rewrite Hid in S2. pose proof (set_lsn_ok lsn q Hq Hm) as Hq'.
    exists (shown id (image (set_lsn lsn q)) s1), (image (set_lsn lsn q)), (reloaded (set_lsn lsn q)). split.
    { rewrite (bind_run _ _ s (set_lsn lsn q) s1) by (by rewrite (bind_run _ _ s lsn s1 Ea)).
      by rewrite (bind_run _ _ s1 (image (set_lsn lsn q)) s1) by (unfold at_index; by rewrite S1). }
    split; [done|done| |done|by apply (reloaded_rows (set_lsn lsn q))|by rewrite reloaded_room].
    split; [done|]. rewrite Etx. intros t [= <-]. change (is_Some (<[txn := mkTxnEntry (status en) lsn (begin_lsn en) (entry_snapshot en)]> (att s) !! txn)). rewrite lookup_insert_eq. eauto.
  - pose proof (image_loaded q Hq Ht) as Hl. rewrite Hid in Hl. exists (shown id (image q) s), (image q), (reloaded q).
    split; [|split; [done|done|split; [done|by rewrite Etx]|done|by apply reloaded_rows|by apply reloaded_room]].
    rewrite (bind_run _ _ s q s) by done. by rewrite (bind_run _ _ s (image q) s) by (unfold at_index; by rewrite (serialize_image q Hq)).
Qed.

(** A page of the file stored, with no less room than before. *)
Lemma stored_file s s' h ds id b p q b' p' : file_ok s h ds -> fresh_ok s -> id ∈ listed ds -> pages s !! id = Some b -> loaded id b p -> stored s s' h id q b' p' ->
  file_ok s' h ds /\ fresh_ok s' /\ pages s' !! id = Some b' /\ forall i, i <> id -> pages s' !! i = pages s !! i.
Proof.
  intros Hfo Hfr Hid Hb Hl [P1 P2 P3 P4 P5 P6].
  assert (forall i, i <> id -> pages s' !! i = pages s !! i) as Hs by (intros i Hi; rewrite P1; by rewrite lookup_insert_ne).
  split; [by eapply (file_stored s s' h ds id b p b' p')|]. split; [|split; [rewrite P1; apply lookup_insert_eq|done]].
  apply (fresh_same s); [done|done|]. intros i Hi. rewrite Hs; [done|]. intros ->. congruence.
Qed.

(** ** Inserting *)

Lemma insert_page_run s h id b p t : pages s !! id = Some b -> loaded id b p -> t <> [] -> can_log s h ->
  (HeapPage.insert p t = Err NotEnoughSpace /\ page_room p < blen t + SLOT_ENTRY_SIZE /\ insert_page h id t s = Some (Err NotEnoughSpace, s)) \/
  exists q slot s' b' p', insert_page h id t s = Some (Ok (q, slot), s') /\ stored s s' h id q b' p' /\ N.to_nat slot = length (rows p) /\ rows q = rows p ++ [Some t] /\ page_ok q.
Proof.
  intros Hb Hl Ht Hm. unfold insert_page. rewrite (bind_run _ _ s p s (load_page_inv id s b p Hb (ld_page _ _ _ Hl))).
  pose proof (insert_row p t (ld_ok _ _ _ Hl) (ld_tight _ _ _ Hl) Ht) as Hi. destruct (HeapPage.insert p t) as [[q slot]|e] eqn:Ei.
  2:{ left. destruct Hi as [-> Hi]. split; [done|]. split; [pose proof (ok_room p (ld_ok _ _ _ Hl)); unfold page_room; lia|done]. }
  right. destruct Hi as (I1 & I2 & I3 & I4). rewrite (bind_run _ _ s (q, slot) s) by done.
  assert (page_type q = HEAP_PAGE_TYPE /\ page_id q = id) as [Q1 Q2].
  { rewrite <- (ld_type _ _ _ Hl), <- (ld_id _ _ _ Hl). unfold HeapPage.insert in Ei. destruct (_ <? _); [done|]. by injection Ei as <- _. }
  destruct (log_and_store_run s h id q (RecHeapInsert (first_directory_page_id h) id slot t) I3 Q1 Q2 ltac:(by eexists) Hm) as (s' & b' & p' & E & Hst).
  exists q, slot, s', b', p'. by rewrite (bind_run _ _ s tt s' E).
Qed.

(** One row more on one page of the file. *)
Lemma insert_into_run s h ds id t : file_ok s h ds -> fresh_ok s -> id ∈ listed ds -> t <> [] -> can_log s h ->
  (insert_into h id t s = Some (Err NotEnoughSpace, s) /\ forall b p, pages s !! id = Some b -> loaded id b p -> page_room p < blen t + SLOT_ENTRY_SIZE) \/
  exists slot s' ds', insert_into h id t s = Some (Ok (id, slot), s') /\ fresh_ok s' /\ file_ok s' h ds' /\ can_log s' h /\ listed ds' = listed ds /\ (fair s ds -> fair s' ds') /\
    row_at s (id, slot) = Some (Err (Io SlotOutOfBounds)) /\ row_at s' (id, slot) = Some (Ok t) /\
    (forall other, other.1 ∈ listed ds -> other <> (id, slot) -> row_at s' other = row_at s other) /\
    (forall i, i ∈ listed ds -> i <> id -> pages s' !! i = pages s !! i).
Proof.
  intros Hfo Hfr Hid Ht Hm. destruct (fo_data _ _ _ Hfo id Hid) as (b & p & Hb & Hl). unfold insert_into.
  destruct (insert_page_run s h id b p t Hb Hl Ht Hm) as [(_ & Hr & E)|(q & slot & s1 & b' & p' & E1 & Hst & Hslot & Hrows & Hq)].
  { left. split; [unfold mbind, eff_bind; by rewrite E|]. intros b1 p1 Hb1 Hl1. rewrite Hb in Hb1. injection Hb1 as <-.
    pose proof (ld_page _ _ _ Hl) as X1. pose proof (ld_page _ _ _ Hl1) as X2. congruence. }
  right. rewrite (bind_run _ _ s (q, slot) s1 E1). destruct (stored_file s s1 h ds id b p q b' p' Hfo Hfr Hid Hb Hl Hst) as (Hfo1 & Hfr1 & Hb' & Hs1).
  destruct (free_of_room q Hq) as [Hfq Hfm]. pose proof (st_loaded _ _ _ _ _ _ _ Hst) as Hl'.
  destruct (update_entry_run s1 h ds id (free_of q) Hfo1 Hfr1 Hid Hfm) as (s' & ds' & E2 & Q2 & F2 & Hfo2 & L2 & Hs2).
  rewrite (bind_run _ _ s1 tt s' E2). exists slot, s', ds'. split; [done|]. split; [done|]. split; [done|]. split; [eapply can_log_quiet; [apply Hst|done]|].
  split; [by eapply noted_listed|]. split.
  { intros Hf. eapply (noted_fair s s' ds ds' id (free_of q) b' p'); [done|apply Hfo|done| | |done|by rewrite (st_room _ _ _ _ _ _ _ Hst)].
    - intros i Hi Hne. rewrite Hs2 by done. by apply Hs1.
    - by rewrite Hs2. }
  rewrite (row_at_same s1 s' (id, slot)) by (by apply Hs2). pose proof (st_rows _ _ _ _ _ _ _ Hst) as Hrw. rewrite Hrows in Hrw. split; [|split; [|split]].
  - rewrite (row_at_loaded s id b p slot Hb Hl). unfold row_result. rewrite lookup_ge_None_2; [done|lia].
  - rewrite (row_at_loaded s1 id b' p' slot Hb' Hl'). unfold row_result. rewrite Hrw, Hslot, lookup_app_r, Nat.sub_diag by lia. done.
  - intros other Hi Hne. rewrite (row_at_same s1 s' other) by (by apply Hs2). apply (rows_changed s s1 id b p b' p' slot); try done.
    intros i Hi'. rewrite Hrw. destruct (decide (i < length (rows p))%nat) as [Hlt|Hge]; [by rewrite lookup_app_l|].
    rewrite !lookup_ge_None_2; [done|lia|rewrite length_app; cbn; lia].
  - intros i Hi Hne. rewrite Hs2 by done. by apply Hs1.
Qed.

(** C14: an insertion is read back and disturbs no row. In a heap file whose
    directories are in order, with an allocator that hands out new pages only, an
    insertion never panics. If it succeeds, the record it returns reads the tuple
    and was free before, and every other record of the file reads as it did; if it
    fails, all of them do. In both cases the directories are in order again, and
    they promise no more room than the pages have if they did not before. *)
Theorem heap_insert_reads_back s h ds (t : Tuple) :
  file_ok s h ds -> fresh_ok s -> can_log s h -> t <> [] ->
  exists r s' ds', HeapFile.insert h t s = Some (r, s') /\ file_ok s' h ds' /\ fresh_ok s' /\ listed ds ⊆ listed ds' /\ (fair s ds -> fair s' ds') /\
    match r with
    | Ok rid => rid.1 ∈ listed ds' /\ row_at s' rid = Some (Ok t) /\ (rid.1 ∈ listed ds -> row_at s rid = Some (Err (Io SlotOutOfBounds))) /\
        forall other, other.1 ∈ listed ds -> other <> rid -> row_at s' other = row_at s other
    | Err _ => forall other, other.1 ∈ listed ds -> row_at s' other = row_at s other
    end.
Proof.
  intros Hfo Hfr Hm Ht. unfold HeapFile.insert. destruct (find_or_make_page_run s h ds (blen t) Hfo Hfr) as (r & s1 & E1 & H1). destruct r as [p|e].
  2:{ destruct H1 as (Q1 & F1 & P1). exists (Err e), s1, ds. split; [unfold mbind, eff_bind; by rewrite E1|].
      split; [apply (file_moved s); [done|]; intros i _; by rewrite P1|]. split; [done|]. split; [done|].
      split; [intros Hf; apply (fair_moved s); [done|]; intros i _; by rewrite P1|]. intros other _. apply row_at_same. by rewrite P1. }
  destruct H1 as (ds1 & (Q1 & F1 & Hfo1 & Hfa1 & Hx1) & Hp & _). rewrite (bind_run _ _ s p s1 E1).
  assert (forall other, other.1 ∈ listed ds -> row_at s1 other = row_at s other) as Hr1 by (intros other Ho; apply row_at_same; by apply Hx1).
  assert (listed ds ⊆ listed ds1) as Hsub by (intros x Hx; by apply Hx1).
  destruct (insert_into_run s1 h ds1 p t Hfo1 F1 Hp Ht (can_log_quiet _ _ _ Hm Q1)) as [[E2 _]|(slot & s' & ds' & E2 & F2 & Hfo2 & _ & L2 & Hfa2 & R1 & R2 & R3 & _)].
  - exists (Err NotEnoughSpace), s1, ds1. done.
  - exists (Ok (p, slot)), s', ds'. rewrite L2. split; [done|]. split; [done|]. split; [done|]. split; [done|]. split; [auto|]. split; [done|]. split; [done|].
    split; [intros Hi; by rewrite <- Hr1|]. intros other Ho Hne. rewrite R3 by (by auto). by apply Hr1.
Qed.

(** ** Updating *)

Lemma update_page_run s h id j b p t : pages s !! id = Some b -> loaded id b p -> t <> [] -> can_log s h ->
  (exists e, update_page h (id, j) t s = Some (Err e, s)) \/
  (exists old, update_page h (id, j) t s = Some (Ok (inr old), s) /\ rows p !! N.to_nat j = Some (Some old) /\ page_room p < blen t) \/
  exists q s' b' p', update_page h (id, j) t s = Some (Ok (inl q), s') /\ stored s s' h id q b' p' /\ rows q = <[N.to_nat j := Some t]> (rows p) /\ page_ok q /\
    exists old, rows p !! N.to_nat j = Some (Some old).
Proof.
  intros Hb Hl Ht Hm. unfold update_page. cbn [fst snd]. rewrite (bind_run _ _ s p s (load_page_inv id s b p Hb (ld_page _ _ _ Hl))).
  pose proof (read_row p (N.to_nat j) (ld_ok _ _ _ Hl) (ld_tight _ _ _ Hl)) as Hread. unfold row_result in Hread.
  destruct (rows p !! N.to_nat j) as [[old|]|] eqn:Er; [|left; unfold mbind, eff_bind, checked; rewrite Hread; eauto..].
  right. rewrite (bind_run _ _ s old s) by (unfold checked; by rewrite Hread).
  pose proof (update_row p (N.to_nat j) old t (ld_ok _ _ _ Hl) (ld_tight _ _ _ Hl) Er Ht) as Hu. destruct (HeapPage.update p (N.to_nat j) t) as [[q|e]|] eqn:Eu; [| |done].
  - right. destruct Hu as (U1 & U2 & U3). rewrite (bind_run _ _ s (Ok q) s) by done.
    assert (page_type q = HEAP_PAGE_TYPE /\ page_id q = id) as [Q1 Q2].
    { rewrite <- (ld_type _ _ _ Hl), <- (ld_id _ _ _ Hl). unfold HeapPage.update in Eu. rewrite Hread in Eu. cbn [mbind option_bind] in Eu.
      destruct (slot_arr p !! N.to_nat j); [|done]. cbn [mbind option_bind] in Eu. destruct (_ <=? _).
      - destruct (copy_at _ _ _); [|done]. cbn [mbind option_bind] in Eu. by injection Eu as <-.
      - destruct (_ <=? _); [by injection Eu as <-|done]. }
    destruct (log_and_store_run s h id q (RecHeapUpdate (first_directory_page_id h) id j old t) U2 Q1 Q2 ltac:(by eexists) Hm) as (s' & b' & p' & E & Hst).
    exists q, s', b', p'. rewrite (bind_run _ _ s tt s' E). eauto 8.
  - left. exists old. destruct Hu as (-> & _ & Hu). split; [done|]. split; [done|]. pose proof (ok_room p (ld_ok _ _ _ Hl)). unfold page_room. lia.
Qed.

Lemma delete_page_run s h id j b p old v : pages s !! id = Some b -> loaded id b p -> can_log s h -> rows p !! N.to_nat j = Some v ->
  exists q s' b' p', delete_page h (id, j) old s = Some (Ok q, s') /\ stored s s' h id q b' p' /\ rows q = <[N.to_nat j := None]> (rows p) /\ page_ok q /\ page_room p <= free_of q.
Proof.
  intros Hb Hl Hm Hj. unfold delete_page. cbn [fst snd]. rewrite (bind_run _ _ s p s (load_page_inv id s b p Hb (ld_page _ _ _ Hl))).
  pose proof (delete_row p (N.to_nat j) (ld_ok _ _ _ Hl)) as Hd. destruct (HeapPage.delete p (N.to_nat j)) as [q|e] eqn:Ed.
  2:{ exfalso. destruct Hd as [_ Hd]. apply lookup_lt_Some in Hj. lia. }
  destruct Hd as (_ & D2 & D3). rewrite (bind_run _ _ s q s) by done.
  unfold HeapPage.delete in Ed. destruct (slot_arr p !! N.to_nat j); [|done]. injection Ed as Eq.
  assert (page_type q = HEAP_PAGE_TYPE /\ page_id q = id) as [Q1 Q2] by (by rewrite <- (ld_type _ _ _ Hl), <- (ld_id _ _ _ Hl), <- Eq).
  destruct (log_and_store_run s h id q (RecHeapDelete (first_directory_page_id h) id j old) D3 Q1 Q2 ltac:(by eexists) Hm) as (s' & b' & p' & E & Hst).
  exists q, s', b', p'. rewrite (bind_run _ _ s tt s' E). split; [done|]. split; [done|]. split; [done|]. split; [done|].
  destruct (free_of_room q D3) as [-> _]. pose proof (base_le_end q D3) as [B1 _]. unfold page_room.
  assert (base p = base q) as -> by (by rewrite <- Eq). assert (header_end p = header_end q) as ->; [|lia]. rewrite <- Eq. unfold header_end, blen. cbn. by rewrite length_insert.
Qed.

Lemma fair_stored s s' h ds id b p q b' p' : fair s ds -> pages s !! id = Some b -> loaded id b p -> stored s s' h id q b' p' -> page_room p <= free_of q -> fair s' ds.
Proof.
  intros Hf Hb Hl [P1 _ _ P4 _ P6] Hr. unfold fair in *. eapply Forall_impl; [exact Hf|]. intros e (b1 & p1 & B1 & B2 & B3). destruct (decide (de_page e = id)) as [Ee|Hne].
  - exists b', p'. rewrite Ee, P1, lookup_insert_eq. split; [done|]. split; [done|]. rewrite P6. rewrite Ee, Hb in B1. injection B1 as <-.
    rewrite Ee in B2. pose proof (ld_page _ _ _ Hl) as X1. pose proof (ld_page _ _ _ B2) as X2. assert (p1 = p) as -> by congruence. lia.
  - exists b1, p1. split; [|done]. rewrite P1. by rewrite lookup_insert_ne.
Qed.

(** The two ways an update succeeds. *)
Definition updated s s' (ds : list (N * PageDirectory)) (rid rid' : N * N) (t : Tuple) : Prop :=
  row_at s' rid' = Some (Ok t) /\ (rid' = rid \/ row_at s' rid = Some (Err SlotDeleted)) /\
  forall other, other.1 ∈ listed ds -> other <> rid -> other <> rid' -> row_at s' other = row_at s other.

(** In place. *)
Lemma update_in_place s s1 h ds id j b p q b' p' t old : file_ok s h ds -> fresh_ok s -> fair s ds -> id ∈ listed ds -> pages s !! id = Some b -> loaded id b p ->
  stored s s1 h id q b' p' -> rows q = <[N.to_nat j := Some t]> (rows p) -> page_ok q -> rows p !! N.to_nat j = Some (Some old) ->
  exists s' ds', update_directory_entry h id (free_of q) s1 = Some (Ok tt, s') /\ file_ok s' h ds' /\ fresh_ok s' /\ fair s' ds' /\ listed ds' = listed ds /\ updated s s' ds (id, j) (id, j) t.
Proof.
  intros Hfo Hfr Hf Hid Hb Hl Hst Hrows Hq Hj. destruct (stored_file s s1 h ds id b p q b' p' Hfo Hfr Hid Hb Hl Hst) as (Hfo1 & Hfr1 & Hb' & Hs1).
  pose proof (st_loaded _ _ _ _ _ _ _ Hst) as Hl'. pose proof (st_rows _ _ _ _ _ _ _ Hst) as Hrw. rewrite Hrows in Hrw. destruct (free_of_room q Hq) as [_ Hfm].
  destruct (update_entry_run s1 h ds id (free_of q) Hfo1 Hfr1 Hid Hfm) as (s' & ds' & E2 & _ & F2 & Hfo2 & L2 & Hs2).
  exists s', ds'. split; [done|]. split; [done|]. split; [done|]. split; [|split; [by eapply noted_listed|]].
  - eapply (noted_fair s s' ds ds' id (free_of q) b' p'); [done|apply Hfo|done| | |done|by rewrite (st_room _ _ _ _ _ _ _ Hst)].
    + intros i Hi Hne. rewrite Hs2 by done. by apply Hs1.
    + by rewrite Hs2.
  - split; [|split; [by left|]].
    + rewrite (row_at_same s1 s' (id, j)) by (by apply Hs2). rewrite (row_at_loaded s1 id b' p' j Hb' Hl'). unfold row_result. rewrite Hrw, list_lookup_insert_eq; [done|].
      by eapply lookup_lt_Some.
    + intros other Ho Hne _. rewrite (row_at_same s1 s' other) by (by apply Hs2). apply (rows_changed s s1 id b p b' p' j); try done.
      intros i Hi. rewrite Hrw, list_lookup_insert_ne; done.
Qed.

(** To another page. *)
Lemma update_moved s h ds id j b p t old dest bd qd : file_ok s h ds -> fresh_ok s -> fair s ds -> can_log s h -> t <> [] -> id ∈ listed ds -> dest ∈ listed ds ->
  pages s !! id = Some b -> loaded id b p -> rows p !! N.to_nat j = Some (Some old) -> page_room p < blen t ->
  pages s !! dest = Some bd -> loaded dest bd qd -> blen t + SLOT_ENTRY_SIZE <= page_room qd ->
  exists rid' s' ds', (page ← delete_page h (id, j) old; new_rid ← insert_into h dest t; _ ← update_directory_entry h id (free_of page); mret new_rid) s = Some (Ok rid', s') /\
    file_ok s' h ds' /\ fresh_ok s' /\ fair s' ds' /\ listed ds' = listed ds /\ updated s s' ds (id, j) rid' t /\ rid'.1 = dest.
Proof.
  intros Hfo Hfr Hf Hm Ht Hid Hdest Hb Hl Hj Hroom Hbd Hld Hrd.
  assert (dest <> id) as Hne. { intros ->. rewrite Hb in Hbd. injection Hbd as <-. pose proof (ld_page _ _ _ Hl). pose proof (ld_page _ _ _ Hld). assert (qd = p) as -> by congruence. lia. }
  destruct (delete_page_run s h id j b p old _ Hb Hl Hm Hj) as (q & s1 & b1 & p1 & E1 & Hst & Hrows & Hq & Hmore). rewrite (bind_run _ _ s q s1 E1).
  destruct (stored_file s s1 h ds id b p q b1 p1 Hfo Hfr Hid Hb Hl Hst) as (Hfo1 & Hfr1 & Hb1 & Hs1).
  pose proof (fair_stored s s1 h ds id b p q b1 p1 Hf Hb Hl Hst Hmore) as Hf1. pose proof (st_loaded _ _ _ _ _ _ _ Hst) as Hl1.
  pose proof (st_rows _ _ _ _ _ _ _ Hst) as Hrw. rewrite Hrows in Hrw. destruct (free_of_room q Hq) as [_ Hfm].
  destruct (insert_into_run s1 h ds dest t Hfo1 Hfr1 Hdest Ht (st_log _ _ _ _ _ _ _ Hst)) as [[_ Hno]|(slot & s2 & ds2 & E2 & F2 & Hfo2 & _ & L2 & Hfa2 & R1 & R2 & R3 & R4)].
  { exfalso. pose proof (Hno bd qd ltac:(by rewrite Hs1) Hld). lia. }
  rewrite (bind_run _ _ s1 (dest, slot) s2 E2).
  destruct (update_entry_run s2 h ds2 id (free_of q) Hfo2 F2 ltac:(by rewrite L2) Hfm) as (s' & ds' & E3 & _ & F3 & Hfo3 & L3 & Hs3).
  rewrite (bind_run _ _ s2 tt s' E3). rewrite L2 in Hs3. exists (dest, slot), s', ds'. split; [done|]. split; [done|]. split; [done|].
  assert (pages s' !! id = Some b1) as Hb' by (rewrite Hs3, R4 by done; done). split; [|split; [by rewrite (noted_listed _ _ _ _ L3)|split; [|done]]].
  - eapply (noted_fair s2 s' ds2 ds' id (free_of q) b1 p1); [by apply Hfa2|apply Hfo2|done| |done|done|by rewrite (st_room _ _ _ _ _ _ _ Hst)].
    intros i Hi _. rewrite L2 in Hi. by apply Hs3.
  - split; [|split].
    + rewrite (row_at_same s2 s' (dest, slot)) by (by apply Hs3). done.
    + right. rewrite (row_at_loaded s' id b1 p1 j Hb' Hl1). unfold row_result. rewrite Hrw, list_lookup_insert_eq; [done|]. by eapply lookup_lt_Some.
    + intros other Ho N1 N2. rewrite (row_at_same s2 s' other) by (by apply Hs3). rewrite R3 by done.
      apply (rows_changed s s1 id b p b1 p1 j); try done. intros i Hi. rewrite Hrw, list_lookup_insert_ne; done.
Qed.

(** C13: an update is all or nothing. In a heap file whose directories are in order
    and promise no more room than the pages have, an update of a record never
    panics. If it succeeds, the record it returns reads the new tuple, the old
    record is that one or reads as deleted, and every other record reads as it
    did; if it fails, in place or on the way to another page, every record of the
    file reads as it did. The directories are in order again and promise no more
    than there is. *)
Theorem heap_update_all_or_nothing s h ds (rid : N * N) (t : Tuple) :
  file_ok s h ds -> fair s ds -> fresh_ok s -> can_log s h -> t <> [] -> rid.1 ∈ listed ds ->
  exists r s' ds', HeapFile.update h rid t s = Some (r, s') /\ file_ok s' h ds' /\ fair s' ds' /\ fresh_ok s' /\ listed ds ⊆ listed ds' /\
    match r with
    | Ok rid' => rid'.1 ∈ listed ds' /\ row_at s' rid' = Some (Ok t) /\ (rid' = rid \/ row_at s' rid = Some (Err SlotDeleted)) /\
        forall other, other.1 ∈ listed ds -> other <> rid -> other <> rid' -> row_at s' other = row_at s other
    | Err _ => forall other, other.1 ∈ listed ds -> row_at s' other = row_at s other
    end.
Proof.
  intros Hfo Hf Hfr Hm Ht Hid. destruct rid as [id j]. cbn [fst] in Hid. destruct (fo_data _ _ _ Hfo id Hid) as (b & p & Hb & Hl). unfold HeapFile.update.
  destruct (update_page_run s h id j b p t Hb Hl Ht Hm) as [(e & E)|[(old & E & Hj & Hroom)|(q & s1 & b' & p' & E & Hst & Hrows & Hq & old & Hj)]].
  - exists (Err e), s, ds. unfold mbind, eff_bind. by rewrite E.
  - rewrite (bind_run _ _ s (inr old) s E). destruct (find_or_make_page_run s h ds (blen t) Hfo Hfr) as (r & s1 & E1 & H1). destruct r as [dest|e].
    2:{ destruct H1 as (Q1 & F1 & P1). exists (Err e), s1, ds. split; [unfold mbind at 1, eff_bind at 1; by rewrite E1|].
        split; [apply (file_moved s); [done|]; intros i _; by rewrite P1|]. split; [apply (fair_moved s); [done|]; intros i _; by rewrite P1|]. split; [done|]. split; [done|].
        intros other _. apply row_at_same. by rewrite P1. }
    destruct H1 as (ds1 & (Q1 & F1 & Hfo1 & Hfa1 & Hx1) & Hdest & Hrd). destruct (Hrd Hf) as (bd & qd & D1 & D2 & D3). rewrite (bind_run _ _ s dest s1 E1). cbn [fst].
    destruct (Hx1 id Hid) as [Hid1 Hb1]. rewrite Hb in Hb1.
    destruct (update_moved s1 h ds1 id j b p t old dest bd qd Hfo1 F1 (Hfa1 Hf) (can_log_quiet _ _ _ Hm Q1) Ht Hid1 Hdest Hb1 Hl Hj Hroom D1 D2 D3)
      as (rid' & s' & ds' & E2 & Hfo2 & F2 & Hf2 & L2 & (U1 & U2 & U3) & Hr).
    exists (Ok rid'), s', ds'. rewrite E2, L2, Hr. split; [done|]. split; [done|]. split; [done|]. split; [done|]. split; [intros x Hx; by apply Hx1|].
    split; [done|]. split; [done|]. split; [done|]. intros other Ho N1 N2. destruct (Hx1 other.1 Ho) as [Ho1 Ho2]. rewrite U3 by done. by apply row_at_same.
  - rewrite (bind_run _ _ s (inl q) s1 E). cbn [fst].
    destruct (update_in_place s s1 h ds id j b p q b' p' t old Hfo Hfr Hf Hid Hb Hl Hst Hrows Hq Hj) as (s' & ds' & E2 & Hfo2 & F2 & Hf2 & L2 & U1 & U2 & U3).
    rewrite (bind_run _ _ s1 tt s' E2). exists (Ok (id, j)), s', ds'. rewrite L2. split; [done|]. split; [done|]. split; [done|]. split; [done|]. done.
Qed.

(** ** A new file *)

Lemma create_run s : fresh_ok s -> exists r s', create s = Some (r, s') /\ fresh_ok s' /\
  match r with
  | Ok h => exists ds, file_ok s' h ds /\ fair s' ds /\ first_directory_page_id h <> 0 /\ listed ds = [] /\
      forall i, i <> first_directory_page_id h -> pages s' !! i = pages s !! i
  | Err _ => pages s' = pages s
  end.
Proof.
  intros Hfr. unfold create. destruct (new_page_run s Hfr) as [(s1 & E1 & Q1 & F1 & P1)|(id & s1 & b & E1 & Q1 & F1 & Hnew & Hnz & Hnm & P1 & _)].
  { exists (Err (Io DiskRefused)), s1. unfold mbind, eff_bind. by rewrite E1. }
  rewrite (bind_run _ _ s id s1 E1). assert (pages s1 !! id = Some b) as Hb by (rewrite P1; apply lookup_insert_eq).
  rewrite (bind_run _ _ s1 b s1) by (unfold fetch, mbind, eff_bind, eget, lift; by rewrite Hb).
  assert (dir_ok (PageDirectory.new id)) as Hok by (by split; [| | | |constructor]).
  rewrite (bind_run _ _ s1 tt _ (store_dir_run id (PageDirectory.new id) s1 Hok)). set (s2 := shown id (dir_image (PageDirectory.new id)) s1).
  exists (Ok (mkHeapFile id None)), s2. split; [done|]. split; [apply fresh_shown; eauto|]. exists [(id, PageDirectory.new id)].
  split; [split|split; [constructor|split; [done|split; [done|]]]].
  - apply linked_last; [|done]. split; [apply lookup_insert_eq|done].
  - apply NoDup_singleton.
  - constructor.
  - intros i Hi%not_elem_of_nil. done.
  - intros i Hi%not_elem_of_nil. done.
  - intros i Hi. change (pages s2) with (<[id := dir_image (PageDirectory.new id)]> (pages s1)). rewrite P1. by rewrite !lookup_insert_ne.
Qed.

(** * Scanning *)

(** The live rows of a page from slot [i] on, with their records. *)
Fixpoint live_from (id : N) (i : nat) (rs : list (option (list byte))) : list (N * N * Tuple) :=
  match rs with
  | [] => []
  | Some t :: rs => (id, N.of_nat i, t) :: live_from id (S i) rs
  | None :: rs => live_from id (S i) rs
  end.

Definition page_rows s (id : N) : list (N * N * Tuple) :=
  match pages s !! id with
  | Some b => match HeapPage.deserialize b with Some p => live_from id 0 (rows p) | None => [] end
  | None => []
  end.
Definition file_rows s (ids : list N) : list (N * N * Tuple) := concat (page_rows s <$> ids).

Lemma page_rows_loaded s id b p : pages s !! id = Some b -> loaded id b p -> page_rows s id = live_from id 0 (rows p).
Proof. intros Hb Hl. unfold page_rows. by rewrite Hb, (ld_page _ _ _ Hl). Qed.

Lemma slots_few p : page_ok p -> (length (rows p) <= 4096)%nat.
Proof.
  intros H. pose proof (ok_room p H) as Hr. pose proof (base_le_end p H) as [_ Hb]. pose proof (base_le_end p H) as [Hb' _].
  unfold header_end, HeapPage.HEADER_SIZE, SLOT_ENTRY_SIZE, PAGE_SIZE, blen in *. rewrite length_rows. lia.
Qed.

Lemma next_slot_run id p more slot : page_ok p -> tight p -> (more + slot = length (slot_arr p))%nat ->
  match live_from id slot (drop slot (rows p)) with
  | [] => exists slot', next_slot more id p slot = Some (None, slot')
  | x :: rest => exists slot', next_slot more id p slot = Some (Some (Ok x), slot') /\ (slot' <= length (rows p))%nat /\ live_from id slot' (drop slot' (rows p)) = rest
  end.
Proof.
  intros Ho Ht. revert slot. induction more as [|more IH]; intros slot Hs; cbn [next_slot].
  - rewrite drop_ge by (rewrite length_rows; lia). cbn. eauto.
  - assert (slot < length (rows p))%nat as Hlt by (rewrite length_rows; lia). destruct (lookup_lt_is_Some_2 (rows p) slot Hlt) as [v Hv].
    rewrite (read_row p slot Ho Ht). unfold row_result. rewrite Hv, (drop_S _ _ _ Hv). cbn [mbind option_bind live_from]. destruct v as [t|].
    + exists (S slot). split; [|split; [lia|done]]. pose proof (slots_few p Ho). rewrite to_u16_small by lia. done.
    + apply IH. lia.
Qed.

(** A scanner with [cur] still to come from its page, then the pages [ids], then
    the chain [ds]. *)
Record scanning s (sc : HeapScanner) (cur : list (N * N * Tuple)) (ids : list N) (ds : list (N * PageDirectory)) : Prop := {
  sc_current : match current_page sc with
    | None => cur = []
    | Some (id, p) => page_ok p /\ tight p /\ (slot_idx sc <= length (rows p))%nat /\ cur = live_from id (slot_idx sc) (drop (slot_idx sc) (rows p))
    end;
  sc_ids : drop (data_idx sc) (data_page_ids sc) = ids;
  sc_dirs : ds = [] /\ dir_page_id sc = 0 \/ dir_page_id sc <> 0 /\ linked (pages s) (dir_page_id sc) ds;
  sc_loaded id : id ∈ ids ++ listed ds -> exists b p, pages s !! id = Some b /\ loaded id b p }.

Definition due s (cur : list (N * N * Tuple)) (ids : list N) (ds : list (N * PageDirectory)) : list (N * N * Tuple) := cur ++ file_rows s (ids ++ listed ds).
Definition ahead (ids : list N) (ds : list (N * PageDirectory)) : nat := (length ids + length ds + length (all ds))%nat.

Lemma next_loop_run s fuel : forall sc cur ids ds, scanning s sc cur ids ds -> (ahead ids ds < fuel)%nat ->
  match due s cur ids ds with
  | [] => exists sc', next_loop fuel sc s = Some (Ok (None, sc'), s)
  | x :: rest => exists sc' cur' ids' ds', next_loop fuel sc s = Some (Ok (Some (Ok x), sc'), s) /\ scanning s sc' cur' ids' ds' /\ due s cur' ids' ds' = rest /\ (ahead ids' ds' <= ahead ids ds)%nat
  end.
Proof.
  induction fuel as [|fuel IH]; intros sc cur ids ds [Hc Hi Hd Hl] Hf; [lia|]. cbn [next_loop].
  set (here := match current_page sc with Some (id, page) => next_slot (length (slot_arr page) - slot_idx sc) id page (slot_idx sc) | None => Some (None, slot_idx sc) end).
  assert (match cur with [] => exists slot', here = Some (None, slot')
          | x :: rest => exists slot' sc', here = Some (Some (Ok x), slot') /\ sc' = mkScanner (dir_page_id sc) (data_page_ids sc) (data_idx sc) slot' (current_page sc) /\ scanning s sc' rest ids ds end) as Hhere.
  { unfold here. destruct (current_page sc) as [[id p]|] eqn:Ec; [|subst cur; eauto]. destruct Hc as (C1 & C2 & C3 & ->).
    pose proof (next_slot_run id p (length (slot_arr p) - slot_idx sc) (slot_idx sc) C1 C2 ltac:(rewrite length_rows in C3; lia)) as Hn.
    destruct (live_from id (slot_idx sc) (drop (slot_idx sc) (rows p))) as [|x rest]; [done|]. destruct Hn as (slot' & En & Hle & Hrest).
    eexists slot', _. split; [done|]. split; [done|]. split; cbn; done. }
  destruct cur as [|x rest].
  2:{ destruct Hhere as (slot' & sc' & Eh & Esc & Hsc). cbn [due app]. exists sc', rest, ids, ds. rewrite (bind_run _ _ s (Some (Ok x), slot') s) by (unfold at_index; by rewrite Eh).
      split; [rewrite Esc; done|]. split; [done|]. split; [done|]. done. }
  destruct Hhere as (slot' & Eh). rewrite (bind_run _ _ s (None, slot') s) by (unfold at_index; by rewrite Eh). cbv zeta. cbn [data_page_ids data_idx dir_page_id].
  assert (data_page_ids sc !! data_idx sc = head ids) as Eid by (rewrite <- Hi; destruct (drop (data_idx sc) (data_page_ids sc)) eqn:E; rewrite <- (Nat.add_0_r (data_idx sc)), <- lookup_drop, E; done).
  rewrite Eid. destruct ids as [|id ids]; cbn [head].
  - destruct (N.eqb_spec (dir_page_id sc) 0) as [H0|H0].
    + destruct Hd as [[-> _]|[? _]]; [|done]. cbn. eauto.
    + destruct Hd as [[_ ?]|[_ Hlk]]; [done|]. assert (exists d ds', ds = (dir_page_id sc, d) :: ds' /\ dir_at (pages s) (dir_page_id sc) d /\ (ds' = [] /\ next_page_directory d = 0 \/ next_page_directory d <> 0 /\ linked (pages s) (next_page_directory d) ds')) as (d & ds' & -> & Hda & Hds).
      { inversion Hlk; subst; eauto 10. }
      rewrite (bind_run _ _ s (Ok d) s) by (unfold attempt; by rewrite (load_dir_run _ d s Hda)).
      assert (due s [] [] ((dir_page_id sc, d) :: ds') = due s [] (de_page <$> entries d) ds') as Edue by (unfold due; cbn [app]; by rewrite all_cons, fmap_app). rewrite Edue.
      assert (ahead (de_page <$> entries d) ds' < ahead [] ((dir_page_id sc, d) :: ds'))%nat as Ha.
      { unfold ahead. rewrite all_cons, length_app, length_fmap. cbn [length]. lia. }
      pose proof (IH (mkScanner (next_page_directory d) (de_page <$> entries d) 0 slot' None) [] (de_page <$> entries d) ds') as Hn.
      destruct (due s [] (de_page <$> entries d) ds') as [|x rest]; [apply Hn; [split; try done|lia]|]; [intros i Hi'; apply Hl; rewrite all_cons, fmap_app; done|].
      destruct Hn as (sc' & cur' & ids' & ds2 & N1 & N2 & N3 & N4); [split; try done|lia|]; [intros i Hi'; apply Hl; rewrite all_cons, fmap_app; done|].
      exists sc', cur', ids', ds2. split; [done|]. split; [done|]. split; [done|lia].
  - destruct (Hl id ltac:(left)) as (b & p & Hb & Hp).
    rewrite (bind_run _ _ s (Ok p) s) by (unfold attempt; by rewrite (load_page_inv id s b p Hb (ld_page _ _ _ Hp))).
    assert (due s [] (id :: ids) ds = due s (live_from id 0 (rows p)) ids ds) as Edue.
    { unfold due, file_rows. cbn [app fmap list_fmap concat]. by rewrite (page_rows_loaded s id b p Hb Hp). }
    rewrite Edue. assert (scanning s (mkScanner (dir_page_id sc) (data_page_ids sc) (S (data_idx sc)) 0 (Some (id, p))) (live_from id 0 (rows p)) ids ds) as Hsc.
    { split; cbn.
      - split; [apply Hp|]. split; [apply Hp|]. split; [lia|done].
      - rewrite <- Nat.add_1_r, <- drop_drop, Hi. done.
      - done.
      - intros i Hi'. apply Hl. by right. }
    pose proof (IH _ _ ids ds Hsc ltac:(unfold ahead in *; cbn in Hf; lia)) as Hn. destruct (due s (live_from id 0 (rows p)) ids ds) as [|x rest]; [done|].
    destruct Hn as (sc' & cur' & ids' & ds2 & N1 & N2 & N3 & N4). exists sc', cur', ids', ds2. split; [done|]. split; [done|]. split; [done|]. unfold ahead in *. cbn. lia.
Qed.

Lemma collect_run s n : forall sc cur ids ds, scanning s sc cur ids ds -> (ahead ids ds <= size (pages s))%nat -> (length (due s cur ids ds) < n)%nat ->
  collect n sc s = Some (Ok (Ok <$> due s cur ids ds), s).
Proof.
  induction n as [|n IH]; intros sc cur ids ds Hsc Ha Hn; [lia|]. cbn [collect].
  pose proof (next_loop_run s (S (S (size (pages s)))) sc cur ids ds Hsc ltac:(lia)) as Hx. unfold next. destruct (due s cur ids ds) as [|x rest] eqn:Ed.
  - destruct Hx as [sc' Ex]. rewrite (bind_run _ _ s (None, sc') s); [done|]. by rewrite (bind_run eget _ s s s) by done.
  - destruct Hx as (sc' & cur' & ids' & ds' & Ex & Hsc' & Ed' & Ha'). rewrite (bind_run _ _ s (Some (Ok x), sc') s) by (by rewrite (bind_run eget _ s s s) by done).
    rewrite (bind_run _ _ s (Ok <$> rest) s); [done|]. rewrite <- Ed'. apply IH; [done|lia|]. rewrite Ed'. cbn in Hn. lia.
Qed.

Lemma live_from_spec id k rs i t : (id, i, t) ∈ live_from id k rs <-> exists j, i = N.of_nat (k + j) /\ rs !! j = Some (Some t).
Proof.
  revert k. induction rs as [|[u|] rs IH]; intros k; cbn [live_from].
  - rewrite elem_of_nil. split; [done|]. intros (j & _ & Hj). done.
  - rewrite elem_of_cons, IH. split.
    + intros [[= -> ->]|(j & -> & Hj)]; [exists 0%nat; split; [f_equal; lia|done]|exists (S j); split; [f_equal; lia|done]].
    + intros ([|j] & -> & Hj); [left; injection Hj as ->; do 2 f_equal; lia|right; exists j; split; [f_equal; lia|done]].
  - rewrite IH. split.
    + intros (j & -> & Hj). exists (S j). split; [f_equal; lia|done].
    + intros ([|j] & -> & Hj); [done|]. exists j. split; [f_equal; lia|done].
Qed.

Lemma live_from_page id k rs x : x ∈ live_from id k rs -> x.1.1 = id /\ N.of_nat k <= x.1.2.
Proof.
  revert k. induction rs as [|[u|] rs IH]; intros k; cbn [live_from]; [by rewrite elem_of_nil|rewrite elem_of_cons; intros [->|H]; [done|]|intros H]; apply IH in H as [H1 H2]; split; [done|lia|done|lia].
Qed.

Lemma live_from_once id k rs : NoDup (live_from id k rs).*1.
Proof.
  revert k. induction rs as [|[u|] rs IH]; intros k; cbn; [constructor| |apply IH]. apply NoDup_cons. split; [|apply IH].
  intros Hin. apply list_elem_of_fmap in Hin as (y & Ey & Hy). apply live_from_page in Hy as [_ Hy]. rewrite <- Ey in Hy. cbn in Hy. lia.
Qed.

Lemma page_rows_page s id x : x ∈ page_rows s id -> x.1.1 = id.
Proof. unfold page_rows. destruct (pages s !! id) as [b|]; [|by rewrite elem_of_nil]. destruct (HeapPage.deserialize b) as [p|]; [|by rewrite elem_of_nil]. intros H. by apply live_from_page in H as [? _]. Qed.

Lemma file_rows_once s ids : NoDup ids -> NoDup (file_rows s ids).*1.
Proof.
  induction 1 as [|id ids Hni _ IH]; [constructor|]. unfold file_rows. cbn. rewrite fmap_app. apply NoDup_app. split; [|split; [|done]].
  - unfold page_rows. destruct (pages s !! id) as [b|]; [|constructor]. destruct (HeapPage.deserialize b); [apply live_from_once|constructor].
  - intros r Hr Hr'. apply list_elem_of_fmap in Hr as (x & -> & Hx). apply page_rows_page in Hx. apply list_elem_of_fmap in Hr' as (y & Ey & Hy).
    apply list_elem_of_In, in_concat in Hy as (l & Hl & Hy). apply list_elem_of_In, list_elem_of_fmap in Hl as (i & -> & Hi).
    apply list_elem_of_In, page_rows_page in Hy. apply Hni. congruence.
Qed.

Lemma row_result_ok (rs : list (option (list byte))) i t : rs !! i = Some (Some t) -> row_result rs i = Ok t.
Proof. unfold row_result. by intros ->. Qed.

Lemma file_rows_spec s ids id i t : (forall j, j ∈ ids -> exists b p, pages s !! j = Some b /\ loaded j b p) ->
  (id, i, t) ∈ file_rows s ids <-> id ∈ ids /\ row_at s (id, i) = Some (Ok t).
Proof.
  intros Hl. unfold file_rows. rewrite list_elem_of_In, in_concat. split.
  - intros (l & Hin & Hx). apply list_elem_of_In, list_elem_of_fmap in Hin as (j & -> & Hj). apply list_elem_of_In in Hx.
    pose proof (page_rows_page s j _ Hx) as Ej. cbn in Ej. subst j. split; [done|]. destruct (Hl id Hj) as (b & p & Hb & Hp).
    rewrite (page_rows_loaded s id b p Hb Hp) in Hx. apply live_from_spec in Hx as (k & -> & Hk). rewrite (row_at_loaded s id b p _ Hb Hp).
    by rewrite Nat2N.id, (row_result_ok (rows p) (0 + k) t Hk).
  - intros [Hj Hr]. destruct (Hl id Hj) as (b & p & Hb & Hp). rewrite (row_at_loaded s id b p i Hb Hp) in Hr. unfold row_result in Hr.
    exists (page_rows s id). split; [apply list_elem_of_In; by apply list_elem_of_fmap_2|]. apply list_elem_of_In. rewrite (page_rows_loaded s id b p Hb Hp).
    apply live_from_spec. exists (N.to_nat i). split; [cbn; lia|]. destruct (rows p !! N.to_nat i) as [[u|]|]; [by injection Hr as ->|done..].
Qed.

Lemma file_ahead s h ds : file_ok s h ds -> (ahead [] ds <= size (pages s))%nat.
Proof.
  intros [Hl Hn Hu Ha Hd]. unfold ahead. cbn [length]. rewrite <- (length_fmap fst ds), <- (length_fmap de_page (all ds)). cbn. rewrite <- length_app.
  rewrite <- (size_list_to_set (C:=gset N) (ds.*1 ++ listed ds)), <- size_dom.
  - apply subseteq_size. intros i Hi%elem_of_list_to_set. apply elem_of_dom. apply elem_of_app in Hi as [Hi|Hi]; [by eapply linked_in|]. destruct (Hd i Hi) as (b & p & Hb & _). eauto.
  - apply NoDup_app. split; [done|]. split; [|done]. intros i Hi Hi'. by apply (Ha i).
Qed.

(** C15: a scan returns every row of the file once. Over a heap file whose
    directories are in order, a caller that takes all items of a scan gets no
    error and is told the end: the records are pairwise distinct, and a record is
    among them with a tuple exactly if its page belongs to the file and reading it
    returns that tuple. *)
Theorem scan_returns_every_row s h ds :
  file_ok s h ds -> first_directory_page_id h <> 0 ->
  exists items, (forall n, (length items < n)%nat -> collect n (scan h) s = Some (Ok (Ok <$> items), s)) /\ NoDup items.*1 /\
    forall id i t, (id, i, t) ∈ items <-> id ∈ listed ds /\ row_at s (id, i) = Some (Ok t).
Proof.
  intros Hfo H0. assert (scanning s (scan h) [] [] ds) as Hsc.
  { split; [done|done|right; split; [done|apply Hfo]|]. intros id Hid. by apply (fo_data _ _ _ Hfo). }
  exists (file_rows s (listed ds)). split; [|split].
  - intros n Hn. exact (collect_run s n (scan h) [] [] ds Hsc (file_ahead s h ds Hfo) Hn).
  - apply file_rows_once, Hfo.
  - intros id i t. apply file_rows_spec. intros j Hj. by apply (fo_data _ _ _ Hfo).
Qed.
End Files.

(** * A file on concrete pages *)

(** A file with one directory, which lists nothing, and a transaction that writes
    to it. *)
Definition file2 : HeapFileManager := mkHeapFile 2 (Some 1).
Definition writer : TxnEntry := mkTxnEntry Running 24 24 None.
Definition file_db (d : PageDirectory) (ps : gmap N (list byte)) (fs : list (option N)) : Db unit :=
  mkDb fresh_log (<[2 := dir_image d]> ps) ∅ ∅ [] [] fs 256 Standalone 0 (Grants.new 1 256) {[1 := writer]} 0 [] [] ∅ ∅ 0 tt.

Lemma file_db_logs d ps fs : can_log (file_db d ps fs) file2.
Proof. split; [done|]. intros txn [= <-]. change (is_Some (({[1 := writer]} : gmap N TxnEntry) !! 1)). rewrite lookup_singleton_eq. eauto. Qed.

Definition bare : Db unit := file_db (PageDirectory.new 2) ∅ [Some 5].
Definition row_c : list byte := row_of 4060.

Lemma bare_ok : file_ok bare file2 [(2, PageDirectory.new 2)] /\ fresh_ok bare.
Proof.
  split; [split|split].
  - apply linked_last; [|done]. split; [apply lookup_insert_eq|]. split; [done|done|done|done|constructor].
  - apply NoDup_singleton.
  - constructor.
  - intros id Hid%not_elem_of_nil. done.
  - intros id Hid%not_elem_of_nil. done.
  - apply NoDup_singleton.
  - intros i Hi. apply list_elem_of_singleton in Hi as ->. done.
Qed.

Lemma heap_insert_reads_back_witness :
  exists s', HeapFile.insert file2 row_a bare = Some (Ok (5, 0), s') /\ row_at s' (5, 0) = Some (Ok row_a).
Proof.
  destruct bare_ok as [Hfo Hfr].
  destruct (heap_insert_reads_back bare file2 [(2, PageDirectory.new 2)] row_a Hfo Hfr (file_db_logs _ _ _) ltac:(done)) as (r & s' & ds' & E & _ & _ & _ & _ & Hr).
  assert (exists x, HeapFile.insert file2 row_a bare = Some (Ok (5, 0), x)) as [x Ex] by (eexists; by vm_compute).
  rewrite Ex in E. injection E as <- <-. exists x. split; [exact Ex|]. apply Hr.
Defined.

(** The same file with a page that holds a row, and a row too long for it. *)
Definition page_a : Page := match HeapPage.insert (HeapPage.empty 5) row_a with Ok (p, _) => p | Err _ => HeapPage.empty 5 end.
Definition dir_a : PageDirectory := mkDir 2 0 1 [mkDirEntry 5 4039].
Definition taken : Db unit := file_db dir_a {[5 := image page_a]} [Some 6].

Lemma page_a_loaded : loaded 5 (image page_a) (reloaded page_a).
Proof.
  destruct (empty_ok 5 ltac:(done)) as [Ho Ht]. pose proof (insert_row (HeapPage.empty 5) row_a Ho Ht ltac:(done)) as H.
  assert (exists q i, HeapPage.insert (HeapPage.empty 5) row_a = Ok (q, i)) as (q & i & Eq) by (eexists _, _; by vm_compute).
  assert (page_a = q) as Ep by (unfold page_a; by rewrite Eq). rewrite Eq in H. destruct H as (_ & _ & H & _). rewrite <- Ep in H. by apply (image_loaded page_a).
Qed.

Lemma taken_ok : file_ok taken file2 [(2, dir_a)] /\ fair taken [(2, dir_a)] /\ fresh_ok taken.
Proof.
  assert (pages taken !! 5 = Some (image page_a)) as H5.
  { change (pages taken) with (<[2 := dir_image dir_a]> {[5 := image page_a]} : gmap N (list byte)). rewrite lookup_insert_ne by done. apply lookup_singleton_eq. }
  split; [split|split; [|split]].
  - apply linked_last; [|done]. split; [apply lookup_insert_eq|]. split; [done|done|done|done|]. by repeat constructor.
  - apply NoDup_singleton.
  - apply NoDup_singleton.
  - intros id Hid. apply list_elem_of_singleton in Hid as ->. cbn. by rewrite list_elem_of_singleton.
  - intros id Hid. apply list_elem_of_singleton in Hid as ->. exists (image page_a), (reloaded page_a). split; [exact H5|exact page_a_loaded].
  - constructor; [|constructor]. exists (image page_a), (reloaded page_a). split; [exact H5|]. split; [exact page_a_loaded|]. by vm_compute.
  - apply NoDup_singleton.
  - intros i Hi. apply list_elem_of_singleton in Hi as ->. done.
Qed.

Lemma heap_update_all_or_nothing_witness :
  exists s', HeapFile.update file2 (5, 0) row_c taken = Some (Ok (6, 0), s') /\ row_at s' (6, 0) = Some (Ok row_c) /\ row_at s' (5, 0) = Some (Err SlotDeleted).
Proof.
  destruct taken_ok as (Hfo & Hf & Hfr).
  destruct (heap_update_all_or_nothing taken file2 [(2, dir_a)] (5, 0) row_c Hfo Hf Hfr (file_db_logs _ _ _) ltac:(by vm_compute) ltac:(left)) as (r & s' & ds' & E & _ & _ & _ & _ & Hr).
  assert (exists x, HeapFile.update file2 (5, 0) row_c taken = Some (Ok (6, 0), x)) as [x Ex] by (eexists; by vm_compute).
  rewrite Ex in E. injection E as <- <-. exists x. split; [exact Ex|]. destruct Hr as (_ & H1 & [[=]|H2] & _). split; [exact H1|exact H2].
Defined.

Lemma scan_returns_every_row_witness :
  exists items, collect (S (length items)) (scan file2) taken = Some (Ok (Ok <$> items), taken) /\ (5, 0, row_a) ∈ items.
Proof.
  destruct taken_ok as (Hfo & _ & _). destruct (scan_returns_every_row taken file2 [(2, dir_a)] Hfo ltac:(done)) as (items & H1 & _ & H3).
  exists items. split; [apply H1; lia|]. apply (H3 5 0 row_a). split; [left|by vm_compute].
Defined.
