(* ===== verification/Types.v ===== *)
(** The data of the consensus layer: commands, log entries, messages, events
    and actions of [src/src/consensus/mod.rs], and the envelope of a snapshot
    ([SnapshotMeta] of [snapshot.rs]). *)
From S2P Require Import Prelude Bytes Errors WalRecord Config.

Inductive BranchOp : Type :=
| Fork (child parent fork_epoch lease_millis : u64)
| Merge (branch : u64) (base_round : Round)
| Abandon (branch : u64)
| Reap (branch : u64) (generation : u32).

Inductive Command : Type :=
| WalBatch (start_lsn : u64) (bytes : list byte)
| Catalog (op : DdlOp) (table : list byte) (columns : list (list byte * DataType * bool))
| Branch (op : BranchOp)
| ArenaGrant (node : NodeId) (first_page page_count : u32)
| TxnIdRange (node : NodeId) (lo hi : u64)
| LeaseTick (unix_millis : u64)
| Checkpoint
| Membership (config : Config)
| NoOp.

Record Entry := mkEntry { e_term : Term; e_round : Round; e_command : Command }.

Inductive Role : Type := Follower | PreCandidate | Candidate | Leader.

Record SnapshotMeta := mkMeta {
  meta_last_round : Round;
  meta_last_term : Term;
  meta_config : Config;
  meta_total_bytes : u64
}.

Inductive Body : Type :=
| PreVote (last_term : Term) (last_round : Round)
| PreVoteResp (granted : bool)
| RequestVote (last_term : Term) (last_round : Round)
| RequestVoteResp (granted : bool)
| Append (prev_round : Round) (prev_term : Term) (entries : list Entry) (commit : Round)
| AppendResp (success : bool) (matched hint : Round) (digest : u64)
| InstallSnapshot (meta : SnapshotMeta) (offset : u64) (data : list byte) (done_ : bool)
| InstallSnapshotResp (received_through : u64).

Record Message := mkMessage {
  m_from : NodeId;
  m_to : NodeId;
  m_term : Term;
  m_body : Body
}.

Inductive Event : Type :=
| Tick
| Recv (m : Message)
| Persisted (term : Term) (round : Round)
| Propose (c : Command).

Inductive Action : Type :=
| Send (m : Message)
| Persist (entries : list Entry)
| PersistHardState (term : Term) (voted_for : option NodeId)
| Apply (through : Round)
| Truncate (from : Round)
| RoleChanged (role : Role) (term : Term) (leader : option NodeId)
| Refuse (why : FerroError).

Record HardState := mkHard { hard_term : Term; voted_for : option NodeId }.
Definition hard_default : HardState := mkHard 0 None.

#[export] Instance Role_eq_dec : EqDecision Role.
Proof. solve_decision. Defined.
#[export] Instance DataType_eq_dec : EqDecision DataType.
Proof. solve_decision. Defined.
#[export] Instance ColumnAlteration_eq_dec : EqDecision ColumnAlteration.
Proof. solve_decision. Defined.
#[export] Instance DdlOp_eq_dec : EqDecision DdlOp.
Proof. solve_decision. Defined.
#[export] Instance BranchOp_eq_dec : EqDecision BranchOp.
Proof. solve_decision. Defined.
#[export] Instance Command_eq_dec : EqDecision Command.
Proof. solve_decision. Defined.
#[export] Instance Entry_eq_dec : EqDecision Entry.
Proof. solve_decision. Defined.
#[export] Instance SnapshotMeta_eq_dec : EqDecision SnapshotMeta.
Proof. solve_decision. Defined.

(** [Body::is_request] and [Body::stale_refusal]; the latter is called on
    requests only, and panics ([None]) on a response. *)
Definition is_request (b : Body) : bool :=
  match b with
  | PreVote _ _ | RequestVote _ _ | Append _ _ _ _ | InstallSnapshot _ _ _ _ => true
  | _ => false
  end.

Definition stale_refusal (b : Body) : option Body :=
  match b with
  | PreVote _ _ => Some (PreVoteResp false)
  | RequestVote _ _ => Some (RequestVoteResp false)
  | Append _ _ _ _ => Some (AppendResp false 0 0 0)
  | InstallSnapshot _ _ _ _ => Some (InstallSnapshotResp 0)
  | _ => None
  end.
