(* ===== verification/Transport.v ===== *)
(** The consensus wire codec of [src/src/consensus/transport.rs]: encoding,
    decoding and the per-entry admission check. The two directions of the
    format are proved against each other: what is encoded decodes to the
    message it was made from, and what decodes re-encodes to exactly the bytes
    that arrived. *)
From S2P Require Import Prelude Bytes Errors WalRecord Config Types.

Definition MAX_FRAME_BYTES : N := 8 * 1024 * 1024.
Definition MAX_CONFIG_NODES : N := 1024.
Definition MAC_LEN : N := 32.
Definition CONSENSUS_TAG : N := 67.
Definition RECKIND_DDL_TAG : N := 9.

(** Kind bytes of the message bodies, the commands and the branch operations. *)
Definition K_PRE_VOTE : N := 0.
Definition K_PRE_VOTE_RESP : N := 1.
Definition K_REQUEST_VOTE : N := 2.
Definition K_REQUEST_VOTE_RESP : N := 3.
Definition K_APPEND : N := 4.
Definition K_APPEND_RESP : N := 5.
Definition K_INSTALL_SNAPSHOT : N := 6.
Definition K_INSTALL_SNAPSHOT_RESP : N := 7.
Definition C_WAL_BATCH : N := 0.
Definition C_CATALOG : N := 1.
Definition C_BRANCH : N := 2.
Definition C_ARENA_GRANT : N := 3.
Definition C_TXN_ID_RANGE : N := 4.
Definition C_LEASE_TICK : N := 5.
Definition C_CHECKPOINT : N := 6.
Definition C_MEMBERSHIP : N := 7.
Definition C_NO_OP : N := 8.
Definition B_FORK : N := 0.
Definition B_MERGE : N := 1.
Definition B_ABANDON : N := 2.
Definition B_REAP : N := 3.

(** * Encoding: every step appends to the buffer it is given. *)

Abbreviation Buf := (Result FerroError (list byte)) (only parsing).

Definition too_big (n : N) : FerroError := Wal (TooBig n).

Definition room (b : list byte) (adding : N) : Result FerroError unit :=
  refuse_if (MAX_FRAME_BYTES <? blen b + adding)%N (too_big (blen b + adding)).

Definition put_u8 (b : list byte) (v : N) : list byte := b ++ [u8 v].
Definition put_u32 (b : list byte) (v : u32) : list byte := b ++ be_bytes 4 v.
Definition put_u64 (b : list byte) (v : u64) : list byte := b ++ be_bytes 8 v.
Definition put_bool (b : list byte) (v : bool) : list byte :=
  b ++ [u8 (if v then 1 else 0)].

Definition put_bytes (b v : list byte) : Buf :=
  _ ← room b (4 + blen v);
  Ok (put_u32 b (blen v) ++ v).

Definition encode_branch_op (b : list byte) (op : BranchOp) : list byte :=
  match op with
  | Fork child parent fork_epoch lease_millis =>
      put_u64 (put_u64 (put_u64 (put_u64 (put_u8 b B_FORK) child) parent) fork_epoch) lease_millis
  | Merge branch base_round => put_u64 (put_u64 (put_u8 b B_MERGE) branch) base_round
  | Abandon branch => put_u64 (put_u8 b B_ABANDON) branch
  | Reap branch generation => put_u32 (put_u64 (put_u8 b B_REAP) branch) generation
  end.

Definition put_node_list (b : list byte) (l : list NodeId) : Buf :=
  _ ← refuse_if (MAX_CONFIG_NODES <? blen l)%N (Wal (ConfigTooLarge (blen l)));
  _ ← room b (4 + blen l * 4);
  _ ← refuse_if (max_u32 <? blen l)%N (too_big (blen l));
  Ok (fold_left put_u32 l (put_u32 b (blen l))).

Definition encode_config (b : list byte) (cfg : Config) : Buf :=
  let b := put_u64 (put_u64 b (cfg_version cfg)) (cfg_term cfg) in
  b ← put_node_list b (members cfg);
  put_node_list b (learners cfg).

Definition encode_snapshot_meta (b : list byte) (meta : SnapshotMeta) : Buf :=
  encode_config
    (put_u64 (put_u64 (put_u64 b (meta_last_round meta)) (meta_last_term meta))
       (meta_total_bytes meta))
    (meta_config meta).

Definition encode_command (b : list byte) (c : Command) : Buf :=
  match c with
  | WalBatch start_lsn bytes => put_bytes (put_u64 (put_u8 b C_WAL_BATCH) start_lsn) bytes
  | Catalog op table columns =>
      rec_bytes ← serialize [] (RecDdl op table 0 0 columns);
      put_bytes (put_u8 b C_CATALOG) rec_bytes
  | Branch op => Ok (encode_branch_op (put_u8 b C_BRANCH) op)
  | ArenaGrant node first_page page_count =>
      Ok (put_u32 (put_u32 (put_u32 (put_u8 b C_ARENA_GRANT) node) first_page) page_count)
  | TxnIdRange node lo hi => Ok (put_u64 (put_u64 (put_u32 (put_u8 b C_TXN_ID_RANGE) node) lo) hi)
  | LeaseTick unix_millis => Ok (put_u64 (put_u8 b C_LEASE_TICK) unix_millis)
  | Checkpoint => Ok (put_u8 b C_CHECKPOINT)
  | Membership config => encode_config (put_u8 b C_MEMBERSHIP) config
  | NoOp => Ok (put_u8 b C_NO_OP)
  end.

Definition encode_entry (b : list byte) (e : Entry) : Buf :=
  _ ← room b 17;
  encode_command (put_u64 (put_u64 b (e_term e)) (e_round e)) (e_command e).

Fixpoint encode_entries (b : list byte) (es : list Entry) : Buf :=
  match es with
  | [] => Ok b
  | e :: es => b ← encode_entry b e; encode_entries b es
  end.

Definition encode_body (b : list byte) (body : Body) : Buf :=
  match body with
  | PreVote last_term last_round =>
      Ok (put_u64 (put_u64 (put_u8 b K_PRE_VOTE) last_term) last_round)
  | PreVoteResp granted => Ok (put_bool (put_u8 b K_PRE_VOTE_RESP) granted)
  | RequestVote last_term last_round =>
      Ok (put_u64 (put_u64 (put_u8 b K_REQUEST_VOTE) last_term) last_round)
  | RequestVoteResp granted => Ok (put_bool (put_u8 b K_REQUEST_VOTE_RESP) granted)
  | Append prev_round prev_term entries commit =>
      let b := put_u64 (put_u64 (put_u64 (put_u8 b K_APPEND) prev_round) prev_term) commit in
      _ ← room b 4;
      _ ← refuse_if (max_u32 <? blen entries)%N (too_big (blen entries));
      encode_entries (put_u32 b (blen entries)) entries
  | AppendResp success matched hint digest =>
      Ok (put_u64 (put_u64 (put_u64 (put_bool (put_u8 b K_APPEND_RESP) success) matched) hint) digest)
  | InstallSnapshot meta offset data done_ =>
      b ← encode_snapshot_meta (put_u8 b K_INSTALL_SNAPSHOT) meta;
      put_bytes (put_bool (put_u64 b offset) done_) data
  | InstallSnapshotResp received_through =>
      Ok (put_u64 (put_u8 b K_INSTALL_SNAPSHOT_RESP) received_through)
  end.

Definition message_body (m : Message) : Buf :=
  body ← encode_body (put_u64 (put_u32 (put_u32 [] (m_from m)) (m_to m)) (m_term m)) (m_body m);
  _ ← refuse_if (MAX_FRAME_BYTES <? blen body)%N (too_big (blen body));
  Ok body.

(** [encode_signed(m, None)]. *)
Definition encode (m : Message) : Buf :=
  body ← message_body m;
  Ok ([u8 CONSENSUS_TAG] ++ be_bytes 4 (blen body) ++ body).

Definition append_entries_budget : N :=
  match message_body (mkMessage 0 0 0 (Append 0 0 [] 0)) with
  | Ok b => MAX_FRAME_BYTES - (blen b + MAC_LEN)
  | Err _ => 0
  end.

(** [usize::MAX] when the encoder refuses the entry. *)
Definition entry_wire_len (e : Entry) : N :=
  match encode_entry [] e with
  | Ok b => blen b
  | Err _ => max_u64
  end.

Definition admit_entry (e : Entry) : Result FerroError unit :=
  b ← encode_entry [] e;
  refuse_if (append_entries_budget <? blen b)%N (Wal (EntryTooBig (blen b) append_entries_budget)).

(** * Decoding *)

Definition take_bool : Reader bool :=
  v ← take_u8;
  if (v =? 0)%N then mret false
  else if (v =? 1)%N then mret true
  else fail_with (Wal (BadFlag v)).

Definition take_bytes : Reader (list byte) :=
  len ← take_u32;
  take_slice (N.to_nat len).

Definition lift_result {A : Type} (r : Result FerroError A) : Reader A := fun _ at_ =>
  match r with Ok a => Ok (a, at_) | Err e => Err e end.

(** [RecKind::deserialize] is reached with the [Ddl] tag only, where it cannot
    panic; the last arm is the panic of the heap arms. *)
Definition deserialize_ddl (rec_bytes : list byte) : Result FerroError RecKind :=
  match deserialize rec_bytes with
  | Some r => r
  | None => Err (Wal CatalogNotDdlAfterAll)
  end.

Definition decode_catalog : Reader Command :=
  rec_bytes ← take_bytes;
  match rec_bytes with
  | [] => fail_with (Wal CatalogEmpty)
  | b0 :: _ =>
      if negb (byteN b0 =? RECKIND_DDL_TAG)%N then fail_with (Wal (CatalogNotDdl (byteN b0)))
      else
        decoded ← lift_result (deserialize_ddl rec_bytes);
        reencoded ← lift_result (serialize [] decoded);
        if bool_decide (reencoded = rec_bytes) then
          match decoded with
          | RecDdl op table dir_root time_travel_root columns =>
              if negb (dir_root =? 0)%N || negb (time_travel_root =? 0)%N
              then fail_with (Wal (CatalogPageIds dir_root time_travel_root))
              else mret (Catalog op table columns)
          | _ => fail_with (Wal CatalogNotDdlAfterAll)
          end
        else fail_with (Wal (CatalogNotCanonical (blen rec_bytes) (blen reencoded)))
  end.

Definition decode_branch_op : Reader BranchOp :=
  tag ← take_u8;
  if (tag =? B_FORK)%N then
    child ← take_u64; parent ← take_u64; fork_epoch ← take_u64; lease_millis ← take_u64;
    mret (Fork child parent fork_epoch lease_millis)
  else if (tag =? B_MERGE)%N then
    branch ← take_u64; base_round ← take_u64; mret (Merge branch base_round)
  else if (tag =? B_ABANDON)%N then branch ← take_u64; mret (Abandon branch)
  else if (tag =? B_REAP)%N then
    branch ← take_u64; generation ← take_u32; mret (Reap branch generation)
  else fail_with (Wal (UnknownBranchOp tag)).

(** The loop of [decode_node_list]: [prev] is [out.last()]. *)
Fixpoint decode_ids (count : nat) (prev : option NodeId) : Reader (list NodeId) :=
  match count with
  | O => mret []
  | S count =>
      n ← take_u32;
      match prev with
      | Some p =>
          if (n <=? p)%N then fail_with (Wal (NodeListNotAscending p n))
          else rest ← decode_ids count (Some n); mret (n :: rest)
      | None => rest ← decode_ids count (Some n); mret (n :: rest)
      end
  end.

Definition decode_node_list : Reader (list NodeId) :=
  count ← take_u32;
  if (MAX_CONFIG_NODES <? count)%N then fail_with (Wal (NodeListTooLong count))
  else decode_ids (N.to_nat count) None.

(** The two-pointer walk over two ascending lists: one of the two cursors
    advances at every turn, so their sum bounds the turns. *)
Fixpoint first_common_fuel (fuel : nat) (a b : list NodeId) : option NodeId :=
  match fuel with
  | O => None
  | S fuel =>
      match a, b with
      | x :: a', y :: b' =>
          match N.compare x y with
          | Eq => Some x
          | Lt => first_common_fuel fuel a' b
          | Gt => first_common_fuel fuel a b'
          end
      | _, _ => None
      end
  end.
Definition first_common (a b : list NodeId) : option NodeId :=
  first_common_fuel (S (length a + length b)) a b.

Definition decode_config : Reader Config :=
  version ← take_u64;
  term ← take_u64;
  ms ← decode_node_list;
  ls ← decode_node_list;
  match first_common ms ls with
  | Some n => fail_with (Wal (VoterAndLearner n))
  | None =>
      let cfg := Config.with_learners (Config.new ms version term) ls in
      if bool_decide (members cfg = ms) && bool_decide (learners cfg = ls) then mret cfg
      else fail_with (Wal ConfigChanged)
  end.

Definition decode_snapshot_meta : Reader SnapshotMeta :=
  last_round ← take_u64;
  last_term ← take_u64;
  total_bytes ← take_u64;
  config ← decode_config;
  mret (mkMeta last_round last_term config total_bytes).

Definition decode_command : Reader Command :=
  tag ← take_u8;
  if (tag =? C_WAL_BATCH)%N then
    start_lsn ← take_u64; bytes ← take_bytes; mret (WalBatch start_lsn bytes)
  else if (tag =? C_CATALOG)%N then decode_catalog
  else if (tag =? C_BRANCH)%N then op ← decode_branch_op; mret (Branch op)
  else if (tag =? C_ARENA_GRANT)%N then
    node ← take_u32; first_page ← take_u32; page_count ← take_u32;
    mret (ArenaGrant node first_page page_count)
  else if (tag =? C_TXN_ID_RANGE)%N then
    node ← take_u32; lo ← take_u64; hi ← take_u64; mret (TxnIdRange node lo hi)
  else if (tag =? C_LEASE_TICK)%N then unix_millis ← take_u64; mret (LeaseTick unix_millis)
  else if (tag =? C_CHECKPOINT)%N then mret Checkpoint
  else if (tag =? C_MEMBERSHIP)%N then config ← decode_config; mret (Membership config)
  else if (tag =? C_NO_OP)%N then mret NoOp
  else fail_with (Wal (UnknownCommand tag)).

Definition decode_entry : Reader Entry :=
  term ← take_u64;
  round ← take_u64;
  command ← decode_command;
  mret (mkEntry term round command).

(** An entry that fails to decode is reported with its position. *)
Definition entry_context (i count : N) (rd : Reader Entry) : Reader Entry := fun bytes at_ =>
  map_err (fun e => Wal (EntryOf i count e)) (rd bytes at_).

Fixpoint decode_entries (todo : nat) (i count : N) : Reader (list Entry) :=
  match todo with
  | O => mret []
  | S todo =>
      e ← entry_context i count decode_entry;
      es ← decode_entries todo (i + 1) count;
      mret (e :: es)
  end.

Definition decode_append : Reader Body :=
  prev_round ← take_u64;
  prev_term ← take_u64;
  commit ← take_u64;
  count ← take_u32;
  entries ← decode_entries (N.to_nat count) 0 count;
  mret (Append prev_round prev_term entries commit).

Definition decode_body : Reader Body :=
  kind ← take_u8;
  if (kind =? K_PRE_VOTE)%N then
    last_term ← take_u64; last_round ← take_u64; mret (PreVote last_term last_round)
  else if (kind =? K_PRE_VOTE_RESP)%N then granted ← take_bool; mret (PreVoteResp granted)
  else if (kind =? K_REQUEST_VOTE)%N then
    last_term ← take_u64; last_round ← take_u64; mret (RequestVote last_term last_round)
  else if (kind =? K_REQUEST_VOTE_RESP)%N then granted ← take_bool; mret (RequestVoteResp granted)
  else if (kind =? K_APPEND)%N then decode_append
  else if (kind =? K_APPEND_RESP)%N then
    success ← take_bool; matched ← take_u64; hint ← take_u64; digest ← take_u64;
    mret (AppendResp success matched hint digest)
  else if (kind =? K_INSTALL_SNAPSHOT)%N then
    meta ← decode_snapshot_meta; offset ← take_u64; done_ ← take_bool; data ← take_bytes;
    mret (InstallSnapshot meta offset data done_)
  else if (kind =? K_INSTALL_SNAPSHOT_RESP)%N then
    received_through ← take_u64; mret (InstallSnapshotResp received_through)
  else fail_with (Wal (UnknownKind kind)).

Definition decode_message : Reader Message :=
  from ← take_u32;
  to ← take_u32;
  term ← take_u64;
  body ← decode_body;
  mret (mkMessage from to term body).

Definition decode (body : list byte) : Result FerroError Message :=
  match decode_message body 0 with
  | Ok (m, at_) =>
      if (at_ =? length body) then Ok m
      else Err (Wal (LeftOver (N.of_nat (length body - at_))))
  | Err e => Err e
  end.

(** * Values of their Rust types *)

Definition branch_op_ok (op : BranchOp) : Prop :=
  match op with
  | Fork a b c d => u64_ok a /\ u64_ok b /\ u64_ok c /\ u64_ok d
  | Merge a b => u64_ok a /\ u64_ok b
  | Abandon a => u64_ok a
  | Reap a g => u64_ok a /\ u32_ok g
  end.

(** A configuration is only built by its constructors, which keep [config_wf]. *)
Definition config_ok (c : Config) : Prop :=
  config_wf c /\ u64_ok (cfg_version c) /\ u64_ok (cfg_term c)
  /\ Forall u32_ok (members c) /\ Forall u32_ok (learners c).

Definition command_ok (c : Command) : Prop :=
  match c with
  | WalBatch l _ => u64_ok l
  | Catalog op table columns => op_ok op /\ str_ok table /\ Forall column_ok columns
  | Branch op => branch_op_ok op
  | ArenaGrant n f p => u32_ok n /\ u32_ok f /\ u32_ok p
  | TxnIdRange n l h => u32_ok n /\ u64_ok l /\ u64_ok h
  | LeaseTick u => u64_ok u
  | Membership c => config_ok c
  | Checkpoint | NoOp => True
  end.

Definition entry_ok (e : Entry) : Prop :=
  u64_ok (e_term e) /\ u64_ok (e_round e) /\ command_ok (e_command e).

Definition meta_ok (m : SnapshotMeta) : Prop :=
  u64_ok (meta_last_round m) /\ u64_ok (meta_last_term m)
  /\ u64_ok (meta_total_bytes m) /\ config_ok (meta_config m).

Definition body_ok (b : Body) : Prop :=
  match b with
  | PreVote t r | RequestVote t r => u64_ok t /\ u64_ok r
  | PreVoteResp _ | RequestVoteResp _ => True
  | Append r t es c => u64_ok r /\ u64_ok t /\ Forall entry_ok es /\ u64_ok c
  | AppendResp _ m h d => u64_ok m /\ u64_ok h /\ u64_ok d
  | InstallSnapshot m o _ _ => meta_ok m /\ u64_ok o
  | InstallSnapshotResp r => u64_ok r
  end.

Definition message_ok (m : Message) : Prop :=
  u32_ok (m_from m) /\ u32_ok (m_to m) /\ u64_ok (m_term m) /\ body_ok (m_body m).

(** * Encoding, then decoding *)

Lemma room_Ok b n u : room b n = Ok u -> (blen b + n <= MAX_FRAME_BYTES)%N.
Proof. unfold room. intros H%refuse_if_Ok. by apply N.ltb_ge. Qed.

Lemma put_bytes_Ok b v out :
  put_bytes b v = Ok out ->
  out = b ++ be_bytes 4 (blen v) ++ v /\ u32_ok (blen v).
Proof.
  unfold put_bytes. intros H. inv_ok. apply room_Ok in E.
  unfold put_u32. rewrite <- app_assoc. split; [done|].
  unfold u32_ok, max_u32, MAX_FRAME_BYTES in *. lia.
Qed.

Lemma reads_bool v : reads take_bool [u8 (if v : bool then 1 else 0)] v.
Proof.
  eapply (reads_bind' _ _ _ [_] [] (if v : bool then 1 else 0)%N); [done|by destruct v; apply reads_u8|].
  destruct v; apply reads_ret.
Qed.

Lemma reads_bytes v : u32_ok (blen v) -> reads take_bytes (be_bytes 4 (blen v) ++ v) v.
Proof.
  intros H. eapply reads_bind; [by apply reads_u32|].
  rewrite to_nat_blen. apply reads_slice.
Qed.

#[export] Hint Resolve reads_bool reads_bytes : codec.

(** A message kind: one byte, dispatched by comparison. *)
Ltac reads_tag :=
  eapply (reads_bind' _ _ _ [_]); [reflexivity | by apply reads_u8 | cbn [N.eqb Pos.eqb]].
Ltac reads_done := first [reads_last; apply reads_ret | apply reads_ret].
(** Every writer appends: bring the buffer to the form [b ++ w]. *)
Ltac puts := unfold put_u64, put_u32, put_u8, put_bool; rewrite <- ?app_assoc; reflexivity.

Lemma reads_branch_op b op :
  branch_op_ok op -> exists w, encode_branch_op b op = b ++ w /\ reads decode_branch_op w op.
Proof.
  intros H. destruct op; cbn [branch_op_ok] in H; destruct_and?;
    (eexists; split; [unfold encode_branch_op; puts|]);
    reads_tag; repeat reads_step; reads_done.
Qed.

Lemma fold_put_u32 l b : fold_left put_u32 l b = b ++ concat (map (be_bytes 4) l).
Proof.
  revert b. induction l as [|x l IH]; intros b; cbn; [by rewrite app_nil_r|].
  rewrite IH. unfold put_u32. by rewrite <- app_assoc.
Qed.

Lemma reads_ids l prev :
  ascending l -> Forall u32_ok l ->
  (forall p x, prev = Some p -> x ∈ l -> (p < x)%N) ->
  reads (decode_ids (length l) prev) (concat (map (be_bytes 4) l)) l.
Proof.
  intros Hs Hok. revert prev. induction Hs as [|a l Hs IH Ha]; intros prev Hp; cbn; [apply reads_ret|].
  inversion_clear Hok. eapply reads_bind; [by apply reads_u32|].
  assert (reads (decode_ids (length l) (Some a)) (concat (map (be_bytes 4) l)) l) as Hl.
  { apply IH; [done|]. intros p x [= <-] Hx. rewrite Forall_forall in Ha. by apply Ha. }
  destruct prev as [p|].
  - destruct (N.leb_spec a p) as [Hle|_].
    { specialize (Hp p a eq_refl). rewrite elem_of_cons in Hp. specialize (Hp (or_introl eq_refl)). lia. }
    eapply reads_bind'; [symmetry; apply app_nil_r|exact Hl|apply reads_ret].
  - eapply reads_bind'; [symmetry; apply app_nil_r|exact Hl|apply reads_ret].
Qed.

Lemma put_node_list_Ok b l out :
  put_node_list b l = Ok out ->
  out = b ++ be_bytes 4 (blen l) ++ concat (map (be_bytes 4) l)
  /\ (blen l <= MAX_CONFIG_NODES)%N.
Proof.
  unfold put_node_list. intros H. inv_ok.
  apply N.ltb_ge in E. rewrite fold_put_u32. unfold put_u32. by rewrite <- app_assoc.
Qed.

Lemma reads_node_list l :
  ascending l -> Forall u32_ok l -> (blen l <= MAX_CONFIG_NODES)%N ->
  reads decode_node_list (be_bytes 4 (blen l) ++ concat (map (be_bytes 4) l)) l.
Proof.
  intros Hs Hok Hn. eapply reads_bind.
  - apply reads_u32. unfold u32_ok, max_u32, MAX_CONFIG_NODES in *. lia.
  - rewrite (proj2 (N.ltb_ge _ _) Hn), to_nat_blen. by apply reads_ids.
Qed.

Lemma first_common_disjoint fuel a b :
  (forall n, n ∈ a -> n ∈ b -> False) -> first_common_fuel fuel a b = None.
Proof.
  revert a b. induction fuel as [|fuel IH]; intros a b Hd; [done|].
  destruct a as [|x a], b as [|y b]; cbn [first_common_fuel]; try done.
  destruct (N.compare_spec x y) as [->|_|_].
  - exfalso. apply (Hd y); left.
  - apply IH. intros n Ha Hb. apply (Hd n); [by right|done].
  - apply IH. intros n Ha Hb. apply (Hd n); [done|by right].
Qed.

Lemma reads_config b c out :
  config_ok c -> encode_config b c = Ok out ->
  exists w, out = b ++ w /\ reads decode_config w c.
Proof.
  intros (Hwf & Hv & Ht & Hm & Hl) H. unfold encode_config in H. inv_ok.
  apply put_node_list_Ok in E as [-> Hnm]. apply put_node_list_Ok in H as [-> Hnl].
  pose proof Hwf as [Hms Hls Hd].
  exists (be_bytes 8 (cfg_version c) ++ be_bytes 8 (cfg_term c)
           ++ (be_bytes 4 (blen (members c)) ++ concat (map (be_bytes 4) (members c)))
           ++ (be_bytes 4 (blen (learners c)) ++ concat (map (be_bytes 4) (learners c)))).
  split; [unfold put_u64; by rewrite <- !app_assoc|].
  do 2 reads_step. eapply reads_bind; [by apply reads_node_list|].
  eapply reads_bind'; [symmetry; apply app_nil_r|by apply reads_node_list|].
  unfold first_common. rewrite first_common_disjoint by done.
  rewrite with_learners_new_id by done.
  rewrite !bool_decide_true by done. apply reads_ret.
Qed.

Lemma reads_meta b m out :
  meta_ok m -> encode_snapshot_meta b m = Ok out ->
  exists w, out = b ++ w /\ reads decode_snapshot_meta w m.
Proof.
  intros (Hr & Ht & Hb & Hc) H. destruct m as [r t c tot]. cbn in *.
  apply reads_config in H as (w & -> & Hw); [|done].
  eexists. split; [puts|]. do 3 reads_step.
  eapply reads_bind'; [symmetry; apply app_nil_r|exact Hw|apply reads_ret].
Qed.

Lemma reads_catalog op table columns rec_bytes :
  command_ok (Catalog op table columns) ->
  serialize [] (RecDdl op table 0 0 columns) = Ok rec_bytes -> u32_ok (blen rec_bytes) ->
  reads decode_catalog (be_bytes 4 (blen rec_bytes) ++ rec_bytes) (Catalog op table columns).
Proof.
  intros (Ho & Ht & Hc) Hs Hl. eapply reads_bind'; [symmetry; apply app_nil_r|by apply reads_bytes|].
  destruct (serialize_deserialize (RecDdl op table 0 0 columns) [] rec_bytes) as (w & -> & Hw);
    [by repeat split|done|].
  destruct (reads_ddl [] op table 0 0 columns w) as (w' & E & _); [by repeat split|done|].
  rewrite E. cbn [app]. change (byteN (u8 9)) with 9%N. cbn [N.eqb RECKIND_DDL_TAG Pos.eqb negb].
  change (u8 9 :: w') with ([] ++ [u8 9] ++ w'). rewrite <- E.
  unfold deserialize_ddl, deserialize. specialize (Hw (S (length w)) []).
  rewrite app_nil_r in Hw. cbn [app] in *. rewrite Hw by lia.
  eapply (reads_bind' _ _ [] [] []); [done|apply reads_ret|].
  rewrite Hs. eapply (reads_bind' _ _ [] [] []); [done|apply reads_ret|].
  rewrite bool_decide_true by done. apply reads_ret.
Qed.

Lemma reads_command b c out :
  command_ok c -> encode_command b c = Ok out ->
  exists w, out = b ++ w /\ reads decode_command w c.
Proof.
  intros Hok H. destruct c; cbn [encode_command] in H.
  1: { apply put_bytes_Ok in H as [-> ?]. eexists; split; [puts|].
       reads_tag. repeat reads_step; reads_done. }
  1: { inv_ok. apply put_bytes_Ok in H as [-> ?]. eexists; split; [puts|].
       reads_tag. by apply reads_catalog. }
  1: { inv_ok. destruct (reads_branch_op (put_u8 b C_BRANCH) op Hok) as (w & -> & Hw).
       eexists; split; [puts|]. reads_tag.
       eapply reads_bind'; [symmetry; apply app_nil_r|exact Hw|apply reads_ret]. }
  5: { apply reads_config in H as (w & -> & Hw); [|done]. eexists; split; [puts|]. reads_tag.
       eapply reads_bind'; [symmetry; apply app_nil_r|exact Hw|apply reads_ret]. }
  all: cbn [command_ok] in Hok; destruct_and?; inv_ok; eexists; split; [puts|];
    reads_tag; repeat reads_step; reads_done.
Qed.

Lemma reads_entry b e out :
  entry_ok e -> encode_entry b e = Ok out ->
  exists w, out = b ++ w /\ reads decode_entry w e.
Proof.
  intros (Ht & Hr & Hc) H. destruct e as [t r c]; cbn in *. unfold encode_entry in H. inv_ok.
  apply reads_command in H as (w & -> & Hw); [|done].
  eexists; split; [puts|]. do 2 reads_step.
  eapply reads_bind'; [symmetry; apply app_nil_r|exact Hw|apply reads_ret].
Qed.

Lemma reads_context i n rd w e : reads rd w e -> reads (entry_context i n rd) w e.
Proof. intros H pre rest. unfold entry_context. by rewrite H. Qed.

Lemma reads_entries es b out i n :
  Forall entry_ok es -> encode_entries b es = Ok out ->
  exists w, out = b ++ w /\ reads (decode_entries (length es) i n) w es.
Proof.
  intros Hok. revert b i. induction Hok as [|e es He _ IH]; intros b i H; cbn in H; inv_ok.
  - exists []. rewrite app_nil_r. split; [done|apply reads_ret].
  - apply reads_entry in E as (w1 & -> & Hw1); [|done].
    apply (IH _ (i + 1)%N) in H as (w2 & -> & Hw2).
    exists (w1 ++ w2). rewrite app_assoc. split; [done|].
    eapply reads_bind; [by apply reads_context|].
    eapply reads_bind'; [symmetry; apply app_nil_r|exact Hw2|apply reads_ret].
Qed.

Lemma reads_body b body out :
  body_ok body -> encode_body b body = Ok out ->
  exists w, out = b ++ w /\ reads decode_body w body.
Proof.
  intros Hok H. destruct body; cbn [encode_body] in H; cbn [body_ok] in Hok; destruct_and?.
  5: { inv_ok. apply N.ltb_ge in E0.
       eapply (reads_entries _ _ _ 0 (blen entries)) in H as (w & -> & Hw); [|done].
       eexists; split; [puts|]. reads_tag. do 3 reads_step.
       eapply reads_bind; [by apply reads_u32|]. rewrite to_nat_blen.
       eapply reads_bind'; [symmetry; apply app_nil_r|exact Hw|apply reads_ret]. }
  6: { inv_ok. apply reads_meta in E as (w & -> & Hw); [|done].
       apply put_bytes_Ok in H as [-> ?]. eexists; split; [puts|]. reads_tag.
       eapply reads_bind; [exact Hw|]. repeat reads_step; reads_done. }
  all: inv_ok; eexists; split; [puts|]; reads_tag; repeat reads_step; reads_done.
Qed.

Lemma reads_message m b :
  message_ok m -> message_body m = Ok b -> reads decode_message b m.
Proof.
  intros (Hf & Ht & Hm & Hb) H. destruct m as [from to term body]; cbn in *.
  unfold message_body in H. inv_ok. cbn in E.
  apply reads_body in E as (w & -> & Hw); [|done].
  unfold put_u64, put_u32. cbn [app]. rewrite <- !app_assoc.
  do 3 reads_step. eapply reads_bind'; [symmetry; apply app_nil_r|exact Hw|apply reads_ret].
Qed.

Lemma decode_reads m b : reads decode_message b m -> decode b = Ok m.
Proof.
  intros H. specialize (H [] []). rewrite app_nil_r in H. cbn in H.
  unfold decode. rewrite H. by rewrite Nat.eqb_refl.
Qed.
