(* ===== verification/TransportCanonical.v ===== *)
(** The other direction of the wire codec: a frame that decodes is exactly the
    encoding of the message it decodes to, so no message has two encodings.
    A reader is run backwards: [seg bytes a w b] says that the bytes between
    the cursors [a] and [b] are [w], and each inversion lemma turns a
    successful read into the segment it consumed. *)
From S2P Require Import Prelude Bytes Errors WalRecord Config Types Transport.

Definition seg (bytes : list byte) (a : nat) (w : list byte) (b : nat) : Prop :=
  get_range bytes a b = Some w.

Lemma seg_nil bytes a : a <= length bytes -> seg bytes a [] a.
Proof.
  intros H. unfold seg, get_range. rewrite decide_True by lia.
  by rewrite Nat.sub_diag.
Qed.

Lemma seg_le bytes a w b : seg bytes a w b -> a <= b <= length bytes /\ length w = b - a.
Proof.
  intros H. apply get_range_Some in H as (pre & rest & -> & <- & <-).
  rewrite !length_app. lia.
Qed.

Lemma seg_trans bytes a w1 b w2 c :
  seg bytes a w1 b -> seg bytes b w2 c -> seg bytes a (w1 ++ w2) c.
Proof.
  intros H1 H2. apply seg_le in H1 as Hl1. apply seg_le in H2 as Hl2.
  unfold seg, get_range in *. repeat case_decide; try lia. simplify_eq. f_equal.
  replace (c - a) with ((b - a) + (c - b)) by lia.
  rewrite <- take_take_drop. rewrite drop_drop. do 3 f_equal. lia.
Qed.

Lemma seg_whole bytes w : seg bytes 0 w (length bytes) -> w = bytes.
Proof.
  unfold seg, get_range. case_decide; [|done]. rewrite drop_0, Nat.sub_0_r, firstn_all. congruence.
Qed.

(** * Inverting the primitive readers *)

Lemma reader_bind_inv {A B : Type} (m : Reader A) (k : A -> Reader B) bytes at_ r :
  (m ≫= k) bytes at_ = Ok r ->
  exists a at1, m bytes at_ = Ok (a, at1) /\ k a bytes at1 = Ok r.
Proof. unfold mbind, reader_bind. destruct (m bytes at_) as [[a at1]|]; [eauto|done]. Qed.

Lemma reader_ret_inv {A : Type} (a b : A) bytes at_ at1 :
  (mret a : Reader A) bytes at_ = Ok (b, at1) -> a = b /\ at_ = at1.
Proof. by intros [= -> ->]. Qed.

Lemma take_slice_inv n bytes at_ w at1 :
  take_slice n bytes at_ = Ok (w, at1) -> seg bytes at_ w at1 /\ length w = n.
Proof.
  unfold take_slice, seg. case_match eqn:E; [|done]. intros [= -> <-].
  split; [done|]. apply get_range_Some in E as (? & ? & _ & _ & ?). lia.
Qed.

Lemma take_u8_inv bytes at_ v at1 :
  take_u8 bytes at_ = Ok (v, at1) -> seg bytes at_ [u8 v] at1.
Proof.
  unfold take_u8, seg, get_range. case_match eqn:E; [|done]. intros [= <- <-].
  apply lookup_lt_Some in E as Hl. rewrite decide_True by lia.
  replace (at_ + 1 - at_) with 1 by lia. rewrite u8_byteN.
  by rewrite (drop_S _ _ _ E).
Qed.

Lemma take_be_inv n bytes at_ v at1 :
  (w ← take_slice n; mret (of_be w)) bytes at_ = Ok (v, at1) ->
  seg bytes at_ (be_bytes n v) at1 /\ (v < 256 ^ N.of_nat n)%N.
Proof.
  intros H. apply reader_bind_inv in H as (w & at2 & H1 & H2).
  apply take_slice_inv in H1 as [H1 Hl]. apply reader_ret_inv in H2 as [<- <-].
  rewrite be_bytes_of_be' by done. split; [done|].
  pose proof (of_be_lt w) as Hb. unfold blen in Hb. by rewrite Hl in Hb.
Qed.

Lemma take_u32_inv bytes at_ v at1 :
  take_u32 bytes at_ = Ok (v, at1) -> seg bytes at_ (be_bytes 4 v) at1 /\ u32_ok v.
Proof.
  intros H. apply take_be_inv in H as [H Hv]. split; [done|].
  cbn in Hv. unfold u32_ok, max_u32. lia.
Qed.

Lemma take_u64_inv bytes at_ v at1 :
  take_u64 bytes at_ = Ok (v, at1) -> seg bytes at_ (be_bytes 8 v) at1 /\ u64_ok v.
Proof.
  intros H. apply take_be_inv in H as [H Hv]. split; [done|].
  cbn in Hv. unfold u64_ok, max_u64. lia.
Qed.

Lemma take_bool_inv bytes at_ v at1 :
  take_bool bytes at_ = Ok (v, at1) -> seg bytes at_ [u8 (if v then 1 else 0)] at1.
Proof.
  intros H. apply reader_bind_inv in H as (t & at2 & H1 & H2). apply take_u8_inv in H1.
  destruct (N.eqb_spec t 0) as [->|_]; [by apply reader_ret_inv in H2 as [<- <-]|].
  destruct (N.eqb_spec t 1) as [->|_]; [by apply reader_ret_inv in H2 as [<- <-]|done].
Qed.

Lemma take_bytes_inv bytes at_ v at1 :
  take_bytes bytes at_ = Ok (v, at1) ->
  seg bytes at_ (be_bytes 4 (blen v) ++ v) at1 /\ u32_ok (blen v).
Proof.
  intros H. apply reader_bind_inv in H as (n & at2 & H1 & H2).
  apply take_u32_inv in H1 as [H1 Hn]. apply take_slice_inv in H2 as [H2 Hl].
  assert (blen v = n) as -> by (unfold blen; lia).
  split; [by eapply seg_trans|done].
Qed.

(** [inv_rd] runs every read of a hypothesis backwards. *)
Ltac inv_rd :=
  repeat match goal with
  | H : (_ ≫= _) _ _ = Ok _ |- _ =>
      let a := fresh "v" in let at1 := fresh "at" in let E := fresh "R" in
      apply reader_bind_inv in H as (a & at1 & E & H)
  | H : mret _ _ _ = Ok _ |- _ => apply reader_ret_inv in H as [<- <-]
  | H : fail_with _ _ _ = Ok _ |- _ => discriminate H
  | H : take_u8 _ _ = Ok _ |- _ => apply take_u8_inv in H
  | H : take_bool _ _ = Ok _ |- _ => apply take_bool_inv in H
  | H : take_u32 _ _ = Ok _ |- _ => apply take_u32_inv in H as [H ?]
  | H : take_u64 _ _ = Ok _ |- _ => apply take_u64_inv in H as [H ?]
  | H : take_bytes _ _ = Ok _ |- _ => apply take_bytes_inv in H as [H ?]
  end.
(** Chain the segments in front of the goal's cursor. *)
Ltac segs := repeat first [eassumption | eapply seg_trans; [eassumption|]].

(** [inverts rd ok enc]: whatever [rd] returns is a value of its type, and the
    bytes it consumed are what [enc] appends for it. *)
Definition inverts {A : Type} (rd : Reader A) (enc : list byte -> A -> Result FerroError (list byte)) : Prop :=
  forall bytes at_ a at1, at_ <= length bytes -> rd bytes at_ = Ok (a, at1) ->
  exists w, seg bytes at_ w at1 /\
    forall b, (blen b + blen w <= MAX_FRAME_BYTES)%N -> enc b a = Ok (b ++ w).

Ltac refuse_none := rewrite (proj2 (N.ltb_ge _ _)) by (rewrite ?blen_app, ?blen_be_bytes, ?blen_cons, ?blen_nil in *; lia); cbn [refuse_if mbind result_bind].
Ltac lens := rewrite ?blen_app, ?blen_be_bytes, ?blen_cons, ?blen_nil in *; lia.

Lemma put_bytes_fits b v :
  (blen b + (4 + blen v) <= MAX_FRAME_BYTES)%N ->
  put_bytes b v = Ok (b ++ be_bytes 4 (blen v) ++ v).
Proof.
  intros H. unfold put_bytes, room. refuse_none. unfold put_u32. by rewrite <- app_assoc.
Qed.

(** * The composite readers *)

Lemma branch_op_inverts : inverts decode_branch_op (fun b op => Ok (encode_branch_op b op)).
Proof.
  intros bytes at_ op at1 _ H. apply reader_bind_inv in H as (t & at2 & Ht & H).
  apply take_u8_inv in Ht.
  destruct (N.eqb_spec t B_FORK) as [->|_]; [|
  destruct (N.eqb_spec t B_MERGE) as [->|_]; [|
  destruct (N.eqb_spec t B_ABANDON) as [->|_]; [|
  destruct (N.eqb_spec t B_REAP) as [->|_]; [|done]]]];
    inv_rd; (eexists; split; [segs|]); intros b _; f_equal; unfold encode_branch_op; puts.
Qed.

Lemma decode_ids_inv n prev bytes at_ l at1 :
  at_ <= length bytes -> decode_ids n prev bytes at_ = Ok (l, at1) ->
  seg bytes at_ (concat (map (be_bytes 4) l)) at1 /\ length l = n.
Proof.
  revert prev at_ l. induction n as [|n IH]; intros prev at_ l Hat H; cbn [decode_ids] in H.
  { inv_rd. split; [by apply seg_nil|done]. }
  apply reader_bind_inv in H as (v & at2 & Hv & H). apply take_u32_inv in Hv as [Hv _].
  apply seg_le in Hv as Hle.
  assert (exists rest, l = v :: rest /\ decode_ids n (Some v) bytes at2 = Ok (rest, at1)) as (rest & -> & Hr).
  { destruct prev as [p|]; [destruct (v <=? p)%N; [done|]|];
      apply reader_bind_inv in H as (rest & at3 & Hr & H); apply reader_ret_inv in H as [<- <-]; eauto. }
  apply IH in Hr as [Hr Hl]; [|lia].
  cbn. split; [by eapply seg_trans|lia].
Qed.

Lemma node_list_inverts : inverts decode_node_list put_node_list.
Proof.
  intros bytes at_ l at1 _ H. apply reader_bind_inv in H as (n & at2 & Hn & H).
  apply take_u32_inv in Hn as [Hn Hok]. apply seg_le in Hn as Hle.
  destruct (N.ltb_spec MAX_CONFIG_NODES n) as [|Hmax]; [done|].
  apply decode_ids_inv in H as [H Hl]; [|lia].
  assert (blen l = n) as <- by (unfold blen; lia).
  eexists; split; [segs|]. intros b Hb. unfold put_node_list, room.
  assert (blen (concat (map (be_bytes 4) l)) = 4 * blen l)%N as Hc.
  { clear. induction l as [|x l IH]; cbn; [done|].
    rewrite blen_app, blen_be_bytes, IH, blen_cons. lia. }
  unfold u32_ok in Hok. do 3 refuse_none.
  rewrite fold_put_u32. unfold put_u32. by rewrite <- app_assoc.
Qed.

Lemma config_inverts : inverts decode_config encode_config.
Proof.
  intros bytes at_ c at1 _ H. unfold decode_config in H. inv_rd.
  apply seg_le in R0 as Hle.
  apply node_list_inverts in R1 as (w1 & R1 & E1); [|lia]. apply seg_le in R1 as Hle1.
  apply node_list_inverts in R2 as (w2 & R2 & E2); [|lia].
  destruct (first_common v1 v2) as [|] eqn:Hfc; [done|].
  destruct (bool_decide (members (Config.with_learners (Config.new v1 v v0) v2) = v1)) eqn:Em; [|done].
  destruct (bool_decide (learners (Config.with_learners (Config.new v1 v v0) v2) = v2)) eqn:El; [|done].
  apply bool_decide_eq_true in Em, El. cbn [andb] in H. inv_rd.
  eexists; split; [segs|]. intros b Hb. unfold encode_config. rewrite Em, El. cbn [cfg_version cfg_term].
  unfold put_u64. rewrite E1 by lens. cbn [mbind result_bind].
  rewrite E2 by lens. by rewrite <- !app_assoc.
Qed.

Lemma meta_inverts : inverts decode_snapshot_meta encode_snapshot_meta.
Proof.
  intros bytes at_ m at1 _ H. unfold decode_snapshot_meta in H. inv_rd.
  apply seg_le in R1 as Hle. apply config_inverts in R2 as (w & R2 & E); [|lia].
  eexists; split; [segs|]. intros b Hb. unfold encode_snapshot_meta. cbn.
  unfold put_u64. rewrite E by lens. by rewrite <- !app_assoc.
Qed.

Lemma lift_result_inv {A : Type} (r : Result FerroError A) bytes at_ a at1 :
  lift_result r bytes at_ = Ok (a, at1) -> r = Ok a /\ at_ = at1.
Proof. unfold lift_result. destruct r; [intros [= -> ->]|]; done. Qed.

Definition encode_catalog (b : list byte) (c : Command) : Result FerroError (list byte) :=
  match c with
  | Catalog op table columns =>
      rec_bytes ← serialize [] (RecDdl op table 0 0 columns); put_bytes b rec_bytes
  | _ => Err (Wal CatalogNotDdlAfterAll)
  end.

Lemma catalog_inverts : inverts decode_catalog encode_catalog.
Proof.
  intros bytes at_ c at1 _ H. unfold decode_catalog in H. inv_rd.
  destruct v as [|b0 v]; [done|]. destruct (negb _); [done|].
  apply reader_bind_inv in H as (dec & at2 & E1 & H). apply lift_result_inv in E1 as [E1 <-].
  apply reader_bind_inv in H as (re & at2 & E2 & H). apply lift_result_inv in E2 as [E2 <-].
  case_bool_decide as Hre; [subst re|done]. destruct dec; try done.
  destruct (N.eqb_spec dir_root 0) as [->|]; [|done].
  destruct (N.eqb_spec time_travel_root 0) as [->|]; [|done]. cbn [negb orb] in H. inv_rd.
  eexists; split; [exact R|]. intros b Hb. cbn [encode_catalog]. rewrite E2. cbn [mbind result_bind].
  apply put_bytes_fits. lens.
Qed.

(** The kinds a tag byte dispatches over, in the order of the source. *)
Ltac tag_cases H :=
  repeat match type of H with
  | (if (?t =? ?k)%N then _ else _) _ _ = _ =>
      destruct (N.eqb_spec t k) as [->|_]
  end.
Ltac puts_lens := unfold put_u64, put_u32, put_u8, put_bool; lens.
Ltac enc_fits E := unfold put_u64, put_u32, put_u8, put_bool; rewrite E by lens; by rewrite <- ?app_assoc.

Lemma command_inverts : inverts decode_command encode_command.
Proof.
  intros bytes at_ c at1 _ H. apply reader_bind_inv in H as (t & at2 & Ht & H).
  apply take_u8_inv in Ht. apply seg_le in Ht as Hle. tag_cases H.
  2: { apply catalog_inverts in H as (w & H & E); [|lia]. eexists; split; [segs|].
       intros b Hb. destruct c; try done.
       all: try (specialize (E [] ltac:(lens)); cbn in E; discriminate E).
       cbn [encode_command encode_catalog] in *. enc_fits E. }
  2: { inv_rd. apply branch_op_inverts in R as (w & R & E); [|lia]. eexists; split; [segs|].
       intros b Hb. cbn [encode_command]. enc_fits E. }
  6: { inv_rd. apply config_inverts in R as (w & R & E); [|lia]. eexists; split; [segs|].
       intros b Hb. cbn [encode_command]. enc_fits E. }
  1: { inv_rd. eexists; split; [segs|]. intros b Hb. cbn [encode_command].
       rewrite put_bytes_fits by puts_lens. f_equal. puts. }
  all: inv_rd; (eexists; split; [segs|]); intros b _; cbn [encode_command]; f_equal; puts.
Qed.

Lemma encode_command_grows c out : encode_command [] c = Ok out -> (1 <= blen out)%N.
Proof.
  assert (forall b l : list byte, (1 <= blen b)%N -> (1 <= blen (b ++ l))%N) as Hgrow by (intros; lens).
  assert (forall (b : byte) l, (1 <= blen (b :: l))%N) as Hcons by (intros; lens).
  intros H. destruct c; cbn [encode_command] in H.
  1: apply put_bytes_Ok in H as [-> _].
  2: inv_ok; apply put_bytes_Ok in H as [-> _].
  8: { unfold encode_config in H. inv_ok. apply put_node_list_Ok in E as [-> _].
       apply put_node_list_Ok in H as [-> _]. unfold put_u64, put_u8. repeat first [apply Hcons | apply Hgrow]. }
  3: destruct op.
  all: inv_ok; unfold encode_branch_op, put_u64, put_u32, put_u8; repeat first [apply Hcons | apply Hgrow].
Qed.

Lemma entry_inverts : inverts decode_entry encode_entry.
Proof.
  intros bytes at_ e at1 _ H. unfold decode_entry in H. inv_rd. apply seg_le in R0 as Hle.
  apply command_inverts in R1 as (w & R1 & E); [|lia].
  eexists; split; [segs|]. intros b Hb. unfold encode_entry, room. cbn [e_term e_round e_command].
  assert (1 <= blen w)%N.
  { apply (encode_command_grows v1). apply (E []). lens. }
  refuse_none. enc_fits E.
Qed.

Lemma entries_inverts n i count bytes at_ es at1 :
  at_ <= length bytes -> decode_entries n i count bytes at_ = Ok (es, at1) ->
  length es = n /\ exists w, seg bytes at_ w at1 /\
    forall b, (blen b + blen w <= MAX_FRAME_BYTES)%N -> encode_entries b es = Ok (b ++ w).
Proof.
  revert i at_ es. induction n as [|n IH]; intros i at_ es Hat H; cbn [decode_entries] in H; inv_rd.
  - split; [done|]. exists []. split; [by apply seg_nil|]. intros b _. by rewrite app_nil_r.
  - unfold entry_context, map_err in R. destruct (decode_entry bytes at_) as [[e at3]|] eqn:Ee; [|done].
    injection R as -> ->. apply entry_inverts in Ee as (w & Ee & E); [|done].
    apply seg_le in Ee as Hle. apply IH in R0 as (Hl & w' & R0 & E'); [|lia].
    split; [cbn; lia|]. eexists; split; [segs|]. intros b Hb. cbn [encode_entries].
    rewrite E by lens. cbn [mbind result_bind]. rewrite E' by lens. by rewrite <- app_assoc.
Qed.

Lemma body_inverts : inverts decode_body encode_body.
Proof.
  intros bytes at_ body at1 _ H. apply reader_bind_inv in H as (t & at2 & Ht & H).
  apply take_u8_inv in Ht. apply seg_le in Ht as Hle. tag_cases H.
  5: { unfold decode_append in H. inv_rd. apply seg_le in R2 as Hle2.
       apply entries_inverts in R3 as (Hl & w & R3 & E); [|lia].
       assert (blen v3 = v2) as <- by (unfold blen; lia).
       eexists; split; [segs|]. intros b Hb. cbn [encode_body]. unfold room.
       unfold u32_ok, put_u64, put_u8 in *. do 2 refuse_none.
       enc_fits E. }
  6: { inv_rd. apply meta_inverts in R as (w & R & E); [|lia].
       eexists; split; [segs|]. intros b Hb. cbn [encode_body].
       unfold put_u8. rewrite E by lens. cbn [mbind result_bind].
       rewrite put_bytes_fits by puts_lens. f_equal. puts. }
  all: inv_rd; (eexists; split; [segs|]); intros b _; cbn [encode_body]; f_equal; puts.
Qed.

Lemma decode_inv bytes m :
  decode bytes = Ok m -> decode_message bytes 0 = Ok (m, length bytes).
Proof.
  unfold decode. destruct (decode_message bytes 0) as [[m' at1]|]; [|done].
  destruct (Nat.eqb_spec at1 (length bytes)) as [->|]; [|done]. by intros [= ->].
Qed.

Lemma decode_message_body bytes m :
  (blen bytes <= MAX_FRAME_BYTES)%N -> decode bytes = Ok m -> message_body m = Ok bytes.
Proof.
  intros Hb H. apply decode_inv in H. remember (length bytes) as n eqn:Hn.
  unfold decode_message in H. inv_rd.
  apply seg_le in R1 as Hle. apply body_inverts in R2 as (w & R2 & E); [|lia].
  assert (seg bytes 0 (be_bytes 4 v ++ be_bytes 4 v0 ++ be_bytes 8 v1 ++ w) (length bytes)) as Hs
    by (rewrite <- Hn; segs).
  apply seg_whole in Hs. unfold message_body, put_u64, put_u32. cbn [m_from m_to m_term m_body app].
  rewrite E by (subst bytes; lens). cbn [mbind result_bind].
  rewrite <- !app_assoc, Hs. by rewrite (proj2 (N.ltb_ge _ _) Hb).
Qed.

(** * An admitted entry fits a frame *)

Lemma put_node_list_fits b l :
  (blen l <= MAX_CONFIG_NODES)%N -> (blen b + (4 + blen l * 4) <= MAX_FRAME_BYTES)%N ->
  put_node_list b l = Ok (b ++ be_bytes 4 (blen l) ++ concat (map (be_bytes 4) l)).
Proof.
  intros Hl Hb. unfold put_node_list, room.
  assert (blen l <= max_u32)%N by (unfold max_u32, MAX_CONFIG_NODES in *; lia).
  do 3 refuse_none. rewrite fold_put_u32. unfold put_u32. by rewrite <- app_assoc.
Qed.

Lemma blen_ids l : blen (concat (map (be_bytes 4) l)) = (blen l * 4)%N.
Proof.
  induction l as [|x l IH]; cbn; [done|]. rewrite blen_app, blen_be_bytes, IH, blen_cons. lia.
Qed.

Lemma encode_config_fits p c out :
  encode_config p c = Ok out -> exists w, out = p ++ w /\
    forall b, (blen b + blen w <= MAX_FRAME_BYTES)%N -> encode_config b c = Ok (b ++ w).
Proof.
  unfold encode_config. intros H. inv_ok. apply put_node_list_Ok in E as [-> Hm].
  apply put_node_list_Ok in H as [-> Hl]. unfold put_u64. eexists; split; [by rewrite <- !app_assoc|].
  intros b Hb. rewrite !blen_app, !blen_be_bytes, !blen_ids in Hb.
  rewrite put_node_list_fits by (done || (rewrite !blen_app, !blen_be_bytes; lia)).
  cbn [mbind result_bind].
  rewrite put_node_list_fits by (done || (rewrite !blen_app, !blen_be_bytes, ?blen_ids; lia)).
  by rewrite <- !app_assoc.
Qed.

Lemma encode_command_fits p c out :
  encode_command p c = Ok out -> exists w, out = p ++ w /\
    forall b, (blen b + blen w <= MAX_FRAME_BYTES)%N -> encode_command b c = Ok (b ++ w).
Proof.
  intros H. destruct c; cbn [encode_command] in *.
  1: { apply put_bytes_Ok in H as [-> _]. eexists; split; [puts|]. intros b Hb.
       rewrite put_bytes_fits by puts_lens. f_equal. puts. }
  1: { inv_ok. rewrite E. apply put_bytes_Ok in H as [-> _]. eexists; split; [puts|]. intros b Hb.
       cbn [mbind result_bind]. rewrite put_bytes_fits by puts_lens. f_equal. puts. }
  6: { apply encode_config_fits in H as (w & -> & E). eexists; split; [puts|]. intros b Hb.
       enc_fits E. }
  1: destruct op.
  all: inv_ok; unfold encode_branch_op; (eexists; split; [puts|]); intros b _; f_equal; puts.
Qed.

Lemma encode_entry_fits e w b :
  encode_entry [] e = Ok w -> (blen b + blen w <= MAX_FRAME_BYTES)%N ->
  encode_entry b e = Ok (b ++ w) /\ (17 <= blen w)%N.
Proof.
  unfold encode_entry. intros H Hb. inv_ok. apply encode_command_fits in H as (w' & -> & E').
  unfold put_u64 in *. cbn [app] in *. assert (1 <= blen w')%N.
  { apply (encode_command_grows (e_command e)). apply (E' []). lens. }
  unfold room. split; [|lens]. refuse_none. rewrite E' by lens. by rewrite <- !app_assoc.
Qed.

(** The wire length of a batch. *)
Fixpoint batch_wire_len (es : list Entry) : N :=
  match es with
  | [] => 0
  | e :: es => entry_wire_len e + batch_wire_len es
  end.

Lemma encode_entries_fits es b :
  (blen b + batch_wire_len es <= MAX_FRAME_BYTES)%N ->
  exists w, encode_entries b es = Ok (b ++ w) /\ blen w = batch_wire_len es
            /\ (17 * blen es <= blen w)%N.
Proof.
  revert b. induction es as [|e es IH]; intros b Hb; cbn [batch_wire_len encode_entries] in *.
  { exists []. by rewrite app_nil_r. }
  unfold entry_wire_len in *. destruct (encode_entry [] e) as [we|] eqn:Ee.
  - apply (encode_entry_fits _ _ b) in Ee as [Ee H17]; [|lia]. rewrite Ee. cbn [mbind result_bind].
    destruct (IH (b ++ we)) as (w & Hw & Hl & Hn); [lens|].
    exists (we ++ w). rewrite Hw, <- app_assoc. split; [done|]. lens.
  - unfold max_u64, MAX_FRAME_BYTES in Hb. lia.
Qed.

Lemma append_entries_budget_val : append_entries_budget = (MAX_FRAME_BYTES - 77)%N.
Proof. reflexivity. Qed.

Lemma append_batch_fits from to term prev_round prev_term es commit :
  (batch_wire_len es <= append_entries_budget)%N ->
  exists b, message_body (mkMessage from to term (Append prev_round prev_term es commit)) = Ok b
            /\ (blen b + MAC_LEN <= MAX_FRAME_BYTES)%N.
Proof.
  rewrite append_entries_budget_val. intros Hb. unfold message_body.
  cbn [m_body m_from m_to m_term encode_body].
  unfold room, put_u64, put_u32, put_u8. unfold MAX_FRAME_BYTES, MAC_LEN in *.
  assert (blen es <= max_u32)%N as Hes.
  { destruct (encode_entries_fits es []) as (w & _ & Hl & Hn); [unfold MAX_FRAME_BYTES; lens|].
    unfold max_u32. lia. }
  do 2 refuse_none.
  edestruct (encode_entries_fits es) as (w & Hw & Hl & Hn); [|rewrite Hw; cbn [mbind result_bind]].
  - unfold MAX_FRAME_BYTES. lens.
  - refuse_none. eexists; split; [done|]. lens.
Qed.

(** * Properties *)

(** C22: a peer receives the message that was sent. Whenever [message_body]
    encodes a message, [decode] returns that message, and nothing of the bytes
    is left over. *)
Theorem message_round_trip (m : Message) (b : list byte) :
  message_ok m -> message_body m = Ok b -> decode b = Ok m.
Proof. intros Hok H. by apply decode_reads, reads_message. Qed.

Definition sample_config : Config := Config.with_learners (Config.new [1; 2; 3]%N 7 3) [4]%N.

Lemma sample_config_ok : config_ok sample_config.
Proof.
  split; [apply with_learners_wf, ascending_new|].
  change (members sample_config) with [1; 2; 3]%N. change (learners sample_config) with [4]%N.
  unfold u64_ok, u32_ok. cbn [cfg_version cfg_term sample_config Config.with_learners Config.new].
  split; [done|]. split; [done|]. split; repeat constructor; done.
Qed.

(** Two entries, a batch and a membership change, behind round 4. *)
Definition sample_message : Message :=
  mkMessage 1 2 3 (Append 4 3 [mkEntry 3 5 (WalBatch 9 [u8 1; u8 2]);
                               mkEntry 3 6 (Membership sample_config)] 4).
Definition sample_bytes : list byte := default [] (ok_opt (message_body sample_message)).

Lemma message_round_trip_witness : decode sample_bytes = Ok sample_message.
Proof.
  apply message_round_trip; [|by vm_compute].
  unfold message_ok, body_ok, sample_message, u32_ok, u64_ok. cbn [m_from m_to m_term m_body].
  do 3 (split; [done|]). do 2 (split; [done|]). split; [|done].
  constructor; [by repeat split|]. constructor; [|constructor].
  split; [done|]. split; [done|]. apply sample_config_ok.
Defined.

(** C23: the wire format is canonical. A frame that decodes is the encoding of
    what it decodes to, so no two frames carry the same message and a decoded
    configuration is sorted and free of duplicates as it arrived. *)
Theorem decoding_is_canonical (b : list byte) (m : Message) :
  (blen b <= MAX_FRAME_BYTES)%N -> decode b = Ok m -> message_body m = Ok b.
Proof. apply decode_message_body. Qed.

Lemma decoding_is_canonical_witness : message_body sample_message = Ok sample_bytes.
Proof. apply decoding_is_canonical; by vm_compute. Defined.
