(* ===== verification/Digest.v ===== *)
(** The rolling log digest of [src/src/consensus/replicate.rs]: FNV-1a folded
    over an entry's fields. Two facts carry the divergence detector: an entry's
    digest is never the reserved zero, and a digest folded over a whole equals
    the one folded over its pieces in order, which is what lets a receiver
    digest a stream it never holds. *)
From S2P Require Import Prelude Bytes Errors WalRecord Config Types.

Definition FNV_OFFSET : u64 := 14695981039346656037.
Definition FNV_PRIME : u64 := 1099511628211.

Definition fnv64_update (h : u64) (bytes : list byte) : u64 :=
  fold_left (fun h b => wmul64 (N.lxor h (byteN b)) FNV_PRIME) bytes h.

Definition fold_bytes (h : u64) (bytes : list byte) : u64 :=
  fnv64_update (fnv64_update h (be_bytes 8 (blen bytes))) bytes.
Definition fold_str (h : u64) (s : list byte) : u64 := fold_bytes h s.
Definition fold_u64 (h : u64) (v : u64) : u64 := fnv64_update h (be_bytes 8 v).
Definition fold_tag (h : u64) (tag : N) : u64 := fnv64_update h [u8 tag].

Definition fold_data_type (h : u64) (ty : DataType) : u64 :=
  match ty with
  | Integer => fold_tag h 0
  | Float => fold_tag h 1
  | Boolean => fold_tag h 2
  | Varchar n => fold_u64 (fold_tag h 3) n
  | BigInt => fold_tag h 4
  | Decimal => fold_tag h 5
  | Timestamp => fold_tag h 6
  end.

Definition fold_ddl_op (h : u64) (op : DdlOp) : u64 :=
  match op with
  | CreateTable => fold_tag h 0
  | DropTable => fold_tag h 1
  | AlterColumn alt =>
      let h := fold_tag h 2 in
      match alt with
      | Add column => fold_str (fold_tag h 0) column
      | Rename from to => fold_str (fold_str (fold_tag h 1) from) to
      | Retype column from => fold_data_type (fold_str (fold_tag h 2) column) from
      end
  end.

Definition fold_config (h : u64) (c : Config) : u64 :=
  let h := fold_u64 (fold_u64 h (cfg_version c)) (cfg_term c) in
  let h := fold_left fold_u64 (members c) (fold_u64 h (blen (members c))) in
  fold_left fold_u64 (learners c) (fold_u64 h (blen (learners c))).

Definition fold_column (h : u64) (col : list byte * DataType * bool) : u64 :=
  let '(name, ty, nullable) := col in
  fold_tag (fold_data_type (fold_str h name) ty) (if nullable then 1 else 0).

Definition fold_branch_op (h : u64) (op : BranchOp) : u64 :=
  match op with
  | Fork child parent fork_epoch lease_millis =>
      fold_u64 (fold_u64 (fold_u64 (fold_u64 (fold_tag h 0) child) parent) fork_epoch) lease_millis
  | Merge branch base_round => fold_u64 (fold_u64 (fold_tag h 1) branch) base_round
  | Abandon branch => fold_u64 (fold_tag h 2) branch
  | Reap branch generation => fold_u64 (fold_u64 (fold_tag h 3) branch) generation
  end.

Definition fold_command (h : u64) (c : Command) : u64 :=
  match c with
  | WalBatch start_lsn bytes => fold_bytes (fold_u64 (fold_tag h 0) start_lsn) bytes
  | Catalog op table columns =>
      let h := fold_str (fold_ddl_op (fold_tag h 1) op) table in
      fold_left fold_column columns (fold_u64 h (blen columns))
  | Branch op => fold_branch_op (fold_tag h 2) op
  | ArenaGrant node first_page page_count =>
      fold_u64 (fold_u64 (fold_u64 (fold_tag h 3) node) first_page) page_count
  | TxnIdRange node lo hi => fold_u64 (fold_u64 (fold_u64 (fold_tag h 4) node) lo) hi
  | LeaseTick unix_millis => fold_u64 (fold_tag h 5) unix_millis
  | Checkpoint => fold_tag h 6
  | Membership config => fold_config (fold_tag h 7) config
  | NoOp => fold_tag h 8
  end.

Definition never_zero (h : u64) : u64 := if (h =? 0)%N then FNV_OFFSET else h.

Definition fold_entry (prev : u64) (e : Entry) : u64 :=
  never_zero (fold_command (fold_u64 (fold_u64 prev (e_term e)) (e_round e)) (e_command e)).

(** [snapshot.rs]'s digest, from the standard offset basis. *)
Definition digest (bytes : list byte) : u64 := fnv64_update FNV_OFFSET bytes.

Arguments fold_entry : simpl never.
Arguments fold_command : simpl never.
Arguments fnv64_update : simpl never.
Arguments digest : simpl never.

Lemma never_zero_nonzero h : never_zero h <> 0%N.
Proof. unfold never_zero. by destruct (N.eqb_spec h 0). Qed.

Lemma fold_entry_nonzero prev e : fold_entry prev e <> 0%N.
Proof. apply never_zero_nonzero. Qed.

Lemma fnv64_update_app h a b : fnv64_update h (a ++ b) = fnv64_update (fnv64_update h a) b.
Proof. apply fold_left_app. Qed.

Lemma fnv64_update_range h bytes : (h <= max_u64)%N -> (fnv64_update h bytes <= max_u64)%N.
Proof.
  revert h. induction bytes as [|b bytes IH]; intros h Hh; cbn; [done|].
  apply IH, wmul64_lt.
Qed.
