(* ===== verification/LogTail.v ===== *)
(** A node's own log above its snapshot floor: [LogTail] of
    [src/src/consensus/replicate.rs]. The tail holds the rounds
    [(base, last_round]] contiguously, each with its rolling digest; [tail_wf]
    says so, and every operation that returns keeps it. An operation whose
    assertion fails is a panic, [None]. *)
From S2P Require Import Prelude Bytes Errors WalRecord Config Types Digest Transport.
From S2P Require Import TransportCanonical.

Record LogTail := mkTail {
  base : Round;
  base_digest : u64;
  entries : list Entry;
  digests : list u64;
  rewritten_in_term : Term
}.

#[export] Instance eta_LogTail : Eta LogTail := fun t =>
  mkTail (base t) (base_digest t) (entries t) (digests t) (rewritten_in_term t).
#[export] Instance set_rewritten_in_term : Setter rewritten_in_term.
Proof. build_setter. Defined.

(** The entries of the slice the loop of [slice_from] keeps: it stops at the
    first entry that would pass [max_bytes], unless nothing is taken yet. *)
Fixpoint take_bytes_bounded (es : list Entry) (none_yet : bool) (bytes max_bytes : N) : list Entry :=
  match es with
  | [] => []
  | e :: es =>
      let len := entry_wire_len e in
      if negb none_yet && (max_bytes <? sadd64 bytes len)%N then []
      else e :: take_bytes_bounded es false (sadd64 bytes len) max_bytes
  end.

Module LogTail.

Definition rebased (b : Round) (d : u64) : LogTail := mkTail b d [] [] 0.

Definition last_round (t : LogTail) : Round := wadd64 (base t) (blen (entries t)).

(** The position in [entries] of a round above [base]. *)
Definition index_of (t : LogTail) (round : Round) : nat := N.to_nat (round - base t - 1).

Definition term_at (t : LogTail) (round : Round) : option Term :=
  if (round <=? base t)%N || (last_round t <? round)%N then None
  else e_term <$> entries t !! index_of t round.

Definition digest_at (t : LogTail) (round : Round) : option u64 :=
  if (round =? base t)%N then Some (base_digest t)
  else if (round <? base t)%N || (last_round t <? round)%N then None
  else digests t !! index_of t round.

Definition slice_from (t : LogTail) (round : Round) (limit : nat) (max_bytes : N) : list Entry :=
  if (round <=? base t)%N || (last_round t <? round)%N then []
  else take_bytes_bounded (take limit (drop (index_of t round) (entries t))) true 0 max_bytes.

Definition push (t : LogTail) (e : Entry) : option LogTail :=
  if (e_round e =? wadd64 (last_round t) 1)%N then
    let prev := default (base_digest t) (last (digests t)) in
    Some (mkTail (base t) (base_digest t) (entries t ++ [e])
                 (digests t ++ [fold_entry prev e]) (rewritten_in_term t))
  else None.

Definition compact_to (t : LogTail) (b : Round) (d : u64) : option LogTail :=
  if (base t <? b)%N && (b <=? last_round t)%N then
    let n := N.to_nat (b - base t) in
    Some (mkTail b d (drop n (entries t)) (drop n (digests t)) (rewritten_in_term t))
  else None.

Definition truncate_from (t : LogTail) (from : Round) : LogTail :=
  if (from <=? base t)%N then t
  else
    let keep := index_of t from in
    if decide (keep < length (entries t)) then
      mkTail (base t) (base_digest t) (take keep (entries t)) (take keep (digests t))
             (rewritten_in_term t)
    else t.

End LogTail.

(** The digests a tail should hold: each entry folded onto the digest below it. *)
Fixpoint digest_chain (d : u64) (es : list Entry) {struct es} : list u64 :=
  match es with
  | [] => []
  | e :: es => fold_entry d e :: digest_chain (fold_entry d e) es
  end.

(** Entries numbered consecutively from [r]. *)
Fixpoint contiguous (r : Round) (es : list Entry) {struct es} : Prop :=
  match es with
  | [] => True
  | e :: es => e_round e = r /\ contiguous (r + 1)%N es
  end.

(** The type invariant: rounds contiguous from [base + 1] and below 2^64, one
    digest per entry, each the digest below it with its entry folded in. *)
Record tail_wf (t : LogTail) : Prop := {
  wf_contiguous : contiguous (base t + 1)%N (entries t);
  wf_digests : digests t = digest_chain (base_digest t) (entries t);
  wf_room : (base t + blen (entries t) <= max_u64)%N
}.

Lemma length_digest_chain d es : length (digest_chain d es) = length es.
Proof. revert d. induction es; intros d; cbn; auto. Qed.

Lemma digest_chain_app d a b :
  digest_chain d (a ++ b) = digest_chain d a ++ digest_chain (default d (last (digest_chain d a))) b.
Proof.
  revert d. induction a as [|x a IH]; intros d; [done|]. cbn [app digest_chain]. rewrite IH. cbn [app].
  f_equal. f_equal. f_equal. rewrite last_cons. by destruct (last (digest_chain _ a)).
Qed.

Lemma contiguous_app r a b :
  contiguous r (a ++ b) <-> contiguous r a /\ contiguous (r + blen a)%N b.
Proof.
  revert r. induction a as [|x a IH]; intros r; cbn [app contiguous].
  - rewrite blen_nil, N.add_0_r. tauto.
  - rewrite IH, blen_cons. replace (r + 1 + blen a)%N with (r + (1 + blen a))%N by lia. tauto.
Qed.

Lemma contiguous_lookup r es i e :
  contiguous r es -> es !! i = Some e -> e_round e = (r + N.of_nat i)%N.
Proof.
  revert r i. induction es as [|x es IH]; intros r [|i] H He; [done|done| |]; cbn in *.
  - simplify_eq. destruct H as [-> _]. lia.
  - destruct H as [_ H]. rewrite (IH _ _ H He). lia.
Qed.

Section tail.
Context (t : LogTail) (Hwf : tail_wf t).

Lemma last_round_val : LogTail.last_round t = (base t + blen (entries t))%N.
Proof using Hwf. apply wadd64_small. apply wf_room, Hwf. Qed.

Lemma length_digests : length (digests t) = length (entries t).
Proof using Hwf. rewrite (wf_digests _ Hwf). apply length_digest_chain. Qed.

(** A round in [(base, last_round]] has an entry and a digest; any other has
    no entry. *)
Lemma term_at_Some round :
  (base t < round <= LogTail.last_round t)%N ->
  exists e, entries t !! LogTail.index_of t round = Some e /\ e_round e = round
            /\ LogTail.term_at t round = Some (e_term e).
Proof using Hwf.
  intros H. unfold LogTail.term_at.
  destruct (N.leb_spec round (base t)); [lia|].
  destruct (N.ltb_spec (LogTail.last_round t) round); [lia|]. cbn.
  rewrite last_round_val in H.
  destruct (lookup_lt_is_Some_2 (entries t) (LogTail.index_of t round)) as [e He].
  { unfold LogTail.index_of, blen in *. lia. }
  exists e. rewrite He. split; [done|]. split; [|done].
  rewrite (contiguous_lookup _ _ _ _ (wf_contiguous _ Hwf) He).
  unfold LogTail.index_of. lia.
Qed.

Lemma term_at_is_Some round tm :
  LogTail.term_at t round = Some tm -> (base t < round <= LogTail.last_round t)%N.
Proof using Type.
  unfold LogTail.term_at.
  destruct (N.leb_spec round (base t)); [done|].
  destruct (N.ltb_spec (LogTail.last_round t) round); done.
Qed.

Lemma digest_at_Some round :
  (base t <= round <= LogTail.last_round t)%N -> is_Some (LogTail.digest_at t round).
Proof using Hwf.
  intros H. unfold LogTail.digest_at. destruct (N.eqb_spec round (base t)); [eauto|].
  destruct (N.ltb_spec round (base t)); [lia|].
  destruct (N.ltb_spec (LogTail.last_round t) round); [lia|]. cbn.
  apply lookup_lt_is_Some_2. rewrite length_digests. rewrite last_round_val in H.
  unfold LogTail.index_of, blen in *. lia.
Qed.
End tail.

Lemma rebased_wf b d : (b <= max_u64)%N -> tail_wf (LogTail.rebased b d).
Proof. intros H. split; cbn; [done|done|]. unfold blen. cbn. lia. Qed.

Lemma last_round_rebased b d : (b <= max_u64)%N -> LogTail.last_round (LogTail.rebased b d) = b.
Proof. intros H. rewrite last_round_val by by apply rebased_wf. cbn. unfold blen; cbn. lia. Qed.

(** [push] accepts exactly the next round, and extends the tail by it. *)
Lemma push_Some t e :
  tail_wf t -> e_round e = (LogTail.last_round t + 1)%N -> (LogTail.last_round t < max_u64)%N ->
  exists t', LogTail.push t e = Some t' /\ tail_wf t' /\ base t' = base t
    /\ base_digest t' = base_digest t
    /\ entries t' = entries t ++ [e] /\ rewritten_in_term t' = rewritten_in_term t
    /\ LogTail.last_round t' = (LogTail.last_round t + 1)%N.
Proof.
  intros Hwf He Hlt. unfold LogTail.push.
  rewrite (wadd64_small (LogTail.last_round t) 1) by lia. rewrite He, N.eqb_refl.
  rewrite last_round_val in * by done.
  assert (tail_wf (mkTail (base t) (base_digest t) (entries t ++ [e])
     (digests t ++ [fold_entry (default (base_digest t) (last (digests t))) e])
     (rewritten_in_term t))) as Hwf'.
  { split; cbn.
    - apply contiguous_app. split; [apply wf_contiguous, Hwf|]. cbn. split; [lia|done].
    - rewrite digest_chain_app. rewrite (wf_digests _ Hwf). done.
    - rewrite blen_app, blen_cons, blen_nil. lia. }
  eexists; split; [done|]. repeat split; [apply Hwf'..|].
  rewrite last_round_val by done. cbn. rewrite blen_app, blen_cons, blen_nil. lia.
Qed.

(** * The tail as a map from rounds to entries *)

Definition entry_at (t : LogTail) (round : Round) : option Entry :=
  if (base t <? round)%N then entries t !! LogTail.index_of t round else None.

Lemma term_at_entry_at t round :
  tail_wf t -> LogTail.term_at t round = e_term <$> entry_at t round.
Proof.
  intros Hwf. unfold LogTail.term_at, entry_at. rewrite last_round_val by done.
  destruct (N.leb_spec round (base t)), (N.ltb_spec (base t) round); try lia; [done|]. cbn.
  destruct (N.ltb_spec (base t + blen (entries t)) round); [|done].
  rewrite lookup_ge_None_2; [done|]. unfold LogTail.index_of, blen in *. lia.
Qed.

Lemma entry_at_push t e t' round :
  tail_wf t -> LogTail.push t e = Some t' -> (LogTail.last_round t < max_u64)%N ->
  entry_at t' round = if (round =? e_round e)%N then Some e else entry_at t round.
Proof.
  intros Hwf H Hlt. unfold LogTail.push in H. rewrite wadd64_small in H by lia.
  destruct (N.eqb_spec (e_round e) (LogTail.last_round t + 1)) as [He|]; [|done].
  injection H as <-. rewrite He, last_round_val in * by done.
  unfold entry_at, LogTail.index_of. cbn.
  destruct (N.ltb_spec (base t) round); destruct (N.eqb_spec round (base t + blen (entries t) + 1)) as [->|];
    try lia; try done.
  - rewrite lookup_app_r by (unfold blen; lia).
    replace (_ - length (entries t)) with 0 by (unfold blen; lia). done.
  - destruct (decide (N.to_nat (round - base t - 1) < length (entries t))) as [Hin|Hout].
    + by rewrite lookup_app_l.
    + rewrite (lookup_ge_None_2 (entries t)) by lia.
      apply lookup_ge_None_2. rewrite length_app. cbn. unfold blen in *. lia.
Qed.

Lemma truncate_from_wf t from :
  tail_wf t -> (base t < from)%N ->
  tail_wf (LogTail.truncate_from t from) /\ base (LogTail.truncate_from t from) = base t
  /\ base_digest (LogTail.truncate_from t from) = base_digest t
  /\ LogTail.last_round (LogTail.truncate_from t from) = N.min (LogTail.last_round t) (from - 1).
Proof.
  intros Hwf Hf. assert (tail_wf (LogTail.truncate_from t from)) as Hwf'.
  { unfold LogTail.truncate_from. destruct (N.leb_spec from (base t)); [done|].
    case_decide as Hk; [|done]. destruct Hwf as [H1 H2 H3]. split; cbn.
    - rewrite <- (take_drop (LogTail.index_of t from) (entries t)) in H1.
      by apply contiguous_app in H1 as [? _].
    - rewrite H2. rewrite <- (take_drop (LogTail.index_of t from) (entries t)) at 1.
      rewrite digest_chain_app. apply take_app_length'.
      rewrite length_digest_chain, length_take. lia.
    - unfold blen in *. rewrite length_take. lia. }
  split; [done|]. split; [|split].
  1-2: unfold LogTail.truncate_from; destruct (_ <=? _)%N; [done|]; by case_decide.
  rewrite !last_round_val by done. unfold LogTail.truncate_from.
  destruct (N.leb_spec from (base t)); [lia|]. unfold LogTail.index_of, blen.
  case_decide; cbn; rewrite ?length_take; lia.
Qed.

Lemma entry_at_truncate t from round :
  (base t < from)%N ->
  entry_at (LogTail.truncate_from t from) round = if (round <? from)%N then entry_at t round else None.
Proof.
  intros Hf. unfold entry_at, LogTail.truncate_from.
  destruct (N.leb_spec from (base t)); [lia|].
  destruct (decide (LogTail.index_of t from < length (entries t))) as [Hk|Hk]; unfold LogTail.index_of in *; cbn.
  - destruct (N.ltb_spec round from), (N.ltb_spec (base t) round); try done.
    + by rewrite lookup_take_lt by lia.
    + apply lookup_take_ge. lia.
  - destruct (N.ltb_spec round from), (N.ltb_spec (base t) round); try done.
    apply lookup_ge_None_2. lia.
Qed.

(** Compaction at a round whose digest it is given: the rounds kept answer as
    before. *)
Lemma compact_to_wf t b d :
  tail_wf t -> (base t < b <= LogTail.last_round t)%N -> LogTail.digest_at t b = Some d ->
  exists t', LogTail.compact_to t b d = Some t' /\ tail_wf t' /\ base t' = b
    /\ LogTail.last_round t' = LogTail.last_round t
    /\ (forall round, entry_at t' round = if (b <? round)%N then entry_at t round else None)
    /\ (forall round, (b <= round)%N -> LogTail.digest_at t' round = LogTail.digest_at t round).
Proof.
  intros Hwf Hb Hd. pose proof Hwf as [H1 H2 H3]. rewrite last_round_val in Hb by done.
  unfold LogTail.compact_to. rewrite last_round_val by done.
  destruct (N.ltb_spec (base t) b); [|lia]. destruct (N.leb_spec b (base t + blen (entries t))); [|lia]. cbn.
  set (n := N.to_nat (b - base t)).
  assert (n <= length (entries t)) as Hn by (unfold n, blen in *; lia).
  assert (digests t !! (n - 1) = Some d) as Hdn.
  { unfold LogTail.digest_at in Hd. destruct (N.eqb_spec b (base t)); [lia|].
    destruct (_ || _); [done|]. rewrite <- Hd. f_equal. unfold n, LogTail.index_of. lia. }
  assert (tail_wf (mkTail b d (drop n (entries t)) (drop n (digests t)) (rewritten_in_term t))) as Hwf'.
  { split; cbn.
    - rewrite <- (take_drop n (entries t)) in H1. apply contiguous_app in H1 as [_ H1].
      unfold blen in H1. rewrite length_take in H1.
      by replace (b + 1)%N with (base t + 1 + N.of_nat (n `min` length (entries t)))%N by (unfold n in *; lia).
    - rewrite H2. rewrite <- (take_drop n (entries t)) at 1. rewrite digest_chain_app.
      rewrite drop_app_length' by (rewrite length_digest_chain, length_take; lia).
      f_equal. rewrite H2 in Hdn. rewrite <- (take_drop n (entries t)), digest_chain_app in Hdn.
      rewrite lookup_app_l in Hdn by (rewrite length_digest_chain, length_take; unfold n in *; lia).
      rewrite last_lookup, length_digest_chain, length_take.
      replace (Init.Nat.pred (n `min` length (entries t))) with (n - 1) by lia. by rewrite Hdn.
    - unfold blen in *. rewrite length_drop. unfold n. lia. }
  eexists; split; [done|]. split; [done|]. split; [done|]. split; [|split].
  - rewrite last_round_val by done. cbn. unfold blen in *. rewrite length_drop. unfold n. lia.
  - intros round. unfold entry_at, LogTail.index_of. cbn.
    destruct (N.ltb_spec b round), (N.ltb_spec (base t) round); try lia; [|done..].
    rewrite lookup_drop. f_equal. unfold n. lia.
  - intros round Hr. unfold LogTail.digest_at. rewrite !last_round_val by done. cbn.
    destruct (N.eqb_spec round b) as [->|Hne].
    + unfold LogTail.digest_at in Hd. rewrite last_round_val in Hd by done. done.
    + destruct (N.eqb_spec round (base t)); [lia|].
      destruct (N.ltb_spec round b), (N.ltb_spec round (base t)); try lia. cbn.
      unfold blen. rewrite length_drop.
      replace (b + N.of_nat (length (entries t) - n))%N with (base t + N.of_nat (length (entries t)))%N
        by (unfold n, blen in *; lia).
      destruct (_ <? round)%N; [done|]. unfold LogTail.index_of. cbn. rewrite lookup_drop. f_equal.
      unfold n. lia.
Qed.

(** * The batch a follower is sent *)

Lemma take_bytes_bounded_prefix es none_yet bytes max :
  exists rest, es = take_bytes_bounded es none_yet bytes max ++ rest.
Proof.
  revert none_yet bytes. induction es as [|e es IH]; intros none_yet bytes; cbn; [by exists []|].
  destruct (negb none_yet && _); [by exists (e :: es)|].
  destruct (IH false (sadd64 bytes (entry_wire_len e))) as [rest Hr]. exists rest. cbn. by f_equal.
Qed.

Lemma take_bytes_bounded_size es bytes max :
  (max < max_u64)%N -> (bytes <= max)%N ->
  (bytes + batch_wire_len (take_bytes_bounded es false bytes max) <= max)%N.
Proof.
  intros Hm. revert bytes. induction es as [|e es IH]; intros bytes Hb; cbn; [lia|].
  destruct (N.ltb_spec max (sadd64 bytes (entry_wire_len e))) as [|Hle]; cbn; [lia|].
  unfold sadd64 in *. specialize (IH (bytes + entry_wire_len e)%N).
  replace (N.min (bytes + entry_wire_len e) max_u64) with (bytes + entry_wire_len e)%N in * by lia. lia.
Qed.

(** A slice carries the log's own entries from [round] on, at most [limit] of
    them, at least one when the tail holds the round, and no more than
    [max_bytes] on the wire unless a single entry is larger. *)
Lemma slice_from_spec t round limit max :
  tail_wf t -> (max < max_u64)%N -> 0 < limit ->
  let es := LogTail.slice_from t round limit max in
  contiguous round es /\ length es <= limit
  /\ (forall i e, es !! i = Some e -> entry_at t (round + N.of_nat i) = Some e)
  /\ (es = [] <-> entry_at t round = None)
  /\ ((batch_wire_len es <= max)%N \/ length es = 1).
Proof.
  intros Hwf Hm Hlim es. unfold es, LogTail.slice_from. clear es.
  destruct ((round <=? base t)%N || (LogTail.last_round t <? round)%N) eqn:Hr.
  { split; [done|]. split; [cbn; lia|]. split; [done|]. split; [|left; cbn; lia].
    split; [intros _|done]. unfold entry_at. rewrite last_round_val in Hr by done.
    destruct (N.leb_spec round (base t)), (N.ltb_spec (base t) round); try lia; [done|]. cbn in Hr.
    apply N.ltb_lt in Hr. apply lookup_ge_None_2. unfold LogTail.index_of, blen in *. lia. }
  apply orb_false_iff in Hr as [Hr1 Hr2]. apply N.leb_gt in Hr1. apply N.ltb_ge in Hr2.
  set (src := take limit (drop (LogTail.index_of t round) (entries t))).
  destruct (take_bytes_bounded_prefix src true 0 max) as [rest Hrest].
  set (es := take_bytes_bounded src true 0 max) in *.
  rewrite last_round_val in Hr2 by done.
  assert (LogTail.index_of t round < length (entries t)) as Hidx
    by (unfold LogTail.index_of, blen in *; lia).
  assert (forall i e, es !! i = Some e -> entry_at t (round + N.of_nat i) = Some e) as Hent.
  { intros i e He. assert (src !! i = Some e) as Hs.
    { rewrite Hrest. rewrite lookup_app_l; [done|]. by eapply lookup_lt_Some. }
    unfold src in Hs. apply lookup_take_Some in Hs as [Hs Hi]. rewrite lookup_drop in Hs.
    unfold entry_at. destruct (N.ltb_spec (base t) (round + N.of_nat i)); [|lia].
    rewrite <- Hs. f_equal. unfold LogTail.index_of. lia. }
  assert (es <> []) as Hne.
  { unfold es, src. destruct (lookup_lt_is_Some_2 _ _ Hidx) as [x Hx].
    rewrite (drop_S _ _ _ Hx). destruct limit as [|limit]; [lia|]. done. }
  repeat split.
  - pose proof (wf_contiguous _ Hwf) as Hc.
    rewrite <- (take_drop (LogTail.index_of t round) (entries t)) in Hc.
    apply contiguous_app in Hc as [_ Hc].
    rewrite <- (take_drop limit (drop _ _)) in Hc. apply contiguous_app in Hc as [Hc _].
    fold src in Hc. rewrite Hrest in Hc. apply contiguous_app in Hc as [Hc _].
    unfold blen in Hc. rewrite length_take in Hc.
    replace round with (base t + 1 + N.of_nat (LogTail.index_of t round `min` length (entries t)))%N; [done|].
    unfold LogTail.index_of in *. lia.
  - assert (length src <= limit) by (unfold src; rewrite length_take; lia).
    apply (f_equal length) in Hrest. rewrite length_app in Hrest. lia.
  - done.
  - by intros ?.
  - intros Hnone. destruct es as [|e es'] eqn:Ees; [done|]. specialize (Hent 0 e eq_refl).
    rewrite N.add_0_r in Hent. congruence.
  - unfold es. destruct src as [|e src'] eqn:Esrc; [done|]. cbn.
    destruct (N.leb_spec (entry_wire_len e) max) as [Hle|Hgt].
    + left. unfold sadd64. rewrite N.add_0_l. rewrite N.min_l by lia.
      by apply take_bytes_bounded_size.
    + right. f_equal. destruct src' as [|e' src']; [done|]. cbn.
      assert (max <? sadd64 (sadd64 0 (entry_wire_len e)) (entry_wire_len e'))%N as ->%Is_true_eq_true; [|done].
      apply Is_true_eq_left, N.ltb_lt. unfold sadd64. lia.
Qed.

(** * The digest of a round *)

Lemma digest_chain_lookup es d i :
  i < length es -> digest_chain d es !! i = Some (fold_left fold_entry (take (S i) es) d).
Proof.
  revert d i. induction es as [|e es IH]; intros d i Hi; cbn in Hi; [lia|].
  destruct i as [|i]; [done|]. cbn [digest_chain take fold_left lookup list_lookup].
  rewrite IH by lia. done.
Qed.

(** A round's digest is the fold of every entry up to it onto the floor's. *)
Lemma digest_at_fold t round :
  tail_wf t -> (base t <= round <= LogTail.last_round t)%N ->
  LogTail.digest_at t round
  = Some (fold_left fold_entry (take (N.to_nat (round - base t)) (entries t)) (base_digest t)).
Proof.
  intros Hwf H. unfold LogTail.digest_at. destruct (N.eqb_spec round (base t)) as [->|Hne].
  { by rewrite N.sub_diag. }
  destruct (N.ltb_spec round (base t)); [lia|].
  destruct (N.ltb_spec (LogTail.last_round t) round); [lia|]. cbn [orb].
  rewrite (wf_digests _ Hwf), digest_chain_lookup.
  - unfold LogTail.index_of. do 3 f_equal. lia.
  - rewrite last_round_val in H by done. unfold LogTail.index_of, blen in *. lia.
Qed.

Lemma digest_at_outside t round :
  tail_wf t -> ~ (base t <= round <= LogTail.last_round t)%N -> LogTail.digest_at t round = None.
Proof.
  intros Hwf H. unfold LogTail.digest_at. pose proof (last_round_val t Hwf).
  destruct (N.eqb_spec round (base t)) as [->|]; [lia|].
  destruct (N.ltb_spec round (base t)); [done|].
  destruct (N.ltb_spec (LogTail.last_round t) round); [done|lia].
Qed.

Lemma entries_truncate t from :
  (base t < from)%N ->
  entries (LogTail.truncate_from t from) = take (LogTail.index_of t from) (entries t).
Proof.
  intros H. unfold LogTail.truncate_from. destruct (N.leb_spec from (base t)); [lia|].
  case_decide; [done|]. cbn. by rewrite take_ge by lia.
Qed.

Lemma digest_at_truncate t from round :
  tail_wf t -> (base t < from)%N -> (round < from)%N ->
  LogTail.digest_at (LogTail.truncate_from t from) round = LogTail.digest_at t round.
Proof.
  intros Hwf Hf Hr. destruct (truncate_from_wf t from Hwf Hf) as (Hwf' & Hb & Hbd & Hl).
  destruct (decide (base t <= round <= LogTail.last_round t)%N) as [Hin|Hout].
  - rewrite !digest_at_fold by (done || lia). rewrite Hb, Hbd, entries_truncate by done.
    rewrite take_take. do 3 f_equal. unfold LogTail.index_of. lia.
  - rewrite !digest_at_outside by (done || lia). done.
Qed.

(** * Properties *)

(** A tail is a map from rounds to entries, and [push] extends it by one:
    an entry whose round is the next one goes in behind the others, with the
    digest of the round below folded into its own, and every other round reads
    as before. Any other round panics. *)
Theorem log_tail_push (t : LogTail) (e : Entry) :
  tail_wf t -> (LogTail.last_round t < max_u64)%N ->
  (LogTail.push t e = None <-> e_round e <> (LogTail.last_round t + 1)%N)
  /\ (forall t', LogTail.push t e = Some t' ->
        tail_wf t' /\ base t' = base t /\ LogTail.last_round t' = e_round e
        /\ (forall round, entry_at t' round = if (round =? e_round e)%N then Some e else entry_at t round)
        /\ (forall d, LogTail.digest_at t (LogTail.last_round t) = Some d ->
              LogTail.digest_at t' (e_round e) = Some (fold_entry d e))).
Proof.
  intros Hwf Hm. split.
  - unfold LogTail.push. rewrite wadd64_small by lia.
    destruct (N.eqb_spec (e_round e) (LogTail.last_round t + 1)) as [E|E]; split; done.
  - intros t' Hp.
    assert (e_round e = LogTail.last_round t + 1)%N as He.
    { unfold LogTail.push in Hp. rewrite wadd64_small in Hp by lia. by destruct (N.eqb_spec (e_round e) (LogTail.last_round t + 1)). }
    destruct (push_Some t e Hwf He Hm) as (t1 & Hp1 & Hwf1 & Hb & Hbd & Hes & _ & Hl). simplify_eq.
    split; [done|]. split; [done|]. split; [congruence|]. split; [by intros round; apply entry_at_push|].
    intros d. pose proof (last_round_val t Hwf) as Hv. unfold blen in Hv.
    rewrite !digest_at_fold by (done || lia). rewrite Hb, Hbd, Hes, He, Hv. intros [= <-].
    rewrite !take_ge by (rewrite ?length_app; cbn; lia). by rewrite fold_left_app.
Qed.

(** Entries of rounds 5 to 7 above a snapshot through round 4. *)
Definition sample_entry (r : Round) : Entry := mkEntry 2 r (LeaseTick r).
Definition sample_tail : LogTail :=
  default (LogTail.rebased 4 9) (foldl (fun t r => t ≫= fun t => LogTail.push t (sample_entry r))
    (Some (LogTail.rebased 4 9)) [5; 6; 7]%N).

Lemma sample_tail_wf : tail_wf sample_tail.
Proof. split; [by vm_compute|by vm_compute|]. change (4 + blen (entries sample_tail) <= max_u64)%N.
  change (blen (entries sample_tail)) with 3%N. done. Qed.

Lemma log_tail_push_witness :
  LogTail.push sample_tail (sample_entry 9) = None
  /\ exists t', LogTail.push sample_tail (sample_entry 8) = Some t' /\ entry_at t' 8 = Some (sample_entry 8)
                /\ entry_at t' 6 = Some (sample_entry 6).
Proof.
  assert (LogTail.last_round sample_tail < max_u64)%N as Hm by by vm_compute. split.
  - apply (log_tail_push sample_tail _ sample_tail_wf Hm). by vm_compute.
  - destruct (LogTail.push sample_tail (sample_entry 8)) as [t'|] eqn:E; [|by vm_compute in E].
    exists t'. split; [done|].
    destruct (log_tail_push sample_tail (sample_entry 8) sample_tail_wf Hm) as [_ H].
    destruct (H t' E) as (_ & _ & _ & R & _). rewrite !R. by split; vm_compute.
Defined.

(** [truncate_from] drops a round and everything above it and nothing
    below: the rounds left keep their entries and their digests, and a round at
    or below the floor is never touched. *)
Theorem log_tail_truncate (t : LogTail) (from : Round) :
  tail_wf t ->
  let t' := LogTail.truncate_from t from in
  tail_wf t' /\ base t' = base t
  /\ ((from <= base t)%N -> t' = t)
  /\ ((base t < from)%N ->
        LogTail.last_round t' = N.min (LogTail.last_round t) (from - 1)
        /\ (forall round, entry_at t' round = if (round <? from)%N then entry_at t round else None)
        /\ (forall round, (round < from)%N -> LogTail.digest_at t' round = LogTail.digest_at t round)).
Proof.
  intros Hwf t'. destruct (N.le_gt_cases from (base t)) as [Hle|Hgt].
  { assert (t' = t) as ->. { unfold t', LogTail.truncate_from. by apply N.leb_le in Hle as ->. }
    split; [done|]. split; [done|]. split; [done|lia]. }
  destruct (truncate_from_wf t from Hwf Hgt) as (Hwf' & Hb & Hbd & Hl).
  split; [done|]. split; [done|]. split; [lia|]. intros _.
  split; [done|]. split; [by intros round; apply entry_at_truncate|].
  intros round Hr. by apply digest_at_truncate.
Qed.

Lemma log_tail_truncate_witness :
  entry_at (LogTail.truncate_from sample_tail 6) 5 = Some (sample_entry 5)
  /\ entry_at (LogTail.truncate_from sample_tail 6) 6 = None.
Proof.
  destruct (log_tail_truncate sample_tail 6 sample_tail_wf) as (_ & _ & _ & H).
  destruct H as (_ & R & _); [by vm_compute|]. rewrite !R. by split; vm_compute.
Defined.

(** [compact_to] moves the floor up to a round the tail holds and forgets
    only what is below it: the end of the log, every entry above the new floor
    and every digest from it on are unchanged, so that a compacted node and one
    that never compacted report the same digests. *)
Theorem log_tail_compact (t : LogTail) (b : Round) (d : u64) :
  tail_wf t -> (base t < b <= LogTail.last_round t)%N -> LogTail.digest_at t b = Some d ->
  exists t', LogTail.compact_to t b d = Some t' /\ tail_wf t' /\ base t' = b
    /\ LogTail.last_round t' = LogTail.last_round t
    /\ (forall round, entry_at t' round = if (b <? round)%N then entry_at t round else None)
    /\ (forall round, (b <= round)%N -> LogTail.digest_at t' round = LogTail.digest_at t round).
Proof. apply compact_to_wf. Qed.

Lemma log_tail_compact_witness :
  exists d t', LogTail.compact_to sample_tail 6 d = Some t'
    /\ LogTail.digest_at t' 7 = LogTail.digest_at sample_tail 7.
Proof.
  assert (base sample_tail < 6 <= LogTail.last_round sample_tail)%N as Hr by by vm_compute.
  destruct (digest_at_Some sample_tail sample_tail_wf 6) as [d Hd]; [by vm_compute|]. exists d.
  destruct (log_tail_compact sample_tail 6 d sample_tail_wf Hr Hd) as (t' & E & _ & _ & _ & _ & R).
  exists t'. split; [exact E|]. apply R. clear. by vm_compute.
Defined.
