(* ===== verification/Payload.v ===== *)
(** The payload a snapshot transfer carries and the cursors of its two ends:
    the data half of [src/src/consensus/snapshot.rs]. A [SnapshotError] is the
    reason it was refused for. *)
From S2P Require Import Prelude Bytes Errors WalRecord Config Types Digest Transport.

Definition HEADER_BYTES : N := 100.
Definition MAX_ENTRY_BYTES : N := MAX_FRAME_BYTES.
Definition MAX_SIDECAR_BYTES : N := 32 * MAX_ENTRY_BYTES.
Definition PAGE_SIZE : N := 4096.
Definition SNAPSHOT_CHUNK_BYTES : N := 1048576.
Definition MAX_SNAPSHOT_BYTES : N := HEADER_BYTES + max_u32 + max_u32 + max_u32 * PAGE_SIZE.

(** [b"FDBSNAP\x01"]. *)
Definition MAGIC : list byte := map u8 [70; 68; 66; 83; 78; 65; 80; 1]%N.
Definition FORMAT_VERSION : u32 := 1.

Definition validate (m : SnapshotMeta) : Result Why unit :=
  _ ← refuse_if (meta_last_round m =? 0)%N RoundZero;
  _ ← refuse_if (Config.is_empty (meta_config m)) (SnapshotEmptyVoterSet (meta_last_round m));
  _ ← refuse_if (meta_total_bytes m <? HEADER_BYTES)%N
        (SmallerThanHeader (meta_last_round m) (meta_total_bytes m));
  refuse_if (MAX_SNAPSHOT_BYTES <? meta_total_bytes m)%N
    (AboveCeiling (meta_last_round m) (meta_total_bytes m)).

Record PayloadHeader := mkHeader {
  h_base_digest : u64;
  h_last_round : Round;
  h_last_term : Term;
  root_page_id : u32;
  catalog_page_id : u32;
  start_lsn : u64;
  end_lsn : u64;
  page_count : u32;
  arena_len : u32;
  branches_len : u32;
  image_len : u64;
  wal_len : u32;
  h_body_digest : u64
}.

#[export] Instance PayloadHeader_eq_dec : EqDecision PayloadHeader.
Proof. solve_decision. Defined.

(** The 92 bytes the header's own digest is taken over. *)
Definition encode_fields (h : PayloadHeader) : list byte :=
  MAGIC ++ be_bytes 4 FORMAT_VERSION ++ be_bytes 8 (h_base_digest h)
  ++ be_bytes 8 (h_last_round h) ++ be_bytes 8 (h_last_term h)
  ++ be_bytes 4 (root_page_id h) ++ be_bytes 4 (catalog_page_id h)
  ++ be_bytes 8 (start_lsn h) ++ be_bytes 8 (end_lsn h) ++ be_bytes 4 (page_count h)
  ++ be_bytes 4 (arena_len h) ++ be_bytes 4 (branches_len h) ++ be_bytes 8 (image_len h)
  ++ be_bytes 4 (wal_len h) ++ be_bytes 8 (h_body_digest h).

Definition header_encode (h : PayloadHeader) : list byte :=
  let b := encode_fields h in b ++ be_bytes 8 (digest b).

(** [bytes[a..b]] where the slice is in range. *)
Definition sub_bytes (bytes : list byte) (a b : nat) : list byte := take (b - a) (drop a bytes).
Definition be_at (bytes : list byte) (a b : nat) : N := of_be (sub_bytes bytes a b).

(** The sidecar lengths, in the order they are checked. *)
Fixpoint check_sidecars (lens : list N) : Result Why unit :=
  match lens with
  | [] => Ok tt
  | len :: lens => _ ← refuse_if (MAX_SIDECAR_BYTES <? len)%N (SidecarTooBig len); check_sidecars lens
  end.

Definition check_internally_consistent (h : PayloadHeader) : Result Why unit :=
  _ ← refuse_if (negb (image_len h =? page_count h * PAGE_SIZE)%N)
        (ImageLength (page_count h) (image_len h));
  _ ← refuse_if (h_last_round h =? 0)%N HeaderRoundZero;
  _ ← check_sidecars [arena_len h; branches_len h; wal_len h];
  refuse_if (page_count h =? 0)%N ZeroPages.

Definition header_decode (bytes : list byte) : Result Why PayloadHeader :=
  _ ← refuse_if (blen bytes <? HEADER_BYTES)%N (HeaderShort (blen bytes));
  _ ← refuse_if (negb (bool_decide (sub_bytes bytes 0 8 = MAGIC))) BadMagic;
  let version := be_at bytes 8 12 in
  _ ← refuse_if (negb (version =? FORMAT_VERSION)%N) (BadFormatVersion version);
  let claimed := be_at bytes 92 100 in
  let actual := digest (sub_bytes bytes 0 92) in
  _ ← refuse_if (negb (claimed =? actual)%N) (BadHeaderDigest claimed actual);
  let h := mkHeader (be_at bytes 12 20) (be_at bytes 20 28) (be_at bytes 28 36)
             (be_at bytes 36 40) (be_at bytes 40 44) (be_at bytes 44 52) (be_at bytes 52 60)
             (be_at bytes 60 64) (be_at bytes 64 68) (be_at bytes 68 72) (be_at bytes 72 80)
             (be_at bytes 80 84) (be_at bytes 84 92) in
  _ ← check_internally_consistent h;
  Ok h.

(** [total_bytes]: no sum of the field widths reaches 2^64 once the header is
    consistent. *)
Definition total_bytes (h : PayloadHeader) : u64 :=
  wadd64 (wadd64 (wadd64 (wadd64 HEADER_BYTES (arena_len h)) (branches_len h)) (wal_len h))
         (image_len h).

Inductive CompletionFault : Type := FaultLength | FaultDigest.

Definition completion_verdict (received total body_digest claimed : u64) : Result CompletionFault unit :=
  _ ← refuse_if (negb (received =? total)%N) FaultLength;
  refuse_if (negb (body_digest =? claimed)%N) FaultDigest.

Record SnapshotPoint := mkPoint {
  pt_last_round : Round;
  pt_last_term : Term;
  pt_config : Config;
  pt_base_digest : u64
}.

Record Snapshot := mkSnapshot {
  snap_meta : SnapshotMeta;
  snap_header : PayloadHeader;
  snap_bytes : list byte
}.

Definition fits_u32 (len : N) : Result Why u32 :=
  _ ← refuse_if (MAX_SIDECAR_BYTES <? len)%N (SidecarTooBig len);
  _ ← refuse_if (max_u32 <? len)%N (DoesNotFitU32 len);
  Ok len.

(** [Snapshot::build]; the label is the start and end LSN and the page count
    of [BackupLabel]. *)
Definition build (at_ : SnapshotPoint) (root catalog : u32)
    (label_start label_end : u64) (label_pages : u32)
    (arena branches redo image : list byte) : Result Why Snapshot :=
  arena_len ← fits_u32 (blen arena);
  branches_len ← fits_u32 (blen branches);
  wal_len ← fits_u32 (blen redo);
  let body := arena ++ branches ++ redo ++ image in
  let header := mkHeader (pt_base_digest at_) (pt_last_round at_) (pt_last_term at_) root catalog
                  label_start label_end label_pages arena_len branches_len (blen image) wal_len
                  (digest body) in
  _ ← check_internally_consistent header;
  let bytes := header_encode header ++ body in
  let meta := mkMeta (pt_last_round at_) (pt_last_term at_) (pt_config at_) (blen bytes) in
  _ ← validate meta;
  Ok (mkSnapshot meta header bytes).

Definition chunk (s : Snapshot) (offset : u64) : list byte * bool :=
  let len := blen (snap_bytes s) in
  let from := N.min offset len in
  let to := N.min (from + SNAPSHOT_CHUNK_BYTES) len in
  (sub_bytes (snap_bytes s) (N.to_nat from) (N.to_nat to), (to =? len)%N).

Record SendCursor := mkSend { sc_snapshot : Snapshot; sc_acked : u64 }.
Definition sc_round (c : SendCursor) : Round := meta_last_round (snap_meta (sc_snapshot c)).
Definition sc_total (c : SendCursor) : u64 := meta_total_bytes (snap_meta (sc_snapshot c)).

Record RecvCursor := mkRecv {
  rc_meta : SnapshotMeta;
  rc_header : PayloadHeader;
  rc_received : u64;
  rc_body_digest : u64;
  rc_complete : bool
}.

(** * The header's two directions *)

Definition header_ok (h : PayloadHeader) : Prop :=
  u64_ok (h_base_digest h) /\ u64_ok (h_last_round h) /\ u64_ok (h_last_term h)
  /\ u32_ok (root_page_id h) /\ u32_ok (catalog_page_id h) /\ u64_ok (start_lsn h)
  /\ u64_ok (end_lsn h) /\ u32_ok (page_count h) /\ u32_ok (arena_len h)
  /\ u32_ok (branches_len h) /\ u64_ok (image_len h) /\ u32_ok (wal_len h)
  /\ u64_ok (h_body_digest h).

Lemma length_encode_fields h : length (encode_fields h) = 92.
Proof. unfold encode_fields. rewrite !length_app, !length_be_bytes. done. Qed.

Lemma length_header_encode h : length (header_encode h) = 100.
Proof. unfold header_encode. by rewrite length_app, length_encode_fields, length_be_bytes. Qed.

(** A field read back from where it was written. *)
Lemma sub_bytes_app pre w rest a b :
  length pre = a -> length w = b - a -> sub_bytes (pre ++ w ++ rest) a b = w.
Proof.
  intros <- Hw. unfold sub_bytes. rewrite drop_app_length. rewrite <- Hw. apply take_app_length.
Qed.

Lemma be_at_app n pre v rest a b :
  length pre = a -> n = b - a -> (v < 256 ^ N.of_nat n)%N ->
  be_at (pre ++ be_bytes n v ++ rest) a b = v.
Proof.
  intros Ha -> Hv. unfold be_at. rewrite sub_bytes_app; [|done|apply length_be_bytes].
  by apply of_be_be_bytes_small.
Qed.

Lemma u32_lt v : u32_ok v -> (v < 256 ^ N.of_nat 4)%N.
Proof. unfold u32_ok, max_u32. cbn. lia. Qed.
Lemma u64_lt v : u64_ok v -> (v < 256 ^ N.of_nat 8)%N.
Proof. unfold u64_ok, max_u64. cbn. lia. Qed.

Lemma be_at_shift w l a b n :
  length w = n -> n <= a -> be_at (w ++ l) a b = be_at l (a - n) (b - n).
Proof.
  intros <- Ha. unfold be_at, sub_bytes. rewrite drop_app_ge by done.
  do 2 f_equal. lia.
Qed.

Lemma length_MAGIC : length MAGIC = 8.
Proof. reflexivity. Qed.

Lemma be_at_front n v l : (v < 256 ^ N.of_nat n)%N -> be_at (be_bytes n v ++ l) 0 n = v.
Proof. intros Hv. by apply (be_at_app n [] v l 0 n); [|lia|]. Qed.

(** Read one field: step over the fields before it, then take it. *)
Ltac read_field :=
  repeat (erewrite be_at_shift; [|first [apply length_MAGIC | apply length_be_bytes]|lia]); cbn [Nat.sub];
  apply be_at_front; first [by apply u32_lt | by apply u64_lt | reflexivity].

Lemma header_fields h dg :
  header_ok h ->
  let bs := encode_fields h ++ dg in
  be_at bs 8 12 = FORMAT_VERSION
  /\ mkHeader (be_at bs 12 20) (be_at bs 20 28) (be_at bs 28 36)
       (be_at bs 36 40) (be_at bs 40 44) (be_at bs 44 52) (be_at bs 52 60)
       (be_at bs 60 64) (be_at bs 64 68) (be_at bs 68 72) (be_at bs 72 80)
       (be_at bs 80 84) (be_at bs 84 92) = h.
Proof.
  intros Hok bs. unfold header_ok in Hok. destruct_and!.
  unfold bs, encode_fields. rewrite <- !app_assoc.
  split; [read_field|]. destruct h. cbn [h_base_digest h_last_round h_last_term root_page_id
    catalog_page_id start_lsn end_lsn page_count arena_len branches_len image_len wal_len
    h_body_digest] in *. f_equal; read_field.
Qed.

Lemma header_digest h dg :
  let bs := header_encode h ++ dg in
  sub_bytes bs 0 92 = encode_fields h /\ be_at bs 92 100 = digest (encode_fields h).
Proof.
  unfold header_encode. rewrite <- app_assoc. split.
  - apply (sub_bytes_app [] _ _ 0 92); [done|]. apply length_encode_fields.
  - apply be_at_app; [apply length_encode_fields|done|].
    apply u64_lt. unfold u64_ok, digest. apply fnv64_update_range. by vm_compute.
Qed.

Lemma header_magic h dg : sub_bytes (encode_fields h ++ dg) 0 8 = MAGIC.
Proof.
  unfold encode_fields. rewrite <- !app_assoc. by apply (sub_bytes_app [] MAGIC).
Qed.

Lemma header_decode_encode h rest :
  header_ok h -> check_internally_consistent h = Ok tt ->
  header_decode (header_encode h ++ rest) = Ok h.
Proof.
  intros Hok Hc. unfold header_decode.
  destruct (header_digest h rest) as [-> ->].
  assert ((blen (header_encode h ++ rest) <? HEADER_BYTES)%N = false) as ->.
  { apply N.ltb_ge. rewrite blen_app. unfold blen at 1. rewrite length_header_encode.
    unfold HEADER_BYTES. lia. }
  unfold header_encode. rewrite <- app_assoc.
  generalize (be_bytes 8 (digest (encode_fields h)) ++ rest). intros tl.
  rewrite header_magic, bool_decide_true by done.
  destruct (header_fields h tl Hok) as [-> E].
  rewrite !N.eqb_refl, E. cbn [negb refuse_if mbind result_bind]. by rewrite Hc.
Qed.

(** A built snapshot describes itself: its payload starts with its header, and
    the envelope, the header and the payload agree on the length. *)
Lemma build_spec at_ root catalog ls le lp arena branches redo image s :
  build at_ root catalog ls le lp arena branches redo image = Ok s ->
  snap_bytes s = header_encode (snap_header s) ++ arena ++ branches ++ redo ++ image
  /\ check_internally_consistent (snap_header s) = Ok tt
  /\ h_body_digest (snap_header s) = digest (arena ++ branches ++ redo ++ image)
  /\ meta_total_bytes (snap_meta s) = blen (snap_bytes s)
  /\ total_bytes (snap_header s) = blen (snap_bytes s)
  /\ meta_last_round (snap_meta s) = h_last_round (snap_header s)
  /\ meta_last_term (snap_meta s) = h_last_term (snap_header s)
  /\ validate (snap_meta s) = Ok tt.
Proof.
  unfold build, fits_u32. intros H. inv_ok. cbn [snap_header snap_bytes snap_meta].
  match goal with H : check_internally_consistent ?h = Ok ?u |- _ => destruct u; set (hd := h) in * end.
  match goal with H : validate _ = Ok ?u |- _ => destruct u; rename H into Hv end.
  pose proof Hv as Hv'. unfold validate in Hv'. inv_ok. cbn [meta_total_bytes] in Hv'.
  apply N.ltb_ge in Hv'.
  assert (blen (header_encode hd ++ arena ++ branches ++ redo ++ image)
          = (HEADER_BYTES + blen arena + blen branches + blen redo + blen image)%N) as Hlen.
  { rewrite !blen_app. unfold blen at 1. rewrite length_header_encode. unfold HEADER_BYTES. lia. }
  assert (blen (header_encode hd ++ arena ++ branches ++ redo ++ image) <= max_u64)%N as Hmax.
  { etransitivity; [exact Hv'|]. by vm_compute. }
  repeat (split; [done|]). split; [|by repeat split].
  unfold total_bytes. cbn [arena_len branches_len wal_len image_len hd]. rewrite Hlen in Hmax |- *.
  by rewrite (wadd64_small HEADER_BYTES), (wadd64_small (_ + blen arena)),
    (wadd64_small (_ + blen branches)), (wadd64_small (_ + blen redo)) by lia.
Qed.

(** The lengths [build] writes fit their fields; the rest of the header fits
    when the values it was given do. *)
Lemma build_header_ok at_ root catalog ls le lp arena branches redo image s :
  build at_ root catalog ls le lp arena branches redo image = Ok s ->
  u64_ok (pt_base_digest at_) -> u64_ok (pt_last_round at_) -> u64_ok (pt_last_term at_) ->
  u32_ok root -> u32_ok catalog -> u64_ok ls -> u64_ok le -> u32_ok lp ->
  header_ok (snap_header s).
Proof.
  intros H ????????. pose proof H as (HB & _ & _ & Ht & _ & _ & _ & Hv)%build_spec.
  assert (blen (snap_bytes s) <= max_u64)%N as Hmax.
  { rewrite <- Ht. unfold validate in Hv. inv_ok. rewrite N.ltb_ge in Hv.
    etransitivity; [exact Hv|]. by vm_compute. }
  rewrite HB, !blen_app in Hmax. clear HB Ht Hv.
  unfold build, fits_u32 in H. inv_ok. rewrite ?N.ltb_ge in *.
  unfold header_ok. cbn [snap_header h_base_digest h_last_round h_last_term root_page_id catalog_page_id
    start_lsn end_lsn page_count arena_len branches_len image_len wal_len h_body_digest].
  do 11 (split; [done || (unfold u64_ok; lia)|]). split; [done|]. apply fnv64_update_range. by vm_compute.
Qed.

(** * Properties *)

(** C18: the header of a snapshot reads back as it was written, whatever follows
    it, when its own fields agree with each other. *)
Theorem header_round_trip (h : PayloadHeader) (rest : list byte) :
  header_ok h -> check_internally_consistent h = Ok tt ->
  header_decode (header_encode h ++ rest) = Ok h.
Proof. apply header_decode_encode. Qed.

Definition sample_header : PayloadHeader := mkHeader 11 5 2 1 2 0 9 1 0 0 4096 1 77.

Lemma header_round_trip_witness : header_decode (header_encode sample_header ++ [u8 1]) = Ok sample_header.
Proof.
  apply header_round_trip; [|by vm_compute].
  unfold header_ok, sample_header, u32_ok, u64_ok. cbn. split_and!; done.
Defined.
