(* ===== verification/State.v ===== *)
(** The consensus state machine's state ([Consensus] and [Rng] of
    [src/src/consensus/mod.rs], [Progress] of [replicate.rs]) and the effect
    its handlers run in: they read and write the state, push actions onto
    [out], and panic where an assertion of the source fails. *)
From S2P Require Import Prelude Bytes Errors WalRecord Config Types Digest LogTail Payload.

(** * The pseudo-random generator: xorshift64* *)

Definition Rng_new (seed : u64) : u64 := if (seed =? 0)%N then 11400714819323198485%N else seed.

Definition rng_mix (state : u64) : u64 :=
  let x := N.lxor state (N.shiftr state 12) in
  let x := N.lxor x (N.shiftl x 25 mod 18446744073709551616) in
  N.lxor x (N.shiftr x 27).

(** [next_u64] returns the output and the next state. *)
Definition next_u64 (state : u64) : u64 * u64 :=
  let x := rng_mix state in (wmul64 x 2685821657736338717, x).

Definition next_u32 (state : u64) : u32 * u64 :=
  let '(v, state) := next_u64 state in (N.shiftr v 32, state).

(** * The state *)

(** [diverged] keeps what the latched message names: the round, the digest
    reported and the leader's own. *)
Record Progress := mkProgress {
  next : Round;
  matched : Round;
  silent : u32;
  needs_snapshot : bool;
  diverged : option (Round * u64 * u64);
  own_log : option LogTail;
  sending : option SendCursor;
  receiving : option RecvCursor
}.

Definition progress_default : Progress := mkProgress 0 0 0 false None None None None.

Record Consensus := mkConsensus {
  self_id : NodeId;
  role : Role;
  hard : HardState;
  leader : option NodeId;
  cfg : Config;
  campaign : option Config;
  acked : gmap NodeId CfgAt;
  behind : bool;
  unjoined : bool;
  since_heard : u32;
  since_quorum : u32;
  election_timeout : u32;
  election_base : u32;
  lease : u32;
  heartbeat : u32;
  since_heartbeat : u32;
  votes : gset NodeId;
  progress : gmap NodeId Progress;
  commit : Round;
  applied : Round;
  durable : Round;
  last_term : Term;
  last_round : Round;
  snapshot_round : Round;
  snapshot_term : Term;
  rng : u64
}.

#[export] Instance eta_Progress : Eta Progress := fun p =>
  mkProgress (next p) (matched p) (silent p) (needs_snapshot p) (diverged p) (own_log p)
             (sending p) (receiving p).
#[export] Instance set_next : Setter next. Proof. build_setter. Defined.
#[export] Instance set_matched : Setter matched. Proof. build_setter. Defined.
#[export] Instance set_silent : Setter silent. Proof. build_setter. Defined.
#[export] Instance set_needs_snapshot : Setter needs_snapshot. Proof. build_setter. Defined.
#[export] Instance set_diverged : Setter diverged. Proof. build_setter. Defined.
#[export] Instance set_own_log : Setter own_log. Proof. build_setter. Defined.
#[export] Instance set_sending : Setter sending. Proof. build_setter. Defined.
#[export] Instance set_receiving : Setter receiving. Proof. build_setter. Defined.

#[export] Instance eta_Consensus : Eta Consensus := fun s =>
  mkConsensus (self_id s) (role s) (hard s) (leader s) (cfg s) (campaign s) (acked s) (behind s)
    (unjoined s) (since_heard s) (since_quorum s) (election_timeout s) (election_base s) (lease s)
    (heartbeat s) (since_heartbeat s) (votes s) (progress s) (commit s) (applied s) (durable s)
    (last_term s) (last_round s) (snapshot_round s) (snapshot_term s) (rng s).
#[export] Instance set_role : Setter role. Proof. build_setter. Defined.
#[export] Instance set_hard : Setter hard. Proof. build_setter. Defined.
#[export] Instance set_leader : Setter leader. Proof. build_setter. Defined.
#[export] Instance set_cfg : Setter cfg. Proof. build_setter. Defined.
#[export] Instance set_campaign : Setter campaign. Proof. build_setter. Defined.
#[export] Instance set_acked : Setter acked. Proof. build_setter. Defined.
#[export] Instance set_behind : Setter behind. Proof. build_setter. Defined.
#[export] Instance set_unjoined : Setter unjoined. Proof. build_setter. Defined.
#[export] Instance set_since_heard : Setter since_heard. Proof. build_setter. Defined.
#[export] Instance set_since_quorum : Setter since_quorum. Proof. build_setter. Defined.
#[export] Instance set_election_timeout : Setter election_timeout. Proof. build_setter. Defined.
#[export] Instance set_since_heartbeat : Setter since_heartbeat. Proof. build_setter. Defined.
#[export] Instance set_votes : Setter votes. Proof. build_setter. Defined.
#[export] Instance set_progress : Setter progress. Proof. build_setter. Defined.
#[export] Instance set_commit : Setter commit. Proof. build_setter. Defined.
#[export] Instance set_applied : Setter applied. Proof. build_setter. Defined.
#[export] Instance set_durable : Setter durable. Proof. build_setter. Defined.
#[export] Instance set_last_term : Setter last_term. Proof. build_setter. Defined.
#[export] Instance set_last_round : Setter last_round. Proof. build_setter. Defined.
#[export] Instance set_snapshot_round : Setter snapshot_round. Proof. build_setter. Defined.
#[export] Instance set_snapshot_term : Setter snapshot_term. Proof. build_setter. Defined.
#[export] Instance set_rng : Setter rng. Proof. build_setter. Defined.

Definition ELECTION_BASE : u32 := 10.

(** [Consensus::new] and [Consensus::joining]. *)
Definition Consensus_new (id : NodeId) (c : Config) (seed : u64) : Consensus :=
  let '(draw, rng) := next_u32 (Rng_new seed) in
  mkConsensus id Follower hard_default None c None ∅ false false 0 0
    (ELECTION_BASE + draw mod ELECTION_BASE)%N ELECTION_BASE (ELECTION_BASE - 2)%N 3 0
    ∅ ∅ 0 0 0 0 0 0 0 rng.

Definition Consensus_joining (id : NodeId) (seed : u64) : Consensus :=
  (Consensus_new id Config.empty seed) <| behind := true |> <| unjoined := true |>.

Definition term_of (s : Consensus) : Term := hard_term (hard s).

Definition may_campaign (s : Consensus) : bool :=
  negb (behind s) && negb (unjoined s) && Config.contains (cfg s) (self_id s).

(** * The effect *)

(** [None] is a panic; the actions are the ones pushed onto [out], in order. *)
Definition M (A : Type) : Type := Consensus -> option (A * Consensus * list Action).

#[export] Instance m_ret : MRet M := fun _ a s => Some (a, s, []).
#[export] Instance m_bind : MBind M := fun _ _ k m s =>
  match m s with
  | Some (a, s1, w1) =>
      match k a s1 with
      | Some (b, s2, w2) => Some (b, s2, w1 ++ w2)
      | None => None
      end
  | None => None
  end.

Definition get : M Consensus := fun s => Some (s, s, []).
Definition gets {A : Type} (f : Consensus -> A) : M A := fun s => Some (f s, s, []).
Definition modify (f : Consensus -> Consensus) : M unit := fun s => Some (tt, f s, []).
Definition emit (a : Action) : M unit := fun s => Some (tt, s, [a]).
Definition panic {A : Type} : M A := fun _ => None.
(** [assert!(b)]. *)
Definition assert_ (b : bool) : M unit := if b then mret tt else panic.
Definition unwrap {A : Type} (o : option A) : M A :=
  match o with Some a => mret a | None => panic end.
Definition when (b : bool) (m : M unit) : M unit := if b then m else mret tt.

(** [for x in l { f(x) }]. *)
Fixpoint for_each {A : Type} (l : list A) (f : A -> M unit) : M unit :=
  match l with
  | [] => mret tt
  | x :: l => _ ← f x; for_each l f
  end.

(** [self.progress.entry(id).or_default()] followed by a write through it. *)
Definition update_progress (id : NodeId) (f : Progress -> Progress) (s : Consensus) : Consensus :=
  s <| progress := <[id := f (default progress_default (progress s !! id))]> (progress s) |>.
