(* ===== verification/Office.v ===== *)
(** The rules about office that several handlers share: stepping down
    ([become_follower] of [src/src/consensus/mod.rs]), and the flags, the
    configuration in force, the randomized timeout and the small comparisons of
    [src/src/consensus/election.rs]. *)
From S2P Require Import Prelude Bytes Errors WalRecord Config Types Digest LogTail Payload State.

Definition to_follower (ldr : option NodeId) (s : Consensus) : Consensus :=
  s <| role := Follower |> <| leader := ldr |> <| campaign := None |> <| votes := ∅ |>
    <| since_heard := 0%N |>.

Definition become_follower (term : Term) (ldr : option NodeId) : M unit :=
  s ← get;
  let changed := negb (bool_decide (role s = Follower)) || negb (term_of s =? term)%N
                 || negb (bool_decide (leader s = ldr)) in
  _ ← when (negb (term_of s =? term)%N) (
        _ ← modify (fun s => s <| hard := mkHard term None |>);
        emit (PersistHardState term None));
  _ ← modify (to_follower ldr);
  when changed (emit (RoleChanged Follower term ldr)).

(** Lexicographic, term first. *)
Definition log_is_at_least_as_complete (s : Consensus) (cand_term : Term) (cand_round : Round) : bool :=
  (last_term s <? cand_term)%N
  || ((last_term s =? cand_term)%N && (last_round s <=? cand_round)%N).

Definition leader_is_live (s : Consensus) : bool :=
  bool_decide (is_Some (leader s)) && (since_heard s <? election_timeout s)%N.

Definition draw_timeout : M u32 :=
  s ← get;
  let base := N.max (election_base s) 1 in
  let '(draw, rng') := next_u32 (rng s) in
  _ ← modify (fun s => s <| rng := rng' |>);
  mret (base + draw mod base)%N.

(** Voters and learners but this node. *)
Definition peer_ids (s : Consensus) : list NodeId :=
  filter (fun n => n <> self_id s) (members (cfg s) ++ learners (cfg s)).

Definition campaign_voters (s : Consensus) : list NodeId :=
  match campaign s with
  | Some c => filter (fun n => n <> self_id s) (members c)
  | None => []
  end.

(** [self.campaign.as_ref().is_some_and(|c| c.has_quorum(self.votes.len()))]. *)
Definition campaign_has_quorum (s : Consensus) : bool :=
  match campaign s with
  | Some c => Config.has_quorum c (size (votes s))
  | None => false
  end.

Definition campaign_contains (s : Consensus) (n : NodeId) : bool :=
  match campaign s with
  | Some c => Config.contains c n
  | None => false
  end.

(** The per-peer state of a leader under a new configuration: departed peers
    go, arrived ones start with no evidence. *)
Definition retain_progress (me : NodeId) (known : list NodeId) (m : gmap NodeId Progress) :
    gmap NodeId Progress :=
  filter (fun '(id, _) => id = me \/ id ∈ known) m.

Definition or_insert (nx : Round) (m : gmap NodeId Progress) (id : NodeId) : gmap NodeId Progress :=
  match m !! id with
  | Some _ => m
  | None => <[id := progress_default <| next := nx |>]> m
  end.

Definition apply_config (c : Config) : M unit :=
  _ ← modify (fun s => s <| cfg := c |> <| behind := false |>);
  s ← get;
  when (bool_decide (role s = Leader)) (
    let known := peer_ids s in
    _ ← modify (fun s => s <| progress := retain_progress (self_id s) known (progress s) |>);
    let nx := sadd64 (last_round s) 1 in
    _ ← modify (fun s => s <| progress := fold_left (or_insert nx) known (progress s) |>);
    when (negb (Config.contains (cfg s) (self_id s))) (become_follower (term_of s) None)).

Definition observe_config_at (at_ : CfgAt) : M unit :=
  s ← get;
  when (cfgat_gtb at_ (Config.at_ (cfg s))) (modify (fun s => s <| behind := true |>)).

Definition observe_quorum_watermark (watermark : Round) : M unit :=
  s ← get;
  when (unjoined s && (watermark <=? durable s)%N) (modify (fun s => s <| unjoined := false |>)).
