(* ===== verification/Membership.v ===== *)
(** Membership changes: [src/src/consensus/membership.rs]. The planner and the
    gate decide whether a configuration may be begun; the notes record what a
    node's log and its peers hold. *)
From S2P Require Import Prelude Bytes Errors WalRecord Config Types Digest LogTail Payload State.
From S2P Require Import Office.

Inductive Change : Type :=
| AddLearner (n : NodeId)
| Promote (n : NodeId)
| Demote (n : NodeId)
| Remove (n : NodeId).

Inductive OwnTermCommitted : Type := Yes | NotYet.

Inductive Standing : Type := Absent | Learner | Voter.

#[export] Instance Standing_eq_dec : EqDecision Standing.
Proof. solve_decision. Defined.

Definition standing (c : Config) (n : NodeId) : Standing :=
  if Config.contains c n then Voter
  else if bool_decide (n ∈ learners c) then Learner
  else Absent.

Definition demoting (c : Config) (n : NodeId) (term : u64) : Config :=
  Config.with_learners
    (Config.new (Config.without n (members c)) (wadd64 (cfg_version c) 1) term)
    (learners c ++ [n]).

(** * The rules *)

Definition config_holders (s : Consensus) : nat :=
  let want := Config.at_ (cfg s) in
  length (filter (fun n => Is_true (match acked s !! n with
                                    | Some a => cfgat_geb a want
                                    | None => false
                                    end)) (members (cfg s))).

Definition config_is_durable_on_a_majority (s : Consensus) : bool :=
  bool_decide (is_Some (acked s !! self_id s)) && Config.has_quorum (cfg s) (config_holders s).

Definition change_in_flight (s : Consensus) : bool := negb (config_is_durable_on_a_majority s).

Definition not_leader (s : Consensus) : bool := negb (bool_decide (role s = Leader)).

Definition check_own_term (s : Consensus) (own : OwnTermCommitted) : Result FerroError unit :=
  match own with
  | Yes => Ok tt
  | NotYet => Err (Constraint (OwnTermNotCommitted (term_of s)))
  end.

Definition check_not_self (s : Consensus) (n : NodeId) : Result FerroError unit :=
  refuse_if (n =? self_id s)%N (Constraint (AboutSelf n)).

Definition check_caught_up (s : Consensus) (n : NodeId) : Result FerroError unit :=
  match matched <$> progress s !! n with
  | Some m => refuse_if (m <? commit s)%N (Constraint (NotCaughtUp n (Some m) (commit s)))
  | None => Err (Constraint (NotCaughtUp n None (commit s)))
  end.

(** Every node whose standing differs, in id order. *)
Definition standings_moved (s : Consensus) (c : Config) : list (NodeId * Standing * Standing) :=
  let seen := dedup (sort_ids (members (cfg s) ++ learners (cfg s) ++ members c ++ learners c)) in
  filter (fun '(_, before, after) => before <> after)
    (map (fun n => (n, standing (cfg s) n, standing c n)) seen).

Definition check_shape (s : Consensus) (c : Config) : Result FerroError unit :=
  _ ← refuse_if (Config.is_empty c) (Constraint EmptyProposal);
  _ ← refuse_if (negb (cfg_version c =? wadd64 (cfg_version (cfg s)) 1)%N)
        (Constraint (WrongVersion (cfg_version c) (cfg_version (cfg s))));
  _ ← refuse_if (negb (cfg_term c =? term_of s)%N)
        (Constraint (WrongTerm (cfg_term c) (term_of s)));
  match standings_moved s c with
  | [(n, before, after)] =>
      match before, after with
      | Absent, Voter => Err (Constraint (DirectVoter n))
      | Voter, Absent => Err (Constraint (VoterRemovedOutright n))
      | Learner, Voter => _ ← check_not_self s n; check_caught_up s n
      | Voter, Learner => check_not_self s n
      | _, _ => Ok tt
      end
  | moved => Err (Constraint (MovesNotOne (blen moved)))
  end.

Definition check_precondition (s : Consensus) : Result FerroError unit :=
  _ ← refuse_if (not_leader s) (NotLeader None);
  _ ← refuse_if (negb (bool_decide (is_Some (acked s !! self_id s)))) (Constraint NoProvenance);
  let holders := config_holders s in
  refuse_if (negb (Config.has_quorum (cfg s) holders))
    (Constraint (PreviousChangeUnacknowledged (N.of_nat holders) (N.of_nat (Config.len (cfg s)))
                   (N.of_nat (Config.quorum (cfg s))))).

Definition check_membership (s : Consensus) (c : Config) (own : OwnTermCommitted) :
    Result FerroError unit :=
  _ ← refuse_if (not_leader s) (NotLeader None);
  _ ← check_own_term s own;
  _ ← check_shape s c;
  check_precondition s.

Definition target_config (s : Consensus) (ch : Change) : Result FerroError Config :=
  let term := term_of s in
  match ch with
  | AddLearner n =>
      match standing (cfg s) n with
      | Voter => Err (Constraint (AlreadyVoter n))
      | Learner => Err (Constraint (AlreadyLearner n))
      | Absent => Ok (Config.adding_learner (cfg s) n term)
      end
  | Promote n =>
      match standing (cfg s) n with
      | Voter => Err (Constraint (AlreadyVoter n))
      | Absent => Err (Constraint (UnknownNode n))
      | Learner =>
          _ ← check_not_self s n;
          _ ← check_caught_up s n;
          Ok (Config.adding (cfg s) n term)
      end
  | Demote n =>
      match standing (cfg s) n with
      | Learner => Err (Constraint (AlreadyLearner n))
      | Absent => Err (Constraint (UnknownNode n))
      | Voter =>
          _ ← check_not_self s n;
          Ok (demoting (cfg s) n term)
      end
  | Remove n =>
      match standing (cfg s) n with
      | Voter => Err (Constraint (VoterRemovedOutright n))
      | Absent => Err (Constraint (UnknownNode n))
      | Learner => Ok (Config.removing (cfg s) n term)
      end
  end.

Definition plan_change (s : Consensus) (ch : Change) (own : OwnTermCommitted) :
    Result FerroError Config :=
  _ ← refuse_if (not_leader s) (NotLeader None);
  target ← target_config s ch;
  _ ← check_membership s target own;
  Ok target.

Definition may_change_membership (s : Consensus) (own : OwnTermCommitted) : Result FerroError unit :=
  _ ← refuse_if (not_leader s) (NotLeader None);
  _ ← check_own_term s own;
  check_precondition s.

(** * The seams the caller drives *)

Definition note_bootstrap_config : M unit :=
  s ← get;
  let at_ := Config.at_ (cfg s) in
  modify (fun s => s <| acked := fold_left (fun m n => <[n := at_]> m) (members (cfg s)) (acked s) |>).

Definition latch_damaged (w : Why) : M FerroError :=
  s ← get;
  _ ← become_follower (term_of s) None;
  _ ← modify (fun s => s <| behind := true |>);
  mret (Corruption w).

(** The [acked.retain] over the nodes the configuration knows. *)
Definition retain_acked (c : Config) (m : gmap NodeId CfgAt) : gmap NodeId CfgAt :=
  filter (fun '(n, _) => Is_true (Config.is_known c n)) m.

Definition note_config_in_log (c : Config) : M (Result FerroError unit) :=
  s ← get;
  if Config.is_empty c then
    e ← latch_damaged EmptyVoterSet; mret (Err e)
  else if bool_decide (Config.at_ c = Config.at_ (cfg s)) then
    if bool_decide (c = cfg s) then
      _ ← modify (fun s => s <| acked := <[self_id s := Config.at_ c]> (acked s) |>);
      mret (Ok tt)
    else
      e ← latch_damaged TwoConfigsOneIdentity; mret (Err e)
  else
    _ ← modify (fun s => s <| acked := <[self_id s := Config.at_ c]> (retain_acked c (acked s)) |>);
    _ ← apply_config c;
    mret (Ok tt).

Definition note_config_ack (node : NodeId) (at_ : CfgAt) : M unit :=
  s ← get;
  if (node =? self_id s)%N || negb (Config.is_known (cfg s) node) then mret tt
  else
    let held := default cfgat_default (acked s !! node) in
    modify (fun s => s <| acked := <[node := if cfgat_gtb at_ held then at_ else held]> (acked s) |>).

Definition begin_membership (c : Config) (own : OwnTermCommitted) : M (Result FerroError unit) :=
  s ← get;
  match check_membership s c own with
  | Err e => mret (Err e)
  | Ok _ =>
      _ ← modify (fun s => s <| acked := retain_acked c (acked s) |>);
      _ ← apply_config c;
      mret (Ok tt)
  end.
