(* ===== verification/Replicate.v ===== *)
(** A node's access to its own log, and the leader half of replication:
    [src/src/consensus/replicate.rs] up to the message handlers, with the
    sending of a snapshot chunk ([src/src/consensus/snapshot.rs]) that
    [send_append_to] falls back to. *)
From S2P Require Import Prelude Bytes Errors WalRecord Config Types Transport TransportCanonical.
From S2P Require Import Digest LogTail Payload State Office.

Definition MAX_ENTRIES_PER_APPEND : nat := 64.

(** * The log *)

Definition self_progress (s : Consensus) : Progress :=
  default progress_default (progress s !! self_id s).

Definition tail (s : Consensus) : option LogTail := progress s !! self_id s ≫= own_log.

Definition update_self (f : Progress -> Progress) : M unit :=
  modify (fun s => update_progress (self_id s) f s).

Definition ensure_log : M unit :=
  s ← get;
  match own_log (self_progress s) with
  | None =>
      _ ← assert_ (last_round s <=? snapshot_round s)%N;
      update_self (fun p => p <| own_log := Some (LogTail.rebased (snapshot_round s) 0) |>)
  | Some t =>
      assert_ ((base t =? snapshot_round s)%N && (LogTail.last_round t =? last_round s)%N)
  end.

(** [tail_mut()]: the log, created at the floor when there is none. *)
Definition tail_mut : M LogTail :=
  s ← get;
  let t := default (LogTail.rebased (snapshot_round s) 0) (own_log (self_progress s)) in
  _ ← update_self (fun p => p <| own_log := Some t |>);
  mret t.

Definition put_tail (t : LogTail) : M unit := update_self (fun p => p <| own_log := Some t |>).

(** [self.tail_mut().push(e)]. *)
Definition push_entry (e : Entry) : M unit :=
  t ← tail_mut;
  t' ← unwrap (LogTail.push t e);
  put_tail t'.

Definition install_snapshot_tail (b : Round) (d : u64) : M unit :=
  update_self (fun p => p <| own_log := Some (LogTail.rebased b d) |>).

Definition compact_tail (b : Round) (d : u64) : M unit :=
  t ← tail_mut;
  t' ← unwrap (LogTail.compact_to t b d);
  put_tail t'.

Definition agreed (s : Consensus) : Round := matched (self_progress s).

Definition set_agreed (r : Round) : M unit := update_self (fun p => p <| matched := r |>).

Definition term_at (s : Consensus) (round : Round) : option Term :=
  if (round =? snapshot_round s)%N then Some (snapshot_term s)
  else tail s ≫= fun t => LogTail.term_at t round.

Definition digest_at (s : Consensus) (round : Round) : option u64 :=
  tail s ≫= fun t => LogTail.digest_at t round.

Definition entries_from (s : Consensus) (round : Round) : list Entry :=
  match tail s with
  | Some t => LogTail.slice_from t round MAX_ENTRIES_PER_APPEND append_entries_budget
  | None => []
  end.

(** The loop of [first_round_of_term_run]: one round down at a time while the
    term stays [t]; [fuel] is the distance to the floor. *)
Fixpoint run_start (fuel : nat) (s : Consensus) (t : Term) (floor lo : Round) : Round :=
  match fuel with
  | O => lo
  | S fuel =>
      if (floor <? lo)%N && bool_decide (term_at s (lo - 1) = Some t)
      then run_start fuel s t floor (lo - 1)
      else lo
  end.

Definition first_round_of_term_run (s : Consensus) (round : Round) : Round :=
  match term_at s round with
  | None => round
  | Some t =>
      let floor := wadd64 (snapshot_round s) 1 in
      run_start (N.to_nat (round - floor)) s t floor round
  end.

(** Restoring the durable state of a node on start. *)
Fixpoint restore_entries (snapshot_round : Round) (es : list Entry) : M unit :=
  match es with
  | [] => mret tt
  | e :: es =>
      _ ← when (snapshot_round <? e_round e)%N (
            _ ← push_entry e;
            modify (fun s => s <| last_term := e_term e |> <| last_round := e_round e |>));
      restore_entries snapshot_round es
  end.

Definition restore (h : HardState) (sr : Round) (st : Term) (d : u64) (es : list Entry) : M unit :=
  s ← get;
  _ ← assert_ (bool_decide (role s = Follower) && (last_round s =? 0)%N && (snapshot_round s =? 0)%N);
  _ ← modify (fun s => s <| hard := h |> <| snapshot_round := sr |> <| snapshot_term := st |>
                         <| last_round := sr |> <| last_term := st |>);
  _ ← update_self (fun p => p <| own_log := Some (LogTail.rebased sr d) |>);
  _ ← restore_entries sr es;
  modify (fun s => s <| durable := last_round s |> <| commit := sr |> <| applied := sr |>).

(** * Appending on this node's own behalf *)

Definition append_own_entry (c : Command) : M Round :=
  _ ← ensure_log;
  s ← get;
  let e := mkEntry (term_of s) (wadd64 (last_round s) 1) c in
  _ ← push_entry e;
  _ ← modify (fun s => s <| last_round := e_round e |> <| last_term := e_term e |>);
  _ ← emit (Persist [e]);
  mret (e_round e).

(** One peer's record at the start of a term. *)
Definition reset_peer (nx : Round) (p : Progress) : Progress :=
  p <| next := nx |> <| matched := 0%N |> <| silent := 0%N |> <| needs_snapshot := false |> <| sending := None |>.

Definition init_leader_progress : M unit :=
  _ ← ensure_log;
  s ← get;
  let nx := wadd64 (last_round s) 1 in
  let known := members (cfg s) ++ learners (cfg s) in
  _ ← modify (fun s => s <| progress := retain_progress (self_id s) known (progress s) |>);
  _ ← for_each known (fun n => modify (update_progress n (reset_peer nx)));
  update_self (fun p => p <| next := nx |> <| matched := durable s |> <| needs_snapshot := false |>
                          <| sending := None |> <| receiving := None |>).

(** * Sending *)

Definition send_snapshot_chunk_to (peer : NodeId) : M unit :=
  s ← get;
  match progress s !! peer ≫= sending with
  | None => mret tt
  | Some cur =>
      let '(data, done_) := chunk (sc_snapshot cur) (sc_acked cur) in
      emit (Send (mkMessage (self_id s) peer (term_of s)
                    (InstallSnapshot (snap_meta (sc_snapshot cur)) (sc_acked cur) data done_)))
  end.

Definition send_append_to (peer : NodeId) : M unit :=
  s ← get;
  if negb (bool_decide (role s = Leader)) || (peer =? self_id s)%N
     || negb (Config.is_known (cfg s) peer) then mret tt
  else
    _ ← ensure_log;
    s ← get;
    let last := last_round s in
    _ ← modify (update_progress peer (fun p =>
          if (next p =? 0)%N then p <| next := wadd64 last 1 |> else p));
    s ← get;
    let p := default progress_default (progress s !! peer) in
    if needs_snapshot p then send_snapshot_chunk_to peer
    else
      let nx := next p in
      let prev_round := (nx - 1)%N in
      match term_at s prev_round with
      | None => modify (update_progress peer (fun p => p <| needs_snapshot := true |>))
      | Some prev_term =>
          emit (Send (mkMessage (self_id s) peer (term_of s)
                        (Append prev_round prev_term (entries_from s nx) (commit s))))
      end.

Definition bcast_append : M unit :=
  s ← get;
  when (bool_decide (role s = Leader)) (for_each (peer_ids s) send_append_to).

Definition on_became_leader : M unit :=
  _ ← init_leader_progress;
  _ ← append_own_entry NoOp;
  s ← get;
  let nx := wadd64 (last_round s) 1 in
  _ ← modify (fun s => s <| progress := (fun p => p <| next := nx |>) <$> progress s |>);
  _ ← update_self (fun p => p <| next := nx |>);
  bcast_append.

(** * Answers *)

Definition refusal (s : Consensus) (to : NodeId) (hint : Round) : Action :=
  Send (mkMessage (self_id s) to (term_of s) (AppendResp false 0 hint 0)).

Definition acknowledgement (s : Consensus) (to : NodeId) : Action :=
  let m := N.min (durable s) (agreed s) in
  Send (mkMessage (self_id s) to (term_of s)
          (AppendResp true m 0 (default 0%N (digest_at s m)))).

(** * Commit and apply *)

(** What one voter holds, as the leader counts it. *)
Definition held_by (s : Consensus) (n : NodeId) : Round :=
  if (n =? self_id s)%N then durable s
  else match progress s !! n with
       | Some p => match diverged p with None => matched p | Some _ => 0%N end
       | None => 0%N
       end.

(** [sort_unstable_by(|a, b| b.cmp(a))]. *)
Definition sort_desc (l : list N) : list N := rev (merge_sort N.le l).

Definition quorum_matched (s : Consensus) : M Round :=
  let held := map (held_by s) (members (cfg s)) in
  match held with
  | [] => mret 0%N
  | _ => unwrap (sort_desc held !! (Config.quorum (cfg s) - 1))
  end.

Definition advance_apply : M unit :=
  s ← get;
  let through := N.min (commit s) (durable s) in
  when (applied s <? through)%N (
    _ ← modify (fun s => s <| applied := through |>);
    emit (Apply through)).

Definition advance_commit : M bool :=
  s ← get;
  if negb (bool_decide (role s = Leader)) then mret false
  else
    q ← quorum_matched s;
    if (q <=? commit s)%N then mret false
    else if negb (bool_decide (term_at s q = Some (term_of s))) then mret false
    else
      _ ← modify (fun s => s <| commit := q |>);
      _ ← advance_apply;
      _ ← bcast_append;
      mret true.

(** * Properties *)

Lemma admit_entry_wire_len e :
  admit_entry e = Ok tt -> (entry_wire_len e <= append_entries_budget)%N.
Proof.
  unfold admit_entry, entry_wire_len. destruct (encode_entry [] e) as [b|]; [|done].
  intros H%refuse_if_Ok. by apply N.ltb_ge.
Qed.

(** C24: a leader never builds an append its transport must refuse. Over a log
    of entries that [admit_entry] let in, the batch [entries_from] takes from
    any round encodes within one frame with its authentication tag, has at most
    the maximum number of entries, and is empty only when the log has nothing
    at that round, so a lagging peer always gets at least one entry. *)
Theorem append_fits_a_frame (s : Consensus) (t : LogTail) (round : Round) (peer : NodeId) (prev_term : Term) :
  tail s = Some t -> tail_wf t -> Forall (fun e => admit_entry e = Ok tt) (entries t) ->
  let es := entries_from s round in
  (exists b, message_body (mkMessage (self_id s) peer (term_of s) (Append (round - 1) prev_term es (commit s))) = Ok b
             /\ (blen b + MAC_LEN <= MAX_FRAME_BYTES)%N)
  /\ length es <= MAX_ENTRIES_PER_APPEND /\ contiguous round es
  /\ (es = [] <-> entry_at t round = None).
Proof.
  intros Et Hwf Hadm es. unfold es, entries_from. rewrite Et.
  destruct (slice_from_spec t round MAX_ENTRIES_PER_APPEND append_entries_budget Hwf) as (Hc & Hl & He & Hn & Hb);
    [done|unfold MAX_ENTRIES_PER_APPEND; lia|].
  set (sl := LogTail.slice_from _ _ _ _) in *. split; [|done].
  apply append_batch_fits. destruct Hb as [Hb|Hone]; [done|].
  destruct sl as [|e [|e' sl]]; [done| |done]. cbn. rewrite N.add_0_r.
  apply admit_entry_wire_len. specialize (He 0 e eq_refl). unfold entry_at in He.
  destruct (_ <? _)%N; [|done]. rewrite Forall_forall in Hadm. apply Hadm.
  by eapply list_elem_of_lookup_2.
Qed.

Definition sample_leader : Consensus :=
  update_progress 1 (fun p => p <| own_log := Some sample_tail |>)
    (Consensus_new 1 (Config.new [1; 2; 3]%N 1 0) 7).

Lemma append_fits_a_frame_witness :
  exists b, message_body (mkMessage 1 2 0 (Append 4 2 (entries_from sample_leader 5) 0)) = Ok b
            /\ length (entries_from sample_leader 5) = 3.
Proof.
  assert (Forall (fun e => admit_entry e = Ok tt) (entries sample_tail)) as H
    by (repeat constructor; by vm_compute).
  destruct (append_fits_a_frame sample_leader sample_tail 5 2 2 eq_refl sample_tail_wf H)
    as ((b & Hb & _) & _). exists b. split; [exact Hb|]. by vm_compute.
Defined.
