(* ===== verification/SnapshotProto.v ===== *)
(** State transfer between nodes: the protocol half of
    [src/src/consensus/snapshot.rs]. *)
From S2P Require Import Prelude Bytes Errors WalRecord Config Types Digest LogTail Payload State.
From S2P Require Import Office Membership Replicate.

Definition snapshot_point (s : Consensus) : option SnapshotPoint :=
  if (applied s =? 0)%N then None
  else
    lt ← term_at s (applied s);
    d ← digest_at s (applied s);
    Some (mkPoint (applied s) lt (cfg s) d).

Definition compact (through : Round) : M (Result Why unit) :=
  s ← get;
  if (through <=? snapshot_round s)%N then mret (Ok tt)
  else if (applied s <? through)%N then mret (Err (AboveApplied through (applied s)))
  else if (last_round s <? through)%N then mret (Err (AboveLogEnd through (last_round s)))
  else
    match term_at s through with
    | None => mret (Err (NoTermAt through))
    | Some t =>
        _ ← compact_tail through (default 0%N (digest_at s through));
        _ ← modify (fun s => s <| snapshot_round := through |> <| snapshot_term := t |>);
        mret (Ok tt)
    end.

Definition floor_digest (s : Consensus) : u64 := default 0%N (digest_at s (snapshot_round s)).

(** In id order: the source iterates a [BTreeMap]. *)
Definition peers_needing_snapshot (s : Consensus) : list NodeId :=
  if negb (bool_decide (role s = Leader)) then []
  else sort_ids (fst <$> filter (fun '(n, p) => n <> self_id s /\ needs_snapshot p = true /\ sending p = None)
                          (map_to_list (progress s))).

Definition snapshot_in_flight (s : Consensus) (peer : NodeId) : option SendCursor :=
  progress s !! peer ≫= sending.

Definition snapshot_incoming (s : Consensus) : option RecvCursor :=
  progress s !! self_id s ≫= receiving.

Definition offer_checks (s : Consensus) (peer : NodeId) (snap : Snapshot) : Result Why unit :=
  _ ← refuse_if (negb (bool_decide (role s = Leader))) NotTheLeader;
  _ ← refuse_if (negb (Config.is_known (cfg s) peer)) (PeerUnknown peer);
  _ ← validate (snap_meta snap);
  let m := snap_meta snap in
  _ ← refuse_if (applied s <? meta_last_round m)%N (AboveApplied (meta_last_round m) (applied s));
  _ ← refuse_if (meta_last_round m <? snapshot_round s)%N
        (BelowOwnFloor (meta_last_round m) (snapshot_round s));
  _ ← match term_at s (meta_last_round m) with
      | Some t => refuse_if (negb (t =? meta_last_term m)%N)
                    (SnapshotTermMismatch (meta_last_round m) (meta_last_term m) t)
      | None => Err (NoTermAt (meta_last_round m))
      end;
  let mine := default 0%N (digest_at s (meta_last_round m)) in
  refuse_if (negb (h_base_digest (snap_header snap) =? mine)%N)
    (BaseDigestMismatch (h_base_digest (snap_header snap)) mine).

Definition offer_snapshot_to (peer : NodeId) (snap : Snapshot) : M (Result Why unit) :=
  s ← get;
  match offer_checks s peer snap with
  | Err e => mret (Err e)
  | Ok _ =>
      _ ← modify (update_progress peer (fun p =>
            p <| needs_snapshot := true |> <| sending := Some (mkSend snap 0) |>));
      mret (Ok tt)
  end.

(** * The leader half *)

Definition on_install_snapshot_resp (from : NodeId) (received_through : u64) : M unit :=
  s ← get;
  if negb (bool_decide (role s = Leader)) || (from =? self_id s)%N then mret tt
  else if negb (Config.is_known (cfg s) from) then mret tt
  else
    _ ← modify (update_progress from (fun p => p <| silent := 0%N |>));
    s ← get;
    match snapshot_in_flight s from with
    | None => mret tt
    | Some cur =>
        if (sc_total cur <? received_through)%N then mret tt
        else if (received_through =? sc_acked cur)%N then mret tt
        else
          let done_ := (received_through =? sc_total cur)%N in
          _ ← modify (update_progress from (fun p =>
                p <| sending := (fun c => mkSend (sc_snapshot c) received_through) <$> sending p |>));
          _ ← when done_ (modify (update_progress from (fun p =>
                p <| sending := None |> <| needs_snapshot := false |>
                  <| next := wadd64 (sc_round cur) 1 |>)));
          if done_ then send_append_to from else send_snapshot_chunk_to from
    end.

(** * The follower half *)

Definition ack_snapshot (to : NodeId) (n : u64) : M unit :=
  s ← get;
  emit (Send (mkMessage (self_id s) to (term_of s) (InstallSnapshotResp n))).

Definition refuse_snapshot (to : NodeId) : M unit :=
  s ← get;
  ack_snapshot to (match snapshot_incoming s with Some c => rc_received c | None => 0%N end).

Definition set_receiving_cursor (c : option RecvCursor) : M unit :=
  update_self (fun p => p <| receiving := c |>).

(** Keep the cursor and answer with what it holds. *)
Definition hold_and_ack (from : NodeId) (c : RecvCursor) : M unit :=
  _ ← set_receiving_cursor (Some c);
  ack_snapshot from (rc_received c).

(** Following the sender of state: the common prologue of [on_append] and
    [on_install_snapshot]. *)
Definition adopt_leader (from : NodeId) (term : Term) : M unit :=
  s ← get;
  let adopting := negb (bool_decide (leader s = Some from)) in
  _ ← (if negb (bool_decide (role s = Follower)) || adopting || negb (term_of s =? term)%N
       then become_follower term (Some from)
       else modify (fun s => s <| since_heard := 0%N |>));
  when adopting (set_agreed 0).

(** The cursor a chunk belongs to: a fresh one for a transfer starting, the
    held one for a transfer resuming; [inl] is an answer that ends the
    handler. *)
Definition pick_cursor (from : NodeId) (meta : SnapshotMeta) (offset : u64) (data : list byte)
    (held : option RecvCursor) : M unit + RecvCursor :=
  if (offset =? 0)%N then
    match header_decode data with
    | Err _ => inl (refuse_snapshot from)
    | Ok header =>
        if negb (h_last_round header =? meta_last_round meta)%N
           || negb (h_last_term header =? meta_last_term meta)%N
           || negb (total_bytes header =? meta_total_bytes meta)%N
        then inl (refuse_snapshot from)
        else match held with
             | Some c =>
                 if bool_decide (rc_header c = header) && (0 <? rc_received c)%N
                 then inl (hold_and_ack from c)
                 else inr (mkRecv meta header 0 FNV_OFFSET false)
             | None => inr (mkRecv meta header 0 FNV_OFFSET false)
             end
    end
  else
    match held with
    | Some c => if bool_decide (rc_meta c = meta) then inr c else inl (ack_snapshot from 0)
    | None => inl (ack_snapshot from 0)
    end.

(** The cursor with one more chunk accepted: only the bytes past the header
    are digested. *)
Definition accept_chunk (cur : RecvCursor) (data : list byte) : RecvCursor :=
  let body_from := (HEADER_BYTES - rc_received cur)%N in
  let d := if (body_from <? blen data)%N
           then fnv64_update (rc_body_digest cur) (drop (N.to_nat body_from) data)
           else rc_body_digest cur in
  mkRecv (rc_meta cur) (rc_header cur) (wadd64 (rc_received cur) (blen data)) d (rc_complete cur).

Definition complete (cur : RecvCursor) : RecvCursor :=
  mkRecv (rc_meta cur) (rc_header cur) (rc_received cur) (rc_body_digest cur) true.

Definition on_install_snapshot (from : NodeId) (term : Term) (meta : SnapshotMeta) (offset : u64)
    (data : list byte) (done_ : bool) : M unit :=
  s ← get;
  match validate meta with
  | Err _ => refuse_snapshot from
  | Ok _ =>
    if bool_decide (Config.at_ (meta_config meta) = Config.at_ (cfg s))
       && negb (bool_decide (meta_config meta = cfg s))
    then refuse_snapshot from
    else
      _ ← adopt_leader from term;
      s ← get;
      if (meta_last_round meta <=? snapshot_round s)%N then
        ack_snapshot from (meta_total_bytes meta)
      else if bool_decide (term_at s (meta_last_round meta) = Some (meta_last_term meta)) then
        ack_snapshot from (meta_total_bytes meta)
      else
        match pick_cursor from meta offset data (snapshot_incoming s) with
        | inl answer => answer
        | inr cur =>
            if rc_complete cur then hold_and_ack from cur
            else if negb (offset =? rc_received cur)%N then hold_and_ack from cur
            else if (meta_total_bytes meta <? wadd64 (rc_received cur) (blen data))%N then
              refuse_snapshot from
            else
              let cur := accept_chunk cur data in
              if done_ then
                match completion_verdict (rc_received cur) (meta_total_bytes meta)
                        (rc_body_digest cur) (h_body_digest (rc_header cur)) with
                | Ok _ => hold_and_ack from (complete cur)
                | Err FaultLength => hold_and_ack from cur
                | Err FaultDigest =>
                    _ ← set_receiving_cursor None;
                    ack_snapshot from 0
                end
              else hold_and_ack from cur
        end
  end.

Definition pending_install_round (s : Consensus) : option Round :=
  match snapshot_incoming s with
  | Some c => if rc_complete c then Some (meta_last_round (rc_meta c)) else None
  | None => None
  end.

(** Moving the state machine to an installed snapshot. *)
Definition finish_install : M (Result FerroError unit) :=
  s ← get;
  match snapshot_incoming s with
  | None => mret (Ok tt)
  | Some cur =>
      if negb (rc_complete cur) then mret (Ok tt)
      else
        noted ← note_config_in_log (meta_config (rc_meta cur));
        match noted with
        | Err e => mret (Err e)
        | Ok _ =>
            let lr := meta_last_round (rc_meta cur) in
            let lt := meta_last_term (rc_meta cur) in
            _ ← modify (fun s => s <| snapshot_round := lr |> <| snapshot_term := lt |>
                                   <| last_round := lr |> <| last_term := lt |>);
            _ ← install_snapshot_tail lr (h_base_digest (rc_header cur));
            _ ← modify (fun s => s <| durable := lr |> <| commit := N.max (commit s) lr |>
                                   <| applied := N.max (applied s) lr |>);
            _ ← set_agreed lr;
            _ ← set_receiving_cursor None;
            mret (Ok tt)
        end
  end.
