(* ===== verification/Transfer.v ===== *)
(** A snapshot transfer from its first chunk to its last: the follower half of
    [src/src/consensus/snapshot.rs] fed with the chunks [Snapshot::chunk] cuts,
    each at the offset the last answer asked for. *)
From S2P Require Import Prelude Bytes Errors WalRecord Config Types Transport Digest LogTail.
From S2P Require Import Payload State Office Membership Replicate SnapshotProto.

(** [n] chunks in a row, from the offset the follower acknowledged. *)
Fixpoint deliver (n : nat) (snap : Snapshot) (from : NodeId) (term : Term) (offset : u64) (s : Consensus) :
    option (Consensus * list Action) :=
  match n with
  | O => Some (s, [])
  | S n =>
      let '(data, done_) := chunk snap offset in
      match on_install_snapshot from term (snap_meta snap) offset data done_ s with
      | Some (_, s1, w1) =>
          match deliver n snap from term (offset + blen data) s1 with
          | Some (s2, w2) => Some (s2, w1 ++ w2)
          | None => None
          end
      | None => None
      end
  end.

(** The number of chunks a snapshot is cut into. *)
Definition chunk_count (snap : Snapshot) : nat :=
  N.to_nat ((blen (snap_bytes snap) + SNAPSHOT_CHUNK_BYTES - 1) / SNAPSHOT_CHUNK_BYTES).

(** * Chunks *)

Lemma chunk_spec snap offset data done_ :
  (offset <= blen (snap_bytes snap))%N -> chunk snap offset = (data, done_) ->
  take (N.to_nat (offset + blen data)) (snap_bytes snap)
    = take (N.to_nat offset) (snap_bytes snap) ++ data
  /\ (offset + blen data)%N = N.min (offset + SNAPSHOT_CHUNK_BYTES) (blen (snap_bytes snap))
  /\ done_ = (offset + blen data =? blen (snap_bytes snap))%N.
Proof.
  unfold chunk. intros Ho. rewrite N.min_l by done. intros [= Hd <-].
  set (B := snap_bytes snap) in *. set (e := N.min (offset + SNAPSHOT_CHUNK_BYTES) (blen B)) in *.
  assert (offset <= e <= blen B)%N as He by (unfold e; lia).
  assert (blen data = e - offset)%N as Hl.
  { rewrite <- Hd. unfold sub_bytes, blen in *. rewrite length_take, length_drop. lia. }
  replace (offset + blen data)%N with e by lia. split; [|done].
  rewrite <- (take_drop (N.to_nat offset) B) at 1. rewrite take_app.
  rewrite length_take. unfold blen in *. rewrite take_take, Nat.min_r by lia. f_equal.
  rewrite <- Hd. unfold sub_bytes. f_equal. lia.
Qed.

(** * The receiving cursor *)

(** A cursor that has taken the first [rc_received] bytes of the snapshot. *)
Record cursor_ok (snap : Snapshot) (c : RecvCursor) : Prop := {
  cur_meta : rc_meta c = snap_meta snap;
  cur_header : rc_header c = snap_header snap;
  cur_received : (rc_received c <= blen (snap_bytes snap))%N;
  cur_digest : rc_body_digest c
    = digest (drop (N.to_nat HEADER_BYTES) (take (N.to_nat (rc_received c)) (snap_bytes snap)));
  cur_complete : rc_complete c = false
}.

Lemma accept_digest cur data :
  rc_body_digest (accept_chunk cur data)
  = fnv64_update (rc_body_digest cur) (drop (N.to_nat (HEADER_BYTES - rc_received cur)) data).
Proof.
  unfold accept_chunk. cbn [rc_body_digest].
  destruct (N.ltb_spec (HEADER_BYTES - rc_received cur) (blen data)); [done|].
  rewrite drop_ge by (unfold blen in *; lia). done.
Qed.

Lemma accept_chunk_ok snap cur data done_ :
  (blen (snap_bytes snap) <= max_u64)%N ->
  cursor_ok snap cur -> chunk snap (rc_received cur) = (data, done_) ->
  cursor_ok snap (accept_chunk cur data)
  /\ rc_received (accept_chunk cur data) = (rc_received cur + blen data)%N.
Proof.
  intros Hm [Hmeta Hh Hr Hd Hc] Hch. destruct (chunk_spec _ _ _ _ Hr Hch) as (Ht & Hn & _).
  assert (rc_received (accept_chunk cur data) = rc_received cur + blen data)%N as E.
  { apply wadd64_small. lia. }
  split; [|done]. split; [done|done|rewrite E; lia| |done].
  rewrite E, accept_digest, Hd, Ht. unfold digest. rewrite <- fnv64_update_app. f_equal.
  rewrite drop_app. f_equal. rewrite length_take. f_equal. unfold blen in *. lia.
Qed.

(** The last byte taken, the verdict is that the transfer is whole. *)
Lemma verdict_ok snap cur body :
  snap_bytes snap = header_encode (snap_header snap) ++ body ->
  h_body_digest (snap_header snap) = digest body ->
  cursor_ok snap cur -> rc_received cur = blen (snap_bytes snap) ->
  completion_verdict (rc_received cur) (blen (snap_bytes snap)) (rc_body_digest cur)
    (h_body_digest (rc_header cur)) = Ok tt.
Proof.
  intros HB Hbd [_ Hh _ Hd _] Hr. unfold completion_verdict. rewrite Hr, N.eqb_refl, Hd, Hr, Hh, Hbd.
  unfold blen. rewrite Nat2N.id, take_ge by done. rewrite HB.
  replace (N.to_nat HEADER_BYTES) with (length (header_encode (snap_header snap)))
    by apply length_header_encode.
  rewrite drop_app_length, N.eqb_refl. done.
Qed.

(** * The follower *)

(** A follower of [from] in its term that needs the snapshot and holds the
    cursor [held]. *)
Record awaiting (snap : Snapshot) (from : NodeId) (term : Term) (held : option RecvCursor)
    (s : Consensus) : Prop := {
  aw_role : role s = Follower;
  aw_leader : leader s = Some from;
  aw_term : term_of s = term;
  aw_config : bool_decide (Config.at_ (meta_config (snap_meta snap)) = Config.at_ (cfg s))
              && negb (bool_decide (meta_config (snap_meta snap) = cfg s)) = false;
  aw_floor : (snapshot_round s < meta_last_round (snap_meta snap))%N;
  aw_log : bool_decide (term_at s (meta_last_round (snap_meta snap))
                        = Some (meta_last_term (snap_meta snap))) = false;
  aw_held : snapshot_incoming s = held
}.

(** The follower's state once a chunk is taken into the cursor [c]. *)
Definition received (c : RecvCursor) (s : Consensus) : Consensus :=
  update_progress (self_id s) (fun p => p <| receiving := Some c |>) (s <| since_heard := 0%N |>).

Definition acked_bytes (c : RecvCursor) (from : NodeId) (s : Consensus) : Action :=
  Send (mkMessage (self_id s) from (term_of s) (InstallSnapshotResp (rc_received c))).

Lemma term_at_received c s round : term_at (received c s) round = term_at s round.
Proof.
  unfold term_at, tail, received, update_progress. cbn. rewrite lookup_insert_eq. cbn.
  by destruct (progress s !! self_id s).
Qed.

Lemma awaiting_received snap from term held c s :
  awaiting snap from term held s -> awaiting snap from term (Some c) (received c s).
Proof.
  intros [H1 H2 H3 H4 H5 H6 H7]. split; [done..| |].
  - by rewrite term_at_received.
  - unfold snapshot_incoming, received, update_progress. cbn. by rewrite lookup_insert_eq.
Qed.

Lemma adopt_leader_awaiting snap from term held s :
  awaiting snap from term held s ->
  adopt_leader from term s = Some (tt, s <| since_heard := 0%N |>, []).
Proof.
  intros [H1 H2 H3 _ _ _ _]. unfold adopt_leader. cbv beta zeta iota delta [get mbind m_bind]. rewrite H1, H2, H3.
  rewrite !bool_decide_true by done. rewrite N.eqb_refl. done.
Qed.

(** One chunk at the offset the follower expects is taken and acknowledged;
    the last one completes the transfer. *)
Lemma on_chunk snap from term held cur data done_ s :
  validate (snap_meta snap) = Ok tt -> (blen (snap_bytes snap) <= max_u64)%N ->
  meta_total_bytes (snap_meta snap) = blen (snap_bytes snap) ->
  awaiting snap from term held s -> cursor_ok snap cur ->
  chunk snap (rc_received cur) = (data, done_) ->
  pick_cursor from (snap_meta snap) (rc_received cur) data held = inr cur ->
  (done_ = true -> completion_verdict (rc_received (accept_chunk cur data)) (blen (snap_bytes snap))
     (rc_body_digest (accept_chunk cur data)) (h_body_digest (rc_header (accept_chunk cur data))) = Ok tt) ->
  let c := if done_ then complete (accept_chunk cur data) else accept_chunk cur data in
  on_install_snapshot from term (snap_meta snap) (rc_received cur) data done_ s
  = Some (tt, received c s, [acked_bytes c from s]).
Proof.
  intros Hv Hm Ht Haw Hcur Hch Hp Hverdict c. unfold on_install_snapshot.
  destruct (chunk_spec _ _ _ _ (cur_received _ _ Hcur) Hch) as (_ & Hn & _).
  rewrite Hv. cbv beta zeta iota delta [get mbind m_bind]. rewrite (aw_config _ _ _ _ _ Haw).
  rewrite (adopt_leader_awaiting _ _ _ _ _ Haw).
  set (s1 := s <| since_heard := 0%N |>).
  change (snapshot_round s1) with (snapshot_round s). change (term_at s1) with (term_at s).
  change (snapshot_incoming s1) with (snapshot_incoming s).
  pose proof (aw_floor _ _ _ _ _ Haw) as Hf. apply N.leb_gt in Hf. rewrite Hf.
  rewrite (aw_log _ _ _ _ _ Haw), (aw_held _ _ _ _ _ Haw), Hp, (cur_complete _ _ Hcur), N.eqb_refl, Ht.
  rewrite wadd64_small by lia.
  assert ((blen (snap_bytes snap) <? rc_received cur + blen data)%N = false) as -> by (apply N.ltb_ge; lia).
  cbn [negb]. unfold c. destruct done_.
  - by rewrite Hverdict.
  - done.
Qed.

(** * The whole transfer *)

Section transfer.
Context (snap : Snapshot) (body : list byte) (from : NodeId) (term : Term).
Context (Hbytes : snap_bytes snap = header_encode (snap_header snap) ++ body)
        (Hdigest : h_body_digest (snap_header snap) = digest body)
        (Hvalid : validate (snap_meta snap) = Ok tt)
        (Hmax : (blen (snap_bytes snap) <= max_u64)%N)
        (Htotal : meta_total_bytes (snap_meta snap) = blen (snap_bytes snap)).

(** What a finished transfer leaves: a complete cursor for this snapshot, the
    whole length acknowledged, and the log untouched. *)
Definition transferred (s s' : Consensus) (w : list Action) : Prop :=
  pending_install_round s' = Some (meta_last_round (snap_meta snap))
  /\ last w = Some (Send (mkMessage (self_id s) from (term_of s)
                            (InstallSnapshotResp (blen (snap_bytes snap)))))
  /\ hard s' = hard s /\ commit s' = commit s
  /\ (forall round, term_at s' round = term_at s round).

Lemma one_chunk held cur s data done_ :
  awaiting snap from term held s -> cursor_ok snap cur ->
  chunk snap (rc_received cur) = (data, done_) ->
  pick_cursor from (snap_meta snap) (rc_received cur) data held = inr cur ->
  exists c, on_install_snapshot from term (snap_meta snap) (rc_received cur) data done_ s
            = Some (tt, received c s, [acked_bytes c from s])
    /\ rc_received c = (rc_received cur + blen data)%N
    /\ (if done_ then rc_complete c = true /\ rc_meta c = snap_meta snap else cursor_ok snap c).
Proof using Hbytes Hdigest Hvalid Hmax Htotal.
  intros Haw Hcur Hch Hp. destruct (accept_chunk_ok snap cur data done_ Hmax Hcur Hch) as [Hok Hr].
  destruct (chunk_spec _ _ _ _ (cur_received _ _ Hcur) Hch) as (_ & _ & Hd).
  eexists. split; [|split]; [apply (on_chunk snap from term held cur data done_ s Hvalid Hmax Htotal Haw Hcur Hch Hp)| |].
  - intros ->. symmetry in Hd. apply N.eqb_eq in Hd.
    apply (verdict_ok snap _ body Hbytes Hdigest Hok). by rewrite Hr.
  - by destruct done_.
  - destruct done_; [|done]. split; [done|]. apply Hok.
Qed.

Lemma transferred_last c s :
  rc_complete c = true -> rc_meta c = snap_meta snap -> rc_received c = blen (snap_bytes snap) ->
  transferred s (received c s) [acked_bytes c from s].
Proof using Type.
  intros Hc Hm Hr. unfold transferred, pending_install_round, snapshot_incoming, acked_bytes.
  split; [|split; [by rewrite Hr|by split_and!; [..|apply term_at_received]]].
  unfold received, update_progress. cbn. rewrite lookup_insert_eq. cbn. by rewrite Hc, Hm.
Qed.

Lemma transferred_before c s s' w w0 :
  transferred (received c s) s' w -> transferred s s' (w0 ++ w).
Proof using Type.
  intros (H1 & H2 & H3 & H4 & H5). split; [done|]. split.
  - rewrite last_app, H2. done.
  - split; [done|]. split; [done|]. intros round. by rewrite H5, term_at_received.
Qed.

Lemma deliver_from n held cur s :
  awaiting snap from term held s -> cursor_ok snap cur ->
  (forall data done_, chunk snap (rc_received cur) = (data, done_) ->
     pick_cursor from (snap_meta snap) (rc_received cur) data held = inr cur) ->
  (rc_received cur + N.of_nat n * SNAPSHOT_CHUNK_BYTES < blen (snap_bytes snap)
   <= rc_received cur + N.of_nat (S n) * SNAPSHOT_CHUNK_BYTES)%N ->
  exists s' w, deliver (S n) snap from term (rc_received cur) s = Some (s', w) /\ transferred s s' w.
Proof using Hbytes Hdigest Hvalid Hmax Htotal.
  revert held cur s. induction n as [|n IH]; intros held cur s Haw Hcur Hp Hn; cbn [deliver];
    destruct (chunk snap (rc_received cur)) as [data done_] eqn:Hch;
    destruct (one_chunk held cur s data done_ Haw Hcur Hch (Hp _ _ eq_refl)) as (c & -> & Hr & Hc);
    destruct (chunk_spec _ _ _ _ (cur_received _ _ Hcur) Hch) as (_ & Hlen & Hd).
  - rewrite (proj2 (N.eqb_eq _ _)) in Hd by lia. subst done_. destruct Hc as [Hc Hm].
    eexists _, _. split; [done|]. apply transferred_last; [done|done|lia].
  - rewrite (proj2 (N.eqb_neq _ _)) in Hd by lia. subst done_. rewrite <- Hr.
    destruct (IH (Some c) c (received c s)) as (s' & w & E & Ht).
    + by eapply awaiting_received.
    + done.
    + intros data' done' _. unfold pick_cursor. rewrite (cur_meta _ _ Hc), bool_decide_true by done.
      destruct (N.eqb_spec (rc_received c) 0); [|done]. unfold SNAPSHOT_CHUNK_BYTES in *. lia.
    + unfold SNAPSHOT_CHUNK_BYTES in *. lia.
    + cbn [deliver] in E. rewrite E. eexists _, _. split; [done|]. by eapply transferred_before.
Qed.

(** The first chunk holds the header, and opens a cursor. *)
Lemma pick_first data done_ :
  header_ok (snap_header snap) -> check_internally_consistent (snap_header snap) = Ok tt ->
  total_bytes (snap_header snap) = blen (snap_bytes snap) ->
  meta_last_round (snap_meta snap) = h_last_round (snap_header snap) ->
  meta_last_term (snap_meta snap) = h_last_term (snap_header snap) ->
  chunk snap 0 = (data, done_) ->
  pick_cursor from (snap_meta snap) 0 data None
  = inr (mkRecv (snap_meta snap) (snap_header snap) 0 FNV_OFFSET false).
Proof using Hbytes Hdigest Hmax Htotal.
  intros Hok Hc Hlen Hr Ht Hch. destruct (chunk_spec snap 0 data done_ ltac:(lia) Hch) as (Hd & Hn & _).
  rewrite N.add_0_l in Hd, Hn. change (N.to_nat 0) with 0 in Hd. rewrite take_0 in Hd. cbn [app] in Hd.
  rewrite Hbytes, take_app in Hd.
  assert (length (header_encode (snap_header snap)) <= N.to_nat (blen data)) as Hge.
  { rewrite Hn, Hbytes, blen_app. unfold blen, SNAPSHOT_CHUNK_BYTES. rewrite length_header_encode. lia. }
  rewrite take_ge in Hd by done. unfold pick_cursor. rewrite N.eqb_refl.
  rewrite <- Hd, header_decode_encode by done. rewrite Hr, Ht, Hlen, Htotal, !N.eqb_refl. done.
Qed.
End transfer.

(** C21: a snapshot that [build] makes, sent chunk by chunk to a follower that
    needs it, arrives whole. After as many chunks as its length asks for, the
    follower has checked the length and the digest of the body against the
    header, holds the transfer as complete and has acknowledged every byte;
    until it installs it, its term, vote, log and commit point are untouched. *)
Theorem snapshot_transfer_completes (at_ : SnapshotPoint) (root catalog : u32) (ls le : u64) (lp : u32)
    (arena branches redo image : list byte) (snap : Snapshot) (from : NodeId) (term : Term) (s : Consensus) :
  build at_ root catalog ls le lp arena branches redo image = Ok snap ->
  header_ok (snap_header snap) -> awaiting snap from term None s ->
  exists s' w, deliver (chunk_count snap) snap from term 0 s = Some (s', w) /\ transferred snap from s s' w.
Proof.
  intros (HB & Hc & Hd & Ht & Hlen & Hr & Htm & Hv)%build_spec Hok Haw.
  assert (HEADER_BYTES <= blen (snap_bytes snap) <= MAX_SNAPSHOT_BYTES)%N as Hsize.
  { unfold validate in Hv. inv_ok. rewrite <- Ht. rewrite N.ltb_ge in *. lia. }
  assert (blen (snap_bytes snap) <= max_u64)%N as Hmax.
  { etransitivity; [apply Hsize|]. by vm_compute. }
  set (cur := mkRecv (snap_meta snap) (snap_header snap) 0 FNV_OFFSET false).
  assert (exists n, chunk_count snap = S n
    /\ (N.of_nat n * SNAPSHOT_CHUNK_BYTES < blen (snap_bytes snap) <= N.of_nat (S n) * SNAPSHOT_CHUNK_BYTES)%N)
    as (n & -> & Hn).
  { unfold chunk_count, SNAPSHOT_CHUNK_BYTES in *.
    unfold HEADER_BYTES in Hsize. clear -Hsize.
    set (len := blen (snap_bytes snap)) in *. clearbody len.
    pose proof (N.div_mod (len + 1048576 - 1) 1048576 ltac:(done)) as Hq.
    pose proof (N.mod_lt (len + 1048576 - 1) 1048576 ltac:(done)) as Hm.
    set (q := ((len + 1048576 - 1) / 1048576)%N) in *. clearbody q.
    set (r := ((len + 1048576 - 1) mod 1048576)%N) in *. clearbody r.
    exists (N.to_nat (q - 1)). lia. }
  apply (deliver_from snap _ from term HB Hd Hv Hmax Ht n None cur s Haw).
  - split; try done. cbn [rc_received cur]. lia.
  - intros data done_ Hch. by apply (pick_first snap _ from HB Hd Hmax Ht data done_).
  - cbn [rc_received cur]. lia.
Qed.

(** A page of state and one byte of redo, through round 5. *)
Definition sample_image : list byte := repeat (u8 7) (N.to_nat PAGE_SIZE).
Definition sample_build : Result Why Snapshot :=
  build (mkPoint 5 2 (Config.new [1; 2; 3]%N 1 0) 11) 1 2 0 9 1 [] [] [u8 1] sample_image.

Definition sample_follower : Consensus :=
  (Consensus_new 1 (Config.new [1; 2; 3]%N 1 0) 7) <| leader := Some 2%N |>.

Definition sample_snapshot : Snapshot :=
  default (mkSnapshot (mkMeta 0 0 Config.empty 0) sample_header []) (ok_opt sample_build).

Lemma snapshot_transfer_completes_witness :
  exists s' w, deliver (chunk_count sample_snapshot) sample_snapshot 2 0 0 sample_follower = Some (s', w)
    /\ pending_install_round s' = Some 5%N.
Proof.
  assert (sample_build = Ok sample_snapshot) as E by (vm_compute; reflexivity).
  assert (awaiting sample_snapshot 2 0 None sample_follower) as Haw
    by (clear; split; vm_compute; reflexivity).
  assert (meta_last_round (snap_meta sample_snapshot) = 5%N) as Hr by (clear; vm_compute; reflexivity).
  destruct (snapshot_transfer_completes _ _ _ _ _ _ _ _ _ _ sample_snapshot 2 0 sample_follower E
              (build_header_ok _ _ _ _ _ _ _ _ _ _ _ E ltac:(done) ltac:(done) ltac:(done) ltac:(done)
                 ltac:(done) ltac:(done) ltac:(done) ltac:(done)) Haw)
    as (s' & w & Hd & Hp & _).
  exists s', w. split; [exact Hd|]. by rewrite Hp, Hr.
Defined.
