(* ===== verification/Append.v ===== *)
(** The replication handlers of [src/src/consensus/replicate.rs]: an append
    and its answer, a report of durability, and a client's proposal. *)
From S2P Require Import Prelude Bytes Errors WalRecord Config Types Transport Digest LogTail.
From S2P Require Import Payload State Office Membership Replicate SnapshotProto.

(** Entries contiguous from [prev_round + 1], none above the envelope's term. *)
Fixpoint malformed (prev_round : Round) (term : Term) (k : N) (es : list Entry) : bool :=
  match es with
  | [] => false
  | e :: es =>
      negb (e_round e =? wadd64 (wadd64 prev_round 1) k)%N || (term <? e_term e)%N
      || malformed prev_round term (k + 1) es
  end.

(** The newest configuration the batch carries. *)
Definition newest_config (es : list Entry) : option CfgAt :=
  fold_left (fun acc e =>
    match e_command e with
    | Membership c => Some (match acc with Some a => cfgat_max a (Config.at_ c) | None => Config.at_ c end)
    | _ => acc
    end) es None.

(** The entries this node already holds are skipped: the entries left, and the
    round of the first one that conflicts with the log. *)
Fixpoint skip_held (s : Consensus) (es : list Entry) : list Entry * option Round :=
  match es with
  | [] => ([], None)
  | e :: es' =>
      match term_at s (e_round e) with
      | Some t => if (t =? e_term e)%N then skip_held s es' else (es, Some (e_round e))
      | None => (es, None)
      end
  end.

(** Truncating from the conflicting round [r]. *)
Definition truncate_conflict (r : Round) : M unit :=
  s ← get;
  t ← tail_mut;
  _ ← put_tail ((LogTail.truncate_from t r) <| rewritten_in_term := term_of s |>);
  _ ← emit (Truncate r);
  _ ← modify (fun s => s <| last_round := (r - 1)%N |>);
  s ← get;
  lt ← unwrap (term_at s (r - 1));
  _ ← modify (fun s => s <| last_term := lt |>);
  when (last_round s <? durable s)%N (modify (fun s => s <| durable := last_round s |>)).

(** What follows a match at [prev_round]: establish, append, learn the commit. *)
Definition extend_log (from : NodeId) (prev_round : Round) (count : N) (fresh : list Entry)
    (conflict : option Round) (newest : option CfgAt) (leader_commit : Round) : M unit :=
  s ← get;
  let established := wadd64 prev_round count in
  let kept := match conflict with Some r => N.min (agreed s) (r - 1) | None => agreed s end in
  _ ← set_agreed (N.max kept established);
  _ ← match last fresh with
      | None => s ← get; emit (acknowledgement s from)
      | Some l =>
          _ ← for_each fresh push_entry;
          _ ← modify (fun s => s <| last_round := e_round l |> <| last_term := e_term l |>);
          emit (Persist fresh)
      end;
  s ← get;
  let learned := N.min leader_commit (agreed s) in
  _ ← when (commit s <? learned)%N (modify (fun s => s <| commit := learned |>));
  _ ← observe_quorum_watermark leader_commit;
  _ ← match newest with Some at_ => observe_config_at at_ | None => mret tt end;
  advance_apply.

Definition on_append (from : NodeId) (term : Term) (prev_round : Round) (prev_term : Term)
    (es : list Entry) (leader_commit : Round) : M unit :=
  s ← get;
  if malformed prev_round term 0 es then emit (refusal s from 0)
  else
    _ ← adopt_leader from term;
    s ← get;
    if (prev_round <? snapshot_round s)%N then
      emit (refusal s from (wadd64 (snapshot_round s) 1))
    else
      match term_at s prev_round with
      | None => emit (refusal s from (wadd64 (last_round s) 1))
      | Some t =>
          if negb (t =? prev_term)%N then
            emit (refusal s from (first_round_of_term_run s prev_round))
          else
            let '(fresh, conflict) := skip_held s es in
            match conflict with
            | Some r =>
                if (r <=? commit s)%N then emit (refusal s from (wadd64 (commit s) 1))
                else
                  _ ← truncate_conflict r;
                  extend_log from prev_round (blen es) fresh conflict (newest_config es) leader_commit
            | None =>
                extend_log from prev_round (blen es) fresh conflict (newest_config es) leader_commit
            end
      end.

(** The divergence latch: the first disagreement stays. *)
Definition latch_diverged (d : Round * u64 * u64) (p : Progress) : Progress :=
  match diverged p with
  | None => p <| diverged := Some d |>
  | Some _ => p
  end.

(** A success counted: [matched] and [next] never move back. *)
Definition count_ack (m : Round) (p : Progress) : Progress :=
  let p := if (matched p <? m)%N then p <| matched := m |> else p in
  p <| next := N.max (next p) (wadd64 (matched p) 1) |> <| needs_snapshot := false |>
    <| sending := None |>.

Definition on_append_resp (from : NodeId) (success : bool) (m hint : Round) (digest : u64) : M unit :=
  s ← get;
  if negb (bool_decide (role s = Leader)) || (from =? self_id s)%N then mret tt
  else if negb (Config.is_known (cfg s) from) then mret tt
  else
    _ ← modify (update_progress from (fun p => p <| silent := 0%N |>));
    s ← get;
    if negb success then
      if (hint =? 0)%N then mret tt
      else
        p ← unwrap (progress s !! from);
        let new_next := N.max hint 1 in
        if (new_next =? next p)%N then mret tt
        else
          _ ← modify (update_progress from (fun p => p <| next := new_next |>));
          send_append_to from
    else
      _ ← match digest_at s m with
          | Some mine =>
              when (negb (digest =? 0)%N && negb (mine =? digest)%N)
                (modify (update_progress from (latch_diverged (m, digest, mine))))
          | None => mret tt
          end;
      if (last_round s <? m)%N then mret tt
      else
        let before := matched (default progress_default (progress s !! from)) in
        _ ← modify (update_progress from (count_ack m));
        moved ← advance_commit;
        let advanced := (before <? N.max before m)%N in
        if (moved : bool) || negb advanced then mret tt
        else
          s' ← get;
          p ← unwrap (progress s' !! from);
          when (matched p <? last_round s')%N (send_append_to from).

Definition on_persisted (term : Term) (round : Round) : M unit :=
  _ ← ensure_log;
  s ← get;
  installed ← (if bool_decide (pending_install_round s = Some round) then finish_install
               else mret (Ok tt));
  match installed with
  | Err why => emit (Refuse why)
  | Ok _ =>
      s ← get;
      let rewritten_in := match tail s with Some t => rewritten_in_term t | None => 0%N end in
      let bounded := N.min round (last_round s) in
      _ ← when ((rewritten_in <=? term)%N && (durable s <? bounded)%N)
            (modify (fun s => s <| durable := bounded |>));
      s ← get;
      _ ← match role s with
          | Leader =>
              _ ← update_self (fun p => p <| matched := durable s |>);
              _ ← advance_commit;
              mret tt
          | _ =>
              match leader s with
              | Some l => emit (acknowledgement s l)
              | None => mret tt
              end
          end;
      advance_apply
  end.

Definition on_propose (c : Command) : M unit :=
  s ← get;
  if negb (bool_decide (role s = Leader)) then emit (Refuse (NotLeader (leader s)))
  else
    _ ← ensure_log;
    s ← get;
    let candidate := mkEntry (term_of s) (wadd64 (last_round s) 1) c in
    match admit_entry candidate with
    | Err why => emit (Refuse why)
    | Ok _ =>
        _ ← append_own_entry c;
        bcast_append
    end.

Definition on_append_msg (m : Message) : M unit :=
  _ ← ensure_log;
  match m_body m with
  | Append prev_round prev_term es commit =>
      on_append (m_from m) (m_term m) prev_round prev_term es commit
  | AppendResp success matched hint digest => on_append_resp (m_from m) success matched hint digest
  | InstallSnapshot meta offset data done_ =>
      on_install_snapshot (m_from m) (m_term m) meta offset data done_
  | InstallSnapshotResp received_through => on_install_snapshot_resp (m_from m) received_through
  | _ => panic
  end.
