(* ===== verification/Election.v ===== *)
(** Who leads: [src/src/consensus/election.rs]. The clock, the four vote
    messages and the transitions between the roles. *)
From S2P Require Import Prelude Bytes Errors WalRecord Config Types Digest LogTail Payload State.
From S2P Require Import Office Membership Replicate.

(** The writes of the three transitions. *)
Definition to_leader (s : Consensus) : Consensus :=
  s <| role := Leader |> <| leader := Some (self_id s) |> <| campaign := None |>
    <| votes := ∅ |> <| since_quorum := 0%N |> <| since_heartbeat := 0%N |>.

Definition to_candidate (s : Consensus) : Consensus :=
  s <| hard := mkHard (sadd64 (term_of s) 1) (Some (self_id s)) |>
    <| campaign := Some (cfg s) |> <| role := Candidate |> <| leader := None |>
    <| votes := {[ self_id s ]} |> <| since_heard := 0%N |>.

Definition to_precandidate (s : Consensus) : Consensus :=
  s <| role := PreCandidate |> <| leader := None |> <| campaign := Some (cfg s) |>
    <| votes := {[ self_id s ]} |> <| since_heard := 0%N |>.

(** [self.election_timeout = self.draw_timeout()]. *)
Definition redraw_timeout : M unit :=
  t ← draw_timeout;
  modify (fun s => s <| election_timeout := t |>).

Definition become_leader : M unit :=
  _ ← modify to_leader;
  s ← get;
  _ ← emit (RoleChanged Leader (term_of s) (Some (self_id s)));
  on_became_leader.

Definition become_candidate : M unit :=
  _ ← modify to_candidate;
  _ ← redraw_timeout;
  s ← get;
  _ ← emit (PersistHardState (term_of s) (Some (self_id s)));
  _ ← emit (RoleChanged Candidate (term_of s) None);
  if campaign_has_quorum s then become_leader
  else for_each (campaign_voters s) (fun to =>
         emit (Send (mkMessage (self_id s) to (term_of s) (RequestVote (last_term s) (last_round s))))).

Definition start_precampaign : M unit :=
  _ ← modify to_precandidate;
  _ ← redraw_timeout;
  s ← get;
  _ ← emit (RoleChanged PreCandidate (term_of s) None);
  if campaign_has_quorum s then become_candidate
  else for_each (campaign_voters s) (fun to =>
         emit (Send (mkMessage (self_id s) to (sadd64 (term_of s) 1)
                       (PreVote (last_term s) (last_round s))))).

(** * The clock *)

Definition voter_tick : M unit :=
  _ ← modify (fun s => s <| since_heard := sadd32 (since_heard s) 1 |>);
  s ← get;
  if (since_heard s <? election_timeout s)%N then mret tt
  else if may_campaign s then start_precampaign
  else
    _ ← when (negb (bool_decide (role s = Follower))) (become_follower (term_of s) None);
    _ ← modify (fun s => s <| since_heard := 0%N |>);
    redraw_timeout.

(** How silent one voter has been. *)
Definition silence_of (s : Consensus) (n : NodeId) : u32 :=
  if (n =? self_id s)%N then 0%N
  else match progress s !! n with Some p => silent p | None => max_u32 end.

Definition quorum_silence (s : Consensus) : u32 :=
  let ages := merge_sort N.le (map (silence_of s) (members (cfg s))) in
  default max_u32 (ages !! (Config.quorum (cfg s) - 1)).

Definition age_peer (s : Consensus) (id : NodeId) : Consensus :=
  match progress s !! id with
  | Some p => s <| progress := <[id := p <| silent := sadd32 (silent p) 1 |>]> (progress s) |>
  | None => s
  end.

Definition leader_tick : M unit :=
  s ← get;
  if negb (Config.contains (cfg s) (self_id s)) then become_follower (term_of s) None
  else
    _ ← for_each (peer_ids s) (fun id => modify (fun s => age_peer s id));
    _ ← modify (fun s => s <| since_quorum := quorum_silence s |>);
    s ← get;
    if (lease s <=? since_quorum s)%N then become_follower (term_of s) None
    else
      _ ← modify (fun s => s <| since_heartbeat := sadd32 (since_heartbeat s) 1 |>);
      s ← get;
      when (heartbeat s <=? since_heartbeat s)%N (
        _ ← modify (fun s => s <| since_heartbeat := 0%N |>);
        bcast_append).

Definition on_tick : M unit :=
  s ← get;
  match role s with
  | Leader => leader_tick
  | _ => voter_tick
  end.

(** * Vote messages *)

Definition on_pre_vote (from : NodeId) (asked_term last_term : Term) (last_round : Round) : M unit :=
  s ← get;
  let granted := (term_of s <? asked_term)%N && negb (leader_is_live s)
                 && log_is_at_least_as_complete s last_term last_round in
  emit (Send (mkMessage (self_id s) from asked_term (PreVoteResp granted))).

Definition on_pre_vote_resp (from : NodeId) (asked_term : Term) (granted : bool) : M unit :=
  s ← get;
  if negb (bool_decide (role s = PreCandidate)) then mret tt
  else if negb (asked_term =? sadd64 (term_of s) 1)%N then mret tt
  else if negb (campaign_contains s from) then mret tt
  else if negb granted then mret tt
  else
    _ ← modify (fun s => s <| votes := {[ from ]} ∪ votes s |>);
    s ← get;
    when (campaign_has_quorum s) become_candidate.

Definition on_request_vote (from : NodeId) (last_term : Term) (last_round : Round) : M unit :=
  s ← get;
  let unpledged := match voted_for (hard s) with None => true | Some v => (v =? from)%N end in
  let granted := unpledged && negb (leader_is_live s)
                 && log_is_at_least_as_complete s last_term last_round in
  _ ← when granted (
        _ ← modify (fun s => s <| hard := mkHard (term_of s) (Some from) |> <| since_heard := 0%N |>);
        emit (PersistHardState (term_of s) (Some from)));
  emit (Send (mkMessage (self_id s) from (term_of s) (RequestVoteResp granted))).

Definition on_request_vote_resp (from : NodeId) (term : Term) (granted : bool) : M unit :=
  s ← get;
  if negb (bool_decide (role s = Candidate)) then mret tt
  else if negb (term =? term_of s)%N then mret tt
  else if negb (campaign_contains s from) then mret tt
  else if negb granted then mret tt
  else
    _ ← modify (fun s => s <| votes := {[ from ]} ∪ votes s |>);
    s ← get;
    when (campaign_has_quorum s) become_leader.

Definition on_vote_msg (m : Message) : M unit :=
  match m_body m with
  | PreVote last_term last_round => on_pre_vote (m_from m) (m_term m) last_term last_round
  | PreVoteResp granted => on_pre_vote_resp (m_from m) (m_term m) granted
  | RequestVote last_term last_round => on_request_vote (m_from m) last_term last_round
  | RequestVoteResp granted => on_request_vote_resp (m_from m) (m_term m) granted
  | _ => panic
  end.
