(* ===== verification/Step.v ===== *)
(** The single entry point of the state machine: [step] and the term rules of
    [on_message] ([src/src/consensus/mod.rs]). *)
From S2P Require Import Prelude Bytes Errors WalRecord Config Types Transport Digest LogTail.
From S2P Require Import Payload State Office Membership Replicate SnapshotProto Append Election.

Definition is_hypothetical (b : Body) : bool :=
  match b with PreVote _ _ | PreVoteResp _ => true | _ => false end.

Definition is_vote_body (b : Body) : bool :=
  match b with
  | PreVote _ _ | PreVoteResp _ | RequestVote _ _ | RequestVoteResp _ => true
  | _ => false
  end.

Definition on_message (m : Message) : M unit :=
  s ← get;
  if (m_term m <? term_of s)%N then
    when (is_request (m_body m)) (
      body ← unwrap (stale_refusal (m_body m));
      emit (Send (mkMessage (self_id s) (m_from m) (term_of s) body)))
  else
    _ ← when ((term_of s <? m_term m)%N && negb (is_hypothetical (m_body m)))
          (become_follower (m_term m) None);
    if is_vote_body (m_body m) then on_vote_msg m else on_append_msg m.

Definition dispatch (ev : Event) : M unit :=
  match ev with
  | Tick => on_tick
  | Recv m => on_message m
  | Persisted term round => on_persisted term round
  | Propose c => on_propose c
  end.

(** The next state and the actions to perform in order; [None] is a panic. *)
Definition step (s : Consensus) (ev : Event) : option (Consensus * list Action) :=
  match dispatch ev s with
  | Some (_, s', out) => Some (s', out)
  | None => None
  end.

(** Several events in a row, with everything they asked for. *)
Fixpoint run (s : Consensus) (evs : list Event) : option (Consensus * list Action) :=
  match evs with
  | [] => Some (s, [])
  | ev :: evs =>
      match step s ev with
      | Some (s1, w1) =>
          match run s1 evs with
          | Some (s2, w2) => Some (s2, w1 ++ w2)
          | None => None
          end
      | None => None
      end
  end.

(** * Concrete nodes

    The runs that the witnesses of the node theorems use. *)

Definition trio : Config := Config.new [1; 2; 3]%N 1 0.

Definition fresh (id : NodeId) : Consensus := Consensus_new id trio 7.

(** The state a run ends in. *)
Definition after (s : Consensus) (evs : list Event) : Consensus :=
  match run s evs with Some (s', _) => s' | None => s end.

(** Node 1 asks node 2 for its vote in term 1. *)
Definition ballot : Event := Recv (mkMessage 1 2 1 (RequestVote 0 0)).
Definition voter2 : Consensus := after (fresh 2) [ballot].

(** Node 1 stands, is granted node 2's pre-vote and vote, and leads term 1. *)
Definition campaign1 : list Event :=
  replicate 20 Tick ++ [Recv (mkMessage 2 1 1 (PreVoteResp true))].
Definition candidate1 : Consensus := after (fresh 1) campaign1.
Definition elected1 : Event := Recv (mkMessage 2 1 1 (RequestVoteResp true)).
Definition leader1 : Consensus := after candidate1 [elected1].
