(* ===== verification/Changes.v ===== *)
(** What the gate on membership changes lets through
    ([src/src/consensus/membership.rs]): one node at a time, one step at a
    time, and never two majorities that could disagree. *)
From S2P Require Import Prelude Bytes Errors WalRecord Config Types Digest LogTail Payload State Office.
From S2P Require Import Membership Replicate SnapshotProto Append Election Step.

(** * Standings *)

Lemma standing_voter c n : standing c n = Voter <-> n ∈ members c.
Proof.
  unfold standing. destruct (Config.contains c n) eqn:E; [apply contains_spec in E; done|].
  assert (n ∉ members c) by (intros ?%contains_spec; congruence).
  case_bool_decide; split; done.
Qed.

Lemma standing_learner c n : config_wf c -> standing c n = Learner <-> n ∈ learners c.
Proof.
  intros Hwf. unfold standing. destruct (Config.contains c n) eqn:E.
  - apply contains_spec in E. split; [done|]. intros Hl. exfalso. by apply (wf_disjoint _ Hwf n).
  - case_bool_decide; split; done.
Qed.

Lemma standing_absent c n : standing c n = Absent <-> n ∉ members c /\ n ∉ learners c.
Proof.
  unfold standing. destruct (Config.contains c n) eqn:E; [apply contains_spec in E; naive_solver|].
  assert (n ∉ members c) by (intros ?%contains_spec; congruence). case_bool_decide; naive_solver.
Qed.

(** Only the nodes listed as moved change standing. *)
Lemma moved_rest s c moved :
  standings_moved s c = moved ->
  forall x, standing (cfg s) x = standing c x \/ (x, standing (cfg s) x, standing c x) ∈ moved.
Proof.
  intros <- x. destruct (decide (standing (cfg s) x = standing c x)) as [|Hne]; [by left|]. right.
  unfold standings_moved. apply list_elem_of_filter. split; [done|].
  apply (list_elem_of_fmap_2 (fun n => (n, standing (cfg s) n, standing c n))).
  rewrite elem_of_dedup, sort_ids_perm, !elem_of_app.
  destruct (decide (x ∈ members (cfg s))); [tauto|]. destruct (decide (x ∈ learners (cfg s))); [tauto|].
  destruct (decide (x ∈ members c)); [tauto|]. destruct (decide (x ∈ learners c)); [tauto|].
  exfalso. apply Hne. transitivity Absent; [|symmetry]; by apply standing_absent.
Qed.

(** The shape check passes one moved node and no other. *)
Lemma check_shape_Ok s c :
  check_shape s c = Ok tt ->
  cfg_version c = wadd64 (cfg_version (cfg s)) 1 /\ cfg_term c = term_of s
  /\ exists n, forall x, x <> n -> standing c x = standing (cfg s) x.
Proof.
  unfold check_shape. intros H. inv_ok.
  apply negb_false_iff, N.eqb_eq in E0. apply negb_false_iff, N.eqb_eq in E1. split; [done|]. split; [done|].
  destruct (standings_moved s c) as [|[[n b] a'] [|? ?]] eqn:Em; [done| |done].
  exists n. intros x Hx. destruct (moved_rest s c _ Em x) as [|Hin]; [done|].
  apply list_elem_of_singleton in Hin. by injection Hin.
Qed.

Lemma check_membership_Ok s c own :
  check_membership s c own = Ok tt ->
  role s = Leader /\ own = Yes /\ check_shape s c = Ok tt /\ config_is_durable_on_a_majority s = true.
Proof.
  unfold check_membership. intros H. inv_ok.
  unfold not_leader in E. apply negb_false_iff, bool_decide_eq_true in E.
  unfold check_own_term in E0. destruct own; [|done]. destruct a1. split; [done|]. split; [done|]. split; [done|].
  unfold check_precondition in H. inv_ok. unfold config_is_durable_on_a_majority.
  apply negb_false_iff in E3, H. by rewrite E3, H.
Qed.

(** Two configurations whose voters differ in at most one node have overlapping
    majorities. *)
Lemma one_voter_apart c d n A B :
  config_wf c -> config_wf d -> (forall x, x <> n -> x ∈ members c <-> x ∈ members d) ->
  (forall x, x ∈ A -> x ∈ members c) -> (forall x, x ∈ B -> x ∈ members d) ->
  Config.has_quorum c (size A) = true -> Config.has_quorum d (size B) = true ->
  exists x, x ∈ (A : gset N) /\ x ∈ (B : gset N).
Proof.
  intros Hc Hd Hx HA HB [_ QA]%has_quorum_spec [_ QB]%has_quorum_spec.
  pose proof (quorum_double c). pose proof (quorum_double d).
  pose proof (ascending_NoDup _ (wf_members _ Hc)) as Nc. pose proof (ascending_NoDup _ (wf_members _ Hd)) as Nd.
  assert (members c ≡ₚ members d \/ (members d ≡ₚ n :: members c) \/ (members c ≡ₚ n :: members d)) as Hp.
  { destruct (decide (n ∈ members c)) as [Hnc|Hnc], (decide (n ∈ members d)) as [Hnd|Hnd].
    - left. apply NoDup_Permutation; [done|done|]. intros x. destruct (decide (x = n)) as [->|]; [tauto|auto].
    - right; right. apply NoDup_Permutation; [done|by constructor|]. intros x. rewrite elem_of_cons.
      destruct (decide (x = n)) as [->|]; [tauto|]. rewrite Hx by done. tauto.
    - right; left. apply NoDup_Permutation; [done|by constructor|]. intros x. rewrite elem_of_cons.
      destruct (decide (x = n)) as [->|]; [tauto|]. rewrite Hx by done. tauto.
    - left. apply NoDup_Permutation; [done|done|]. intros x. destruct (decide (x = n)) as [->|]; [tauto|auto]. }
  destruct Hp as [Hp|[Hp|Hp]]; pose proof (Permutation_length Hp) as Hlen; cbn in Hlen.
  - apply (majorities_intersect (members c)); [done|done| |lia]. intros x Hin. rewrite Hp. auto.
  - apply (majorities_intersect (members d)); [done| |done|lia]. intros x Hin. rewrite Hp. right. auto.
  - apply (majorities_intersect (members c)); [done|done| |lia]. intros x Hin. rewrite Hp. right. auto.
Qed.

(** * Properties *)

(** C28: whatever configuration the gate lets a leader begin, no majority of it
    is disjoint from a majority of the one in force: a decision taken under
    either is known to a voter of every decision under the other. The new
    configuration is the next version, of the leader's term, and the one in
    force is itself held by a majority. *)
Theorem begun_change_keeps_majorities (s : Consensus) (c : Config) (own : OwnTermCommitted) (A B : gset N) :
  config_wf (cfg s) -> config_wf c -> check_membership s c own = Ok tt ->
  role s = Leader /\ cfg_version c = wadd64 (cfg_version (cfg s)) 1 /\ cfg_term c = term_of s
  /\ config_is_durable_on_a_majority s = true
  /\ ((forall x, x ∈ A -> x ∈ members (cfg s)) -> (forall x, x ∈ B -> x ∈ members c) ->
      Config.has_quorum (cfg s) (size A) = true -> Config.has_quorum c (size B) = true ->
      exists x, x ∈ A /\ x ∈ B).
Proof.
  intros Hs Hc (Hr & _ & Hsh & Hdur)%check_membership_Ok.
  destruct (check_shape_Ok s c Hsh) as (Hv & Ht & n & Hn).
  do 4 (split; [done|]). apply (one_voter_apart (cfg s) c n); [done|done|].
  intros x Hx. by rewrite <- !standing_voter, Hn.
Qed.

Definition node_of (ch : Change) : NodeId :=
  match ch with AddLearner n | Promote n | Demote n | Remove n => n end.

Definition wanted (ch : Change) : Standing :=
  match ch with AddLearner _ | Demote _ => Learner | Promote _ => Voter | Remove _ => Absent end.

(** Members and learners decide standings. *)
Lemma same_standing c d x :
  config_wf c -> config_wf d -> (x ∈ members c <-> x ∈ members d) -> (x ∈ learners c <-> x ∈ learners d) ->
  standing c x = standing d x.
Proof.
  intros Hc Hd Hm Hl. destruct (standing d x) eqn:E.
  - apply standing_absent in E. apply standing_absent. tauto.
  - apply standing_learner in E; [|done]. apply standing_learner; tauto.
  - apply standing_voter in E. apply standing_voter. tauto.
Qed.

(** The configuration each step builds, as two lists. *)
Lemma planned_lists c n t x :
  config_wf c ->
  (x ∈ learners (Config.adding_learner c n t) <-> (x ∈ learners c \/ x = n) /\ x ∉ members c)
  /\ (x ∈ learners (Config.adding c n t) <-> x ∈ learners c /\ x <> n)
  /\ (x ∈ learners (Config.removing c n t) <-> x ∈ learners c /\ x <> n)
  /\ (x ∈ members (demoting c n t) <-> x ∈ members c /\ x <> n)
  /\ (x ∈ learners (demoting c n t) <-> x ∈ learners c \/ x = n).
Proof.
  intros [Hm Hl Hd]. assert (forall ms ls v, x ∈ learners (Config.with_learners (Config.new ms v t) ls)
    <-> x ∈ ls /\ x ∉ ms) as W.
  { intros. rewrite elem_of_with_learners by apply ascending_new. by rewrite elem_of_new. }
  unfold Config.adding_learner, Config.adding, Config.removing, demoting. rewrite !W.
  cbn [Config.with_learners members]. rewrite elem_of_new, !elem_of_app, !elem_of_without, !elem_of_cons.
  pose proof (not_elem_of_nil x). specialize (Hd x). split_and!; tauto.
Qed.

Lemma planned_wf c n t :
  config_wf (Config.adding_learner c n t) /\ config_wf (Config.adding c n t)
  /\ config_wf (Config.removing c n t) /\ config_wf (demoting c n t).
Proof. split_and!; apply with_learners_wf, ascending_new. Qed.

(** [plan_change] moves the node it was asked to move, to the standing it
    was asked for, and no other node: what it returns is a well-formed
    configuration the gate accepts, in which every other node stands where it
    stood. *)
Theorem planned_change_is_the_one_asked (s : Consensus) (ch : Change) (own : OwnTermCommitted) (c : Config) :
  config_wf (cfg s) -> plan_change s ch own = Ok c ->
  config_wf c /\ check_membership s c own = Ok tt /\ standing c (node_of ch) = wanted ch
  /\ standing (cfg s) (node_of ch) <> wanted ch
  /\ (forall x, x <> node_of ch -> standing c x = standing (cfg s) x).
Proof.
  intros Hwf H. unfold plan_change in H. inv_ok. rename E0 into Ht. destruct a1. rename E1 into Hcm.
  assert (forall n t, config_wf (Config.adding_learner (cfg s) n t) /\ config_wf (Config.adding (cfg s) n t)
    /\ config_wf (Config.removing (cfg s) n t) /\ config_wf (demoting (cfg s) n t)) as W by apply planned_wf.
  pose proof (planned_lists (cfg s)) as L.
  destruct ch as [n|n|n|n]; cbn [target_config node_of wanted] in *;
    destruct (standing (cfg s) n) eqn:Est; try done; inv_ok;
    destruct (W n (term_of s)) as (W1 & W2 & W3 & W4).
  - split; [done|]. split; [done|]. apply standing_absent in Est as [Em El]. split; [|split; [done|]].
    + apply standing_learner; [done|]. apply (L n (term_of s) n Hwf). tauto.
    + intros x Hx. destruct (L n (term_of s) x Hwf) as (L1 & _).
      apply same_standing; [done|done|apply members_adding_learner|].
      rewrite L1. pose proof (wf_disjoint _ Hwf x). tauto.
  - split; [done|]. split; [done|]. split; [|split; [done|]].
    + apply standing_voter, members_adding. by right.
    + intros x Hx. destruct (L n (term_of s) x Hwf) as (_ & L2 & _).
      apply same_standing; [done|done|rewrite members_adding; tauto|rewrite L2; tauto].
  - split; [done|]. split; [done|]. split; [|split; [done|]].
    + apply standing_learner; [done|]. apply (L n (term_of s) n Hwf). by right.
    + intros x Hx. destruct (L n (term_of s) x Hwf) as (_ & _ & _ & L4 & L5).
      apply same_standing; [done|done|rewrite L4; tauto|rewrite L5; tauto].
  - apply standing_learner in Est; [|done]. split; [done|]. split; [done|]. split; [|split; [done|]].
    + apply standing_absent. rewrite members_removing. destruct (L n (term_of s) n Hwf) as (_ & _ & L3 & _).
      rewrite L3. tauto.
    + intros x Hx. destruct (L n (term_of s) x Hwf) as (_ & _ & L3 & _).
      apply same_standing; [done|done|rewrite members_removing; tauto|rewrite L3; tauto].
Qed.

(** The leader of term 1, its configuration known to be durable, adds node 4. *)
Definition boss : Consensus :=
  match note_bootstrap_config leader1 with Some (_, s, _) => s | None => leader1 end.
Definition joined4 : Config := Config.adding_learner trio 4 1.

Lemma boss_cfg : cfg boss = trio.
Proof. vm_compute. reflexivity. Qed.

Lemma begun_change_keeps_majorities_witness :
  exists x, x ∈ ({[1%N; 2%N]} : gset N) /\ x ∈ ({[2%N; 3%N]} : gset N).
Proof.
  assert (config_wf (cfg boss)) as Hs by (rewrite boss_cfg; apply new_wf).
  assert (config_wf joined4) as Hc by apply with_learners_wf, ascending_new.
  destruct (begun_change_keeps_majorities boss joined4 Yes {[1%N; 2%N]} {[2%N; 3%N]} Hs Hc
              ltac:(vm_compute; reflexivity)) as (_ & _ & _ & _ & H).
  apply H; [| |vm_compute; reflexivity..]; clear.
  - intros x Hx. rewrite boss_cfg. apply elem_of_union in Hx as [->%elem_of_singleton| ->%elem_of_singleton];
      apply (bool_decide_unpack _); by vm_compute.
  - intros x Hx. apply elem_of_union in Hx as [->%elem_of_singleton| ->%elem_of_singleton];
      apply (bool_decide_unpack _); by vm_compute.
Defined.

Lemma planned_change_witness :
  plan_change boss (AddLearner 4) Yes = Ok joined4 /\ standing joined4 4 = Learner
  /\ standing joined4 2 = standing (cfg boss) 2.
Proof.
  assert (plan_change boss (AddLearner 4) Yes = Ok joined4) as E by (vm_compute; reflexivity).
  assert (config_wf (cfg boss)) as Hs by (rewrite boss_cfg; apply new_wf).
  destruct (planned_change_is_the_one_asked boss (AddLearner 4) Yes joined4 Hs E) as (_ & _ & H1 & _ & H2).
  split; [exact E|]. split; [exact H1|]. apply H2. discriminate.
Defined.
