(* ===== verification/Hoare.v ===== *)
(** Reasoning about the handlers' effect. [wp p m Q s] says that running [m]
    from [s] ends in [Q], where [p] says what is allowed of a panic: [False]
    forbids it (total correctness), [True] lets the node stop there. [keeps R m]
    says that [m], from any state, moves the state and pushes actions only as
    the step relation [R] allows; relations that compose ([StepRel]) are proved
    of a handler by walking through it. *)
From S2P Require Import Prelude Bytes Errors WalRecord Config Types Transport Digest LogTail.
From S2P Require Import Payload State Office Membership Replicate SnapshotProto Append Election Step.

Definition wp {A : Type} (p : Prop) (m : M A) (Q : A -> Consensus -> list Action -> Prop)
    (s : Consensus) : Prop :=
  match m s with
  | Some (a, s', w) => Q a s' w
  | None => p
  end.

(** Conversion unfolds a [wp] last: running the handler is never the way to
    compare two of them. *)
#[global] Strategy 1000 [wp].

Section rules.
Context (p : Prop).

Lemma wp_mono {A : Type} (m : M A) (Q Q' : A -> Consensus -> list Action -> Prop) s :
  wp p m Q s -> (forall a s' w, Q a s' w -> Q' a s' w) -> wp p m Q' s.
Proof using Type. unfold wp. destruct (m s) as [[[a s'] w]|]; auto. Qed.

Lemma wp_bind {A B : Type} (m : M A) (k : A -> M B) Q s :
  wp p m (fun a s1 w1 => wp p (k a) (fun b s2 w2 => Q b s2 (w1 ++ w2)) s1) s ->
  wp p (m ≫= k) Q s.
Proof using Type.
  unfold wp, mbind, m_bind. destruct (m s) as [[[a s1] w1]|]; [|done].
  by destruct (k a s1) as [[[b s2] w2]|].
Qed.

Lemma wp_ret {A : Type} (a : A) (Q : A -> Consensus -> list Action -> Prop) s :
  Q a s [] -> wp p (mret a) Q s.
Proof using Type. done. Qed.

Lemma wp_get (Q : Consensus -> Consensus -> list Action -> Prop) s : Q s s [] -> wp p get Q s.
Proof using Type. done. Qed.

Lemma wp_modify f (Q : unit -> Consensus -> list Action -> Prop) s :
  Q tt (f s) [] -> wp p (modify f) Q s.
Proof using Type. done. Qed.

Lemma wp_emit a (Q : unit -> Consensus -> list Action -> Prop) s : Q tt s [a] -> wp p (emit a) Q s.
Proof using Type. done. Qed.

Lemma wp_assert b (Q : unit -> Consensus -> list Action -> Prop) s :
  (b = true -> Q tt s []) -> (b = false -> p) -> wp p (assert_ b) Q s.
Proof using Type. destruct b; cbn; auto. Qed.

Lemma wp_unwrap {A : Type} (o : option A) (Q : A -> Consensus -> list Action -> Prop) s :
  (forall a, o = Some a -> Q a s []) -> (o = None -> p) -> wp p (unwrap o) Q s.
Proof using Type. destruct o; cbn; auto. Qed.

Lemma wp_when b m (Q : unit -> Consensus -> list Action -> Prop) s :
  (b = true -> wp p m Q s) -> (b = false -> Q tt s []) -> wp p (when b m) Q s.
Proof using Type. destruct b; cbn; auto. Qed.

Lemma wp_for_each {A : Type} (l : list A) (f : A -> M unit) (I : Consensus -> list Action -> Prop) s :
  (forall x s1 w1, x ∈ l -> I s1 w1 -> wp p (f x) (fun _ s2 w2 => I s2 (w1 ++ w2)) s1) ->
  I s [] -> wp p (for_each l f) (fun _ s' w => I s' w) s.
Proof using Type.
  revert I s. induction l as [|x l IH]; intros I s Hf Hs; cbn; [done|].
  apply wp_bind. eapply wp_mono; [apply (Hf x s []); [left|done]|].
  intros [] s1 w1 Hs1. cbn in Hs1.
  apply (IH (fun s2 w2 => I s2 (w1 ++ w2))).
  - intros y s2 w2 Hy Hs2. eapply wp_mono; [apply (Hf y s2); [by right|done]|].
    intros [] s3 w3. by rewrite app_assoc.
  - by rewrite app_nil_r.
Qed.
End rules.

(** A run seen from outside. *)
Lemma wp_run {A : Type} (m : M A) Q s a s' w : wp True m Q s -> m s = Some (a, s', w) -> Q a s' w.
Proof. unfold wp. intros H E. by rewrite E in H. Qed.

Lemma wp_total {A : Type} (m : M A) Q s :
  wp False m Q s -> exists a s' w, m s = Some (a, s', w) /\ Q a s' w.
Proof. unfold wp. destruct (m s) as [[[a s'] w]|]; [eauto 6|done]. Qed.

(** A postcondition under a hypothesis. *)
Lemma wp_assume {A : Type} (P : Prop) (m : M A) (Q : A -> Consensus -> list Action -> Prop) s :
  (P -> wp True m Q s) -> wp True m (fun a s' w => P -> Q a s' w) s.
Proof. unfold wp. destruct (m s) as [[[a s'] w]|]; auto. Qed.

Lemma wp_panic_weaken {A : Type} (p : Prop) (m : M A) Q s : wp False m Q s -> wp p m Q s.
Proof. unfold wp. by destruct (m s) as [[[a s'] w]|]. Qed.

(** A total handler also ends where a partial one says. *)
Lemma wp_and {A : Type} (p : Prop) (m : M A) (Q R : A -> Consensus -> list Action -> Prop) s :
  wp p m Q s -> wp True m R s -> wp p m (fun a s' w => Q a s' w /\ R a s' w) s.
Proof. unfold wp. destruct (m s) as [[[a s'] w]|]; auto. Qed.

(** * Step relations *)

Abbreviation Rel := (Consensus -> Consensus -> list Action -> Prop) (only parsing).

Class StepRel (R : Rel) : Prop := {
  rel_refl s : R s s [];
  rel_trans s1 s2 s3 w1 w2 : R s1 s2 w1 -> R s2 s3 w2 -> R s1 s3 (w1 ++ w2)
}.

Definition keeps {A : Type} (R : Rel) (m : M A) : Prop :=
  forall s, wp True m (fun _ s' w => R s s' w) s.

(** The same from one state, for what depends on it. *)
Definition keeps_at {A : Type} (R : Rel) (m : M A) (s : Consensus) : Prop :=
  wp True m (fun _ s' w => R s s' w) s.

Section keeps.
Context (R : Rel) {HR : StepRel R}.

Lemma keeps_ret {A : Type} (a : A) : keeps R (mret a).
Proof using HR. intros s. apply rel_refl. Qed.

Lemma keeps_get : keeps R get.
Proof using HR. intros s. apply rel_refl. Qed.

Lemma keeps_panic {A : Type} : keeps R (@panic A).
Proof using Type. intros s. done. Qed.

Lemma keeps_bind {A B : Type} (m : M A) (k : A -> M B) :
  keeps R m -> (forall a, keeps R (k a)) -> keeps R (m ≫= k).
Proof using HR.
  intros Hm Hk s. apply wp_bind. eapply wp_mono; [apply Hm|]. cbn. intros a s1 w1 H1.
  eapply wp_mono; [apply Hk|]. cbn. intros b s2 w2 H2. by eapply rel_trans.
Qed.

(** After a read the continuation may use what was read of the state. *)
Lemma keeps_read {B : Type} (k : Consensus -> M B) :
  (forall s, keeps_at R (k s) s) -> keeps R (get ≫= k).
Proof using Type.
  intros Hk s. apply wp_bind. apply wp_get. eapply wp_mono; [apply Hk|]. done.
Qed.

Lemma keeps_at_bind {A B : Type} (m : M A) (k : A -> M B) s :
  wp True m (fun a s1 w1 => R s s1 w1 /\ keeps_at R (k a) s1) s -> keeps_at R (m ≫= k) s.
Proof using HR.
  intros Hm. apply wp_bind. eapply wp_mono; [apply Hm|]. cbn. intros a s1 w1 [H1 H2].
  eapply wp_mono; [apply H2|]. cbn. intros b s2 w2. by apply rel_trans.
Qed.

Lemma keeps_modify f : (forall s, R s (f s) []) -> keeps R (modify f).
Proof using Type. intros Hf s. apply Hf. Qed.

Lemma keeps_emit a : (forall s, R s s [a]) -> keeps R (emit a).
Proof using Type. intros Hf s. apply Hf. Qed.

Lemma keeps_assert b : keeps R (assert_ b).
Proof using HR. destruct b; [apply keeps_ret|apply keeps_panic]. Qed.

Lemma keeps_unwrap {A : Type} (o : option A) : keeps R (unwrap o).
Proof using HR. destruct o; [apply keeps_ret|apply keeps_panic]. Qed.

Lemma keeps_when b m : (b = true -> keeps R m) -> keeps R (when b m).
Proof using HR. destruct b; cbn; [auto|intros _; apply keeps_ret]. Qed.

Lemma keeps_for_each {A : Type} (l : list A) (f : A -> M unit) :
  (forall x, keeps R (f x)) -> keeps R (for_each l f).
Proof using HR.
  intros Hf. induction l as [|x l IH]; cbn; [apply keeps_ret|].
  apply keeps_bind; [apply Hf|done].
Qed.
End keeps.

(** A step relation contained in another. *)
Lemma keeps_mono {A : Type} (R R' : Rel) (m : M A) :
  (forall s s' w, R s s' w -> R' s s' w) -> keeps R m -> keeps R' m.
Proof. intros HR Hm s. eapply wp_mono; [apply Hm|]. cbn. auto. Qed.

(** [keeps_walk] takes a handler apart down to its writes and its actions;
    [keeps] holds the handlers already proved. *)
Create HintDb keeps.
Ltac keeps_step :=
  match goal with
  | |- keeps _ _ => solve [auto 1 with keeps nocore]
  | |- keeps _ (mret _) => apply keeps_ret; apply _
  | |- keeps _ get => apply keeps_get; apply _
  | |- keeps _ panic => apply keeps_panic
  | |- keeps _ (assert_ _) => apply keeps_assert; apply _
  | |- keeps _ (unwrap _) => apply keeps_unwrap; apply _
  | |- keeps _ (mbind _ _) => apply keeps_bind; [apply _| |intros ?]
  | |- keeps _ (when _ _) => apply keeps_when; [apply _|intros ?]
  | |- keeps _ (for_each _ _) => apply keeps_for_each; [apply _|intros ?]
  | |- keeps _ (modify _) => apply keeps_modify; intros ?
  | |- keeps _ (emit _) => apply keeps_emit; intros ?
  | |- keeps _ (if ?b then _ else _) => destruct b eqn:?
  | |- keeps _ (match ?x with _ => _ end) => destruct x eqn:?
  | |- keeps _ (let _ := _ in _) => cbv zeta
  end.
Ltac keeps_walk := repeat keeps_step.

(** [wp_step] runs the next command of a handler at a known state. *)
Ltac wp_step :=
  match goal with
  | |- wp _ (mbind _ _) _ _ => apply wp_bind
  | |- wp _ (mret _) _ _ => apply wp_ret
  | |- wp _ get _ _ => apply wp_get
  | |- wp _ (modify _) _ _ => apply wp_modify
  | |- wp _ (emit _) _ _ => apply wp_emit
  | |- wp _ (assert_ _) _ _ => apply wp_assert; [intros ?|intros ?]
  | |- wp _ (unwrap _) _ _ => apply wp_unwrap; [intros ? ?|intros ?]
  | |- wp _ (when _ _) _ _ => apply wp_when; [intros ?|intros ?]
  | |- wp _ (if ?b then _ else _) _ _ => destruct b eqn:?
  | |- wp _ (match ?x with _ => _ end) _ _ => destruct x eqn:?
  end; cbv beta.

(** * What replication leaves alone

    [inert] is the step relation of the code that only moves the log, the
    per-peer records and the watermarks: it never touches an office, a vote, a
    term, a configuration or a timeout, and pushes no hard state, role change or
    vote message. *)

Definition inert_action (a : Action) : Prop :=
  match a with
  | Send m => is_vote_body (m_body m) = false
  | Persist _ | Apply _ | Truncate _ | Refuse _ => True
  | PersistHardState _ _ | RoleChanged _ _ _ => False
  end.

(** The fields of the state that decide an election. *)
Definition office_fields (s : Consensus) :=
  (self_id s, role s, hard s, leader s, cfg s, campaign s, votes s, since_heard s,
   election_timeout s, election_base s, lease s, rng s).

Definition inert (s s' : Consensus) (w : list Action) : Prop :=
  office_fields s' = office_fields s /\ Forall inert_action w.

#[export] Instance inert_StepRel : StepRel inert.
Proof.
  split; [by split|]. intros s1 s2 s3 w1 w2 [E1 F1] [E2 F2].
  split; [congruence|by apply Forall_app].
Qed.

(** Close the writes and the actions of an inert handler. *)
Ltac inert_done := repeat (split || constructor); done.
Ltac inert_walk := keeps_walk; inert_done.

Lemma update_self_inert f : keeps inert (update_self f).
Proof. unfold update_self. inert_walk. Qed.
#[export] Hint Resolve update_self_inert : keeps.

Lemma modify_progress_inert id f : keeps inert (modify (update_progress id f)).
Proof. inert_walk. Qed.
#[export] Hint Resolve modify_progress_inert : keeps.

Lemma ensure_log_inert : keeps inert ensure_log.
Proof. unfold ensure_log. inert_walk. Qed.
#[export] Hint Resolve ensure_log_inert : keeps.

Lemma tail_mut_inert : keeps inert tail_mut.
Proof. unfold tail_mut. inert_walk. Qed.
#[export] Hint Resolve tail_mut_inert : keeps.

Lemma put_tail_inert t : keeps inert (put_tail t).
Proof. unfold put_tail. inert_walk. Qed.
#[export] Hint Resolve put_tail_inert : keeps.

Lemma push_entry_inert e : keeps inert (push_entry e).
Proof. unfold push_entry. inert_walk. Qed.
#[export] Hint Resolve push_entry_inert : keeps.

Lemma set_agreed_inert r : keeps inert (set_agreed r).
Proof. unfold set_agreed. inert_walk. Qed.
#[export] Hint Resolve set_agreed_inert : keeps.

Lemma install_snapshot_tail_inert b d : keeps inert (install_snapshot_tail b d).
Proof. unfold install_snapshot_tail. inert_walk. Qed.
#[export] Hint Resolve install_snapshot_tail_inert : keeps.

Lemma append_own_entry_inert c : keeps inert (append_own_entry c).
Proof. unfold append_own_entry. inert_walk. Qed.
#[export] Hint Resolve append_own_entry_inert : keeps.

Lemma init_leader_progress_inert : keeps inert init_leader_progress.
Proof. unfold init_leader_progress. inert_walk. Qed.
#[export] Hint Resolve init_leader_progress_inert : keeps.

Lemma send_snapshot_chunk_to_inert peer : keeps inert (send_snapshot_chunk_to peer).
Proof. unfold send_snapshot_chunk_to. inert_walk. Qed.
#[export] Hint Resolve send_snapshot_chunk_to_inert : keeps.

Lemma send_append_to_inert peer : keeps inert (send_append_to peer).
Proof. unfold send_append_to. inert_walk. Qed.
#[export] Hint Resolve send_append_to_inert : keeps.

Lemma bcast_append_inert : keeps inert bcast_append.
Proof. unfold bcast_append. inert_walk. Qed.
#[export] Hint Resolve bcast_append_inert : keeps.

Lemma on_became_leader_inert : keeps inert on_became_leader.
Proof. unfold on_became_leader. inert_walk. Qed.
#[export] Hint Resolve on_became_leader_inert : keeps.

Lemma advance_apply_inert : keeps inert advance_apply.
Proof. unfold advance_apply. inert_walk. Qed.
#[export] Hint Resolve advance_apply_inert : keeps.

Lemma advance_commit_inert : keeps inert advance_commit.
Proof. unfold advance_commit, quorum_matched. inert_walk. Qed.
#[export] Hint Resolve advance_commit_inert : keeps.

Lemma observe_config_at_inert a : keeps inert (observe_config_at a).
Proof. unfold observe_config_at. inert_walk. Qed.
#[export] Hint Resolve observe_config_at_inert : keeps.

Lemma observe_quorum_watermark_inert r : keeps inert (observe_quorum_watermark r).
Proof. unfold observe_quorum_watermark. inert_walk. Qed.
#[export] Hint Resolve observe_quorum_watermark_inert : keeps.

Lemma truncate_conflict_inert r : keeps inert (truncate_conflict r).
Proof. unfold truncate_conflict. inert_walk. Qed.
#[export] Hint Resolve truncate_conflict_inert : keeps.

Lemma extend_log_inert from pr n fresh conflict newest lc :
  keeps inert (extend_log from pr n fresh conflict newest lc).
Proof. unfold extend_log. inert_walk. Qed.
#[export] Hint Resolve extend_log_inert : keeps.

Lemma on_append_resp_inert from ok m hint d : keeps inert (on_append_resp from ok m hint d).
Proof. unfold on_append_resp. inert_walk. Qed.
#[export] Hint Resolve on_append_resp_inert : keeps.

Lemma on_propose_inert c : keeps inert (on_propose c).
Proof. unfold on_propose. inert_walk. Qed.
#[export] Hint Resolve on_propose_inert : keeps.

Lemma on_install_snapshot_resp_inert from n : keeps inert (on_install_snapshot_resp from n).
Proof. unfold on_install_snapshot_resp. inert_walk. Qed.
#[export] Hint Resolve on_install_snapshot_resp_inert : keeps.

Lemma ack_snapshot_inert to n : keeps inert (ack_snapshot to n).
Proof. unfold ack_snapshot. inert_walk. Qed.
#[export] Hint Resolve ack_snapshot_inert : keeps.

Lemma refuse_snapshot_inert to : keeps inert (refuse_snapshot to).
Proof. unfold refuse_snapshot. inert_walk. Qed.
#[export] Hint Resolve refuse_snapshot_inert : keeps.

Lemma set_receiving_cursor_inert c : keeps inert (set_receiving_cursor c).
Proof. unfold set_receiving_cursor. inert_walk. Qed.
#[export] Hint Resolve set_receiving_cursor_inert : keeps.

Lemma hold_and_ack_inert from c : keeps inert (hold_and_ack from c).
Proof. unfold hold_and_ack. inert_walk. Qed.
#[export] Hint Resolve hold_and_ack_inert : keeps.
