(* ===== verification/Votes.v ===== *)
(** The discipline of the hard state. [legal me h w h'] runs through the
    actions of a step in the order the driver performs them: a hard state is
    replaced only by one of a later term, or by the first vote of the same
    term, and a granted vote is sent only while the hard state on disk is that
    very vote. Every step of the state machine is legal, so a node never votes
    twice in a term, whatever prefix of its actions a crash lets through. *)
From S2P Require Import Prelude Bytes Errors WalRecord Config Types Transport Digest LogTail.
From S2P Require Import Payload State Office Membership Replicate SnapshotProto Append Election.
From S2P Require Import Step Hoare.

(** A hard state may follow another on disk. At the ceiling of [u64] a term
    can no longer be raised, which is the last case. *)
Definition may_persist (h h' : HardState) : Prop :=
  (hard_term h < hard_term h' <= max_u64)%N
  \/ (hard_term h' = hard_term h /\ (voted_for h = None \/ voted_for h' = voted_for h))
  \/ (hard_term h = max_u64 /\ hard_term h' = max_u64).

(** What may be sent while [h] is on disk. *)
Definition vote_backed (me : NodeId) (h : HardState) (m : Message) : Prop :=
  m_body m = RequestVoteResp true ->
  m_from m = me /\ hard_term h = m_term m /\ voted_for h = Some (m_to m).

Inductive legal (me : NodeId) : HardState -> list Action -> HardState -> Prop :=
| legal_done h : legal me h [] h
| legal_persist h t v w h' :
    may_persist h (mkHard t v) -> legal me (mkHard t v) w h' ->
    legal me h (PersistHardState t v :: w) h'
| legal_send h m w h' :
    vote_backed me h m -> legal me h w h' -> legal me h (Send m :: w) h'
| legal_other h a w h' :
    (forall m, a <> Send m) -> (forall t v, a <> PersistHardState t v) ->
    legal me h w h' -> legal me h (a :: w) h'.

Lemma legal_app me h1 w1 h2 w2 h3 :
  legal me h1 w1 h2 -> legal me h2 w2 h3 -> legal me h1 (w1 ++ w2) h3.
Proof. induction 1; cbn; intros H3; [done|econstructor; eauto..]. Qed.

Lemma legal_inert me h w : Forall inert_action w -> legal me h w h.
Proof.
  induction 1 as [|a w Ha _ IH]; [constructor|].
  destruct a; cbn in Ha; try done; [|by apply legal_other..].
  constructor; [|done]. intros Hb. by rewrite Hb in Ha.
Qed.

Lemma legal_term me h w h' : legal me h w h' -> (hard_term h <= hard_term h')%N.
Proof.
  induction 1 as [|h t v w h' Hp _ IH| |]; [lia| |done..].
  cbn in IH. destruct Hp as [H|[[H _]|[H1 H2]]]; cbn in *; lia.
Qed.

Definition legalR (s s' : Consensus) (w : list Action) : Prop :=
  self_id s' = self_id s /\ legal (self_id s) (hard s) w (hard s').

#[export] Instance legalR_StepRel : StepRel legalR.
Proof.
  split; [split; [done|constructor]|].
  intros s1 s2 s3 w1 w2 [E1 L1] [E2 L2]. split; [congruence|].
  rewrite E1 in L2. by eapply legal_app.
Qed.

Lemma inert_legalR s s' w : inert s s' w -> legalR s s' w.
Proof.
  intros [E F]. unfold office_fields in E. simplify_eq. split; [done|].
  match goal with H : hard s' = hard s |- _ => rewrite H end. by apply legal_inert.
Qed.

Lemma keeps_inert_legal {A : Type} (m : M A) : keeps inert m -> keeps legalR m.
Proof. apply keeps_mono, inert_legalR. Qed.

(** * Stepping down *)

(** The state a step-down leaves and the actions it pushes. *)
Definition stepped_down (term : Term) (ldr : option NodeId) (s : Consensus) : Consensus :=
  to_follower ldr (if (term_of s =? term)%N then s else s <| hard := mkHard term None |>).

Definition step_down_actions (term : Term) (ldr : option NodeId) (s : Consensus) : list Action :=
  (if (term_of s =? term)%N then [] else [PersistHardState term None])
  ++ (if negb (bool_decide (role s = Follower)) || negb (term_of s =? term)%N
         || negb (bool_decide (leader s = ldr))
      then [RoleChanged Follower term ldr] else []).

Lemma become_follower_run term ldr s :
  become_follower term ldr s = Some (tt, stepped_down term ldr s, step_down_actions term ldr s).
Proof.
  unfold become_follower, stepped_down, step_down_actions.
  cbv [mbind m_bind get modify emit when mret m_ret].
  destruct (term_of s =? term)%N eqn:E; cbn [negb orb app]; rewrite ?orb_true_r; [|done].
  by destruct (_ || _).
Qed.

Lemma wp_become_follower p term ldr (Q : unit -> Consensus -> list Action -> Prop) s :
  Q tt (stepped_down term ldr s) (step_down_actions term ldr s) ->
  wp p (become_follower term ldr) Q s.
Proof. unfold wp. by rewrite become_follower_run. Qed.

(** A list of actions without a send or a hard state. *)
Lemma legal_others me h w :
  Forall (fun a => (forall m, a <> Send m) /\ (forall t v, a <> PersistHardState t v)) w ->
  legal me h w h.
Proof. induction 1 as [|a w [H1 H2] _ IH]; [constructor|by apply legal_other]. Qed.

Lemma step_down_legal term ldr s :
  (term_of s <= term <= N.max (term_of s) max_u64)%N -> legalR s (stepped_down term ldr s) (step_down_actions term ldr s).
Proof.
  intros Ht. unfold stepped_down, step_down_actions, term_of in *.
  destruct (N.eqb_spec (hard_term (hard s)) term) as [<-|Hne]; (split; [done|]); cbn [app].
  - apply legal_others. case_match; repeat constructor; done.
  - constructor; [left; cbn; lia|]. apply legal_others. case_match; repeat constructor; done.
Qed.

Lemma become_follower_legal term ldr s :
  (term_of s <= term <= N.max (term_of s) max_u64)%N -> keeps_at legalR (become_follower term ldr) s.
Proof. intros Ht. apply wp_become_follower. by apply step_down_legal. Qed.

(** * The handlers *)

Ltac legal_inert := apply keeps_inert_legal; inert_walk.

Lemma apply_config_legal c : keeps legalR (apply_config c).
Proof.
  unfold apply_config. apply keeps_bind; [apply _|by apply keeps_modify; split; [|constructor]|intros _].
  apply keeps_read. intros s. apply wp_when; [intros _|intros _; apply rel_refl].
  do 2 (apply wp_bind, wp_modify; cbv zeta). 
  apply wp_when; [intros _|intros _; by split; [|constructor]].
  apply wp_become_follower. cbn [app].
  match goal with |- legalR s (stepped_down _ _ ?s2) _ => apply (rel_trans s s2 _ [] _) end.
  - by split; [|constructor].
  - apply step_down_legal. unfold term_of. cbn. lia.
Qed.

Lemma latch_damaged_legal w : keeps legalR (latch_damaged w).
Proof.
  unfold latch_damaged. apply keeps_read. intros s.
  apply wp_bind, wp_become_follower. apply wp_bind, wp_modify, wp_ret.
  rewrite !app_nil_r. apply (step_down_legal (term_of s) None s). lia.
Qed.
#[export] Hint Resolve apply_config_legal latch_damaged_legal : keeps.

(** Close a handler whose parts are legal or inert. *)
Ltac legal_walk :=
  repeat first [solve [apply keeps_inert_legal; auto 1 with keeps nocore] | keeps_step];
  try (split; [done|]; by repeat constructor).

Lemma note_config_in_log_legal c : keeps legalR (note_config_in_log c).
Proof. unfold note_config_in_log. legal_walk. Qed.
#[export] Hint Resolve note_config_in_log_legal : keeps.

Lemma finish_install_legal : keeps legalR finish_install.
Proof. unfold finish_install. legal_walk. Qed.
#[export] Hint Resolve finish_install_legal : keeps.

Lemma on_persisted_legal t r : keeps legalR (on_persisted t r).
Proof. unfold on_persisted. legal_walk. Qed.
#[export] Hint Resolve on_persisted_legal : keeps.

Lemma draw_timeout_legal : keeps legalR draw_timeout.
Proof.
  unfold draw_timeout. apply keeps_bind; [apply _|legal_walk|intros s].
  destruct (next_u32 (rng s)). legal_walk.
Qed.
#[export] Hint Resolve draw_timeout_legal : keeps.

Lemma become_leader_legal : keeps legalR become_leader.
Proof. unfold become_leader. legal_walk. Qed.
#[export] Hint Resolve become_leader_legal : keeps.

(** Raising the term and voting for oneself: the state changes first and is
    persisted by the first action pushed. *)
Lemma may_raise h v : (hard_term h <= max_u64)%N -> may_persist h (mkHard (sadd64 (hard_term h) 1) v).
Proof.
  intros Hmax. unfold may_persist, sadd64. cbn.
  destruct (N.le_gt_cases (hard_term h + 1) max_u64); [left; lia|]. right. right. lia.
Qed.

Lemma draw_timeout_run s :
  draw_timeout s =
    let base := N.max (election_base s) 1 in
    Some ((base + (next_u32 (rng s)).1 mod base)%N, s <| rng := (next_u32 (rng s)).2 |>, []).
Proof. unfold draw_timeout. cbv [mbind m_bind get]. by destruct (next_u32 (rng s)). Qed.

(** The state after a timeout is drawn: the generator has moved on and the
    timeout lies in [[base, 2 * base)]. *)
Definition redrawn (t r : N) (s : Consensus) : Consensus :=
  s <| rng := r |> <| election_timeout := t |>.

Lemma wp_redraw_timeout p (Q : unit -> Consensus -> list Action -> Prop) s :
  (forall t r, (N.max (election_base s) 1 <= t < 2 * N.max (election_base s) 1)%N ->
     r = (next_u32 (rng s)).2 -> Q tt (redrawn t r s) []) ->
  wp p redraw_timeout Q s.
Proof.
  intros H. unfold redraw_timeout. apply wp_bind. unfold wp at 1. rewrite draw_timeout_run. cbv zeta.
  apply wp_modify. apply H; [|done].
  assert (N.max (election_base s) 1 <> 0)%N as Hb by lia.
  pose proof (N.mod_upper_bound (next_u32 (rng s)).1 _ Hb) as Hm. revert Hm.
  generalize ((next_u32 (rng s)).1 mod N.max (election_base s) 1)%N. lia.
Qed.

(** The sends of a campaign carry no answer. *)
Lemma campaign_sends_legal l (f : NodeId -> Message) :
  (forall n, is_request (m_body (f n)) = true) ->
  keeps legalR (for_each l (fun to => emit (Send (f to)))).
Proof.
  intros Hf. apply keeps_for_each; [apply _|]. intros n. apply keeps_emit. intros s.
  split; [done|]. constructor; [|constructor]. intros Hb. specialize (Hf n). by rewrite Hb in Hf.
Qed.


Lemma to_candidate_legal s t r :
  (term_of s <= max_u64)%N ->
  let s2 := redrawn t r (to_candidate s) in
  legalR s s2 [PersistHardState (term_of s2) (Some (self_id s2)); RoleChanged Candidate (term_of s2) None].
Proof.
  intros Hmax. split; [done|]. constructor; [by apply may_raise|].
  apply legal_others. by repeat constructor.
Qed.

Lemma to_precandidate_legal s t r :
  let s2 := redrawn t r (to_precandidate s) in
  legalR s s2 [RoleChanged PreCandidate (term_of s2) None].
Proof. split; [done|]. apply legal_others. by repeat constructor. Qed.

Lemma become_candidate_legal s :
  (term_of s <= max_u64)%N -> keeps_at legalR become_candidate s.
Proof.
  intros Hmax. unfold become_candidate, keeps_at.
  apply wp_bind, wp_modify. apply wp_bind, wp_redraw_timeout. intros t r _ _.
  apply wp_bind, wp_get. apply wp_bind, wp_emit. apply wp_bind, wp_emit.
  pose proof (to_candidate_legal s t r Hmax) as Hs. cbv zeta in Hs.
  destruct (campaign_has_quorum _).
  - eapply wp_mono; [apply become_leader_legal|]. intros [] s3 w3 H3. exact (rel_trans _ _ _ _ _ Hs H3).
  - eapply wp_mono; [by apply campaign_sends_legal|]. intros [] s3 w3 H3. exact (rel_trans _ _ _ _ _ Hs H3).
Qed.

Lemma start_precampaign_legal s :
  (term_of s <= max_u64)%N -> keeps_at legalR start_precampaign s.
Proof.
  intros Hmax. unfold start_precampaign, keeps_at.
  apply wp_bind, wp_modify. apply wp_bind, wp_redraw_timeout. intros t r _ _.
  apply wp_bind, wp_get. apply wp_bind, wp_emit.
  pose proof (to_precandidate_legal s t r) as Hs. cbv zeta in Hs.
  destruct (campaign_has_quorum _).
  - eapply wp_mono; [apply become_candidate_legal; exact Hmax|]. intros [] s3 w3 H3. exact (rel_trans _ _ _ _ _ Hs H3).
  - eapply wp_mono; [by apply campaign_sends_legal|]. intros [] s3 w3 H3. exact (rel_trans _ _ _ _ _ Hs H3).
Qed.

(** A handler run at a state reached by a legal write. *)
Lemma keeps_at_after {A : Type} (m : M A) f s :
  legalR s (f s) [] -> keeps_at legalR m (f s) -> keeps_at legalR (_ ← modify f; m) s.
Proof.
  intros Hf Hm. apply keeps_at_bind; [apply _|]. apply wp_modify. by split.
Qed.

Lemma redraw_timeout_legal : keeps legalR redraw_timeout.
Proof. unfold redraw_timeout. legal_walk. Qed.
#[export] Hint Resolve redraw_timeout_legal : keeps.

Lemma step_down_here_legal ldr s : keeps_at legalR (become_follower (term_of s) ldr) s.
Proof. apply become_follower_legal. lia. Qed.

Lemma voter_tick_legal s : (term_of s <= max_u64)%N -> keeps_at legalR voter_tick s.
Proof.
  intros Hmax. unfold voter_tick. apply keeps_at_after; [by split; [|constructor]|].
  apply keeps_at_bind; [apply _|]. apply wp_get. split; [apply rel_refl|].
  destruct (_ <? _)%N; [apply keeps_ret; apply _|].
  destruct (may_campaign _); [by apply start_precampaign_legal|].
  apply keeps_at_bind; [apply _|]. apply wp_when; [intros _|intros _].
  - eapply wp_mono; [apply step_down_here_legal|]. cbn. intros [] s1 w1 H1. split; [done|].
    revert s1 H1. assert (keeps legalR (_ ← modify (fun s => s <| since_heard := 0%N |>); redraw_timeout)) as Hk
      by legal_walk. intros s1 _. apply Hk.
  - split; [apply rel_refl|].
    assert (keeps legalR (_ ← modify (fun s => s <| since_heard := 0%N |>); redraw_timeout)) as Hk
      by legal_walk. apply Hk.
Qed.

Lemma leader_tick_legal : keeps legalR leader_tick.
Proof.
  unfold leader_tick. apply keeps_read. intros s.
  destruct (negb _); [apply step_down_here_legal|].
  assert (keeps legalR (for_each (peer_ids s) (fun id => modify (fun s => age_peer s id)))) as Ha.
  { apply keeps_for_each; [apply _|]. intros id. apply keeps_modify. intros s1. unfold age_peer.
    case_match; by split; [|constructor]. }
  revert s Ha. intros s Ha. apply keeps_at_bind; [apply _|].
  eapply wp_mono; [apply Ha|]. cbn. intros [] s1 w1 H1. split; [done|].
  apply keeps_at_after; [by split; [|constructor]|].
  apply keeps_at_bind; [apply _|]. apply wp_get. split; [apply rel_refl|].
  destruct (_ <=? _)%N; [apply step_down_here_legal|].
  match goal with |- keeps_at _ ?m ?s2 => assert (keeps legalR m) as Hk by legal_walk; apply Hk end.
Qed.

Lemma on_tick_legal s : (term_of s <= max_u64)%N -> keeps_at legalR on_tick s.
Proof.
  intros Hmax. unfold on_tick. apply keeps_at_bind; [apply _|]. apply wp_get.
  split; [apply rel_refl|]. destruct (role s); try by apply voter_tick_legal.
  apply leader_tick_legal.
Qed.

Lemma on_vote_msg_legal m s :
  (term_of s <= max_u64)%N -> keeps_at legalR (on_vote_msg m) s.
Proof.
  intros Hmax. unfold on_vote_msg. destruct (m_body m); try by apply keeps_panic.
  - unfold on_pre_vote. apply keeps_at_bind; [apply _|]. apply wp_get. split; [apply rel_refl|].
    apply wp_emit. split; [done|]. constructor; [done|constructor].
  - unfold on_pre_vote_resp. apply keeps_at_bind; [apply _|]. apply wp_get. split; [apply rel_refl|].
    do 4 (destruct (negb _); [apply keeps_ret; apply _|]).
    apply keeps_at_after; [by split; [|constructor]|].
    apply keeps_at_bind; [apply _|]. apply wp_get. split; [apply rel_refl|].
    apply wp_when; [intros _; by apply become_candidate_legal|intros _; apply rel_refl].
  - unfold on_request_vote. apply keeps_at_bind; [apply _|]. apply wp_get. split; [apply rel_refl|].
    cbv zeta. destruct (match voted_for (hard s) with None => true | Some v => (v =? m_from m)%N end
      && negb (leader_is_live s) && log_is_at_least_as_complete s last_term last_round) eqn:Hg.
    + cbn [when]. unfold keeps_at. repeat apply wp_bind. apply wp_modify. apply wp_emit. apply wp_emit.
      split; [done|]. constructor.
      * right. left. split; [done|]. cbn. destruct (voted_for (hard s)) as [v|]; [|by left].
        cbn in Hg. apply andb_prop in Hg as [Hg _]. apply andb_prop in Hg as [Hg%N.eqb_eq _]. subst. by right.
      * constructor; [done|constructor].
    + cbn [when]. unfold keeps_at. repeat apply wp_bind. apply wp_ret. apply wp_emit.
      split; [done|]. constructor; [done|constructor].
  - unfold on_request_vote_resp. apply keeps_at_bind; [apply _|]. apply wp_get. split; [apply rel_refl|].
    do 4 (destruct (negb _); [apply keeps_ret; apply _|]).
    apply keeps_at_after; [by split; [|constructor]|].
    apply keeps_at_bind; [apply _|]. apply wp_get. split; [apply rel_refl|].
    apply wp_when; [intros _; by apply become_leader_legal|intros _; apply rel_refl].
Qed.

Lemma adopt_leader_legal from term s :
  (term_of s <= term <= max_u64)%N -> keeps_at legalR (adopt_leader from term) s.
Proof.
  intros Ht. unfold adopt_leader. apply keeps_at_bind; [apply _|]. apply wp_get. split; [apply rel_refl|].
  apply keeps_at_bind; [apply _|].
  assert (keeps legalR (when (negb (bool_decide (leader s = Some from))) (set_agreed 0))) as Hk by legal_walk.
  destruct (_ || _).
  - eapply wp_mono; [apply become_follower_legal; lia|]. cbn. intros [] s1 w1 H1. split; [done|apply Hk].
  - apply wp_modify. split; [by split; [|constructor]|apply Hk].
Qed.

(** A handler that adopts the sender as leader and is inert after that. *)
Lemma after_adoption {A : Type} from term (k : Consensus -> M A) s :
  (term_of s <= term <= max_u64)%N -> (forall s', keeps inert (k s')) ->
  keeps_at legalR (_ ← adopt_leader from term; s' ← get; k s') s.
Proof.
  intros Ht Hk. apply keeps_at_bind; [apply _|].
  eapply wp_mono; [by apply adopt_leader_legal|]. cbn. intros [] s1 w1 H1. split; [done|].
  apply keeps_at_bind; [apply _|]. apply wp_get. split; [apply rel_refl|].
  apply keeps_inert_legal, Hk.
Qed.

Lemma on_append_legal from term pr pt es lc s :
  (term_of s <= term <= max_u64)%N -> keeps_at legalR (on_append from term pr pt es lc) s.
Proof.
  intros Ht. unfold on_append. apply keeps_at_bind; [apply _|]. apply wp_get. split; [apply rel_refl|].
  destruct (malformed _ _ _ _).
  - apply wp_emit. split; [done|]. constructor; [done|constructor].
  - apply after_adoption; [done|]. intros s'. inert_walk.
Qed.

Lemma pick_cursor_inert from meta offset data held answer :
  pick_cursor from meta offset data held = inl answer -> keeps inert answer.
Proof.
  unfold pick_cursor. intros H. repeat case_match; simplify_eq; auto with keeps.
Qed.

Lemma on_install_snapshot_legal from term meta offset data done_ s :
  (term_of s <= term <= max_u64)%N -> keeps_at legalR (on_install_snapshot from term meta offset data done_) s.
Proof.
  intros Ht. unfold on_install_snapshot. apply keeps_at_bind; [apply _|]. apply wp_get.
  split; [apply rel_refl|].
  destruct (validate meta); [|apply keeps_inert_legal; auto with keeps].
  destruct (_ && _); [apply keeps_inert_legal; auto with keeps|].
  apply after_adoption; [done|]. intros s'.
  repeat (case_match; [solve [auto with keeps]|]).
  destruct (pick_cursor _ _ _ _ _) as [answer|cur] eqn:Hp; [by eapply pick_cursor_inert|].
  inert_walk.
Qed.

Lemma on_append_msg_legal m s :
  (term_of s <= m_term m <= max_u64)%N -> keeps_at legalR (on_append_msg m) s.
Proof.
  intros Ht. unfold on_append_msg. apply keeps_at_bind; [apply _|].
  eapply wp_mono; [apply ensure_log_inert|]. cbn. intros [] s1 w1 [E F].
  split; [by apply inert_legalR; split|].
  assert (term_of s1 <= m_term m <= max_u64)%N as Ht1.
  { assert (hard s1 = hard s) as Eh by (unfold office_fields in E; congruence).
    unfold term_of in *. by rewrite Eh. }
  destruct (m_body m); try by apply keeps_panic.
  - by apply on_append_legal.
  - apply keeps_inert_legal; auto with keeps.
  - by apply on_install_snapshot_legal.
  - apply keeps_inert_legal; auto with keeps.
Qed.

Lemma stale_refusal_not_grant b b' : stale_refusal b = Some b' -> b' <> RequestVoteResp true.
Proof. destruct b; cbn; intros [= <-]; done. Qed.

Lemma on_message_legal m s : (term_of s <= max_u64)%N -> (m_term m <= max_u64)%N ->
  keeps_at legalR (on_message m) s.
Proof.
  intros Hs Hm. unfold on_message. apply keeps_at_bind; [apply _|]. apply wp_get. split; [apply rel_refl|].
  destruct (N.ltb_spec (m_term m) (term_of s)) as [|Hge].
  { apply wp_when; [intros _|intros _; apply rel_refl]. apply wp_bind.
    apply wp_unwrap; [|done]. intros b Hb. apply wp_emit. split; [done|].
    constructor; [|constructor]. intros E. by apply stale_refusal_not_grant in Hb. }
  apply keeps_at_bind; [apply _|].
  assert (forall s1, (term_of s1 <= max_u64)%N -> (is_vote_body (m_body m) = false -> (term_of s1 <= m_term m)%N) ->
    keeps_at legalR (if is_vote_body (m_body m) then on_vote_msg m else on_append_msg m) s1) as Hk.
  { intros s1 H1 H2. destruct (is_vote_body (m_body m)); [by apply on_vote_msg_legal|].
    apply on_append_msg_legal; split; auto. }
  apply wp_when; intros Hb.
  - apply wp_become_follower. split; [apply step_down_legal; lia|]. apply Hk.
    + unfold stepped_down. destruct (N.eqb_spec (term_of s) (m_term m)); cbn; [done|]. done.
    + intros _. unfold stepped_down. destruct (N.eqb_spec (term_of s) (m_term m)) as [<-|]; cbn; done.
  - split; [apply rel_refl|]. apply Hk; [done|]. intros _. done.
Qed.

(** An event whose message carries a [u64] term. *)
Definition event_ok (ev : Event) : Prop :=
  match ev with Recv m => u64_ok (m_term m) | _ => True end.

Lemma dispatch_legal s ev :
  (term_of s <= max_u64)%N -> event_ok ev -> keeps_at legalR (dispatch ev) s.
Proof.
  intros Hs He. destruct ev; cbn [dispatch].
  - by apply on_tick_legal.
  - by apply on_message_legal.
  - apply on_persisted_legal.
  - apply keeps_inert_legal; auto with keeps.
Qed.

Lemma step_dispatch s ev s' w :
  step s ev = Some (s', w) -> dispatch ev s = Some (tt, s', w).
Proof. unfold step. destruct (dispatch ev s) as [[[[] s1] w1]|]; [by intros [= -> ->]|done]. Qed.

Lemma step_legalR s ev s' w :
  (term_of s <= max_u64)%N -> event_ok ev -> step s ev = Some (s', w) -> legalR s s' w.
Proof.
  intros Hs He H. apply step_dispatch in H.
  exact (wp_run (dispatch ev) _ s tt s' w (dispatch_legal s ev Hs He) H).
Qed.

(** * What the discipline gives *)

Lemma legal_prefix me h w1 w2 h' :
  legal me h (w1 ++ w2) h' -> exists h1, legal me h w1 h1 /\ legal me h1 w2 h'.
Proof.
  revert h. induction w1 as [|a w1 IH]; intros h H; [by exists h; split; [constructor|]|].
  cbn in H. inversion H; subst;
    match goal with HL : legal me _ (w1 ++ w2) _ |- _ => apply IH in HL as (h1 & L1 & L2) end;
    exists h1; (split; [|done]); by econstructor.
Qed.

(** A vote found in the actions was free, or already this one, at their start. *)
Lemma legal_vote_from me h w h' t a :
  legal me h w h' -> PersistHardState t (Some a) ∈ w -> (t < max_u64)%N ->
  (hard_term h <= t)%N /\ (hard_term h = t -> voted_for h = None \/ voted_for h = Some a).
Proof.
  intros Hl Hin Ht. induction Hl as [h|h t' v w h' Hp _ IH|h m w h' _ _ IH|h b w h' Hs Hh _ IH].
  - by apply elem_of_nil in Hin.
  - apply elem_of_cons in Hin as [[= <- <-]|Hin].
    + destruct Hp as [Hp|[[Hp Hv]|[Hp1 Hp2]]]; cbn in *; [lia| |lia].
      split; [lia|]. intros _. destruct Hv as [Hv|Hv]; rewrite Hv in *; auto.
    + destruct (IH Hin) as [H1 H2]; cbn in *.
      destruct Hp as [Hp|[[Hp Hv]|[Hp1 Hp2]]]; cbn in *; [lia| |lia].
      split; [lia|]. intros E. destruct Hv as [Hv|Hv]; [by left|]. rewrite <- Hv. apply H2. lia.
  - apply elem_of_cons in Hin as [[=]|Hin]. auto.
  - apply elem_of_cons in Hin as [<-|Hin]; [|auto]. by destruct (Hh t (Some a)).
Qed.

Lemma legal_one_vote me h w h' t a b :
  legal me h w h' -> (t < max_u64)%N ->
  PersistHardState t (Some a) ∈ w -> PersistHardState t (Some b) ∈ w -> a = b.
Proof.
  intros Hl Ht Ha Hb. induction Hl as [h|h t' v w h' Hp Hl IH|h m w h' _ _ IH|h c w h' Hs Hh _ IH].
  - by apply elem_of_nil in Ha.
  - apply elem_of_cons in Ha as [[= E1 E2]|Ha]; apply elem_of_cons in Hb as [[= E3 E4]|Hb]; subst; auto.
    + by simplify_eq.
    + destruct (legal_vote_from _ _ _ _ _ _ Hl Hb Ht) as [_ H]. cbn in H.
      destruct H as [H|H]; by simplify_eq.
    + destruct (legal_vote_from _ _ _ _ _ _ Hl Ha Ht) as [_ H]. cbn in H.
      destruct H as [H|H]; by simplify_eq.
  - apply elem_of_cons in Ha as [[=]|Ha]. apply elem_of_cons in Hb as [[=]|Hb]. auto.
  - apply elem_of_cons in Ha as [<-|Ha]; [by destruct (Hh t (Some a))|].
    apply elem_of_cons in Hb as [<-|Hb]; [by destruct (Hh t (Some b))|]. auto.
Qed.

Lemma legal_bound me h w h' :
  legal me h w h' -> (hard_term h <= max_u64)%N -> (hard_term h' <= max_u64)%N.
Proof.
  induction 1 as [|h t v w h' Hp _ IH| |]; try done. intros Hh. apply IH.
  destruct Hp as [H|[[H _]|[H1 H2]]]; cbn in *; lia.
Qed.

Lemma run_legalR s evs s' w :
  (term_of s <= max_u64)%N -> Forall event_ok evs -> run s evs = Some (s', w) -> legalR s s' w.
Proof.
  intros Hs He. revert s w Hs. induction He as [|ev evs Hev _ IH]; intros s w Hs H; cbn in H.
  { injection H as <- <-. apply rel_refl. }
  destruct (step s ev) as [[s1 w1]|] eqn:E1; [|done].
  destruct (run s1 evs) as [[s2 w2]|] eqn:E2; [|done]. injection H as <- <-.
  apply step_legalR in E1; [|done..]. eapply rel_trans; [exact E1|].
  apply IH; [|done]. destruct E1 as [_ L]. by apply legal_bound in L.
Qed.

(** * The claims *)


(** C5: along any sequence of events, a node asks for at most one vote per term
    to be made durable (terms below the [u64] ceiling, where [saturating_add]
    stops raising them). *)
Theorem one_vote_per_term s evs s' w t a b :
  u64_ok (term_of s) -> Forall event_ok evs -> run s evs = Some (s', w) -> (t < max_u64)%N ->
  PersistHardState t (Some a) ∈ w -> PersistHardState t (Some b) ∈ w -> a = b.
Proof.
  intros Hs He H Ht. destruct (run_legalR s evs s' w) as [_ L]; [done..|].
  by apply (legal_one_vote _ _ _ _ _ _ _ L).
Qed.

(** A node's term never decreases. *)
Theorem term_monotone s ev s' w :
  u64_ok (term_of s) -> event_ok ev -> step s ev = Some (s', w) ->
  (term_of s <= term_of s' <= max_u64)%N.
Proof.
  intros Hs He H. destruct (step_legalR s ev s' w) as [_ L]; [done..|].
  split; [by apply legal_term in L|by apply legal_bound in L].
Qed.


Lemma one_vote_per_term_witness :
  run (fresh 2) [ballot; ballot] = Some (voter2, [PersistHardState 1 None; RoleChanged Follower 1 None;
    PersistHardState 1 (Some 1%N); Send (mkMessage 2 1 1 (RequestVoteResp true));
    PersistHardState 1 (Some 1%N); Send (mkMessage 2 1 1 (RequestVoteResp true))])
  /\ forall b, PersistHardState 1 (Some b) ∈ [PersistHardState 1 None; RoleChanged Follower 1 None;
    PersistHardState 1 (Some 1%N); Send (mkMessage 2 1 1 (RequestVoteResp true));
    PersistHardState 1 (Some 1%N); Send (mkMessage 2 1 1 (RequestVoteResp true))] -> 1%N = b.
Proof.
  split; [by vm_compute|]. intros b Hb.
  apply (one_vote_per_term (fresh 2) [ballot; ballot] voter2 [PersistHardState 1 None; RoleChanged Follower 1 None;
    PersistHardState 1 (Some 1%N); Send (mkMessage 2 1 1 (RequestVoteResp true));
    PersistHardState 1 (Some 1%N); Send (mkMessage 2 1 1 (RequestVoteResp true))] 1);
    [by vm_compute|repeat constructor; by vm_compute|by vm_compute|by vm_compute| |done].
  do 2 right. left.
Defined.

Lemma term_monotone_witness :
  term_of (fresh 2) = 0%N /\ term_of voter2 = 1%N /\ (term_of (fresh 2) <= term_of voter2 <= max_u64)%N.
Proof.
  split; [by vm_compute|]. split; [by vm_compute|].
  apply (term_monotone (fresh 2) ballot voter2 [PersistHardState 1 None; RoleChanged Follower 1 None;
    PersistHardState 1 (Some 1%N); Send (mkMessage 2 1 1 (RequestVoteResp true))]); by vm_compute.
Defined.
