(* ===== verification/Quorums.v ===== *)
(** The leader's two quorum computations, against counting: the round a
    majority holds, which it commits, and the silence of a majority, on which
    it steps down ([src/src/consensus/replicate.rs] and [election.rs]). *)
From S2P Require Import Prelude Bytes Errors WalRecord Config Types Transport Digest LogTail.
From S2P Require Import Payload State Office Membership Replicate SnapshotProto Append Election Step.
From S2P Require Import Step Hoare Votes.

(** * The k-th element of a sorted list, by counting *)

Section nth_count.
Context (R : N -> N -> Prop) (HR : PreOrder R).
Context (P : N -> Prop) `{!forall x, Decision (P x)}.

Lemma sorted_nth_count l i m :
  (forall x, P x <-> R x m) -> StronglySorted R l -> l !! i = Some m -> i < length (filter P l).
Proof using HR.
  intros HP Hs. revert i. induction Hs as [|a l Hs IH Ha]; intros i Hi; [done|]. rewrite filter_cons.
  destruct i as [|i]; cbn in Hi.
  - injection Hi as ->. rewrite decide_True by (apply HP; reflexivity). cbn. lia.
  - specialize (IH i Hi). rewrite decide_True; [cbn; lia|]. rewrite Forall_forall in Ha.
    apply HP, Ha, list_elem_of_lookup. eauto.
Qed.

Lemma sorted_nth_below l i m :
  (forall x, R m x -> ~ P x) -> StronglySorted R l -> l !! i = Some m -> length (filter P l) <= i.
Proof using HR.
  intros HP Hs. revert i. induction Hs as [|a l Hs IH Ha]; intros i Hi; [done|]. rewrite filter_cons.
  destruct i as [|i]; cbn in Hi.
  - injection Hi as ->. rewrite decide_False by (apply HP; reflexivity).
    assert (filter P l = []) as ->; [|done].
    clear -Ha HP. induction Ha as [|x l Hx _ IHl]; [done|]. rewrite filter_cons, decide_False; auto.
  - specialize (IH i Hi). case_decide; cbn; lia.
Qed.
End nth_count.

Lemma StronglySorted_rev (R : N -> N -> Prop) l : StronglySorted R l -> StronglySorted (flip R) (rev l).
Proof.
  induction 1 as [|a l _ IH Ha]; [constructor|]. cbn.
  clear -IH Ha. assert (Forall (fun x => flip R x a) (rev l)) as Hr.
  { rewrite Forall_forall in *. intros x Hx. apply Ha. by rewrite (Permutation_rev l). }
  clear Ha. induction IH as [|b l' Hs IH' Hb]; cbn; [repeat constructor|].
  apply Forall_cons in Hr as [Hba Hr]. constructor; [by apply IH'|].
  apply Forall_app. split; [done|]. by repeat constructor.
Qed.

(** Counting over a list, its image and a permutation of it. *)
Lemma length_filter_map {A : Type} (f : A -> N) (P : N -> Prop) `{!forall x, Decision (P x)} l :
  length (filter P (map f l)) = length (filter (fun x => P (f x)) l).
Proof.
  induction l as [|x l IH]; [done|]. cbn [map]. rewrite !filter_cons.
  destruct (decide (P (f x))); cbn; by rewrite IH.
Qed.

Lemma length_filter_perm (P : N -> Prop) `{!forall x, Decision (P x)} (l l' : list N) :
  l ≡ₚ l' -> length (filter P l) = length (filter P l').
Proof. intros Hp. by rewrite Hp. Qed.

(** The [k]-th smallest value, and the [k]-th largest. *)
Lemma kth_smallest {A : Type} (f : A -> N) (l : list A) k m :
  merge_sort N.le (map f l) !! k = Some m ->
  k < length (filter (fun x => (f x <= m)%N) l)
  /\ forall m', (m' < m)%N -> length (filter (fun x => (f x <= m')%N) l) <= k.
Proof.
  intros Hk. pose proof (StronglySorted_merge_sort N.le (map f l)) as Hs.
  assert (PreOrder N.le) as HR by (split; [intros ?; lia|intros ???; lia]).
  pose proof (merge_sort_Permutation N.le (map f l)) as Hp. split.
  - pose proof (length_filter_map f (fun x => x <= m)%N l) as E. cbv beta in E.
    rewrite <- E, <- (length_filter_perm _ _ _ Hp).
    by apply (sorted_nth_count N.le HR _ _ _ m).
  - intros m' Hm. pose proof (length_filter_map f (fun x => x <= m')%N l) as E. cbv beta in E.
    rewrite <- E, <- (length_filter_perm _ _ _ Hp).
    apply (sorted_nth_below N.le HR _ _ _ m); [intros x; lia|done|done].
Qed.

Lemma kth_largest {A : Type} (f : A -> N) (l : list A) k m :
  rev (merge_sort N.le (map f l)) !! k = Some m ->
  k < length (filter (fun x => (m <= f x)%N) l)
  /\ forall m', (m < m')%N -> length (filter (fun x => (m' <= f x)%N) l) <= k.
Proof.
  intros Hk. pose proof (StronglySorted_rev _ _ (StronglySorted_merge_sort N.le (map f l))) as Hs.
  assert (PreOrder (flip N.le)) as HR by (split; [intros ?; unfold flip; lia|intros ???; unfold flip; lia]).
  assert (rev (merge_sort N.le (map f l)) ≡ₚ map f l) as Hp.
  { rewrite <- Permutation_rev. apply merge_sort_Permutation. }
  split.
  - pose proof (length_filter_map f (fun x => m <= x)%N l) as E. cbv beta in E.
    rewrite <- E, <- (length_filter_perm _ _ _ Hp).
    by apply (sorted_nth_count (flip N.le) HR _ _ _ m).
  - intros m' Hm. pose proof (length_filter_map f (fun x => m' <= x)%N l) as E. cbv beta in E.
    rewrite <- E, <- (length_filter_perm _ _ _ Hp).
    apply (sorted_nth_below (flip N.le) HR _ _ _ m); [unfold flip; intros x; lia|done|done].
Qed.

(** The voters that hold a round, as the leader counts them. *)
Definition holders (s : Consensus) (r : Round) : nat :=
  length (filter (fun n => (r <= held_by s n)%N) (members (cfg s))).

Lemma quorum_index c : members c <> [] -> Config.quorum c - 1 < length (members c).
Proof.
  intros H. unfold Config.quorum. assert (0 < length (members c)) as Hpos by (destruct (members c); cbn; [done|lia]).
  pose proof (Nat.div_lt (length (members c)) 2 Hpos). lia.
Qed.

(** [quorum_matched] is the largest round a majority holds. *)
Lemma quorum_matched_count s s0 :
  members (cfg s) <> [] ->
  wp False (quorum_matched s) (fun q s' w => s' = s0 /\ w = [] /\ Config.quorum (cfg s) <= holders s q
    /\ forall r, (q < r)%N -> holders s r < Config.quorum (cfg s)) s0.
Proof.
  intros Hne. unfold quorum_matched, sort_desc, holders.
  assert (exists m, rev (merge_sort N.le (map (held_by s) (members (cfg s)))) !! (Config.quorum (cfg s) - 1) = Some m)
    as [m Hm].
  { apply lookup_lt_is_Some_2. rewrite length_rev, merge_sort_Permutation, length_map. by apply quorum_index. }
  pose proof (kth_largest (held_by s) (members (cfg s)) _ m Hm) as [H1 H2].
  assert (0 < Config.quorum (cfg s)) as Hq by (unfold Config.quorum; lia).
  destruct (map (held_by s) (members (cfg s))) as [|h hs] eqn:E.
  { by apply map_eq_nil in E. }
  apply wp_unwrap; [|congruence]. intros a Ha. assert (a = m) as -> by congruence.
  split; [done|]. split; [done|]. split; [lia|]. intros r Hr. specialize (H2 r Hr). lia.
Qed.

(** Sending leaves the commit point alone. *)
Definition same_commit (s s' : Consensus) (_ : list Action) : Prop := commit s' = commit s.

#[export] Instance same_commit_StepRel : StepRel same_commit.
Proof. split; [done|]. unfold same_commit. congruence. Qed.

Lemma bcast_append_commit : keeps same_commit bcast_append.
Proof.
  unfold bcast_append, send_append_to, ensure_log, update_self, send_snapshot_chunk_to. by keeps_walk.
Qed.

(** C27: a leader commits by the majority rule and no other. When
    [advance_commit] moves the commit point, the node is the leader, the new
    point is above the old one, its entry is of the leader's own term, a
    majority of the voters hold it durably and no higher round has one; when it
    does not, nothing has changed. *)
Theorem commit_needs_a_majority (s s' : Consensus) (moved : bool) (w : list Action) :
  members (cfg s) <> [] -> advance_commit s = Some (moved, s', w) ->
  if moved then
    role s = Leader /\ (commit s < commit s')%N /\ term_at s (commit s') = Some (term_of s)
    /\ Config.quorum (cfg s) <= holders s (commit s')
    /\ (forall r, (commit s' < r)%N -> holders s r < Config.quorum (cfg s))
  else s' = s /\ w = [].
Proof.
  intros Hne E.
  apply (wp_run advance_commit (fun moved s' w => if moved then
    role s = Leader /\ (commit s < commit s')%N /\ term_at s (commit s') = Some (term_of s)
    /\ Config.quorum (cfg s) <= holders s (commit s')
    /\ (forall r, (commit s' < r)%N -> holders s r < Config.quorum (cfg s))
    else s' = s /\ w = []) s moved s' w); [|done]. clear E.
  unfold advance_commit. apply wp_bind, wp_get.
  destruct (bool_decide (role s = Leader)) eqn:Hrole; [|by apply wp_ret]. apply bool_decide_eq_true in Hrole.
  cbn [negb]. apply wp_bind. eapply wp_mono; [by apply wp_panic_weaken, quorum_matched_count|].
  intros q s1 w1 (-> & -> & Hq & Hmax).
  destruct (N.leb_spec q (commit s)); [by apply wp_ret|].
  destruct (bool_decide (term_at s q = Some (term_of s))) eqn:Ht; [|by apply wp_ret].
  apply bool_decide_eq_true in Ht. cbn [negb]. apply wp_bind, wp_modify, wp_bind.
  apply (wp_mono _ _ (fun _ s2 _ => commit s2 = q)).
  { unfold advance_apply. apply wp_bind, wp_get. by apply wp_when; intros _. }
  intros [] s2 w2 Ec. apply wp_bind. eapply wp_mono; [apply bcast_append_commit|].
  intros [] s3 w3 Ec3. apply wp_ret. unfold same_commit in Ec3. rewrite Ec3, Ec. done.
Qed.

(** A leader of three, one of whose peers reports a durable first round. *)
Definition reported1 : Consensus := update_progress 2 (count_ack 1)
  (after leader1 [Persisted 1 1]).

Lemma commit_needs_a_majority_witness :
  exists s' w, advance_commit reported1 = Some (true, s', w) /\ commit s' = 1%N
    /\ 2 <= holders reported1 (commit s').
Proof.
  assert ((fun x => (x.1.1, commit x.1.2)) <$> advance_commit reported1 = Some (true, 1%N)) as H
    by (vm_compute; reflexivity).
  destruct (advance_commit reported1) as [[[moved s'] w]|] eqn:E; [|discriminate H].
  injection H as -> Hc.
  exists s', w. split; [done|]. split; [done|].
  assert (members (cfg reported1) <> []) as Hne by (clear; by vm_compute).
  assert (Config.quorum (cfg reported1) = 2) as Hq by (clear; by vm_compute).
  destruct (commit_needs_a_majority reported1 s' true w Hne E) as (_ & _ & _ & H & _). by rewrite Hq in H.
Defined.

(** * The leader's clock *)

(** How long a voter has been silent once the tick in progress is counted. *)
Definition next_silence (s : Consensus) (n : NodeId) : u32 :=
  if (n =? self_id s)%N then 0%N
  else match progress s !! n with Some p => sadd32 (silent p) 1 | None => max_u32 end.

Definition aged (s : Consensus) : Consensus := fold_left age_peer (peer_ids s) s.

Lemma for_each_modify {A : Type} (l : list A) (f : Consensus -> A -> Consensus) s :
  for_each l (fun x => modify (fun s => f s x)) s = Some (tt, fold_left f l s, []).
Proof.
  revert s. induction l as [|x l IH]; intros s; [done|]. cbn [for_each].
  unfold mbind, m_bind. unfold modify at 1. rewrite IH. done.
Qed.

Lemma age_peer_lookup s id n :
  progress (age_peer s id) !! n =
    if decide (n = id) then (fun p => p <| silent := sadd32 (silent p) 1 |>) <$> progress s !! n
    else progress s !! n.
Proof.
  unfold age_peer. destruct (progress s !! id) as [p|] eqn:E; destruct (decide (n = id)) as [->|Hne]; cbn.
  - by rewrite lookup_insert_eq, E.
  - by rewrite lookup_insert_ne.
  - by rewrite E.
  - done.
Qed.

Lemma age_peer_fields s id : self_id (age_peer s id) = self_id s /\ cfg (age_peer s id) = cfg s
  /\ role (age_peer s id) = role s /\ lease (age_peer s id) = lease s.
Proof. unfold age_peer. by destruct (progress s !! id). Qed.

Lemma aging s ids :
  NoDup ids ->
  let s' := fold_left age_peer ids s in
  self_id s' = self_id s /\ cfg s' = cfg s /\ role s' = role s /\ lease s' = lease s
  /\ forall n, progress s' !! n = if decide (n ∈ ids) then (fun p => p <| silent := sadd32 (silent p) 1 |>) <$> progress s !! n
                              else progress s !! n.
Proof.
  intros Hnd. revert s. induction Hnd as [|id ids Hid _ IH]; intros s; cbn [fold_left].
  { split_and!; try done. }
  destruct (IH (age_peer s id)) as (E1 & E2 & E3 & E4 & E5).
  destruct (age_peer_fields s id) as (F1 & F2 & F3 & F4). cbv zeta.
  rewrite E1, E2, E3, E4. split_and!; try done. intros n. rewrite E5, age_peer_lookup.
  destruct (decide (n ∈ ids)) as [Hin|Hin], (decide (n = id)) as [->|Hne]; try done.
  - rewrite decide_True; [done|by right].
  - rewrite decide_True; [done|by left].
  - rewrite decide_False; [done|]. by intros [?|?]%elem_of_cons.
Qed.

Lemma peer_ids_NoDup s : config_wf (cfg s) -> NoDup (peer_ids s).
Proof.
  intros Hwf. unfold peer_ids. apply NoDup_filter. apply NoDup_app. split; [apply ascending_NoDup, Hwf|].
  split; [|apply ascending_NoDup, Hwf]. intros x Hx Hl. by eapply (wf_disjoint _ Hwf).
Qed.

Lemma aged_silence s n :
  config_wf (cfg s) -> n ∈ members (cfg s) -> silence_of (aged s) n = next_silence s n.
Proof.
  intros Hwf Hn. destruct (aging s (peer_ids s) (peer_ids_NoDup s Hwf)) as (E1 & _ & _ & _ & E5). unfold silence_of, next_silence, aged.
  cbv zeta in *. rewrite E1. destruct (N.eqb_spec n (self_id s)) as [|Hne]; [done|]. rewrite E5.
  rewrite decide_True; [by destruct (progress s !! n)|].
  unfold peer_ids. apply list_elem_of_filter. split; [done|]. apply elem_of_app. by left.
Qed.

(** The silence of a majority is below [b] exactly when a majority's is. *)
Lemma quorum_silence_below s b :
  members (cfg s) <> [] ->
  (quorum_silence s < b)%N <->
  Config.quorum (cfg s) <= length (filter (fun n => (silence_of s n < b)%N) (members (cfg s))).
Proof.
  intros Hne. unfold quorum_silence.
  destruct (lookup_lt_is_Some_2 (merge_sort N.le (map (silence_of s) (members (cfg s)))) (Config.quorum (cfg s) - 1))
    as [m Hm].
  { rewrite merge_sort_Permutation, length_map. by apply quorum_index. }
  rewrite Hm. change (default max_u32 (Some m)) with m.
  destruct (kth_smallest _ _ _ _ Hm) as [H1 H2].
  assert (0 < Config.quorum (cfg s)) as Hq by (unfold Config.quorum; lia). split.
  - intros Hb. assert (length (filter (fun n => (silence_of s n <= m)%N) (members (cfg s)))
                       <= length (filter (fun n => (silence_of s n < b)%N) (members (cfg s)))); [|lia].
    clear -Hb. induction (members (cfg s)) as [|n l IH]; [done|]. rewrite !filter_cons.
    do 2 case_decide; cbn; lia.
  - intros Hc. destruct (N.lt_ge_cases m b) as [|Hge]; [done|]. exfalso.
    destruct (decide (b = 0)%N) as [->|Hb].
    + assert (filter (fun n => (silence_of s n < 0)%N) (members (cfg s)) = []) as E; [|rewrite E in Hc; cbn in Hc; lia].
      clear. induction (members (cfg s)) as [|n l IH]; [done|]. rewrite filter_cons, decide_False; [done|lia].
    + specialize (H2 (b - 1)%N ltac:(lia)).
      rewrite (list_filter_iff _ (fun n => (silence_of s n <= b - 1)%N)) in Hc by lia. lia.
Qed.

(** The same of the silences a tick leaves. *)
Lemma aged_quorum s b :
  config_wf (cfg s) -> members (cfg s) <> [] ->
  (quorum_silence (aged s) < b)%N <->
  Config.quorum (cfg s) <= length (filter (fun n => (next_silence s n < b)%N) (members (cfg s))).
Proof.
  intros Hwf Hne. destruct (aging s (peer_ids s) (peer_ids_NoDup s Hwf)) as (_ & A2 & _).
  cbv zeta in A2. fold (aged s) in A2. rewrite quorum_silence_below by (by rewrite A2). rewrite A2.
  replace (filter (fun n => (silence_of (aged s) n < b)%N) (members (cfg s)))
    with (filter (fun n => (next_silence s n < b)%N) (members (cfg s))); [done|].
  assert (forall n, n ∈ members (cfg s) -> silence_of (aged s) n = next_silence s n) as Hs
    by (intros n Hn; by apply aged_silence).
  clear -Hs. induction (members (cfg s)) as [|n l IH]; [done|]. rewrite !filter_cons.
  rewrite (Hs n) by by left. rewrite IH; [done|]. intros x Hx. apply Hs. by right.
Qed.

Lemma wp_become_follower_role term ldr (Q : unit -> Consensus -> list Action -> Prop) s :
  (forall s' w, role s' = Follower -> Q tt s' w) -> wp True (become_follower term ldr) Q s.
Proof. intros H. apply wp_become_follower. by apply H. Qed.

(** A leader that a majority has gone silent on steps down at its next tick,
    and only then. Counting the tick itself, the node is still the leader
    afterwards exactly when it is a voter and a majority of the voters, itself
    included, have been heard from within the lease. *)
Theorem leader_keeps_office_iff_quorum_heard (s s' : Consensus) (w : list Action) :
  config_wf (cfg s) -> members (cfg s) <> [] -> role s = Leader -> step s Tick = Some (s', w) ->
  role s' = Leader <->
  self_id s ∈ members (cfg s)
  /\ Config.quorum (cfg s) <= length (filter (fun n => (next_silence s n < lease s)%N) (members (cfg s))).
Proof.
  intros Hwf Hne Hrole E. unfold step in E. cbn [dispatch] in E.
  destruct (on_tick s) as [[[u s1] w1]|] eqn:Et; [|done]. injection E as -> ->.
  revert Et. apply (wp_run on_tick (fun _ s' _ => role s' = Leader <-> _) s u s' w).
  unfold on_tick. apply wp_bind, wp_get. rewrite Hrole. unfold leader_tick. apply wp_bind, wp_get.
  destruct (Config.contains (cfg s) (self_id s)) eqn:Hc; cbn [negb].
  2: { apply wp_become_follower_role. intros s1 _ ->. split; [done|]. intros [Hin _].
       apply contains_spec in Hin. congruence. }
  apply contains_spec in Hc. apply wp_bind. unfold wp at 1. rewrite for_each_modify. fold (aged s).
  destruct (aging s (peer_ids s) (peer_ids_NoDup s Hwf)) as (A1 & A2 & A3 & A4 & _). cbv zeta in A1, A2, A3, A4.
  fold (aged s) in A1, A2, A3, A4. pose proof (aged_quorum s (lease s) Hwf Hne) as Hq.
  set (a := aged s) in *. clearbody a.
  apply wp_bind, wp_modify, wp_bind, wp_get. set (s2 := a <| since_quorum := quorum_silence a |>).
  change (since_quorum s2) with (quorum_silence a). change (lease s2) with (lease a). rewrite A4.
  destruct (N.leb_spec (lease s) (quorum_silence a)) as [Hl|Hl].
  { apply wp_become_follower_role. intros s3 w3 ->. split; [done|]. intros [_ H]. apply Hq in H. lia. }
  assert (forall s3 w3, inert s2 s3 w3 -> role s3 = Leader <-> self_id s ∈ members (cfg s)
     /\ Config.quorum (cfg s) <= length (filter (fun n => (next_silence s n < lease s)%N) (members (cfg s)))) as Hend.
  { intros s3 w3 [Ho _]. apply Hq in Hl. injection Ho. intros. split; [done|]. intros _. congruence. }
  assert (keeps inert (_ ← modify (fun s => s <| since_heartbeat := sadd32 (since_heartbeat s) 1 |>);
      s ← get;
      when (heartbeat s <=? since_heartbeat s)%N (
        _ ← modify (fun s => s <| since_heartbeat := 0%N |>);
        bcast_append))) as Hk by inert_walk.
  eapply wp_mono; [apply (Hk s2)|]. cbv beta. intros _ s3 w3 Hin. by apply (Hend s3 w3).
Qed.

(** Eight ticks without a word from its peers, the lease of the default
    election base, and the leader of term 1 steps down. *)
Lemma leader_keeps_office_witness :
  role (after leader1 (repeat Tick 7)) = Leader
  /\ exists s' w, step (after leader1 (repeat Tick 7)) Tick = Some (s', w) /\ role s' <> Leader.
Proof.
  split; [vm_compute; reflexivity|].
  assert (is_Some (step (after leader1 (repeat Tick 7)) Tick)) as [[s' w] E] by (vm_compute; eauto).
  exists s', w. split; [exact E|].
  assert (config_wf (cfg (after leader1 (repeat Tick 7)))) as Hwf.
  { assert (cfg (after leader1 (repeat Tick 7)) = trio) as -> by (vm_compute; reflexivity). apply new_wf. }
  assert (members (cfg (after leader1 (repeat Tick 7))) <> []) as Hne by (vm_compute; discriminate).
  rewrite (leader_keeps_office_iff_quorum_heard _ s' w Hwf Hne ltac:(vm_compute; reflexivity) E).
  intros [_ H]. revert H. clear. vm_compute. lia.
Defined.
