(* ===== verification/NodeInv.v ===== *)
(** The invariant of one node, and that no step breaks it or panics: every
    assertion, index and [expect] of the state machine is discharged here. The
    invariant reads only the node's log and its watermarks, its [view]; the
    lemmas say what each handler does to the view. *)
From S2P Require Import Prelude Bytes Errors WalRecord Config Types Transport TransportCanonical.
From S2P Require Import Digest LogTail Payload State Office Membership Replicate SnapshotProto.
From S2P Require Import Append Election Step Hoare Votes.

(** * The view *)

Record View := mkView {
  v_id : NodeId;
  v_tail : option LogTail;
  v_agreed : Round;
  v_last : Round;
  v_last_term : Term;
  v_floor : Round;
  v_floor_term : Term;
  v_commit : Round;
  v_applied : Round;
  v_durable : Round;
  v_incoming : option RecvCursor
}.

Definition view (s : Consensus) : View :=
  mkView (self_id s) (tail s) (agreed s) (last_round s) (last_term s) (snapshot_round s)
         (snapshot_term s) (commit s) (applied s) (durable s) (snapshot_incoming s).

(** The log covers [(floor, last]]. *)
Definition log_ok (v : View) : Prop :=
  match v_tail v with
  | Some t => tail_wf t /\ base t = v_floor v /\ LogTail.last_round t = v_last v
  | None => v_last v = v_floor v /\ (v_last v <= max_u64)%N
  end.

(** [Consensus::term_at], from the view. *)
Definition v_term_at (v : View) (round : Round) : option Term :=
  if (round =? v_floor v)%N then Some (v_floor_term v)
  else v_tail v ≫= fun t => LogTail.term_at t round.

Record view_ok (v : View) : Prop := {
  ok_log : log_ok v;
  ok_last_term : v_term_at v (v_last v) = Some (v_last_term v);
  ok_durable : (v_durable v <= v_last v)%N;
  ok_agreed : (v_agreed v <= v_last v)%N;
  ok_applied : (v_applied v <= v_commit v)%N;
  ok_floor : (v_floor v <= v_applied v)%N;
  ok_incoming : forall c, v_incoming v = Some c -> u64_ok (meta_last_round (rc_meta c))
}.

Definition inv (s : Consensus) : Prop := view_ok (view s).

Lemma term_at_view s round : term_at s round = v_term_at (view s) round.
Proof. done. Qed.

Lemma log_ok_last v : log_ok v -> (v_floor v <= v_last v <= max_u64)%N.
Proof.
  unfold log_ok. destruct (v_tail v) as [t|]; [|lia]. intros (Hwf & <- & <-).
  rewrite last_round_val by done. pose proof (wf_room _ Hwf). lia.
Qed.

(** The rounds a node can answer for are the floor and those above it. *)
Lemma v_term_at_Some v round :
  log_ok v -> (v_floor v <= round <= v_last v)%N -> is_Some (v_term_at v round).
Proof.
  unfold log_ok, v_term_at. intros H Hr.
  destruct (N.eqb_spec round (v_floor v)) as [|Hne]; [eauto|].
  destruct (v_tail v) as [t|]; [|lia]. destruct H as (Hwf & Hb & Hl). cbn.
  destruct (term_at_Some t Hwf round) as (e & _ & _ & E); [lia|]. rewrite E. eauto.
Qed.

Lemma v_term_at_range v round t :
  log_ok v -> v_term_at v round = Some t -> (v_floor v <= round <= v_last v)%N.
Proof.
  intros Hl H. pose proof (log_ok_last v Hl). unfold log_ok, v_term_at in *.
  destruct (N.eqb_spec round (v_floor v)) as [|Hne]; [lia|].
  destruct (v_tail v) as [l|]; [|done]. destruct Hl as (Hwf & Hb & Hl).
  apply term_at_is_Some in H. lia.
Qed.

(** * Writes through the progress map *)

Lemma self_progress_update f s :
  self_progress (update_progress (self_id s) f s) = f (self_progress s).
Proof.
  unfold self_progress, update_progress. cbn. by rewrite lookup_insert_eq.
Qed.

Lemma tail_self_progress s : tail s = own_log (self_progress s).
Proof. unfold tail, self_progress. by destruct (progress s !! self_id s). Qed.

Lemma tail_update_self f s :
  tail (update_progress (self_id s) f s) = own_log (f (self_progress s)).
Proof.
  rewrite tail_self_progress. change (self_id s) with (self_id (update_progress (self_id s) f s)) at 1.
  by rewrite <- self_progress_update.
Qed.

Lemma agreed_update_self f s :
  agreed (update_progress (self_id s) f s) = matched (f (self_progress s)).
Proof. unfold agreed. by rewrite <- self_progress_update. Qed.

Lemma incoming_self_progress s : snapshot_incoming s = receiving (self_progress s).
Proof. unfold snapshot_incoming, self_progress. by destruct (progress s !! self_id s). Qed.

Lemma incoming_update_self f s :
  snapshot_incoming (update_progress (self_id s) f s) = receiving (f (self_progress s)).
Proof.
  rewrite incoming_self_progress. change (self_id s) with (self_id (update_progress (self_id s) f s)) at 1.
  by rewrite <- self_progress_update.
Qed.

(** Another peer's record is not part of the view. *)
Lemma view_update_other id f s : id <> self_id s -> view (update_progress id f s) = view s.
Proof.
  intros Hne. unfold view, tail, agreed, snapshot_incoming, self_progress, update_progress. cbn.
  by rewrite !lookup_insert_ne by done.
Qed.

(** The view after a write to this node's own record. *)
Lemma view_update_self f s :
  view (update_progress (self_id s) f s) =
    mkView (self_id s) (own_log (f (self_progress s))) (matched (f (self_progress s))) (last_round s)
      (last_term s) (snapshot_round s) (snapshot_term s) (commit s) (applied s) (durable s)
      (receiving (f (self_progress s))).
Proof.
  unfold view. by rewrite tail_update_self, agreed_update_self, incoming_update_self.
Qed.

Lemma view_update_self_same f s :
  own_log (f (self_progress s)) = own_log (self_progress s) ->
  matched (f (self_progress s)) = matched (self_progress s) ->
  receiving (f (self_progress s)) = receiving (self_progress s) ->
  view (update_progress (self_id s) f s) = view s.
Proof.
  intros E1 E2 E3. rewrite view_update_self, E1, E2, E3. unfold view.
  by rewrite tail_self_progress, incoming_self_progress.
Qed.

(** Any record, when the write leaves its log and [matched] alone. *)
Lemma view_update_same id f s :
  (forall p, own_log (f p) = own_log p) -> (forall p, matched (f p) = matched p) ->
  (forall p, receiving (f p) = receiving p) -> view (update_progress id f s) = view s.
Proof.
  intros E1 E2 E3. destruct (decide (id = self_id s)) as [->|Hne]; [by apply view_update_self_same|].
  by apply view_update_other.
Qed.

(** * The log *)

(** The view with a tail in place, the one [ensure_log] leaves. *)
Definition v_ensured (v : View) : View :=
  mkView (v_id v) (Some (default (LogTail.rebased (v_floor v) 0) (v_tail v))) (v_agreed v) (v_last v)
    (v_last_term v) (v_floor v) (v_floor_term v) (v_commit v) (v_applied v) (v_durable v) (v_incoming v).

Lemma v_ensured_ok v : view_ok v -> view_ok (v_ensured v).
Proof.
  intros [H1 H2 H3 H4 H5 H6 H7]. pose proof (log_ok_last _ H1) as Hl. split; try done.
  - unfold log_ok, v_ensured in *. cbn. destruct (v_tail v) as [t|]; cbn; [done|].
    destruct H1 as [H1 Hm]. split; [apply rebased_wf; lia|]. split; [done|].
    rewrite last_round_rebased; lia.
  - unfold v_term_at, v_ensured in *. cbn. destruct (_ =? _)%N; [done|].
    destruct (v_tail v) as [t|]; cbn in *; done.
Qed.

Lemma v_ensured_id v t : v_tail v = Some t -> v_ensured v = v.
Proof. intros E. unfold v_ensured. rewrite E. destruct v. cbn in *. by subst. Qed.

Lemma ensure_log_spec s :
  inv s -> wp False ensure_log (fun _ s' _ => view s' = v_ensured (view s)) s.
Proof.
  intros Hi. pose proof (ok_log _ Hi) as Hl. unfold log_ok in Hl. cbn in Hl.
  unfold ensure_log. apply wp_bind, wp_get. rewrite <- tail_self_progress.
  destruct (tail s) as [t|] eqn:Et.
  - destruct Hl as (_ & -> & ->). apply wp_assert; [intros _|by rewrite !N.eqb_refl].
    symmetry. by apply (v_ensured_id _ t).
  - apply wp_bind. destruct Hl as [Hl _]. apply wp_assert; [intros _|intros E; apply N.leb_gt in E; lia].
    apply wp_modify. rewrite view_update_self. unfold v_ensured. cbn. by rewrite Et, incoming_self_progress.
Qed.

(** The view with the tail, or the end of the log, replaced. *)
Definition v_set_tail (t : LogTail) (v : View) : View :=
  mkView (v_id v) (Some t) (v_agreed v) (v_last v) (v_last_term v) (v_floor v) (v_floor_term v)
    (v_commit v) (v_applied v) (v_durable v) (v_incoming v).

Definition v_set_last (r : Round) (tm : Term) (v : View) : View :=
  mkView (v_id v) (v_tail v) (v_agreed v) r tm (v_floor v) (v_floor_term v)
    (v_commit v) (v_applied v) (v_durable v) (v_incoming v).

Definition v_set_agreed (r : Round) (v : View) : View :=
  mkView (v_id v) (v_tail v) r (v_last v) (v_last_term v) (v_floor v) (v_floor_term v)
    (v_commit v) (v_applied v) (v_durable v) (v_incoming v).

Lemma put_tail_spec t s : wp False (put_tail t) (fun _ s' _ => view s' = v_set_tail t (view s)) s.
Proof. apply wp_modify. rewrite view_update_self. unfold v_set_tail. cbn. by rewrite incoming_self_progress. Qed.

Lemma set_agreed_spec r s : wp False (set_agreed r) (fun _ s' _ => view s' = v_set_agreed r (view s)) s.
Proof.
  apply wp_modify. rewrite view_update_self. unfold v_set_agreed. cbn.
  by rewrite tail_self_progress, incoming_self_progress.
Qed.

Lemma tail_mut_spec s t :
  tail s = Some t -> wp False tail_mut (fun a s' _ => a = t /\ view s' = view s) s.
Proof.
  intros Et. unfold tail_mut. apply wp_bind, wp_get, wp_bind, wp_modify, wp_ret.
  rewrite <- tail_self_progress, Et. split; [done|]. apply view_update_self_same; [|done|done]. cbn. by rewrite <- tail_self_progress.
Qed.

Lemma push_entry_spec s t e t' :
  tail s = Some t -> LogTail.push t e = Some t' ->
  wp False (push_entry e) (fun _ s' _ => view s' = v_set_tail t' (view s)) s.
Proof.
  intros Et Hp. unfold push_entry. apply wp_bind. eapply wp_mono; [by apply tail_mut_spec|].
  intros a s1 w1 [-> Ev]. apply wp_bind. rewrite Hp. apply wp_ret.
  eapply wp_mono; [apply put_tail_spec|]. cbn. intros [] s2 w2 ->. by rewrite Ev.
Qed.

(** Entries that continue the log are pushed one after the other. *)
Lemma push_all_spec es s t :
  tail s = Some t -> tail_wf t -> contiguous (LogTail.last_round t + 1) es ->
  (LogTail.last_round t + blen es <= max_u64)%N ->
  wp False (for_each es push_entry) (fun _ s' _ => exists t',
    view s' = v_set_tail t' (view s) /\ tail_wf t' /\ base t' = base t
    /\ entries t' = entries t ++ es /\ rewritten_in_term t' = rewritten_in_term t) s.
Proof.
  revert s t. induction es as [|e es IH]; intros s t Et Hwf Hc Hm; cbn [for_each].
  { apply wp_ret. exists t. rewrite app_nil_r. split; [|done].
    unfold v_set_tail, view. cbn. by rewrite Et. }
  destruct Hc as [He Hc]. rewrite blen_cons in Hm.
  destruct (push_Some t e Hwf He) as (t1 & Hp & Hwf1 & Hb1 & Hd1 & He1 & Hr1 & Hl1); [lia|].
  apply wp_bind. eapply wp_mono; [by apply (push_entry_spec s t e t1)|]. intros [] s1 w1 Ev1.
  assert (tail s1 = Some t1) as Et1 by (change (v_tail (view s1) = Some t1); by rewrite Ev1).
  eapply wp_mono; [apply (IH s1 t1 Et1 Hwf1)|].
  - by rewrite Hl1.
  - rewrite Hl1. lia.
  - intros [] s2 w2 (t2 & Ev2 & Hwf2 & Hb2 & He2 & Hr2). exists t2. rewrite Ev2, Ev1.
    split; [done|]. split; [done|]. split; [congruence|]. split; [|congruence].
    by rewrite He2, He1, <- app_assoc.
Qed.

(** Extending the log keeps the view, once its end is moved with it. *)
Lemma v_extended_ok v t t' e es :
  view_ok v -> v_tail v = Some t -> tail_wf t' -> base t' = base t ->
  entries t' = entries t ++ es -> last es = Some e ->
  view_ok (v_set_last (v_last v + blen es) (e_term e) (v_set_tail t' v)).
Proof.
  intros [H1 H2 H3 H4 H5 H6 H7] Et Hwf Hb He Hl.
  unfold log_ok in H1. rewrite Et in H1. destruct H1 as (Hwft & Hbt & Hlt).
  rewrite last_round_val in Hlt by done.
  assert (LogTail.last_round t' = v_last v + blen es)%N as Hl'.
  { rewrite last_round_val by done. rewrite Hb, He, blen_app. lia. }
  split; cbn; try done; [| |lia..].
  - split; [done|]. by rewrite Hb.
  - unfold v_term_at. cbn.
    apply last_Some in Hl as [es' ->]. rewrite blen_app, blen_cons, blen_nil in *.
    destruct (N.eqb_spec (v_last v + (blen es' + (1 + 0))) (v_floor v)) as [E|_]; [lia|].
    rewrite term_at_entry_at by done. unfold entry_at.
    destruct (N.ltb_spec (base t') (v_last v + (blen es' + (1 + 0)))); [|lia].
    rewrite He, lookup_app_r; unfold LogTail.index_of, blen in *; [|lia].
    rewrite lookup_app_r by lia.
    replace (_ - length (entries t) - length es') with 0 by lia. done.
Qed.

Lemma append_own_entry_spec c s t :
  inv s -> tail s = Some t -> (last_round s < max_u64)%N ->
  wp False (append_own_entry c) (fun _ s' _ => exists t',
    view s' = v_set_last (last_round s + 1) (term_of s) (v_set_tail t' (view s))
    /\ tail_wf t' /\ base t' = base t
    /\ entries t' = entries t ++ [mkEntry (term_of s) (last_round s + 1) c]) s.
Proof.
  intros Hi Et Hm. unfold append_own_entry. apply wp_bind.
  pose proof (ok_log _ Hi) as Hl. unfold log_ok in Hl. cbn in Hl. rewrite Et in Hl. destruct Hl as (Hwf & Hb & Hl).
  assert (wp False ensure_log (fun _ s' _ => s' = s) s) as He.
  { unfold ensure_log. apply wp_bind, wp_get. rewrite <- tail_self_progress, Et.
    apply wp_assert; [by intros _|]. by rewrite Hb, Hl, !N.eqb_refl. }
  eapply wp_mono; [exact He|]. intros [] s1 w1 ->. apply wp_bind, wp_get.
  rewrite wadd64_small by lia. cbv zeta. cbn [e_round e_term].
  destruct (push_Some t (mkEntry (term_of s) (last_round s + 1) c) Hwf) as (t' & Hp & Hwf' & Hb' & _ & He' & _ & _).
  { cbn. by rewrite Hl. }
  { lia. }
  apply wp_bind. eapply wp_mono; [by apply (push_entry_spec s t _ t')|]. intros [] s2 w2 Ev2.
  apply wp_bind, wp_modify, wp_bind, wp_emit, wp_ret.
  exists t'. split; [|done]. rewrite <- Ev2. done.
Qed.

Lemma appended_ok c s t t' :
  inv s -> tail s = Some t -> tail_wf t' -> base t' = base t ->
  entries t' = entries t ++ [c] ->
  view_ok (v_set_last (last_round s + 1) (e_term c) (v_set_tail t' (view s))).
Proof.
  intros Hi Et Hwf Hb He. exact (v_extended_ok (view s) t t' c [c] Hi Et Hwf Hb He eq_refl).
Qed.

(** * Handlers that leave the view alone *)

(** [still P m]: from a state whose view is in [P], [m] does not panic and does
    not change the view. *)
Section still.
Context (P : View -> Prop).

Definition still {A : Type} (m : M A) : Prop :=
  forall s, P (view s) -> wp False m (fun _ s' _ => view s' = view s) s.

Lemma still_bind {A B : Type} (m : M A) (k : A -> M B) :
  still m -> (forall a, still (k a)) -> still (m ≫= k).
Proof using Type.
  intros Hm Hk s HP. apply wp_bind. eapply wp_mono; [by apply Hm|]. cbn. intros a s1 w1 E1.
  eapply wp_mono; [apply Hk; by rewrite E1|]. cbn. congruence.
Qed.

Lemma still_read {B : Type} (k : Consensus -> M B) :
  (forall s, P (view s) -> wp False (k s) (fun _ s' _ => view s' = view s) s) -> still (get ≫= k).
Proof using Type. intros Hk s HP. apply wp_bind, wp_get. eapply wp_mono; [by apply Hk|done]. Qed.

Lemma still_get : still get.
Proof using Type. by intros s _. Qed.

Lemma still_ret {A : Type} (a : A) : still (mret a).
Proof using Type. by intros s _. Qed.

Lemma still_emit a : still (emit a).
Proof using Type. by intros s _. Qed.

Lemma still_modify f : (forall s, view (f s) = view s) -> still (modify f).
Proof using Type. intros Hf s _. apply Hf. Qed.

Lemma still_when b m : (b = true -> still m) -> still (when b m).
Proof using Type. destruct b; cbn; [auto|intros _; apply still_ret]. Qed.

Lemma still_for_each {A : Type} (l : list A) f : (forall x, still (f x)) -> still (for_each l f).
Proof using Type.
  intros Hf. induction l as [|x l IH]; [apply still_ret|]. apply still_bind; [apply Hf|done].
Qed.

(** Running a still command first. *)
Lemma wp_still {A B : Type} (m : M A) (k : A -> M B) Q s :
  still m -> P (view s) ->
  (forall a s1 w1, view s1 = view s -> wp False (k a) (fun b s2 w2 => Q b s2 (w1 ++ w2)) s1) ->
  wp False (m ≫= k) Q s.
Proof using Type. intros Hm HP Hk. apply wp_bind. eapply wp_mono; [by apply Hm|]. apply Hk. Qed.
End still.

Lemma still_weaken {A : Type} (P P' : View -> Prop) (m : M A) :
  (forall v, P' v -> P v) -> still P m -> still P' m.
Proof. intros HP Hm s H. by apply Hm, HP. Qed.

(** [still_walk] takes a handler apart; [still] holds the handlers already
    proved. *)
Create HintDb still.
Ltac still_step :=
  match goal with
  | |- still _ _ => solve [auto 1 with still nocore]
  | |- still _ (mret _) => apply still_ret
  | |- still _ get => apply still_get
  | |- still _ (mbind _ _) => apply still_bind; [|intros ?]
  | |- still _ (when _ _) => apply still_when; intros ?
  | |- still _ (for_each _ _) => apply still_for_each; intros ?
  | |- still _ (modify _) => apply still_modify; intros ?
  | |- still _ (emit _) => apply still_emit
  | |- still _ (if ?b then _ else _) => destruct b eqn:?
  | |- still _ (match ?x with _ => _ end) => destruct x eqn:?
  | |- still _ (let _ := _ in _) => cbv zeta
  end.
Ltac still_walk := repeat still_step.

(** A sound view with a log in place. *)
Definition sound (v : View) : Prop := view_ok v /\ is_Some (v_tail v).

Lemma view_inv s s' : view s' = view s -> inv s -> inv s'.
Proof. unfold inv. by intros ->. Qed.

Lemma ensure_log_still : still sound ensure_log.
Proof.
  intros s [Hi [t Et]]. eapply wp_mono; [by apply ensure_log_spec|]. cbn. intros _ s' _ ->.
  by apply (v_ensured_id _ t).
Qed.

Lemma send_snapshot_chunk_to_still P peer : still P (send_snapshot_chunk_to peer).
Proof. unfold send_snapshot_chunk_to. still_walk. Qed.
#[export] Hint Resolve ensure_log_still send_snapshot_chunk_to_still : still.

(** Sending an append at most puts the log in place. *)
Lemma send_append_to_spec peer s :
  inv s -> wp False (send_append_to peer)
    (fun _ s' _ => view s' = view s \/ view s' = v_ensured (view s)) s.
Proof.
  intros Hi. unfold send_append_to. apply wp_bind, wp_get.
  destruct (negb (bool_decide (role s = Leader)) || (peer =? self_id s)%N
            || negb (Config.is_known (cfg s) peer)) eqn:Hg; [by left|].
  apply orb_false_elim in Hg as [Hg _]. apply orb_false_elim in Hg as [_ Hne]. apply N.eqb_neq in Hne.
  apply wp_bind. eapply wp_mono; [by apply ensure_log_spec|]. intros [] s1 w1 E1.
  assert (self_id s1 = self_id s) as Eid by exact (f_equal v_id E1).
  apply wp_bind, wp_get, wp_bind, wp_modify, wp_bind, wp_get. cbv zeta.
  set (s2 := update_progress peer _ s1).
  assert (view s2 = v_ensured (view s)) as E2 by (rewrite <- E1; apply view_update_other; congruence).
  destruct (needs_snapshot _).
  - eapply wp_mono; [by apply (send_snapshot_chunk_to_still (fun _ => True) peer s2)|].
    intros [] s3 w3 E3. right. by rewrite E3.
  - destruct (term_at s2 _); [right; exact E2|]. apply wp_modify. right. rewrite view_update_other; [done|].
    change (self_id s2) with (self_id s1). congruence.
Qed.

Lemma send_append_to_still peer : still sound (send_append_to peer).
Proof.
  intros s [Hi [t Et]]. eapply wp_mono; [by apply send_append_to_spec|]. cbn.
  intros [] s' _ [->| ->]; [done|]. by apply (v_ensured_id _ t).
Qed.
#[export] Hint Resolve send_append_to_still : still.

Lemma bcast_append_still : still sound bcast_append.
Proof. unfold bcast_append. still_walk. Qed.
#[export] Hint Resolve bcast_append_still : still.

(** * Commit and apply *)

(** [quorum_matched] indexes within the voters it sorted. *)
Lemma quorum_matched_spec s s0 :
  wp False (quorum_matched s) (fun _ s' _ => s' = s0) s0.
Proof.
  unfold quorum_matched. destruct (map (held_by s) (members (cfg s))) as [|h hs] eqn:E; [by apply wp_ret|].
  apply wp_unwrap; [done|]. intros Hn. apply lookup_ge_None_1 in Hn.
  assert (length (sort_desc (h :: hs)) = length (members (cfg s))) as Hlen.
  { unfold sort_desc. rewrite length_rev, merge_sort_Permutation, <- E. apply length_map. }
  rewrite Hlen in Hn. assert (0 < length (members (cfg s))) as Hpos.
  { apply (f_equal length) in E. rewrite length_map in E. rewrite E. cbn. lia. }
  unfold Config.quorum in Hn. pose proof (Nat.div_lt (length (members (cfg s))) 2 Hpos). lia.
Qed.

(** The watermarks moved forward. *)
Definition v_set_marks (c a : Round) (v : View) : View :=
  mkView (v_id v) (v_tail v) (v_agreed v) (v_last v) (v_last_term v) (v_floor v) (v_floor_term v)
    c a (v_durable v) (v_incoming v).

Definition v_applied_now (v : View) : View :=
  v_set_marks (v_commit v) (N.max (v_applied v) (N.min (v_commit v) (v_durable v))) v.

Lemma advance_apply_spec s :
  wp False advance_apply (fun _ s' _ => view s' = v_applied_now (view s)) s.
Proof.
  unfold advance_apply. apply wp_bind, wp_get. cbv zeta. apply wp_when; intros H.
  - apply N.ltb_lt in H. apply wp_bind, wp_modify, wp_emit. unfold view, v_applied_now, v_set_marks. cbn.
    f_equal. lia.
  - apply N.ltb_ge in H. unfold view, v_applied_now, v_set_marks. cbn. f_equal. lia.
Qed.

Lemma v_applied_now_ok v : view_ok v -> view_ok (v_applied_now v).
Proof. intros [H1 H2 H3 H4 H5 H6 H7]. split; cbn; try done; lia. Qed.

(** Raising [commit] keeps the invariant whatever it is raised to. *)
Lemma v_commit_ok c v :
  view_ok v -> (v_commit v <= c)%N -> view_ok (v_set_marks c (v_applied v) v).
Proof. intros [H1 H2 H3 H4 H5 H6 H7] Hc. split; cbn; try done; lia. Qed.

Lemma advance_commit_inv s : sound (view s) -> wp False advance_commit (fun _ s' _ =>
  exists c a, view s' = v_set_marks c a (view s) /\ inv s') s.
Proof.
  intros [Hi Hl]. assert (view s = v_set_marks (commit s) (applied s) (view s)) as E0 by done.
  unfold advance_commit. apply wp_bind, wp_get.
  destruct (negb _); [apply wp_ret; eauto|].
  apply wp_bind. eapply wp_mono; [apply quorum_matched_spec|]. intros q s1 w1 ->.
  destruct (N.leb_spec q (commit s)) as [|Hq]; [apply wp_ret; eauto|].
  destruct (negb _); [apply wp_ret; eauto|].
  apply wp_bind, wp_modify.
  set (s1 := s <| commit := q |>).
  assert (inv s1) as Hi1. { apply (v_commit_ok q (view s)); [done|cbn; lia]. }
  apply wp_bind. eapply wp_mono; [apply advance_apply_spec|]. intros [] s2 w2 E2.
  assert (inv s2) as Hi2 by (unfold inv; rewrite E2; by apply v_applied_now_ok).
  apply (wp_still sound); [apply bcast_append_still| |].
  { split; [done|]. rewrite E2. exact Hl. }
  intros [] s3 w3 E3. apply wp_ret.
  assert (inv s3) as Hi3 by (by eapply view_inv).
  rewrite E3, E2. eexists _, _. split; [reflexivity|done].
Qed.
