(* ===== verification/NoPanic.v ===== *)
(** No event makes a node panic, and every event keeps its invariant: the
    handlers of the state machine one by one, down to [step]. *)
From S2P Require Import Prelude Bytes Errors WalRecord Config Types Transport TransportCanonical.
From S2P Require Import Digest LogTail Payload State Office Membership Replicate SnapshotProto.
From S2P Require Import Append Election Step Hoare Votes NodeInv.

(** * Offices and configurations *)

Lemma become_follower_still P term ldr : still P (become_follower term ldr).
Proof. unfold become_follower. still_walk; done. Qed.
#[export] Hint Resolve become_follower_still : still.

Lemma redraw_timeout_still P : still P redraw_timeout.
Proof. intros s _. apply wp_redraw_timeout. by intros t r _ _. Qed.
#[export] Hint Resolve redraw_timeout_still : still.

(** The view reads only this node's own record of the progress map. *)
Lemma view_progress s m :
  m !! self_id s = progress s !! self_id s -> view (s <| progress := m |>) = view s.
Proof.
  intros E. unfold view, tail, agreed, snapshot_incoming, self_progress. cbn. by rewrite E.
Qed.

Lemma retain_progress_self me known m : retain_progress me known m !! me = m !! me.
Proof.
  unfold retain_progress. destruct (m !! me) as [p|] eqn:E.
  - apply map_lookup_filter_Some. split; [done|]. by left.
  - apply map_lookup_filter_None. by left.
Qed.

Lemma or_insert_other nx known m me :
  me ∉ known -> fold_left (or_insert nx) known m !! me = m !! me.
Proof.
  revert m. induction known as [|k known IH]; intros m H; [done|]. cbn.
  apply not_elem_of_cons in H as [Hne H]. rewrite IH by done. unfold or_insert.
  destruct (m !! k); [done|]. by rewrite lookup_insert_ne.
Qed.

Lemma self_not_peer s : self_id s ∉ peer_ids s.
Proof. unfold peer_ids. rewrite list_elem_of_filter. by intros [? _]. Qed.

Lemma apply_config_still P c : still P (apply_config c).
Proof.
  unfold apply_config. apply still_bind; [by apply still_modify|]. intros _.
  apply still_read. intros s _. apply wp_when; [|done]. intros _.
  apply wp_bind, wp_modify. set (s1 := s <| progress := _ |>).
  assert (view s1 = view s) as E1 by (apply view_progress, retain_progress_self).
  apply wp_bind, wp_modify. set (s2 := s1 <| progress := _ |>).
  assert (view s2 = view s) as E2.
  { rewrite <- E1. apply (view_progress s1). apply or_insert_other, (self_not_peer s). }
  apply wp_when; intros _; [|done]. eapply wp_mono; [by apply (become_follower_still (fun _ => True))|].
  cbn. congruence.
Qed.
#[export] Hint Resolve apply_config_still : still.

Lemma note_config_in_log_still P c : still P (note_config_in_log c).
Proof. unfold note_config_in_log, latch_damaged. still_walk; done. Qed.

Lemma observe_quorum_watermark_still P w : still P (observe_quorum_watermark w).
Proof. unfold observe_quorum_watermark. still_walk; done. Qed.

Lemma observe_config_at_still P at_ : still P (observe_config_at at_).
Proof. unfold observe_config_at. still_walk; done. Qed.
#[export] Hint Resolve observe_quorum_watermark_still observe_config_at_still note_config_in_log_still : still.

(** * Taking office *)

Definition v_led (v : View) : View :=
  mkView (v_id v) (v_tail v) (v_durable v) (v_last v) (v_last_term v) (v_floor v) (v_floor_term v)
    (v_commit v) (v_applied v) (v_durable v) None.

Lemma v_led_ok v : view_ok v -> view_ok (v_led v).
Proof. intros [H1 H2 H3 H4 H5 H6 H7]. by split. Qed.

Lemma v_led_set_agreed r v : v_led (v_set_agreed r v) = v_led v.
Proof. done. Qed.

Lemma v_led_update n nx s : v_led (view (update_progress n (reset_peer nx) s)) = v_led (view s).
Proof.
  destruct (decide (n = self_id s)) as [->|Hne]; [|by rewrite view_update_other].
  rewrite view_update_self. unfold v_led. cbn. by rewrite tail_self_progress.
Qed.

Lemma init_leader_progress_spec s :
  inv s -> wp False init_leader_progress (fun _ s' _ => view s' = v_led (v_ensured (view s))) s.
Proof.
  intros Hi. unfold init_leader_progress. apply wp_bind. eapply wp_mono; [by apply ensure_log_spec|].
  intros [] s1 _ E1. apply wp_bind, wp_get, wp_bind, wp_modify, wp_bind.
  set (s2 := s1 <| progress := _ |>).
  assert (view s2 = view s1) as E2 by (apply view_progress, retain_progress_self).
  eapply wp_mono.
  - apply (wp_for_each False _ _ (fun s3 _ => v_led (view s3) = v_led (view s1) /\ durable s3 = durable s1)).
    + intros n s3 w3 _ [E3 Ed]. apply wp_modify. split; [|done]. by rewrite v_led_update.
    + by rewrite E2.
  - intros [] s3 w3 [E3 Ed]. apply wp_modify. rewrite view_update_self, <- E1, <- E3.
    unfold v_led. cbn. rewrite tail_self_progress. by rewrite <- Ed.
Qed.

Lemma view_all_next nx s :
  view (s <| progress := (fun p => p <| next := nx |>) <$> progress s |>) = view s.
Proof.
  unfold view, tail, agreed, snapshot_incoming, self_progress. cbn. rewrite !lookup_fmap.
  by destruct (progress s !! self_id s).
Qed.

Lemma on_became_leader_inv s :
  inv s -> (last_round s < max_u64)%N -> wp False on_became_leader (fun _ s' _ => inv s') s.
Proof.
  intros Hi Hm. unfold on_became_leader. apply wp_bind. eapply wp_mono; [by apply init_leader_progress_spec|].
  intros [] s1 _ E1. set (t := default (LogTail.rebased (snapshot_round s) 0) (tail s)).
  assert (inv s1) as Hi1 by (unfold inv; rewrite E1; by apply v_led_ok, v_ensured_ok).
  assert (tail s1 = Some t) as Et1 by exact (f_equal v_tail E1).
  assert (last_round s1 = last_round s) as El by exact (f_equal v_last E1).
  apply wp_bind. eapply wp_mono; [apply (append_own_entry_spec NoOp s1 t Hi1 Et1); lia|].
  intros r s2 _ (t' & E2 & Hwf & Hb & He).
  pose proof (appended_ok (mkEntry (term_of s1) (last_round s1 + 1) NoOp) s1 t t' Hi1 Et1 Hwf Hb He) as Hok.
  apply wp_bind, wp_get, wp_bind, wp_modify, wp_bind, wp_modify.
  set (s3 := s2 <| progress := _ |>). set (s4 := update_progress _ _ s3).
  assert (view s4 = view s2) as E4.
  { unfold s4. rewrite view_update_self_same by done. apply view_all_next. }
  assert (sound (view s4)) as Hs4 by (rewrite E4, E2; by split; [exact Hok|]).
  eapply wp_mono; [by apply bcast_append_still|]. cbn. intros [] s5 w5 E5. unfold inv. rewrite E5. apply Hs4.
Qed.

Lemma become_leader_inv s :
  inv s -> (last_round s < max_u64)%N -> wp False become_leader (fun _ s' _ => inv s') s.
Proof.
  intros Hi Hm. unfold become_leader. apply wp_bind, wp_modify, wp_bind, wp_get, wp_bind, wp_emit.
  by apply on_became_leader_inv.
Qed.

(** A command that leaves the invariant standing, with one round of headroom. *)
Definition sturdy {A : Type} (m : M A) : Prop :=
  forall s, inv s -> (last_round s < max_u64)%N -> wp False m (fun _ s' _ => inv s') s.

Lemma still_sturdy {A : Type} (m : M A) : still view_ok m -> sturdy m.
Proof.
  intros Hm s Hi _. eapply wp_mono; [by apply Hm|]. cbn. intros a s' _ E. by eapply view_inv.
Qed.

Lemma sturdy_bind {A B : Type} (m : M A) (k : A -> M B) :
  still view_ok m -> (forall a, sturdy (k a)) -> sturdy (m ≫= k).
Proof.
  intros Hm Hk s Hi Hl. apply (wp_still view_ok); [done|done|]. intros a s1 w1 E1.
  apply Hk; [by eapply view_inv|]. change (v_last (view s1) < max_u64)%N. by rewrite E1.
Qed.

Lemma sturdy_read {B : Type} (k : Consensus -> M B) : (forall s, sturdy (k s)) -> sturdy (get ≫= k).
Proof. intros Hk. apply sturdy_bind; [apply still_get|done]. Qed.

Lemma sturdy_when b m : sturdy m -> sturdy (when b m).
Proof. destruct b; [done|]. intros _. apply still_sturdy, still_ret. Qed.

Lemma become_candidate_sturdy : sturdy become_candidate.
Proof.
  unfold become_candidate. apply sturdy_bind; [by apply still_modify|intros _].
  apply sturdy_bind; [apply redraw_timeout_still|intros _]. apply sturdy_read. intros s.
  do 2 (apply sturdy_bind; [apply still_emit|intros _]).
  destruct (campaign_has_quorum s); [exact become_leader_inv|].
  apply still_sturdy. still_walk.
Qed.

Lemma start_precampaign_sturdy : sturdy start_precampaign.
Proof.
  unfold start_precampaign. apply sturdy_bind; [by apply still_modify|intros _].
  apply sturdy_bind; [apply redraw_timeout_still|intros _]. apply sturdy_read. intros s.
  apply sturdy_bind; [apply still_emit|intros _].
  destruct (campaign_has_quorum s); [exact become_candidate_sturdy|].
  apply still_sturdy. still_walk.
Qed.

(** * The clock *)

Lemma bcast_append_inv s : inv s -> wp False bcast_append (fun _ s' _ => inv s') s.
Proof.
  intros Hi. unfold bcast_append. apply wp_bind, wp_get, wp_when; [|done]. intros _.
  apply (wp_for_each False _ _ (fun s' _ => inv s')); [|done].
  intros peer s1 w1 _ Hi1. eapply wp_mono; [by apply send_append_to_spec|]. cbn. unfold inv.
  intros [] s2 _ [->| ->]; [done|by apply v_ensured_ok].
Qed.

Lemma age_peer_still P id : still P (modify (fun s => age_peer s id)).
Proof.
  intros s _. apply wp_modify. unfold age_peer. destruct (progress s !! id) as [p|] eqn:E; [|done].
  rewrite <- (view_update_same id (fun p => p <| silent := sadd32 (silent p) 1 |>) s) by done.
  unfold update_progress. by rewrite E.
Qed.
#[export] Hint Resolve age_peer_still : still.

Lemma on_tick_sturdy : sturdy on_tick.
Proof.
  unfold on_tick. apply sturdy_read. intros s.
  assert (sturdy voter_tick) as Hv.
  { unfold voter_tick. apply sturdy_bind; [by apply still_modify|intros _].
    apply sturdy_read. intros s1. destruct (_ <? _)%N; [apply still_sturdy, still_ret|].
    destruct (may_campaign s1); [exact start_precampaign_sturdy|]. apply still_sturdy. by still_walk. }
  destruct (role s); [exact Hv..|].
  unfold leader_tick. apply sturdy_read. intros s1.
  destruct (negb _); [apply still_sturdy, become_follower_still|].
  apply sturdy_bind; [still_walk|intros _]. apply sturdy_bind; [by apply still_modify|intros _].
  apply sturdy_read. intros s2. destruct (_ <=? _)%N; [apply still_sturdy, become_follower_still|].
  apply sturdy_bind; [by apply still_modify|intros _]. apply sturdy_read. intros s3. apply sturdy_when.
  apply sturdy_bind; [by apply still_modify|intros _]. intros s4 Hi _. by apply bcast_append_inv.
Qed.

(** * Votes *)

Lemma on_vote_msg_sturdy m : is_vote_body (m_body m) = true -> sturdy (on_vote_msg m).
Proof.
  intros Hb. unfold on_vote_msg. destruct (m_body m); try done.
  - apply still_sturdy. unfold on_pre_vote. still_walk.
  - unfold on_pre_vote_resp. apply sturdy_read. intros s.
    do 4 (destruct (negb _); [apply still_sturdy, still_ret|]).
    apply sturdy_bind; [by apply still_modify|intros _]. apply sturdy_read. intros s1.
    apply sturdy_when, become_candidate_sturdy.
  - apply still_sturdy. unfold on_request_vote. by still_walk.
  - unfold on_request_vote_resp. apply sturdy_read. intros s.
    do 4 (destruct (negb _); [apply still_sturdy, still_ret|]).
    apply sturdy_bind; [by apply still_modify|intros _]. apply sturdy_read. intros s1.
    apply sturdy_when. exact become_leader_inv.
Qed.
