(* ===== verification/AppendInv.v ===== *)
(** What an append does to the log of the node that receives it: the parts of
    [on_append] ([src/src/consensus/replicate.rs]) and the view each leaves. *)
From S2P Require Import Prelude Bytes Errors WalRecord Config Types Transport TransportCanonical.
From S2P Require Import Digest LogTail Payload State Office Membership Replicate SnapshotProto.
From S2P Require Import Append Election Step Hoare Votes NodeInv NoPanic.

Lemma malformed_contiguous prev term k es :
  malformed prev term k es = false -> (prev + k + blen es <= max_u64)%N ->
  contiguous (prev + 1 + k)%N es.
Proof.
  revert k. induction es as [|e es IH]; intros k H Hm; [done|]. cbn [malformed] in H. rewrite blen_cons in Hm.
  apply orb_false_elim in H as [H H3]. apply orb_false_elim in H as [H1 _].
  apply negb_false_iff, N.eqb_eq in H1. rewrite (wadd64_small prev 1), wadd64_small in H1 by lia.
  split; [lia|]. rewrite <- N.add_assoc. apply IH; [done|lia].
Qed.

Lemma malformed_terms prev term k es :
  malformed prev term k es = false -> Forall (fun e => (e_term e <= term)%N) es.
Proof.
  revert k. induction es as [|e es IH]; intros k H; [constructor|]. cbn [malformed] in H.
  apply orb_false_elim in H as [H H3]. apply orb_false_elim in H as [_ H2].
  constructor; [by apply N.ltb_ge|by eapply IH].
Qed.

(** What [skip_held] skips is in the log; what it leaves starts at a
    conflicting round, or at a round the log does not have. *)
Lemma skip_held_spec s es fresh conflict :
  skip_held s es = (fresh, conflict) ->
  exists held, es = held ++ fresh
    /\ Forall (fun e => term_at s (e_round e) = Some (e_term e)) held
    /\ match conflict with
       | Some r => exists e rest t, fresh = e :: rest /\ r = e_round e /\ term_at s r = Some t /\ t <> e_term e
       | None => fresh = [] \/ exists e rest, fresh = e :: rest /\ term_at s (e_round e) = None
       end.
Proof.
  revert fresh conflict. induction es as [|e es IH]; intros fresh conflict H; cbn [skip_held] in H.
  { injection H as <- <-. exists []. split; [done|]. split; [constructor|by left]. }
  destruct (term_at s (e_round e)) as [t|] eqn:Et.
  - destruct (N.eqb_spec t (e_term e)) as [->|Hne].
    + destruct (IH _ _ H) as (held & -> & Hh & Hc). exists (e :: held). split; [done|].
      split; [by constructor|done].
    + injection H as <- <-. exists []. split; [done|]. split; [constructor|]. by eexists _, _, _.
  - injection H as <- <-. exists []. split; [done|]. split; [constructor|]. right. by eexists _, _.
Qed.

(** The rounds of the held entries end at [prev + blen held], which the log has. *)
Lemma held_in_log s prev held t :
  inv s -> term_at s prev = Some t -> contiguous (prev + 1) held ->
  Forall (fun e => term_at s (e_round e) = Some (e_term e)) held ->
  (snapshot_round s <= prev /\ prev + blen held <= last_round s)%N.
Proof.
  intros Hi Hp Hc Hh. pose proof (ok_log _ Hi) as Hlog.
  pose proof (v_term_at_range _ _ _ Hlog Hp) as Hr. cbn in Hr.
  destruct (last held) as [e|] eqn:El.
  - apply last_Some in El as [held' ->]. apply contiguous_app in Hc as [_ [He _]].
    apply Forall_app in Hh as [_ Hh]. apply Forall_cons in Hh as [Hh _].
    pose proof (v_term_at_range _ _ _ Hlog Hh) as Hre. cbn in Hre.
    rewrite blen_app, blen_cons, blen_nil. lia.
  - apply last_None in El as ->. rewrite blen_nil. lia.
Qed.

(** Without a conflict, the entries left over continue the log. *)
Lemma fresh_continues s prev held fresh t :
  inv s -> term_at s prev = Some t -> contiguous (prev + 1) (held ++ fresh) ->
  Forall (fun e => term_at s (e_round e) = Some (e_term e)) held ->
  (fresh = [] \/ exists e rest, fresh = e :: rest /\ term_at s (e_round e) = None) ->
  contiguous (last_round s + 1) fresh
  /\ (prev + blen (held ++ fresh) <= last_round s + blen fresh)%N.
Proof.
  intros Hi Hp [Hc1 Hc2]%contiguous_app Hh Hf.
  destruct (held_in_log s prev held t Hi Hp Hc1 Hh) as [Hlo Hhi].
  rewrite blen_app. split; [|lia]. destruct Hf as [->|(e & rest & -> & Hn)]; [done|].
  assert (prev + 1 + blen held = last_round s + 1)%N as E.
  { destruct Hc2 as [He _]. destruct (decide (e_round e <= last_round s)%N) as [Hle|]; [|lia].
    destruct (v_term_at_Some (view s) (e_round e) (ok_log _ Hi)) as [x Hx]; [cbn; lia|].
    rewrite <- term_at_view in Hx. congruence. }
  by rewrite <- E.
Qed.

(** * Truncating *)

Definition v_set_durable (d : Round) (v : View) : View :=
  mkView (v_id v) (v_tail v) (v_agreed v) (v_last v) (v_last_term v) (v_floor v) (v_floor_term v)
    (v_commit v) (v_applied v) d (v_incoming v).

(** The log cut below [r], as the view has it. *)
Definition v_cut (r : Round) (lt : Term) (t : LogTail) (v : View) : View :=
  v_set_durable (N.min (v_durable v) (r - 1)) (v_set_last (r - 1) lt (v_set_tail t v)).

Lemma cut_log_ok v t r :
  log_ok v -> v_tail v = Some t -> (v_floor v < r <= v_last v)%N ->
  forall lt k, log_ok (v_cut r lt ((LogTail.truncate_from t r) <| rewritten_in_term := k |>) v).
Proof.
  unfold log_ok. intros H Et Hr lt k. rewrite Et in H. destruct H as (Hwf & Hb & Hl). cbn.
  destruct (truncate_from_wf t r Hwf) as ([W1 W2 W3] & Hb' & _ & Hl'); [lia|].
  split; [by split|]. split; [congruence|]. change (LogTail.last_round (LogTail.truncate_from t r) = r - 1)%N.
  lia.
Qed.

Lemma v_cut_ok r lt t v :
  view_ok v -> log_ok (v_cut r lt t v) -> v_term_at (v_cut r lt t v) (r - 1) = Some lt ->
  view_ok (v_set_agreed 0 (v_cut r lt t v)).
Proof.
  intros [H1 H2 H3 H4 H5 H6 H7] Hl Ht. split; cbn; try done; lia.
Qed.

Lemma truncate_conflict_spec r s t :
  inv s -> tail s = Some t -> (snapshot_round s < r <= last_round s)%N ->
  wp False (truncate_conflict r) (fun _ s' _ => exists lt,
    let t' := (LogTail.truncate_from t r) <| rewritten_in_term := term_of s |> in
    view s' = v_cut r lt t' (view s) /\ view_ok (v_set_agreed 0 (view s'))) s.
Proof.
  intros Hi Et Hr. unfold truncate_conflict. apply wp_bind, wp_get, wp_bind.
  eapply wp_mono; [by apply tail_mut_spec|]. intros a s1 _ [-> E1].
  apply wp_bind. eapply wp_mono; [apply put_tail_spec|]. intros [] s2 _ E2.
  apply wp_bind, wp_emit, wp_bind, wp_modify, wp_bind, wp_get, wp_bind.
  set (t' := (LogTail.truncate_from t r) <| rewritten_in_term := term_of s |>) in *.
  set (s3 := s2 <| last_round := (r - 1)%N |>).
  assert (view s3 = v_set_last (r - 1) (last_term s) (v_set_tail t' (view s))) as E3.
  { change (view s3) with (v_set_last (r - 1) (v_last_term (view s2)) (view s2)). by rewrite E2, E1. }
  pose proof (cut_log_ok (view s) t r (ok_log _ Hi) Et Hr) as Hcut.
  assert (durable s3 = durable s) as Hdu by exact (f_equal v_durable E3).
  assert (forall lt, term_at s3 (r - 1) = v_term_at (v_cut r lt t' (view s)) (r - 1)) as Hterm.
  { intros lt. rewrite term_at_view, E3. done. }
  apply wp_unwrap.
  - intros lt Hlt. apply wp_bind, wp_modify.
    assert (view_ok (v_set_agreed 0 (v_cut r lt t' (view s)))) as Hok.
    { apply v_cut_ok; [done|apply Hcut|]. by rewrite <- Hterm. }
    apply wp_when; [intros Hd|intros Hd; apply N.ltb_ge in Hd].
    + apply N.ltb_lt in Hd. apply wp_modify. exists lt. cbv zeta.
      match goal with |- view ?x = _ /\ _ => assert (view x = v_cut r lt t' (view s)) as -> end; [|done].
      change (v_set_durable (r - 1) (v_set_last (r - 1) lt (view s3)) = v_cut r lt t' (view s)).
      rewrite E3. unfold v_cut. change (r - 1 < durable s3)%N in Hd. rewrite Hdu in Hd. cbn. by rewrite N.min_r by lia.
    + exists lt. cbv zeta.
      match goal with |- view ?x = _ /\ _ => assert (view x = v_cut r lt t' (view s)) as -> end; [|done].
      change (v_set_durable (v_durable (view s3)) (v_set_last (r - 1) lt (view s3)) = v_cut r lt t' (view s)).
      rewrite E3. unfold v_cut. change (durable s3 <= r - 1)%N in Hd. rewrite Hdu in Hd. cbn. by rewrite N.min_l by lia.
  - intros Hn. destruct (v_term_at_Some (v_cut r 0 t' (view s)) (r - 1)) as [x Hx].
    + apply Hcut.
    + cbn. lia.
    + rewrite <- Hterm in Hx. congruence.
Qed.

(** * Extending *)

Lemma v_agreed_ok x v : view_ok (v_set_agreed 0 v) -> (x <= v_last v)%N -> view_ok (v_set_agreed x v).
Proof. intros [H1 H2 H3 H4 H5 H6 H7] Hx. by split. Qed.

(** The view once [fresh] is behind the log and [x] is agreed. *)
Definition v_grown (x : Round) (n : N) (lt : Term) (t : LogTail) (v : View) : View :=
  v_set_agreed x (v_set_last (v_last v + n) lt (v_set_tail t v)).

(** The branch of [extend_log] that appends, or answers at once. *)
Lemma append_fresh_spec from fresh x s t :
  view_ok (v_set_agreed 0 (view s)) -> tail s = Some t ->
  contiguous (last_round s + 1) fresh -> (x <= last_round s + blen fresh <= max_u64)%N ->
  agreed s = x ->
  wp False
    (match last fresh with
     | None => s ← get; emit (acknowledgement s from)
     | Some l =>
         _ ← for_each fresh push_entry;
         _ ← modify (fun s => s <| last_round := e_round l |> <| last_term := e_term l |>);
         emit (Persist fresh)
     end)
    (fun _ s' _ => exists t' lt, view s' = v_grown x (blen fresh) lt t' (view s) /\ view_ok (view s')
       /\ tail_wf t' /\ base t' = base t /\ entries t' = entries t ++ fresh
       /\ rewritten_in_term t' = rewritten_in_term t) s.
Proof.
  intros Hok Et Hc Hx Hag. pose proof (ok_log _ Hok) as Hl. unfold log_ok in Hl. cbn in Hl. rewrite Et in Hl.
  destruct Hl as (Hwf & Hb & Hl).
  destruct (last fresh) as [l|] eqn:El.
  - apply wp_bind. eapply wp_mono.
    { apply (push_all_spec fresh s t Et Hwf); rewrite Hl; [done|lia]. }
    intros [] s1 _ (t' & E1 & Hwf' & Hb' & He' & Hr'). apply wp_bind, wp_modify, wp_emit.
    assert (e_round l = last_round s + blen fresh)%N as Er.
    { apply last_Some in El as [fr ->]. apply contiguous_app in Hc as [_ [-> _]].
      rewrite blen_app, blen_cons, blen_nil. lia. }
    exists t', (e_term l).
    match goal with |- view ?st = _ /\ _ =>
      assert (view st = v_grown x (blen fresh) (e_term l) t' (view s)) as E2 end.
    { match goal with |- view ?st = _ => change (view st) with (v_set_last (e_round l) (e_term l) (view s1)) end.
      rewrite E1, Er, <- Hag. done. }
    rewrite E2. split; [done|]. split; [|done]. unfold v_grown. apply v_agreed_ok; [|cbn; lia].
    exact (v_extended_ok (v_set_agreed 0 (view s)) t t' l fresh Hok Et Hwf' Hb' He' El).
  - apply last_None in El as ->. rewrite blen_nil in Hx. apply wp_bind, wp_get, wp_emit. exists t, (last_term s).
    assert (view s = v_grown x (blen (@nil Entry)) (last_term s) t (view s)) as E.
    { unfold v_grown, v_set_agreed, v_set_last, v_set_tail, view. cbn. rewrite N.add_0_r, Et. by rewrite <- Hag. }
    split; [done|]. split.
    + rewrite E. apply v_agreed_ok; [|cbn; lia].
      replace (v_set_agreed 0 _) with (v_set_agreed 0 (view s)); [done|].
      unfold v_set_agreed, v_set_last, v_set_tail, view. cbn. by rewrite N.add_0_r, Et.
    + by rewrite app_nil_r.
Qed.

Lemma extend_log_spec from prev count fresh conflict newest lc s t :
  let kept := match conflict with Some r => N.min (agreed s) (r - 1) | None => agreed s end in
  let x := N.max kept (prev + count) in
  view_ok (v_set_agreed 0 (view s)) -> tail s = Some t -> (kept <= last_round s)%N ->
  contiguous (last_round s + 1) fresh -> (prev + count <= last_round s + blen fresh <= max_u64)%N ->
  wp False (extend_log from prev count fresh conflict newest lc)
    (fun _ s' _ => exists t' lt,
       view s' = v_applied_now (v_set_marks (N.max (commit s) (N.min lc x)) (applied s)
                                  (v_grown x (blen fresh) lt t' (view s)))
       /\ view_ok (view s') /\ tail_wf t' /\ base t' = base t /\ entries t' = entries t ++ fresh
       /\ rewritten_in_term t' = rewritten_in_term t) s.
Proof.
  intros kept x Hok Et Hk Hc Hx. unfold extend_log. apply wp_bind, wp_get.
  rewrite (wadd64_small prev count) by lia. fold kept. fold x.
  apply wp_bind. eapply wp_mono; [apply set_agreed_spec|]. intros [] s1 _ E1.
  apply wp_bind. eapply wp_mono.
  { apply (append_fresh_spec from fresh x s1 t).
    - rewrite E1. exact Hok.
    - exact (eq_trans (f_equal v_tail E1) Et).
    - change (last_round s1) with (v_last (view s1)). by rewrite E1.
    - change (last_round s1) with (v_last (view s1)). rewrite E1. cbn. lia.
    - exact (f_equal v_agreed E1). }
  intros [] s2 _ (t' & lt & E2 & Hok2 & Hwf & Hb & He & Hrw). rewrite E1 in E2.
  assert (agreed s2 = x) as Ea by exact (f_equal v_agreed E2).
  assert (commit s2 = commit s) as Ec by exact (f_equal v_commit E2).
  apply wp_bind, wp_get. rewrite Ea, Ec. apply wp_bind.
  set (g := v_grown x (blen fresh) lt t' (view s)) in *.
  set (g1 := v_set_marks (N.max (commit s) (N.min lc x)) (applied s) g).
  assert (view s2 = g) as E2' by exact E2.
  apply (wp_mono _ _ (fun _ s3 _ => view s3 = g1)).
  { apply wp_when; intros H.
    - apply N.ltb_lt in H. apply wp_modify.
      change (v_set_marks (N.min lc x) (v_applied (view s2)) (view s2) = g1). rewrite E2'. unfold g1.
      by rewrite N.max_r by lia.
    - apply N.ltb_ge in H. rewrite E2'. unfold g1. rewrite N.max_l by lia. done. }
  intros [] s3 _ E3.
  assert (view_ok g1) as Hg1.
  { apply (v_commit_ok (N.max (commit s) (N.min lc x)) g); [by rewrite <- E2'|cbn; lia]. }
  apply (wp_still (fun _ => True)); [apply observe_quorum_watermark_still|done|].
  intros [] s4 w4 E4. apply (wp_still (fun _ => True)); [|done|].
  { destruct newest; [apply observe_config_at_still|apply still_ret]. }
  intros [] s5 w5 E5. eapply wp_mono; [apply advance_apply_spec|]. intros [] s6 _ E6.
  exists t', lt. rewrite E6, E5, E4, E3. split; [done|]. split; [by apply v_applied_now_ok|done].
Qed.

(** * The whole handler *)

(** The entry a node's log has at a round. *)
Definition log_entry (v : View) (r : Round) : option Entry := v_tail v ≫= fun t => entry_at t r.

Lemma entry_at_member t e : tail_wf t -> e ∈ entries t -> entry_at t (e_round e) = Some e.
Proof.
  intros Hwf [i Hi]%list_elem_of_lookup.
  pose proof (contiguous_lookup _ _ _ _ (wf_contiguous _ Hwf) Hi) as Hr. unfold entry_at.
  destruct (N.ltb_spec (base t) (e_round e)); [|lia]. rewrite <- Hi. f_equal. unfold LogTail.index_of. lia.
Qed.

Lemma entry_at_app t t' fresh r :
  tail_wf t -> base t' = base t -> entries t' = entries t ++ fresh -> (r <= LogTail.last_round t)%N ->
  entry_at t' r = entry_at t r.
Proof.
  intros Hwf Hb He Hr. rewrite last_round_val in Hr by done. unfold entry_at, LogTail.index_of.
  rewrite Hb, He. destruct (N.ltb_spec (base t) r); [|done]. apply lookup_app_l. unfold blen in *. lia.
Qed.

Lemma v_term_at_entry v r :
  log_ok v -> v_term_at v r = if (r =? v_floor v)%N then Some (v_floor_term v) else e_term <$> log_entry v r.
Proof.
  unfold log_ok, v_term_at, log_entry. intros H. destruct (_ =? _)%N; [done|].
  destruct (v_tail v) as [t|]; [|done]. cbn. apply term_at_entry_at, H.
Qed.

(** The log unchanged up to [b]. *)
Definition same_upto (b : Round) (v v' : View) : Prop :=
  v_floor v' = v_floor v /\ v_floor_term v' = v_floor_term v
  /\ forall r, (r <= b)%N -> log_entry v' r = log_entry v r.

Lemma same_upto_term b v v' r :
  log_ok v -> log_ok v' -> same_upto b v v' -> (r <= b)%N -> v_term_at v' r = v_term_at v r.
Proof. intros H H' (E1 & E2 & E3) Hr. rewrite !v_term_at_entry by done. by rewrite E1, E2, E3. Qed.

(** What an append may do: refuse, leaving the log as it is, or make the batch
    part of the log, above a boundary no committed round is above. *)
Definition append_outcome (prev : Round) (es : list Entry) (v v' : View) : Prop :=
  (v' = v \/ v' = v_set_agreed 0 v)
  \/ (exists b, same_upto b v v' /\ (N.min (v_commit v) (v_last v) <= b)%N
      /\ Forall (fun e => v_term_at v' (e_round e) = Some (e_term e)) es
      /\ (prev + blen es <= v_agreed v')%N /\ (v_commit v <= v_commit v')%N).

(** The shared end of the two accepting branches: [v0] is the view before the
    append, [v] the one whose log ends where the fresh entries start. *)
Lemma accepted_outcome prev held fresh c a x n lt t t' v0 v :
  log_ok v0 -> same_upto (v_last v) v0 v -> v_commit v = v_commit v0 ->
  (N.min (v_commit v0) (v_last v0) <= v_last v)%N ->
  Forall (fun e => v_term_at v0 (e_round e) = Some (e_term e) /\ (e_round e <= v_last v)%N) held ->
  contiguous (v_last v + 1) fresh -> (prev + blen (held ++ fresh) <= x)%N -> (v_commit v0 <= c)%N ->
  v_tail v = Some t -> tail_wf t -> LogTail.last_round t = v_last v ->
  tail_wf t' -> base t' = base t -> entries t' = entries t ++ fresh -> (v_floor v <= v_last v)%N ->
  let v' := v_applied_now (v_set_marks c a (v_grown x n lt t' v)) in
  view_ok v' -> append_outcome prev (held ++ fresh) v0 v'.
Proof.
  intros Hl0 (S1 & S2 & S3) Hcm Hb Hh Hc Hx Hcc Et Hwf Hl Hwf' Hbb He Hfl v' Hok'. right. exists (v_last v).
  assert (same_upto (v_last v) v0 v') as Hs.
  { split; [done|]. split; [done|]. intros r Hr. rewrite <- S3 by done. unfold log_entry. cbn. rewrite Et. cbn.
    apply (entry_at_app t t' fresh); [done..|lia]. }
  split; [done|]. split; [done|]. split; [|split; [done|done]]. apply Forall_app. split.
  - eapply Forall_impl; [exact Hh|]. cbn. intros e [Ht Hr]. rewrite <- Ht.
    apply (same_upto_term (v_last v)); [done|apply Hok'|done|done].
  - apply Forall_forall. intros e Hin. rewrite v_term_at_entry by apply Hok'.
    assert (entry_at t' (e_round e) = Some e) as Hent.
    { apply entry_at_member; [done|]. rewrite He. apply elem_of_app. by right. }
    assert (log_entry v' (e_round e) = Some e) as -> by exact Hent.
    apply list_elem_of_lookup in Hin as [i Hi]. pose proof (contiguous_lookup _ _ _ _ Hc Hi) as Hr.
    change (v_floor v') with (v_floor v). destruct (N.eqb_spec (e_round e) (v_floor v)); [lia|done].
Qed.

Lemma adopt_leader_spec from term s :
  wp False (adopt_leader from term)
    (fun _ s' _ => view s' = view s \/ view s' = v_set_agreed 0 (view s)) s.
Proof.
  unfold adopt_leader. apply wp_bind, wp_get. apply (wp_still (fun _ => True)); [|done|].
  { destruct (_ || _); [apply become_follower_still|by apply still_modify]. }
  intros [] s1 w1 E1. apply wp_when; intros _; [|by left].
  eapply wp_mono; [apply set_agreed_spec|]. cbn. intros [] s2 _ E2. right. by rewrite E2, E1.
Qed.

Lemma adopted_ok v v' : v' = v \/ v' = v_set_agreed 0 v -> sound v -> sound v'.
Proof.
  intros [->| ->]; [done|]. intros [[H1 H2 H3 H4 H5 H6 H7] Ht]. split; [|done]. split; try done. cbn. lia.
Qed.

Lemma append_outcome_adopted prev es v v1 v' :
  v1 = v \/ v1 = v_set_agreed 0 v -> append_outcome prev es v1 v' -> append_outcome prev es v v'.
Proof.
  intros [->| ->]; [done|]. intros [[->| ->]|(b & Hs & Hr)]; [left; by right..|]. right. by exists b.
Qed.

Lemma sound_tail s : sound (view s) -> exists t, tail s = Some t /\ tail_wf t /\ base t = snapshot_round s
  /\ LogTail.last_round t = last_round s.
Proof.
  intros [[H _ _ _ _ _ _] [t Et]]. exists t. unfold log_ok in H. rewrite Et in H. by split.
Qed.

(** The batch continues the log. *)
Lemma append_continues from prev es held fresh newest lc s t0 :
  sound (view s) -> (last_round s + blen es <= max_u64)%N -> es = held ++ fresh ->
  contiguous (prev + 1) es -> term_at s prev = Some t0 ->
  Forall (fun e => term_at s (e_round e) = Some (e_term e)) held ->
  fresh = [] \/ (exists e rest, fresh = e :: rest /\ term_at s (e_round e) = None) ->
  wp False (extend_log from prev (blen es) fresh None newest lc)
    (fun _ s' _ => sound (view s') /\ append_outcome prev es (view s) (view s')) s.
Proof.
  intros Hs Hm -> Hc Hp Hh Hf. destruct (sound_tail s Hs) as (t & Et & Hwf & Hb & Hl).
  destruct Hs as [Hok _]. pose proof (log_ok_last _ (ok_log _ Hok)) as Hlast. cbn in Hlast.
  destruct (fresh_continues s prev held fresh t0 Hok Hp Hc Hh Hf) as [Hcf Hle]. rewrite blen_app in Hm.
  eapply wp_mono.
  { apply (extend_log_spec from prev (blen (held ++ fresh)) fresh None newest lc s t); [|done|..].
    - destruct Hok as [H1 H2 H3 H4 H5 H6 H7]. split; try done. cbn. lia.
    - apply (ok_agreed _ Hok).
    - done.
    - lia. }
  intros [] s' _ (t' & lt & E & Hok' & Hwf' & Hb' & He' & _). split; [by rewrite E in *|].
  rewrite E in *. eapply accepted_outcome; [apply Hok|done|done|cbn; lia| |done| |cbn; lia|done..| |done].
  - eapply Forall_impl; [exact Hh|]. cbn. intros e He. split; [done|].
    apply (v_term_at_range _ _ _ (ok_log _ Hok) He).
  - lia.
  - apply Hlast.
Qed.

(** The batch conflicts with the log from [r], above the commit point. *)
Lemma append_conflicts from prev es held e rest newest lc s :
  sound (view s) -> (last_round s + blen es <= max_u64)%N -> es = held ++ e :: rest ->
  contiguous (prev + 1) es -> (commit s < e_round e <= last_round s)%N ->
  Forall (fun e => term_at s (e_round e) = Some (e_term e)) held ->
  wp False (_ ← truncate_conflict (e_round e);
            extend_log from prev (blen es) (e :: rest) (Some (e_round e)) newest lc)
    (fun _ s' _ => sound (view s') /\ append_outcome prev es (view s) (view s')) s.
Proof.
  intros Hs Hm -> Hc Hr Hh. destruct (sound_tail s Hs) as (t & Et & Hwf & Hb & Hl).
  destruct Hs as [Hok _]. pose proof (log_ok_last _ (ok_log _ Hok)) as Hlast. cbn in Hlast.
  pose proof (ok_applied _ Hok) as Ha. pose proof (ok_floor _ Hok) as Hfl. cbn in Ha, Hfl.
  rewrite blen_app in Hm. apply contiguous_app in Hc as [Hch Hcf].
  assert (e_round e = prev + 1 + blen held)%N as Er by apply Hcf.
  apply wp_bind. eapply wp_mono; [apply (truncate_conflict_spec (e_round e) s t Hok Et); lia|].
  intros [] s1 _ (lt & E1 & Hok1). cbv zeta in E1.
  set (t1 := (LogTail.truncate_from t (e_round e)) <| rewritten_in_term := term_of s |>) in *.
  assert (tail s1 = Some t1) as Et1 by exact (f_equal v_tail E1).
  assert (last_round s1 = e_round e - 1)%N as El1 by exact (f_equal v_last E1).
  assert (tail_wf t1 /\ base t1 = base t /\ LogTail.last_round t1 = e_round e - 1)%N as (Hwf1 & Hb1 & Hl1).
  { pose proof (ok_log _ Hok1) as H. rewrite E1 in H. cbn in H. destruct H as (? & ? & ?). by rewrite Hb. }
  eapply wp_mono.
  { apply (extend_log_spec from prev (blen (held ++ e :: rest)) (e :: rest) (Some (e_round e)) newest lc s1 t1);
      [done|done|lia| |].
    - rewrite El1. replace (e_round e - 1 + 1)%N with (prev + 1 + blen held)%N by lia. done.
    - rewrite El1, blen_app. lia. }
  intros [] s' _ (t' & lt' & E & Hok' & Hwf' & Hb' & He' & _). split; [by rewrite E in *|].
  rewrite E in *. eapply (accepted_outcome prev held (e :: rest) _ _ _ _ _ t1 t' (view s) (view s1));
    [apply Hok| | | | | | | |exact Et1|done|..|exact Hok'].
  - rewrite E1. split; [done|]. split; [done|]. cbn. intros r Hle. unfold log_entry. cbn. rewrite Et. cbn.
    change (entry_at t1 r) with (entry_at (LogTail.truncate_from t (e_round e)) r).
    rewrite entry_at_truncate by lia. destruct (N.ltb_spec r (e_round e)); [done|lia].
  - by rewrite E1.
  - rewrite E1. cbn. lia.
  - rewrite E1. cbn. apply Forall_forall. intros x Hx. rewrite Forall_forall in Hh. split; [by apply Hh|].
    apply list_elem_of_lookup in Hx as [i Hi]. pose proof (contiguous_lookup _ _ _ _ Hch Hi).
    apply lookup_lt_Some in Hi. unfold blen in *. lia.
  - change (v_last (view s1)) with (last_round s1). rewrite El1.
    replace (e_round e - 1 + 1)%N with (prev + 1 + blen held)%N by lia. done.
  - lia.
  - change (v_commit (view s)) with (commit s). assert (commit s1 = commit s) as -> by exact (f_equal v_commit E1). lia.
  - change (v_last (view s1)) with (last_round s1). by rewrite El1.
  - done.
  - done.
  - done.
  - rewrite E1. cbn. lia.
Qed.

Lemma on_append_spec from term prev prev_term es lc s :
  sound (view s) -> (last_round s + blen es <= max_u64)%N ->
  wp False (on_append from term prev prev_term es lc)
    (fun _ s' _ => sound (view s') /\ append_outcome prev es (view s) (view s')) s.
Proof.
  intros Hs Hm. unfold on_append. apply wp_bind, wp_get.
  destruct (malformed prev term 0 es) eqn:Hmal; [apply wp_emit; by split; [|left; left]|].
  apply wp_bind. eapply wp_mono; [apply adopt_leader_spec|]. intros [] s1 _ Had.
  pose proof (adopted_ok _ _ Had Hs) as Hs1.
  assert (last_round s1 = last_round s) as El by (destruct Had as [E|E]; exact (f_equal v_last E)).
  assert (forall x, wp False (emit x)
    (fun _ s' _ => sound (view s') /\ append_outcome prev es (view s) (view s')) s1) as Hrefuse.
  { intros x. apply wp_emit. split; [done|]. by left. }
  apply wp_bind, wp_get. destruct (prev <? snapshot_round s1)%N; [apply Hrefuse|].
  destruct (term_at s1 prev) as [t0|] eqn:Hp; [|apply Hrefuse].
  destruct (negb _); [apply Hrefuse|]. destruct (skip_held s1 es) as [fresh conflict] eqn:Hsk.
  destruct (skip_held_spec _ _ _ _ Hsk) as (held & Hes & Hh & Hcf).
  pose proof (v_term_at_range _ _ _ (ok_log _ (proj1 Hs1)) Hp) as Hpr. cbn in Hpr.
  assert (contiguous (prev + 1) es) as Hc.
  { replace (prev + 1)%N with (prev + 1 + 0)%N by lia. apply (malformed_contiguous prev term 0); [done|lia]. }
  assert (last_round s1 + blen es <= max_u64)%N as Hm1 by lia.
  destruct conflict as [r|].
  - destruct Hcf as (e & rest & t & -> & -> & Ht & Hne).
    destruct (N.leb_spec (e_round e) (commit s1)); [apply Hrefuse|].
    pose proof (v_term_at_range _ _ _ (ok_log _ (proj1 Hs1)) Ht) as Htr. cbn in Htr.
    eapply wp_mono; [apply (append_conflicts from prev es held e rest); [done|lia|done|done|lia|done]|].
    intros [] s' _ [Hs' Ho]. split; [done|]. by eapply append_outcome_adopted.
  - eapply wp_mono; [apply (append_continues from prev es held fresh _ _ s1 t0); done|].
    intros [] s' _ [Hs' Ho]. split; [done|]. by eapply append_outcome_adopted.
Qed.
