(* ===== verification/StepInv.v ===== *)
(** The invariant of a node across [step]: the remaining replication and
    snapshot handlers, the entry point, and the properties of a whole run. *)
From S2P Require Import Prelude Bytes Errors WalRecord Config Types Transport TransportCanonical.
From S2P Require Import Digest LogTail Payload State Office Membership Replicate SnapshotProto.
From S2P Require Import Append Election Step Hoare Votes NodeInv NoPanic AppendInv.

(** * The per-peer records *)

(** No record of a peer is dropped. *)
Definition keyed (s s' : Consensus) (_ : list Action) : Prop :=
  forall k, is_Some (progress s !! k) -> is_Some (progress s' !! k).

#[export] Instance keyed_StepRel : StepRel keyed.
Proof. split; [by intros s k|]. intros s1 s2 s3 w1 w2 H1 H2 k Hk. by apply H2, H1. Qed.

Lemma update_progress_key id f s : is_Some (progress (update_progress id f s) !! id).
Proof. unfold update_progress. cbn. rewrite lookup_insert_eq. by eexists. Qed.

Lemma update_progress_keyed id f : keeps keyed (modify (update_progress id f)).
Proof.
  apply keeps_modify. intros s k Hk. destruct (decide (k = id)) as [->|Hne].
  - apply update_progress_key.
  - unfold update_progress. cbn. by rewrite lookup_insert_ne.
Qed.

Lemma update_self_keyed f : keeps keyed (update_self f).
Proof. intros s. exact (update_progress_keyed (self_id s) f s). Qed.
#[export] Hint Resolve update_progress_keyed update_self_keyed : keeps.

Lemma send_append_to_keyed peer : keeps keyed (send_append_to peer).
Proof. unfold send_append_to, ensure_log, send_snapshot_chunk_to. keeps_walk; by intros k. Qed.
#[export] Hint Resolve send_append_to_keyed : keeps.

Lemma advance_commit_keyed : keeps keyed advance_commit.
Proof. unfold advance_commit, quorum_matched, advance_apply, bcast_append. keeps_walk; by intros k. Qed.

Lemma unwrap_key s k (Q : Progress -> Consensus -> list Action -> Prop) :
  is_Some (progress s !! k) -> (forall p, Q p s []) -> wp False (unwrap (progress s !! k)) Q s.
Proof. intros [p E] H. rewrite E. apply wp_ret, H. Qed.

(** * Answers to appends *)

Lemma sound_view s s' : view s' = view s -> sound (view s) -> sound (view s').
Proof. by intros ->. Qed.

Lemma on_append_resp_inv from success m hint digest s :
  sound (view s) -> wp False (on_append_resp from success m hint digest) (fun _ s' _ => sound (view s')) s.
Proof.
  intros Hs. unfold on_append_resp. apply wp_bind, wp_get.
  destruct (_ || (from =? self_id s)%N) eqn:Hg; [by apply wp_ret|].
  apply orb_false_elim in Hg as [_ Hne]. apply N.eqb_neq in Hne.
  destruct (negb _); [by apply wp_ret|]. apply wp_bind, wp_modify, wp_bind, wp_get.
  set (s1 := update_progress from _ s).
  assert (sound (view s1)) as Hs1 by (unfold s1; by rewrite view_update_same).
  assert (is_Some (progress s1 !! from)) as Hk1 by apply update_progress_key.
  destruct (negb success).
  - destruct (hint =? 0)%N; [by apply wp_ret|]. apply wp_bind, unwrap_key; [done|]. intros p. cbv zeta.
    destruct (_ =? _)%N; [by apply wp_ret|]. apply wp_bind, wp_modify.
    eapply wp_mono; [apply send_append_to_still; by rewrite view_update_same|]. cbn. intros [] s2 _ ->.
    by rewrite view_update_same.
  - apply (wp_still (fun _ => True)); [|done|].
    { destruct (digest_at s1 m); [|apply still_ret]. apply still_when. intros _. apply still_modify. intros s2.
      apply view_update_same; intros p; unfold latch_diverged; by destruct (diverged p). }
    intros [] s2 w2 E2. assert (sound (view s2)) as Hs2 by (by rewrite E2).
    destruct (last_round s1 <? m)%N; [by apply wp_ret|]. apply wp_bind, wp_modify.
    set (s3 := update_progress from (count_ack m) s2).
    assert (from <> self_id s2) as Hne2 by (change (self_id s2) with (v_id (view s2)); by rewrite E2).
    assert (sound (view s3)) as Hs3 by (unfold s3; by rewrite view_update_other).
    apply wp_bind. eapply wp_mono; [apply wp_and; [by apply advance_commit_inv|apply advance_commit_keyed]|].
    cbn. intros moved s4 w4 [(c & a & E4 & Hi4) Hk4].
    assert (sound (view s4)) as Hs4. { split; [done|]. rewrite E4. apply Hs3. }
    destruct (moved || _); [by apply wp_ret|]. apply wp_bind, wp_get, wp_bind, unwrap_key.
    { apply Hk4, update_progress_key. }
    intros p. apply wp_when; intros _; [|done].
    eapply wp_mono; [by apply send_append_to_still|]. cbn. intros [] s5 _ E5. by rewrite E5.
Qed.

(** * Snapshots *)

Definition v_set_incoming (c : option RecvCursor) (v : View) : View :=
  mkView (v_id v) (v_tail v) (v_agreed v) (v_last v) (v_last_term v) (v_floor v) (v_floor_term v)
    (v_commit v) (v_applied v) (v_durable v) c.

Lemma set_receiving_cursor_spec c s :
  wp False (set_receiving_cursor c) (fun _ s' _ => view s' = v_set_incoming c (view s)) s.
Proof.
  apply wp_modify. rewrite view_update_self. unfold v_set_incoming. cbn. by rewrite tail_self_progress.
Qed.

Lemma incoming_ok c v :
  sound v -> (forall x, c = Some x -> u64_ok (meta_last_round (rc_meta x))) -> sound (v_set_incoming c v).
Proof. intros [[H1 H2 H3 H4 H5 H6 H7] Ht] Hc. split; [|done]. by split. Qed.

Lemma ack_snapshot_still P to n : still P (ack_snapshot to n).
Proof. unfold ack_snapshot. still_walk. Qed.
Lemma refuse_snapshot_still P to : still P (refuse_snapshot to).
Proof. unfold refuse_snapshot, ack_snapshot. still_walk. Qed.

Lemma still_sound {A : Type} (m : M A) s :
  still sound m -> sound (view s) -> wp False m (fun _ s' _ => sound (view s')) s.
Proof. intros Hm Hs. eapply wp_mono; [by apply Hm|]. cbn. intros _ s' _ E. by rewrite E. Qed.

Lemma hold_and_ack_inv from c s :
  sound (view s) -> u64_ok (meta_last_round (rc_meta c)) ->
  wp False (hold_and_ack from c) (fun _ s' _ => sound (view s')) s.
Proof.
  intros Hs Hc. unfold hold_and_ack. apply wp_bind. eapply wp_mono; [apply set_receiving_cursor_spec|].
  intros [] s1 _ E1. apply still_sound; [apply ack_snapshot_still|]. rewrite E1. apply incoming_ok; [done|].
  by intros x [= <-].
Qed.

(** The cursor a chunk goes to is a fresh one for its snapshot or the held one. *)
Lemma pick_cursor_spec from meta offset data held :
  match pick_cursor from meta offset data held with
  | inl answer => answer = refuse_snapshot from \/ (exists n, answer = ack_snapshot from n)
                  \/ (exists c, held = Some c /\ answer = hold_and_ack from c)
  | inr c => rc_meta c = meta \/ held = Some c
  end.
Proof.
  unfold pick_cursor. destruct (offset =? 0)%N.
  - destruct (header_decode data); [|by left]. destruct (_ || _); [by left|].
    destruct held as [c|]; [|by left]. destruct (_ && _); [eauto|by left].
  - destruct held as [c|]; [|eauto]. case_bool_decide; [by right|eauto].
Qed.

Lemma on_install_snapshot_inv from term meta offset data done_ s :
  sound (view s) -> u64_ok (meta_last_round meta) ->
  wp False (on_install_snapshot from term meta offset data done_) (fun _ s' _ => sound (view s')) s.
Proof.
  intros Hs Hm. unfold on_install_snapshot. apply wp_bind, wp_get.
  destruct (validate meta); [|apply still_sound; [apply refuse_snapshot_still|done]].
  destruct (_ && _); [apply still_sound; [apply refuse_snapshot_still|done]|].
  apply wp_bind. eapply wp_mono; [apply adopt_leader_spec|]. intros [] s1 _ Had.
  pose proof (adopted_ok _ _ Had Hs) as Hs1. clear Had Hs. apply wp_bind, wp_get.
  destruct (_ <=? _)%N; [apply still_sound; [apply ack_snapshot_still|done]|].
  destruct (bool_decide _); [apply still_sound; [apply ack_snapshot_still|done]|].
  pose proof (pick_cursor_spec from meta offset data (snapshot_incoming s1)) as Hp.
  destruct (pick_cursor from meta offset data (snapshot_incoming s1)) as [answer|cur].
  - destruct Hp as [->|[[n ->]|(c & Hc & ->)]].
    + apply still_sound; [apply refuse_snapshot_still|done].
    + apply still_sound; [apply ack_snapshot_still|done].
    + apply hold_and_ack_inv; [done|]. by apply (ok_incoming _ (proj1 Hs1)).
  - assert (u64_ok (meta_last_round (rc_meta cur))) as Hc.
    { destruct Hp as [->|Hp]; [done|]. by apply (ok_incoming _ (proj1 Hs1)). }
    destruct (rc_complete cur); [by apply hold_and_ack_inv|].
    destruct (negb _); [by apply hold_and_ack_inv|].
    destruct (_ <? _)%N; [apply still_sound; [apply refuse_snapshot_still|done]|].
    cbv zeta. destruct done_; [|by apply hold_and_ack_inv].
    destruct (completion_verdict _ _ _ _) as [|[]]; [by apply hold_and_ack_inv..|].
    apply wp_bind. eapply wp_mono; [apply set_receiving_cursor_spec|]. intros [] s2 _ E2.
    apply still_sound; [apply ack_snapshot_still|]. rewrite E2. by apply incoming_ok.
Qed.

Lemma on_install_snapshot_resp_inv from n s :
  sound (view s) -> wp False (on_install_snapshot_resp from n) (fun _ s' _ => sound (view s')) s.
Proof.
  intros Hs. apply still_sound; [|done]. unfold on_install_snapshot_resp.
  repeat first [still_step | by apply view_update_same].
Qed.

(** * Durability and installation *)

Definition v_installed (lr : Round) (lt : Term) (d : u64) (v : View) : View :=
  mkView (v_id v) (Some (LogTail.rebased lr d)) lr lr lt lr lt (N.max (v_commit v) lr)
    (N.max (v_applied v) lr) lr None.

Lemma v_installed_sound lr lt d v : view_ok v -> u64_ok lr -> sound (v_installed lr lt d v).
Proof.
  intros [H1 H2 H3 H4 H5 H6 H7] Hlr. split; [|by eexists]. split; cbn; try lia; try done.
  - split; [by apply rebased_wf|]. split; [done|]. by apply last_round_rebased.
  - unfold v_term_at. cbn. by rewrite N.eqb_refl.
Qed.

Lemma finish_install_spec s :
  inv s -> wp False finish_install (fun _ s' _ => view s' = view s \/
    exists c, snapshot_incoming s = Some c /\ rc_complete c = true
      /\ view s' = v_installed (meta_last_round (rc_meta c)) (meta_last_term (rc_meta c))
                     (h_base_digest (rc_header c)) (view s)) s.
Proof.
  intros Hi. unfold finish_install. apply wp_bind, wp_get.
  destruct (snapshot_incoming s) as [c|] eqn:Ec; [|by left].
  destruct (rc_complete c) eqn:Hcc; [|by left]. cbn [negb].
  apply (wp_still view_ok); [apply note_config_in_log_still|done|]. intros noted s1 w1 E1.
  destruct noted; [|by left]. cbv zeta. apply wp_bind, wp_modify. set (s2 := s1 <| snapshot_round := _ |> <| snapshot_term := _ |> <| last_round := _ |> <| last_term := _ |>).
  apply wp_bind, wp_modify. set (s3 := update_progress _ _ s2).
  apply wp_bind, wp_modify. set (s4 := s3 <| durable := _ |> <| commit := _ |> <| applied := _ |>).
  apply wp_bind. eapply wp_mono; [apply set_agreed_spec|]. intros [] s5 _ E5.
  apply wp_bind. eapply wp_mono; [apply set_receiving_cursor_spec|]. intros [] s6 _ E6. apply wp_ret.
  right. exists c. split; [done|]. split; [done|]. rewrite E6, E5, <- E1.
  unfold v_installed, v_set_incoming, v_set_agreed, view.
  cbn [v_id v_tail v_agreed v_last v_last_term v_floor v_floor_term v_commit v_applied v_durable].
  assert (tail s4 = Some (LogTail.rebased (meta_last_round (rc_meta c)) (h_base_digest (rc_header c)))) as ->.
  { change (tail s4) with (tail s3). unfold s3. by rewrite tail_update_self. }
  done.
Qed.

Lemma on_persisted_sound term round s :
  inv s -> wp False (on_persisted term round) (fun _ s' _ => sound (view s')) s.
Proof.
  intros Hi. unfold on_persisted. apply wp_bind. eapply wp_mono; [by apply ensure_log_spec|].
  intros [] s1 _ E1.
  assert (sound (view s1)) as Hs1 by (rewrite E1; split; [by apply v_ensured_ok|by eexists]).
  apply wp_bind, wp_get, wp_bind.
  apply (wp_mono _ _ (fun _ s2 _ => sound (view s2))).
  { destruct (bool_decide _); [|by apply wp_ret]. eapply wp_mono; [apply finish_install_spec, Hs1|]. cbn.
    intros _ s2 _ [->|(c & Hc & _ & ->)]; [done|]. apply v_installed_sound; [apply Hs1|].
    by apply (ok_incoming _ (proj1 Hs1)). }
  intros installed s2 _ Hs2. destruct installed as [u|why]; [|by apply wp_emit].
  apply wp_bind, wp_get. cbv zeta. apply wp_bind.
  apply (wp_mono _ _ (fun _ s3 _ => sound (view s3))).
  { apply wp_when; intros _; [|done]. apply wp_modify.
    change (sound (v_set_durable (N.min round (v_last (view s2))) (view s2))).
    destruct Hs2 as [[H1 H2 H3 H4 H5 H6 H7] Ht]. split; [|done]. split; try done. cbn. lia. }
  intros [] s3 _ Hs3. apply wp_bind, wp_get, wp_bind.
  apply (wp_mono _ _ (fun _ s4 _ => sound (view s4))).
  { destruct (role s3).
    4: { apply wp_bind, wp_modify. set (s4 := update_progress _ _ s3).
         assert (sound (view s4)) as Hs4.
         { assert (view s4 = v_set_agreed (durable s3) (view s3)) as ->.
           { unfold s4. rewrite view_update_self. unfold v_set_agreed. cbn.
             by rewrite tail_self_progress, incoming_self_progress. }
           destruct Hs3 as [[H1 H2 H3 H4 H5 H6 H7] Ht]. split; [|done]. by split. }
         apply wp_bind. eapply wp_mono; [by apply advance_commit_inv|].
         intros b s5 _ (c & a & E5 & Hi5). apply wp_ret. split; [done|]. rewrite E5. apply Hs4. }
    all: destruct (leader s3); [by apply wp_emit|by apply wp_ret]. }
  intros [] s4 _ [Hi4 Hl4]. eapply wp_mono; [apply advance_apply_spec|]. intros [] s5 _ ->.
  split; [by apply v_applied_now_ok|done].
Qed.

Lemma on_propose_sturdy c : sturdy (on_propose c).
Proof.
  intros s Hi Hm. unfold on_propose. apply wp_bind, wp_get. destruct (negb _); [by apply wp_emit|].
  apply wp_bind. eapply wp_mono; [by apply ensure_log_spec|]. intros [] s1 _ E1.
  set (t := default (LogTail.rebased (snapshot_round s) 0) (tail s)).
  assert (inv s1) as Hi1 by (unfold inv; rewrite E1; by apply v_ensured_ok).
  assert (tail s1 = Some t) as Et1 by exact (f_equal v_tail E1).
  assert (last_round s1 = last_round s) as El by exact (f_equal v_last E1).
  apply wp_bind, wp_get. cbv zeta. destruct (admit_entry _); [|by apply wp_emit].
  apply wp_bind. eapply wp_mono; [apply (append_own_entry_spec c s1 t Hi1 Et1); lia|].
  intros r s2 _ (t' & E2 & Hwf & Hb & He).
  pose proof (appended_ok (mkEntry (term_of s1) (last_round s1 + 1) c) s1 t t' Hi1 Et1 Hwf Hb He) as Hok.
  eapply wp_mono; [apply bcast_append_still|].
  - rewrite E2. split; [exact Hok|by eexists].
  - cbn. unfold inv. intros [] s3 _ ->. rewrite E2. exact Hok.
Qed.

(** * The entry point *)

(** How many rounds an event may add to the log. *)
Definition grows (ev : Event) : N :=
  match ev with
  | Recv m => match m_body m with Append _ _ es _ => N.max 1 (blen es) | _ => 1 end
  | _ => 1
  end.

(** The round counter does not run out on this event, and the round of a
    snapshot it carries is one. *)
Definition headroom (s : Consensus) (ev : Event) : Prop :=
  (last_round s + grows ev <= max_u64)%N
  /\ match ev with
     | Recv m => match m_body m with InstallSnapshot meta _ _ _ => u64_ok (meta_last_round meta) | _ => True end
     | _ => True
     end.

Lemma on_append_msg_inv m s :
  is_vote_body (m_body m) = false -> inv s -> headroom s (Recv m) ->
  wp False (on_append_msg m) (fun _ s' _ => inv s') s.
Proof.
  intros Hb Hi [Hm Hr]. unfold on_append_msg. apply wp_bind. eapply wp_mono; [by apply ensure_log_spec|].
  intros [] s1 _ E1. assert (last_round s1 = last_round s) as El by exact (f_equal v_last E1).
  assert (sound (view s1)) as Hs1 by (rewrite E1; split; [by apply v_ensured_ok|by eexists]).
  cbn in Hm, Hr. destruct (m_body m); try done.
  - eapply wp_mono; [apply on_append_spec; [done|lia]|]. cbn. intros _ s' _ [[? _] _]. done.
  - eapply wp_mono; [by apply on_append_resp_inv|]. cbn. intros _ s' _ [? _]. done.
  - eapply wp_mono; [by apply on_install_snapshot_inv|]. cbn. intros _ s' _ [? _]. done.
  - eapply wp_mono; [by apply on_install_snapshot_resp_inv|]. cbn. intros _ s' _ [? _]. done.
Qed.

Lemma dispatch_inv ev s : inv s -> headroom s ev -> wp False (dispatch ev) (fun _ s' _ => inv s') s.
Proof.
  intros Hi Hroom. assert (last_round s < max_u64)%N as Hm.
  { destruct Hroom as [H _]. destruct ev as [|m| |]; cbn in H; [lia| |lia..]. destruct (m_body m); lia. }
  destruct ev as [|m|term round|c]; cbn [dispatch].
  - by apply on_tick_sturdy.
  - unfold on_message. apply wp_bind, wp_get. destruct (_ <? _)%N.
    + apply wp_when; intros Hreq; [|done]. apply wp_bind, wp_unwrap; [intros b _; by apply wp_emit|].
      by destruct (m_body m).
    + apply (wp_still view_ok); [apply still_when; intros _; apply become_follower_still|done|].
      intros [] s1 w1 E1. assert (inv s1) as Hi1 by (by eapply view_inv).
      assert (last_round s1 = last_round s) as El by exact (f_equal v_last E1).
      destruct (is_vote_body (m_body m)) eqn:Hb; [apply on_vote_msg_sturdy; [done|done|lia]|].
      apply on_append_msg_inv; [done|done|]. unfold headroom. by rewrite El.
  - eapply wp_mono; [by apply on_persisted_sound|]. cbn. intros _ s' _ [? _]. done.
  - by apply on_propose_sturdy.
Qed.

Lemma step_inv s ev : inv s -> headroom s ev -> exists s' w, step s ev = Some (s', w) /\ inv s'.
Proof.
  intros Hi Hr. destruct (wp_total _ _ _ (dispatch_inv ev s Hi Hr)) as (u & s' & w & E & Hi').
  exists s', w. unfold step. by rewrite E.
Qed.

(** * Starting, restarting, compacting and offering *)

Lemma new_inv id c seed : inv (Consensus_new id c seed).
Proof. unfold Consensus_new. destruct (next_u32 _) as [draw rng]. split; cbn; try done; lia. Qed.

Lemma joining_inv id seed : inv (Consensus_joining id seed).
Proof. exact (new_inv id Config.empty seed). Qed.

(** The durable entries above the floor, one pushed after the other. *)
Lemma restore_entries_spec sr es s t :
  tail s = Some t -> tail_wf t -> LogTail.last_round t = last_round s -> (sr <= last_round s)%N ->
  contiguous (last_round s + 1) es -> (last_round s + blen es <= max_u64)%N ->
  wp False (restore_entries sr es) (fun _ s' _ => exists t' lt,
    view s' = v_set_last (last_round s + blen es) lt (v_set_tail t' (view s))
    /\ tail_wf t' /\ base t' = base t /\ entries t' = entries t ++ es
    /\ lt = match last es with Some e => e_term e | None => last_term s end) s.
Proof.
  revert s t. induction es as [|e es IH]; intros s t Et Hwf Hl Hsr Hc Hm; cbn [restore_entries].
  { apply wp_ret. exists t, (last_term s). rewrite app_nil_r, blen_nil, N.add_0_r. split; [|done].
    unfold v_set_last, v_set_tail, view. cbn. by rewrite Et. }
  destruct Hc as [He Hc]. rewrite blen_cons in Hm.
  destruct (push_Some t e Hwf) as (t1 & Hp & Hwf1 & Hb1 & _ & He1 & _ & Hl1); [by rewrite Hl|lia|].
  apply wp_bind. destruct (N.ltb_spec sr (e_round e)); [|lia]. cbn [when].
  apply wp_bind. eapply wp_mono; [by apply (push_entry_spec s t e t1)|]. intros [] s1 _ E1. apply wp_modify.
  set (s2 := s1 <| last_term := e_term e |> <| last_round := e_round e |>).
  assert (view s2 = v_set_last (e_round e) (e_term e) (v_set_tail t1 (view s))) as E2 by (rewrite <- E1; done).
  assert (last_round s2 = last_round s + 1)%N as El2 by exact He.
  eapply wp_mono.
  { apply (IH s2 t1); [exact (f_equal v_tail E2)|done|lia|lia| |lia]. by rewrite El2. }
  intros [] s3 _ (t' & lt & E3 & Hwf' & Hb' & He' & Hlt). exists t', lt. rewrite E3, E2, El2.
  split; [rewrite blen_cons; unfold v_set_last, v_set_tail; cbn; f_equal; lia|]. split; [done|].
  split; [congruence|]. split; [by rewrite He', He1, <- app_assoc|]. rewrite Hlt, last_cons. by destruct (last es).
Qed.

(** The view of a node restored from its durable state. *)
Definition v_restored (id : NodeId) (t : LogTail) (last : Round) (lt : Term) (sr : Round) (st : Term) : View :=
  mkView id (Some t) 0 last lt sr st sr sr last None.

Lemma v_restored_ok id t es sr st lt :
  tail_wf t -> base t = sr -> entries t = es -> contiguous (sr + 1) es ->
  lt = match last es with Some e => e_term e | None => st end ->
  view_ok (v_restored id t (sr + blen es) lt sr st).
Proof.
  intros Hwf Hb He Hc Hlt. split; cbn [v_restored v_durable v_last v_agreed v_applied v_commit v_floor v_incoming];
    [| |lia|lia|lia|lia|done].
  - split; [done|]. split; [done|]. rewrite last_round_val by done. by rewrite Hb, He.
  - unfold v_term_at. cbn [v_restored v_floor v_floor_term v_tail]. subst lt.
    destruct (N.eqb_spec (sr + blen es) sr) as [E|Hne].
    + destruct es as [|e es']; [done|]. rewrite blen_cons in E. lia.
    + destruct (last es) as [e|] eqn:El; [|apply last_None in El as ->; rewrite blen_nil in Hne; lia].
      cbn [mbind option_bind]. rewrite term_at_entry_at by done. apply last_Some in El as [es' ->].
      assert (e_round e = sr + blen (es' ++ [e]))%N as <-.
      { apply contiguous_app in Hc as [_ [-> _]]. rewrite blen_app, blen_cons, blen_nil. lia. }
      rewrite (entry_at_member t e Hwf); [done|]. rewrite He. apply elem_of_app. right. by left.
Qed.

(** The state [restore] pushes the entries onto. *)
Definition rebooted (h : HardState) (sr : Round) (st : Term) (d : u64) (s0 : Consensus) : Consensus :=
  update_progress (self_id s0) (fun p => p <| own_log := Some (LogTail.rebased sr d) |>)
    (s0 <| hard := h |> <| snapshot_round := sr |> <| snapshot_term := st |>
        <| last_round := sr |> <| last_term := st |>).

Lemma view_rebooted h sr st d s0 :
  progress s0 = ∅ ->
  view (rebooted h sr st d s0) = mkView (self_id s0) (Some (LogTail.rebased sr d)) 0 sr st sr st
    (commit s0) (applied s0) (durable s0) None.
Proof.
  intros R4. unfold rebooted, view, tail, agreed, snapshot_incoming, self_progress, update_progress.
  cbn. by rewrite lookup_insert_eq, R4.
Qed.

(** The state [restore] ends in, once the entries are pushed. *)
Definition settled (sr : Round) (s : Consensus) : Consensus :=
  s <| durable := last_round s |> <| commit := sr |> <| applied := sr |>.

Lemma view_settled sr s id t x lt sr' st c a d :
  view s = mkView id t 0 x lt sr' st c a d None ->
  view (settled sr s) = mkView id t 0 x lt sr' st sr sr x None.
Proof. intros [=]. unfold view, settled. cbn. by f_equal. Qed.

Lemma restore_run p h sr st d es s0 (Q : unit -> Consensus -> list Action -> Prop) :
  role s0 = Follower -> last_round s0 = 0%N -> snapshot_round s0 = 0%N ->
  wp p (restore_entries sr es) (fun _ s2 w => Q tt (settled sr s2) w) (rebooted h sr st d s0) ->
  wp p (restore h sr st d es) Q s0.
Proof.
  intros R1 R2 R3 H. unfold restore. apply wp_bind, wp_get, wp_bind, wp_assert.
  2: { by rewrite R1, R2, R3, bool_decide_true. }
  intros _. apply wp_bind, wp_modify, wp_bind, wp_modify, wp_bind. eapply wp_mono; [exact H|].
  intros [] s2 w HQ. apply wp_modify. cbn [app]. by rewrite app_nil_r.
Qed.

Lemma restore_blank_inv s0 h sr st d es :
  role s0 = Follower -> last_round s0 = 0%N -> snapshot_round s0 = 0%N -> progress s0 = ∅ ->
  u64_ok sr -> contiguous (sr + 1) es -> (sr + blen es <= max_u64)%N ->
  wp False (restore h sr st d es) (fun _ s' _ => inv s') s0.
Proof.
  intros R1 R2 R3 R4 Hsr Hc Hm. apply restore_run; [done..|].
  pose proof (view_rebooted h sr st d s0 R4) as E1. generalize dependent (rebooted h sr st d s0). intros s1 E1.
  assert (last_round s1 = sr) as El by exact (f_equal v_last E1).
  assert (last_term s1 = st) as Elt by exact (f_equal v_last_term E1).
  eapply wp_mono.
  { apply (restore_entries_spec sr es s1 (LogTail.rebased sr d)); rewrite ?El; [|by apply rebased_wf| |lia|done|done].
    - exact (f_equal v_tail E1).
    - by apply last_round_rebased. }
  intros [] s2 _ (t' & lt & E2 & Hwf & Hb & He & Hlt). rewrite El, E1 in E2. rewrite Elt in Hlt.
  unfold inv. rewrite (view_settled _ _ _ _ _ _ _ _ _ _ _ E2).
  exact (v_restored_ok (self_id s0) t' es sr st lt Hwf Hb He Hc Hlt).
Qed.

Lemma restore_inv id c seed h sr st d es :
  u64_ok sr -> contiguous (sr + 1) es -> (sr + blen es <= max_u64)%N ->
  wp False (restore h sr st d es) (fun _ s' _ => inv s') (Consensus_new id c seed).
Proof.
  intros. apply restore_blank_inv; try done; unfold Consensus_new; by destruct (next_u32 _).
Qed.

Lemma compact_inv through s : inv s -> wp False (compact through) (fun _ s' _ => inv s') s.
Proof.
  intros Hi. unfold compact. apply wp_bind, wp_get.
  destruct (N.leb_spec through (snapshot_round s)); [by apply wp_ret|].
  destruct (N.ltb_spec (applied s) through); [by apply wp_ret|].
  destruct (N.ltb_spec (last_round s) through); [by apply wp_ret|].
  destruct (term_at s through) as [tt0|] eqn:Hterm; [|by apply wp_ret].
  pose proof Hi as [Hlog Hlt Hd Hag Hap Hfl Hin]. unfold log_ok in Hlog. cbn in Hlog, Hd, Hag, Hap, Hfl.
  destruct (tail s) as [t|] eqn:Et; [|lia]. destruct Hlog as (Hwf & Hb & Hl).
  assert (LogTail.digest_at t through = digest_at s through) as Ed by (unfold digest_at; by rewrite Et).
  destruct (digest_at_Some t Hwf through) as [d Hdg]; [lia|]. rewrite <- Ed, Hdg. change (default 0%N (Some d)) with d.
  destruct (compact_to_wf t through d Hwf) as (t' & Hc & Hwf' & Hb' & Hl' & He' & _); [lia|done|].
  unfold compact_tail. apply wp_bind, wp_bind. eapply wp_mono; [by apply tail_mut_spec|].
  intros a s1 _ [-> E1]. apply wp_bind. rewrite Hc. apply wp_ret. eapply wp_mono; [apply put_tail_spec|].
  intros [] s2 _ E2. apply wp_bind, wp_modify, wp_ret. rewrite E1 in E2.
  match goal with |- inv ?x => assert (view x = mkView (self_id s) (Some t') (agreed s) (last_round s) (last_term s)
    through tt0 (commit s) (applied s) (durable s) (snapshot_incoming s)) as Ex end.
  { match goal with |- view ?x = _ => change (view x) with
      (mkView (v_id (view s2)) (v_tail (view s2)) (v_agreed (view s2)) (v_last (view s2)) (v_last_term (view s2))
         through tt0 (v_commit (view s2)) (v_applied (view s2)) (v_durable (view s2)) (v_incoming (view s2))) end.
    by rewrite E2. }
  unfold inv. rewrite Ex. split; cbn; try lia; try done.
  - split; [done|]. split; [done|]. by rewrite Hl'.
  - unfold v_term_at in *. cbn in *. destruct (N.eqb_spec (last_round s) through) as [<-|Hne].
    + rewrite term_at_view in Hterm. unfold v_term_at in Hterm. cbn in Hterm. congruence.
    + destruct (N.eqb_spec (last_round s) (snapshot_round s)); [lia|]. rewrite Et in Hlt. cbn in Hlt.
      rewrite term_at_entry_at, He' by done. destruct (N.ltb_spec through (last_round s)); [|lia].
      by rewrite <- term_at_entry_at.
Qed.
