(* ===== verification/NodeProps.v ===== *)
(** What one node guarantees, whatever reaches it: the states a node can be in
    ([lives]), and the properties every one of them has. *)
From S2P Require Import Prelude Bytes Errors WalRecord Config Types Transport TransportCanonical.
From S2P Require Import Digest LogTail Payload State Office Membership Replicate SnapshotProto.
From S2P Require Import Append Election Step Hoare Votes NodeInv NoPanic AppendInv.
From S2P Require Import StepInv.

(** The states of a node: started empty, joining, or restored from a durable
    log contiguous above its snapshot; then moved by events, compactions and
    offered snapshots, with round numbers to spare. *)
Inductive lives : Consensus -> Prop :=
| born id c seed : lives (Consensus_new id c seed)
| joined id seed : lives (Consensus_joining id seed)
| restored id c seed h sr st d es u s' w :
    u64_ok sr -> contiguous (sr + 1) es -> (sr + blen es <= max_u64)%N ->
    restore h sr st d es (Consensus_new id c seed) = Some (u, s', w) -> lives s'
| stepped s ev s' w : lives s -> headroom s ev -> step s ev = Some (s', w) -> lives s'
| compacted s through r s' w : lives s -> compact through s = Some (r, s', w) -> lives s'
| offered s peer snap r s' w :
    lives s -> peer <> self_id s -> offer_snapshot_to peer snap s = Some (r, s', w) -> lives s'.

Lemma wp_end {A : Type} (m : M A) Q s a s' w : wp False m Q s -> m s = Some (a, s', w) -> Q a s' w.
Proof. unfold wp. intros H E. by rewrite E in H. Qed.

Lemma lives_inv s : lives s -> inv s.
Proof.
  induction 1 as [id c seed|id seed|id c seed h sr st d es u s' w H1 H2 H3 E|s ev s' w _ IH Hr E
                  |s through r s' w _ IH E|s peer snap r s' w _ IH Hne E].
  - apply new_inv.
  - apply joining_inv.
  - by eapply (wp_end _ (fun _ s' _ => inv s')); [apply (restore_inv id c seed h sr st d es)|].
  - destruct (step_inv s ev IH Hr) as (s1 & w1 & E1 & Hi). congruence.
  - by eapply (wp_end _ (fun _ s' _ => inv s')); [by apply (compact_inv through)|].
  - unfold offer_snapshot_to in E. cbv beta zeta iota delta [get mbind m_bind modify mret m_ret] in E.
    destruct (offer_checks s peer snap); injection E as _ <- _; [|done].
    unfold inv. by rewrite view_update_same.
Qed.

(** Running a list of events, with room for each. *)
#[export] Instance room_dec s ev : Decision (headroom s ev).
Proof.
  unfold headroom, u64_ok. destruct ev as [|m| |]; [apply _| |apply _..]. destruct (m_body m); apply _.
Defined.

Fixpoint roomy (s : Consensus) (evs : list Event) : bool :=
  match evs with
  | [] => true
  | ev :: evs => bool_decide (headroom s ev) && match step s ev with Some (s1, _) => roomy s1 evs | None => true end
  end.

Lemma lives_after s evs : lives s -> roomy s evs = true -> lives (after s evs).
Proof.
  unfold after. intros Hs Hr. destruct (run s evs) as [[s' w]|] eqn:E; [|done].
  revert s w Hs Hr E. induction evs as [|ev evs IH]; intros s w Hs Hr E; cbn in *; [by simplify_eq|].
  apply andb_prop in Hr as [Hr1 Hr2]. apply bool_decide_eq_true in Hr1.
  destruct (step s ev) as [[s1 w1]|] eqn:E1; [|done]. destruct (run s1 evs) as [[s2 w2]|] eqn:E2; [|done].
  injection E as -> <-. apply (IH s1 w2); [|done|done]. by eapply stepped.
Qed.

(** C2: no reachable state panics. Every event is processed to the end, every
    compaction returns, and a restart from a contiguous durable log succeeds:
    none of the assertions, unwraps and indexings of the state machine fails. *)
Theorem no_panic (s : Consensus) :
  lives s ->
  (forall ev, headroom s ev -> is_Some (step s ev))
  /\ (forall through, is_Some (compact through s))
  /\ (forall id c seed h sr st d es, u64_ok sr -> contiguous (sr + 1) es -> (sr + blen es <= max_u64)%N ->
        is_Some (restore h sr st d es (Consensus_new id c seed))).
Proof.
  intros Hi%lives_inv. split; [|split].
  - intros ev Hr. destruct (step_inv s ev Hi Hr) as (s' & w & E & _). rewrite E. by eexists.
  - intros through. destruct (wp_total _ _ _ (compact_inv through s Hi)) as (u & s' & w & E & _).
    rewrite E. by eexists.
  - intros id c seed h sr st d es H1 H2 H3.
    destruct (wp_total _ _ _ (restore_inv id c seed h sr st d es H1 H2 H3)) as (u & s' & w & E & _).
    rewrite E. by eexists.
Qed.

Lemma no_panic_witness : is_Some (step (fresh 2) ballot).
Proof. apply no_panic; [apply born|]. split; by vm_compute. Defined.

(** C4: the watermarks of a node are in order, and its log is exactly the
    rounds from its snapshot to its end: the snapshot is within what is
    applied, what is applied within what is committed, what is durable and what
    is agreed within the log; the log has a term for every round from the
    snapshot to its last, whose term is [last_term], and for no other. *)
Theorem watermarks_in_order (s : Consensus) :
  lives s ->
  (snapshot_round s <= applied s <= commit s)%N
  /\ (durable s <= last_round s)%N /\ (agreed s <= last_round s <= max_u64)%N
  /\ (forall r, is_Some (term_at s r) <-> (snapshot_round s <= r <= last_round s)%N)
  /\ term_at s (last_round s) = Some (last_term s).
Proof.
  intros Hi%lives_inv. pose proof Hi as [Hlog Hlt Hd Hag Hap Hfl _]. cbn in Hd, Hag, Hap, Hfl.
  pose proof (log_ok_last _ Hlog) as Hl. cbn in Hl.
  split; [lia|]. split; [done|]. split; [lia|]. split; [|exact Hlt].
  intros r. rewrite term_at_view. split.
  - intros [t Ht]. exact (v_term_at_range _ _ _ Hlog Ht).
  - intros Hr. by apply v_term_at_Some.
Qed.

Lemma watermarks_in_order_witness :
  (durable leader1 <= last_round leader1)%N /\ term_at leader1 (last_round leader1) = Some (last_term leader1).
Proof.
  assert (lives leader1) as H by (apply lives_after; [apply lives_after; [apply born|]|]; by vm_compute).
  destruct (watermarks_in_order leader1 H) as (_ & H1 & _ & _ & H2). exact (conj H1 H2).
Defined.

(** * Appends *)

Lemma log_entry_ensured v r : log_entry (v_ensured v) r = log_entry v r.
Proof.
  unfold log_entry, v_ensured. cbn. destruct (v_tail v); [done|]. cbn. unfold entry_at. by destruct (_ <? _)%N.
Qed.

Lemma log_entry_inside v r e : log_ok v -> log_entry v r = Some e -> (r <= v_last v)%N.
Proof.
  unfold log_ok, log_entry. destruct (v_tail v) as [t|]; [|done]. intros (Hwf & Hb & <-). cbn. intros E.
  pose proof (term_at_entry_at t r Hwf) as Ht. rewrite E in Ht. apply term_at_is_Some in Ht. lia.
Qed.

(** An append that is not stale, seen from outside. *)
Lemma step_append s from to term prev pt es lc s' w :
  inv s -> headroom s (Recv (mkMessage from to term (Append prev pt es lc))) ->
  step s (Recv (mkMessage from to term (Append prev pt es lc))) = Some (s', w) ->
  (term_of s <= term)%N -> sound (view s') /\ append_outcome prev es (v_ensured (view s)) (view s').
Proof.
  intros Hi [Hm _] E Ht. cbn in Hm.
  assert (wp False (on_message (mkMessage from to term (Append prev pt es lc)))
    (fun _ s' _ => sound (view s') /\ append_outcome prev es (v_ensured (view s)) (view s')) s) as H.
  { unfold on_message. apply wp_bind, wp_get. cbn [m_term m_body is_request is_hypothetical is_vote_body].
    destruct (N.ltb_spec term (term_of s)); [lia|].
    apply (wp_still view_ok); [apply still_when; intros _; apply become_follower_still|done|].
    intros [] s1 w1 E1. unfold on_append_msg. cbn [m_from m_term m_body].
    assert (inv s1) as Hi1 by (by eapply view_inv).
    apply wp_bind. eapply wp_mono; [by apply ensure_log_spec|]. intros [] s2 _ E2. rewrite E1 in E2.
    assert (last_round s2 = last_round s) as El by exact (f_equal v_last E2).
    eapply wp_mono; [apply on_append_spec; [|lia]|].
    - rewrite E2. split; [by apply v_ensured_ok|by eexists].
    - cbn. intros _ s3 _. by rewrite E2. }
  unfold step in E. cbn [dispatch] in E.
  destruct (on_message _ s) as [[[u s1] w1]|] eqn:Eo; [|done]. injection E as -> ->.
  exact (wp_end _ _ _ _ _ _ H Eo).
Qed.


(** A follower of term 1 whose second round conflicts with the leader of term 2. *)
Definition batch1 : Event :=
  Recv (mkMessage 1 2 1 (Append 0 0 [mkEntry 1 1 NoOp; mkEntry 1 2 (LeaseTick 5)] 1)).
Definition batch2 : Event := Recv (mkMessage 3 2 2 (Append 1 1 [mkEntry 2 2 NoOp] 1)).
Definition follower2 : Consensus := after (fresh 2) [batch1].

