(* ===== verification/Timers.v ===== *)
(** The clocks of a node and what they lead to: its randomized election timeout
    against the lease a leader holds, and a node that is left without a leader and
    whose calls for votes a majority answers ([src/src/consensus/election.rs]). *)
From S2P Require Import Prelude Bytes Errors WalRecord Config Types Transport TransportCanonical.
From S2P Require Import Digest LogTail Payload State Office Membership Replicate SnapshotProto.
From S2P Require Import Append Election Step Hoare Votes NodeInv NoPanic AppendInv.
From S2P Require Import StepInv NodeProps.

(** The timeout is in the window its base allows. *)
Definition in_window (s : Consensus) : Prop :=
  (N.max (election_base s) 1 <= election_timeout s < 2 * N.max (election_base s) 1)%N.

(** What a step does to the clock's settings. *)
Definition timed (s s' : Consensus) (_ : list Action) : Prop :=
  election_base s' = election_base s /\ lease s' = lease s /\ (in_window s -> in_window s').

(** A write that leaves the settings alone. *)
Lemma window_same s s' :
  election_base s' = election_base s -> lease s' = lease s -> election_timeout s' = election_timeout s ->
  timed s s' [].
Proof. intros E1 E2 E3. split; [done|]. split; [done|]. unfold in_window. by rewrite E1, E3. Qed.

Lemma window_emit s a : timed s s [a].
Proof. by split. Qed.

Ltac timed_here := first [apply window_same; reflexivity | exact (window_emit _ _)].

#[export] Instance timed_StepRel : StepRel timed.
Proof.
  split; [intros s; timed_here|]. intros s1 s2 s3 w1 w2 (A1 & A2 & A3) (B1 & B2 & B3).
  split; [congruence|]. split; [congruence|auto].
Qed.

Lemma keeps_inert_timed {A : Type} (m : M A) : keeps inert m -> keeps timed m.
Proof.
  apply keeps_mono. intros s s' w [E _]. injection E as _ _ _ _ _ _ _ _ E1 E2 E3 _.
  split; [done|]. split; [done|]. unfold in_window. by rewrite E1, E2.
Qed.

(** Close a handler whose parts are inert or leave the clock's settings. *)
Ltac timed_walk :=
  repeat first [keeps_step | solve [apply keeps_inert_timed; auto 1 with keeps nocore]];
  try timed_here.

Lemma become_follower_timed t l : keeps timed (become_follower t l).
Proof. unfold become_follower. timed_walk. Qed.
#[export] Hint Resolve become_follower_timed : keeps.

Lemma redraw_timeout_timed : keeps timed redraw_timeout.
Proof.
  intros s. apply wp_redraw_timeout. intros t r Ht _. split; [done|]. split; [done|]. intros _. exact Ht.
Qed.
#[export] Hint Resolve redraw_timeout_timed : keeps.

Lemma apply_config_timed c : keeps timed (apply_config c).
Proof. unfold apply_config. timed_walk. Qed.
#[export] Hint Resolve apply_config_timed : keeps.

Lemma note_config_in_log_timed c : keeps timed (note_config_in_log c).
Proof. unfold note_config_in_log, latch_damaged. timed_walk. Qed.
#[export] Hint Resolve note_config_in_log_timed : keeps.

Lemma finish_install_timed : keeps timed finish_install.
Proof. unfold finish_install. timed_walk. Qed.
#[export] Hint Resolve finish_install_timed : keeps.

Lemma on_persisted_timed t r : keeps timed (on_persisted t r).
Proof. unfold on_persisted. timed_walk. Qed.

(** The three transitions of office write no setting of the clock. *)
Lemma to_office_timed :
  keeps timed (modify to_leader) /\ keeps timed (modify to_candidate) /\ keeps timed (modify to_precandidate).
Proof. split_and!; apply keeps_modify; intros s; by apply window_same. Qed.

Lemma become_leader_timed : keeps timed become_leader.
Proof. unfold become_leader. apply keeps_bind; [apply _|apply to_office_timed|intros _]. timed_walk. Qed.
#[export] Hint Resolve become_leader_timed : keeps.

Lemma become_candidate_timed : keeps timed become_candidate.
Proof. unfold become_candidate. apply keeps_bind; [apply _|apply to_office_timed|intros _]. timed_walk. Qed.
#[export] Hint Resolve become_candidate_timed : keeps.

Lemma start_precampaign_timed : keeps timed start_precampaign.
Proof. unfold start_precampaign. apply keeps_bind; [apply _|apply to_office_timed|intros _]. timed_walk. Qed.
#[export] Hint Resolve start_precampaign_timed : keeps.

Lemma age_peer_timed id : keeps timed (modify (fun s => age_peer s id)).
Proof. apply keeps_modify. intros s. unfold age_peer. destruct (progress s !! id); timed_here. Qed.
#[export] Hint Resolve age_peer_timed : keeps.

Lemma on_tick_timed : keeps timed on_tick.
Proof. unfold on_tick, voter_tick, leader_tick. timed_walk. Qed.

Lemma on_vote_msg_timed m : keeps timed (on_vote_msg m).
Proof.
  unfold on_vote_msg, on_pre_vote, on_pre_vote_resp, on_request_vote, on_request_vote_resp. timed_walk.
Qed.

Lemma adopt_leader_timed from t : keeps timed (adopt_leader from t).
Proof. unfold adopt_leader. timed_walk. Qed.
#[export] Hint Resolve adopt_leader_timed : keeps.

Lemma on_append_timed from t pr pt es lc : keeps timed (on_append from t pr pt es lc).
Proof. unfold on_append. timed_walk. Qed.

Lemma on_install_snapshot_timed from t meta o d f : keeps timed (on_install_snapshot from t meta o d f).
Proof.
  unfold on_install_snapshot.
  repeat first [solve [apply keeps_inert_timed; auto 1 with keeps nocore]
               |solve [apply keeps_inert_timed; by eapply pick_cursor_inert] | keeps_step]; timed_here.
Qed.
#[export] Hint Resolve on_append_timed on_install_snapshot_timed on_tick_timed on_vote_msg_timed
  on_persisted_timed : keeps.

Lemma dispatch_timed ev : keeps timed (dispatch ev).
Proof. unfold dispatch, on_message, on_append_msg. timed_walk. Qed.

(** The clock's settings of every reachable state. *)
Definition clock_ok (s : Consensus) : Prop :=
  election_base s = ELECTION_BASE /\ lease s = (ELECTION_BASE - 2)%N /\ in_window s.

Lemma timed_clock s s' w : timed s s' w -> clock_ok s -> clock_ok s'.
Proof. intros (H1 & H2 & H3) (C1 & C2 & C3). split; [congruence|]. split; [congruence|auto]. Qed.

Lemma new_clock id c seed : clock_ok (Consensus_new id c seed).
Proof.
  unfold Consensus_new. destruct (next_u32 _) as [draw r]. split; [done|]. split; [done|].
  unfold in_window. cbn [election_base election_timeout]. unfold ELECTION_BASE.
  pose proof (N.mod_upper_bound draw 10 ltac:(done)) as Hd. revert Hd. generalize (draw mod 10)%N. lia.
Qed.

Lemma restore_entries_timed sr es : keeps timed (restore_entries sr es).
Proof. induction es as [|e es IH]; cbn [restore_entries]; timed_walk. Qed.
#[export] Hint Resolve restore_entries_timed : keeps.

Lemma lives_clock s : lives s -> clock_ok s.
Proof.
  induction 1 as [id c seed|id seed|id c seed h sr st d es u s' w _ _ _ E|s ev s' w _ IH _ E
                  |s through r s' w _ IH E|s peer snap r s' w _ IH _ E].
  - apply new_clock.
  - exact (new_clock id Config.empty seed).
  - assert (keeps timed (restore h sr st d es)) as Hk by (unfold restore; timed_walk).
    eapply timed_clock; [exact (wp_run _ _ _ _ _ _ (Hk _) E)|apply new_clock].
  - unfold step in E. destruct (dispatch ev s) as [[[u s1] w1]|] eqn:Ed; [|done]. injection E as -> ->.
    eapply timed_clock; [exact (wp_run _ _ _ _ _ _ (dispatch_timed ev s) Ed)|done].
  - assert (keeps timed (compact through)) as Hk by (unfold compact, compact_tail; timed_walk).
    eapply timed_clock; [exact (wp_run _ _ _ _ _ _ (Hk s) E)|done].
  - assert (keeps timed (offer_snapshot_to peer snap)) as Hk by (unfold offer_snapshot_to; timed_walk).
    eapply timed_clock; [exact (wp_run _ _ _ _ _ _ (Hk s) E)|done].
Qed.

(** C29: a leader gives up its office before any other node may campaign. In
    every reachable state the lease a leader holds without hearing from a
    majority is shorter than the election timeout, which stays within one and
    two times its base however often it is redrawn. *)
Theorem lease_shorter_than_timeout (s : Consensus) :
  lives s ->
  (lease s < election_timeout s)%N
  /\ (election_base s <= election_timeout s < 2 * election_base s)%N.
Proof.
  intros (H1 & H2 & H3)%lives_clock. unfold in_window in H3. rewrite H2. rewrite H1 in *.
  unfold ELECTION_BASE in *. lia.
Qed.

Lemma lease_shorter_than_timeout_witness : (lease candidate1 < election_timeout candidate1)%N.
Proof.
  assert (lives candidate1) as H by (apply lives_after; [apply born|by vm_compute]).
  exact (proj1 (lease_shorter_than_timeout candidate1 H)).
Defined.

(** * A node that a majority answers is elected *)

(** Running a handler one command at a time. *)
Lemma get_run {B : Type} (k : Consensus -> M B) s : (get ≫= k) s = k s s.
Proof. unfold mbind, m_bind, get. by destruct (k s s) as [[[b s2] w2]|]. Qed.
Lemma modify_run {B : Type} f (k : unit -> M B) s : (modify f ≫= k) s = k tt (f s).
Proof. unfold mbind, m_bind, modify. by destruct (k tt (f s)) as [[[b s2] w2]|]. Qed.
Lemma emit_run {B : Type} a (k : unit -> M B) s b s2 w : (emit a ≫= k) s = Some (b, s2, w) ->
  exists w2, k tt s = Some (b, s2, w2) /\ w = a :: w2.
Proof. unfold mbind, m_bind, emit. destruct (k tt s) as [[[b' s2'] w2]|]; [|done]. intros [= <- <- <-]. by exists w2. Qed.
Lemma quiet_run {A B : Type} (m : M A) (k : A -> M B) s a s1 : m s = Some (a, s1, []) -> (m ≫= k) s = k a s1.
Proof. intros E. unfold mbind, m_bind. rewrite E. by destruct (k a s1) as [[[b s2] w2]|]. Qed.

Lemma when_run b (m : M unit) s : when b m s = if b then m s else Some (tt, s, []).
Proof. by destruct b. Qed.

Lemma for_each_emit {A : Type} (l : list A) (f : A -> Action) s : exists w, for_each l (fun x => emit (f x)) s = Some (tt, s, w).
Proof. induction l as [|x l [w IH]]; [by eexists|]. cbn. unfold mbind, m_bind. cbn. rewrite IH. by eexists. Qed.

(** What an election looks at. *)
Definition standing_of (s : Consensus) := (role s, campaign s, cfg s, hard s, self_id s, votes s).

Lemma redraw_runs s : exists s1, redraw_timeout s = Some (tt, s1, []) /\ standing_of s1 = standing_of s.
Proof.
  unfold redraw_timeout, draw_timeout, mbind, m_bind, get, modify, mret, m_ret. destruct (next_u32 (rng s)) as [v r]. by eexists.
Qed.

(** A node that asked for pre-votes, or for votes, in configuration [c] and term
    [t], with the answers it has; and the news of an election won. *)
Record asking (r : Role) (c : Config) (t : Term) (me : NodeId) (v : gset NodeId) (s : Consensus) : Prop := {
  ak_role : role s = r;
  ak_campaign : campaign s = Some c;
  ak_cfg : cfg s = c;
  ak_term : term_of s = t;
  ak_self : self_id s = me;
  ak_votes : votes s = v;
  ak_short : (size v < Config.quorum c)%nat }.

Definition won (t : Term) (me : NodeId) (w : list Action) : Prop := RoleChanged Leader t (Some me) ∈ w.

Lemma won_app t me w1 w2 : won t me w1 \/ won t me w2 -> won t me (w1 ++ w2).
Proof. unfold won. apply elem_of_app. Qed.
Lemma won_cons t me a w : won t me w -> won t me (a :: w).
Proof. unfold won. by right. Qed.

Lemma become_leader_won s u s' w : become_leader s = Some (u, s', w) -> won (term_of s) (self_id s) w.
Proof.
  unfold become_leader. rewrite modify_run, get_run. intros E. apply emit_run in E as (w2 & _ & ->). left.
Qed.

Lemma quorum_decides c n : Config.contains c n = true -> forall k, Config.has_quorum c k = (Config.quorum c <=? k).
Proof.
  intros Hn k. unfold Config.has_quorum, Config.is_empty. unfold Config.contains in Hn. apply bool_decide_eq_true in Hn.
  destruct (members c); [by apply not_elem_of_nil in Hn|done].
Qed.

Lemma become_candidate_stands c t me s u s' w : cfg s = c -> term_of s = t -> self_id s = me -> Config.contains c me = true -> (t < max_u64)%N ->
  become_candidate s = Some (u, s', w) -> asking Candidate c (t + 1) me {[me]} s' \/ won (t + 1) me w.
Proof.
  intros Hc Ht Hm Hin Hlt. unfold become_candidate. rewrite modify_run. destruct (redraw_runs (to_candidate s)) as (s1 & Er & Es). rewrite (quiet_run _ _ _ _ _ Er).
  injection Es as E1 E2 E3 E4 E5 E6. change (campaign (to_candidate s)) with (Some (cfg s)) in E2. change (cfg (to_candidate s)) with (cfg s) in E3.
  change (self_id (to_candidate s)) with (self_id s) in E5. change (votes (to_candidate s)) with ({[self_id s]} : gset NodeId) in E6. rewrite Hm in E5, E6. rewrite Hc in E2, E3.
  assert (term_of s1 = t + 1)%N as T1.
  { unfold term_of at 1. rewrite E4. change (sadd64 (term_of s) 1 = (t + 1)%N). rewrite Ht. apply sadd64_small. lia. }
  rewrite get_run. intros E. apply emit_run in E as (w2 & E & ->). apply emit_run in E as (w3 & E & ->).
  unfold campaign_has_quorum in E. rewrite E2, E6, size_singleton, (quorum_decides c me Hin) in E. destruct (Nat.leb_spec (Config.quorum c) 1) as [Hq|Hq].
  - right. apply become_leader_won in E. rewrite T1, E5 in E. by do 2 apply won_cons.
  - left. destruct (for_each_emit (campaign_voters s1) (fun to => Send (mkMessage (self_id s1) to (term_of s1) (RequestVote (last_term s1) (last_round s1)))) s1) as [w0 Ef].
    rewrite Ef in E. injection E as _ <- _. split; [exact E1|exact E2|exact E3|exact T1|exact E5|exact E6|by rewrite size_singleton].
Qed.

Lemma precampaign_asks c t me s u s' w : cfg s = c -> term_of s = t -> self_id s = me -> Config.contains c me = true -> (t < max_u64)%N ->
  start_precampaign s = Some (u, s', w) ->
  asking PreCandidate c t me {[me]} s' \/ asking Candidate c (t + 1) me {[me]} s' \/ won (t + 1) me w.
Proof.
  intros Hc Ht Hm Hin Hlt. unfold start_precampaign. rewrite modify_run. destruct (redraw_runs (to_precandidate s)) as (s1 & Er & Es). rewrite (quiet_run _ _ _ _ _ Er).
  injection Es as E1 E2 E3 E4 E5 E6. change (campaign (to_precandidate s)) with (Some (cfg s)) in E2. change (cfg (to_precandidate s)) with (cfg s) in E3.
  change (self_id (to_precandidate s)) with (self_id s) in E5. change (votes (to_precandidate s)) with ({[self_id s]} : gset NodeId) in E6.
  change (hard (to_precandidate s)) with (hard s) in E4. rewrite Hm in E5, E6. rewrite Hc in E2, E3.
  assert (term_of s1 = t) as T1 by (unfold term_of; rewrite E4; exact Ht).
  rewrite get_run. intros E. apply emit_run in E as (w2 & E & ->). unfold campaign_has_quorum in E. rewrite E2, E6, size_singleton, (quorum_decides c me Hin) in E.
  destruct (Nat.leb_spec (Config.quorum c) 1) as [Hq|Hq].
  - right. destruct (become_candidate_stands c t me s1 u s' w2 E3 T1 E5 Hin Hlt E) as [Ha|Hw]; [by left|right; by apply won_cons].
  - left. destruct (for_each_emit (campaign_voters s1) (fun to => Send (mkMessage (self_id s1) to (sadd64 (term_of s1) 1) (PreVote (last_term s1) (last_round s1)))) s1) as [w0 Ef].
    rewrite Ef in E. injection E as _ <- _. split; [exact E1|exact E2|exact E3|exact T1|exact E5|exact E6|by rewrite size_singleton].
Qed.

(** The answer of a voter. *)
Definition yes (body : bool -> Body) (t : Term) (me from : NodeId) : Event := Recv (mkMessage from me t (body true)).

Lemma step_prevote s me from t b s' w : (term_of s <= t)%N -> step s (Recv (mkMessage from me t (PreVoteResp b))) = Some (s', w) ->
  exists u, on_pre_vote_resp from t b s = Some (u, s', w).
Proof.
  intros Hle E. unfold step, dispatch, on_message in E. rewrite get_run in E. cbn [m_term m_body is_hypothetical is_vote_body] in E.
  rewrite (proj2 (N.ltb_ge _ _) Hle), andb_false_r in E. cbn [when] in E. rewrite (quiet_run (mret tt) _ s tt s) in E by done.
  cbn [on_vote_msg m_body m_from m_term] in E. destruct (on_pre_vote_resp from t b s) as [[[u s1] w1]|]; [|done]. injection E as <- <-. by exists u.
Qed.

Lemma step_vote s me from t b s' w : term_of s = t -> step s (Recv (mkMessage from me t (RequestVoteResp b))) = Some (s', w) ->
  exists u, on_request_vote_resp from t b s = Some (u, s', w).
Proof.
  intros Ht E. unfold step, dispatch, on_message in E. rewrite get_run in E. cbn [m_term m_body is_hypothetical is_vote_body] in E.
  rewrite Ht, N.ltb_irrefl in E. cbn [when andb] in E. rewrite (quiet_run (mret tt) _ s tt s) in E by done.
  cbn [on_vote_msg m_body m_from m_term] in E. destruct (on_request_vote_resp from t b s) as [[[u s1] w1]|]; [|done]. injection E as <- <-. by exists u.
Qed.

(** A state that differs from [s] in its votes only, and what asking becomes in
    it once the votes are compared with the quorum. *)
Definition counted (v : gset NodeId) (s s1 : Consensus) : Prop :=
  (role s1, campaign s1, cfg s1, hard s1, self_id s1) = (role s, campaign s, cfg s, hard s, self_id s) /\ votes s1 = v.

Lemma counted_set s v : counted v s (s <| votes := v |>).
Proof. by split. Qed.

Lemma counted_asking r c t me v s v' s1 : asking r c t me v s -> Config.contains c me = true -> counted v' s s1 ->
  campaign_has_quorum s1 = false /\ asking r c t me v' s1
  \/ campaign_has_quorum s1 = true /\ cfg s1 = c /\ term_of s1 = t /\ self_id s1 = me.
Proof.
  intros [A1 A2 A3 A4 A5 A6 _] Hin [E Ev]. injection E as E1 E2 E3 E4 E5.
  assert (term_of s1 = t) as Ht by (unfold term_of in *; congruence).
  assert (campaign_has_quorum s1 = (Config.quorum c <=? size v')) as Hq.
  { unfold campaign_has_quorum. by rewrite E2, A2, Ev, (quorum_decides c me Hin). }
  destruct (Nat.leb_spec (Config.quorum c) (size v')) as [H|H]; [right|left]; (split; [done|]); [split_and!; congruence|].
  split; congruence.
Qed.

(** What the two handlers of answers run. *)
Lemma on_pre_vote_resp_run c t me v s from : asking PreCandidate c t me v s -> Config.contains c from = true -> (t < max_u64)%N ->
  exists s1, counted ({[from]} ∪ v) s s1 /\ on_pre_vote_resp from (t + 1) true s = when (campaign_has_quorum s1) become_candidate s1.
Proof.
  intros [A1 A2 A3 A4 A5 A6 A7] Hf Hlt. exists (s <| votes := {[from]} ∪ v |>). split; [apply counted_set|].
  unfold on_pre_vote_resp, campaign_contains. rewrite get_run, A1, A2, A4, Hf, sadd64_small, N.eqb_refl by lia. cbn [negb bool_decide].
  rewrite bool_decide_eq_true_2 by done. cbn [negb]. by rewrite modify_run, get_run, A6.
Qed.

Lemma on_request_vote_resp_run c t me v s from : asking Candidate c t me v s -> Config.contains c from = true ->
  exists s1, counted ({[from]} ∪ v) s s1 /\ on_request_vote_resp from t true s = when (campaign_has_quorum s1) become_leader s1.
Proof.
  intros [A1 A2 A3 A4 A5 A6 A7] Hf. exists (s <| votes := {[from]} ∪ v |>). split; [apply counted_set|].
  unfold on_request_vote_resp, campaign_contains. rewrite get_run, A1, A2, A4, Hf, N.eqb_refl. cbn [negb bool_decide].
  rewrite bool_decide_eq_true_2 by done. cbn [negb]. by rewrite modify_run, get_run, A6.
Qed.

Lemma prevote_counts c t me v s from s' w : asking PreCandidate c t me v s -> Config.contains c me = true -> Config.contains c from = true -> (t < max_u64)%N ->
  step s (yes PreVoteResp (t + 1) me from) = Some (s', w) ->
  asking PreCandidate c t me ({[from]} ∪ v) s' \/ asking Candidate c (t + 1) me {[me]} s' \/ won (t + 1) me w.
Proof.
  intros Ha Hin Hf Hlt E. pose proof (ak_term _ _ _ _ _ _ Ha) as A4. apply step_prevote in E as [u E]; [|rewrite A4; lia].
  destruct (on_pre_vote_resp_run c t me v s from Ha Hf Hlt) as (s1 & Hc & Er).
  rewrite Er in E. destruct (counted_asking _ _ _ _ _ _ _ _ Ha Hin Hc) as [[Hq Hs]|(Hq & C1 & C2 & C3)]; rewrite when_run, Hq in E.
  - left. by injection E as _ <- _.
  - right. exact (become_candidate_stands c t me s1 u s' w C1 C2 C3 Hin Hlt E).
Qed.

Lemma vote_counts c t me v s from s' w : asking Candidate c t me v s -> Config.contains c me = true -> Config.contains c from = true ->
  step s (yes RequestVoteResp t me from) = Some (s', w) -> asking Candidate c t me ({[from]} ∪ v) s' \/ won t me w.
Proof.
  intros Ha Hin Hf E. pose proof (ak_term _ _ _ _ _ _ Ha) as A4. apply step_vote in E as [u E]; [|done].
  destruct (on_request_vote_resp_run c t me v s from Ha Hf) as (s1 & Hc & Er).
  rewrite Er in E. destruct (counted_asking _ _ _ _ _ _ _ _ Ha Hin Hc) as [[Hq Hs]|(Hq & C1 & C2 & C3)]; rewrite when_run, Hq in E.
  - left. by injection E as _ <- _.
  - right. apply become_leader_won in E. by rewrite C2, C3 in E.
Qed.

(** A pre-vote that comes late is ignored. *)
Lemma prevote_late c t me v s from s' w : asking Candidate c t me v s -> step s (yes PreVoteResp t me from) = Some (s', w) -> s' = s.
Proof.
  intros [A1 A2 A3 A4 A5 A6 A7] E. apply step_prevote in E as [u E]; [|by rewrite A4].
  unfold on_pre_vote_resp in E. rewrite get_run, A1 in E. by injection E as _ <- _.
Qed.

(** * Several events in a row *)

Lemma run_app s e1 e2 s' w : run s (e1 ++ e2) = Some (s', w) ->
  exists s1 w1 w2, run s e1 = Some (s1, w1) /\ run s1 e2 = Some (s', w2) /\ w = w1 ++ w2.
Proof.
  revert s w. induction e1 as [|e e1 IH]; intros s w E; cbn [run app] in *; [by exists s, [], w|].
  destruct (step s e) as [[s1 w1]|]; [|done]. destruct (run s1 (e1 ++ e2)) as [[s2 w2]|] eqn:E2; [|done]. injection E as <- <-.
  destruct (IH s1 w2 E2) as (s3 & w3 & w4 & E3 & E4 & ->). exists s3, (w1 ++ w3), w4. by rewrite E3, app_assoc.
Qed.

Lemma run_cons s e evs s' w : run s (e :: evs) = Some (s', w) ->
  exists s1 w1 w2, step s e = Some (s1, w1) /\ run s1 evs = Some (s', w2) /\ w = w1 ++ w2.
Proof.
  cbn [run]. destruct (step s e) as [[s1 w1]|]; [|done]. destruct (run s1 evs) as [[s2 w2]|] eqn:E2; [|done].
  intros [= <- <-]. by exists s1, w1, w2.
Qed.

(** With room for every event, a run of a reachable state ends. *)
Lemma run_ends s evs : lives s -> roomy s evs = true -> exists s' w, run s evs = Some (s', w).
Proof.
  revert s. induction evs as [|ev evs IH]; intros s Hl Hr; [by exists s, []|]. cbn [roomy] in Hr. apply andb_prop in Hr as [Hh Hr].
  apply bool_decide_eq_true in Hh. destruct (step_inv s ev (lives_inv s Hl) Hh) as (s1 & w1 & E1 & _). rewrite E1 in Hr.
  destruct (IH s1 (stepped s ev s1 w1 Hl Hh E1) Hr) as (s' & w & E). cbn [run]. rewrite E1, E. by eexists _, _.
Qed.

Lemma votes_count c t me froms : Config.contains c me = true -> forall v s s' w, Forall (fun n => Config.contains c n = true) froms ->
  asking Candidate c t me v s -> run s (map (yes RequestVoteResp t me) froms) = Some (s', w) ->
  asking Candidate c t me (list_to_set froms ∪ v) s' \/ won t me w.
Proof.
  intros Hin. induction froms as [|n froms IH]; intros v s s' w Hf Ha E.
  - injection E as <- <-. left. by rewrite list_to_set_nil, (left_id_L ∅ (∪)).
  - apply Forall_cons in Hf as [Hn Hf]. apply run_cons in E as (s1 & w1 & w2 & E1 & E2 & ->).
    destruct (vote_counts c t me v s n s1 w1 Ha Hin Hn E1) as [H1|H1]; [|right; apply won_app; by left].
    destruct (IH _ s1 s' w2 Hf H1 E2) as [H2|H2]; [left|right; apply won_app; by right].
    by replace (list_to_set (n :: froms) ∪ v) with (list_to_set froms ∪ ({[n]} ∪ v)) by set_solver.
Qed.

Lemma prevotes_late c t me froms : forall v s s' w, asking Candidate c t me v s ->
  run s (map (yes PreVoteResp t me) froms) = Some (s', w) -> s' = s.
Proof.
  induction froms as [|n froms IH]; intros v s s' w Ha E; [by injection E as <- _|].
  apply run_cons in E as (s1 & w1 & w2 & E1 & E2 & ->). apply (prevote_late c t me v s n s1 w1 Ha) in E1 as ->. by eapply IH.
Qed.

Lemma prevotes_count c t me froms : Config.contains c me = true -> (t < max_u64)%N -> forall v s s' w,
  Forall (fun n => Config.contains c n = true) froms -> asking PreCandidate c t me v s ->
  run s (map (yes PreVoteResp (t + 1) me) froms) = Some (s', w) ->
  asking PreCandidate c t me (list_to_set froms ∪ v) s' \/ asking Candidate c (t + 1) me {[me]} s' \/ won (t + 1) me w.
Proof.
  intros Hin Hlt. induction froms as [|n froms IH]; intros v s s' w Hf Ha E.
  - injection E as <- <-. left. by rewrite list_to_set_nil, (left_id_L ∅ (∪)).
  - apply Forall_cons in Hf as [Hn Hf]. apply run_cons in E as (s1 & w1 & w2 & E1 & E2 & ->).
    destruct (prevote_counts c t me v s n s1 w1 Ha Hin Hn Hlt E1) as [H1|[H1|H1]].
    + destruct (IH _ s1 s' w2 Hf H1 E2) as [H2|[H2|H2]]; [left|by right; left|do 2 right; apply won_app; by right].
      by replace (list_to_set (n :: froms) ∪ v) with (list_to_set froms ∪ ({[n]} ∪ v)) by set_solver.
    + right. left. by apply (prevotes_late c (t + 1) me froms {[me]} s1 s' w2 H1) in E2 as ->.
    + do 2 right. apply won_app. by left.
Qed.

(** Both rounds of answers from a majority end the race in office. *)
Lemma race_won c t me froms s s' w :
  Config.contains c me = true -> (t < max_u64)%N -> Forall (fun n => Config.contains c n = true) froms ->
  (Config.quorum c <= size ({[me]} ∪ list_to_set froms : gset NodeId))%nat ->
  asking PreCandidate c t me {[me]} s \/ asking Candidate c (t + 1) me {[me]} s ->
  run s (map (yes PreVoteResp (t + 1) me) froms ++ map (yes RequestVoteResp (t + 1) me) froms) = Some (s', w) -> won (t + 1) me w.
Proof.
  intros Hin Hlt Hf Hq Ha E. rewrite (comm_L (∪)) in Hq. apply run_app in E as (s1 & w1 & w2 & E1 & E2 & ->). apply won_app.
  assert (asking Candidate c (t + 1) me {[me]} s1 \/ won (t + 1) me w1) as [H|H]; [| |by left].
  - destruct Ha as [Ha|Ha]; [|left; by apply (prevotes_late _ _ _ _ _ _ _ _ Ha) in E1 as ->].
    destruct (prevotes_count c t me froms Hin Hlt _ _ _ _ Hf Ha E1) as [H|H]; [|done]. pose proof (ak_short _ _ _ _ _ _ H). lia.
  - destruct (votes_count c (t + 1) me froms Hin _ _ _ _ Hf H E2) as [H'|H']; [|by right]. pose proof (ak_short _ _ _ _ _ _ H'). lia.
Qed.

(** * Ticks *)

(** A state that differs from [s] in the ticks it has waited only. *)
Definition waited (k : u32) (s s1 : Consensus) : Prop :=
  (role s1, cfg s1, hard s1, self_id s1, election_timeout s1, may_campaign s1)
  = (role s, cfg s, hard s, self_id s, election_timeout s, may_campaign s) /\ since_heard s1 = k.

Lemma waited_set s k : waited k s (s <| since_heard := k |>).
Proof. by split. Qed.

Lemma tick_run s : role s <> Leader -> exists s1, waited (sadd32 (since_heard s) 1) s s1
  /\ on_tick s = if (since_heard s1 <? election_timeout s1)%N then Some (tt, s1, []) else
                 if may_campaign s1 then start_precampaign s1 else
                 (_ ← when (negb (bool_decide (role s1 = Follower))) (become_follower (term_of s1) None);
                  _ ← modify (fun s => s <| since_heard := 0%N |>); redraw_timeout) s1.
Proof.
  intros Hr. exists (s <| since_heard := sadd32 (since_heard s) 1 |>). split; [apply waited_set|].
  unfold on_tick. rewrite get_run. transitivity (voter_tick s); [by destruct (role s)|]. unfold voter_tick. rewrite modify_run, get_run.
  generalize (s <| since_heard := sadd32 (since_heard s) 1 |>). intros s1. by destruct (_ <? _)%N, (may_campaign s1).
Qed.

Lemma step_tick s s' w : step s Tick = Some (s', w) -> exists u, on_tick s = Some (u, s', w).
Proof. unfold step, dispatch. destruct (on_tick s) as [[[u s1] w1]|]; [|done]. intros [= <- <-]. by exists u. Qed.

(** Before the timeout a tick is only counted; at the timeout it starts the race. *)
Lemma ticks_start c t me k : (t < max_u64)%N -> Config.contains c me = true -> forall s s' w,
  role s <> Leader -> may_campaign s = true -> cfg s = c -> term_of s = t -> self_id s = me -> (election_timeout s <= max_u32)%N ->
  (N.of_nat k = election_timeout s - (since_heard s + 1))%N -> run s (replicate (S k) Tick) = Some (s', w) ->
  asking PreCandidate c t me {[me]} s' \/ asking Candidate c (t + 1) me {[me]} s' \/ won (t + 1) me w.
Proof.
  intros Hlt Hin. induction k as [|k IH]; intros s s' w Hr Hm Hc Ht Hme Hw Hk E; cbn [replicate] in E;
    apply run_cons in E as (s1 & w1 & w2 & E1 & E2 & ->); apply step_tick in E1 as [u E1];
    destruct (tick_run s Hr) as (s0 & [Hs Hh] & Et); rewrite Et in E1; injection Hs as S1 S2 S3 S4 S5 S6;
    assert (term_of s0 = t) as Ht0 by (unfold term_of in *; congruence); rewrite Hh, S5, S6, Hm in E1; unfold sadd32 in *.
  - rewrite (proj2 (N.ltb_ge _ _)) in E1 by lia. injection E2 as <- <-. rewrite app_nil_r.
    apply (precampaign_asks c t me s0 u s1 w1); congruence.
  - rewrite (proj2 (N.ltb_lt _ _)) in E1 by lia. injection E1 as _ <- <-. apply (IH s0); rewrite ?S5, ?Hh; first [done|lia|congruence].
Qed.

(** How many ticks a node waits before it campaigns. *)
Definition ticks_left (s : Consensus) : nat := S (N.to_nat (election_timeout s - (since_heard s + 1))).

(** The answers of a majority that grants both rounds of votes. *)
Definition majority_answers (s : Consensus) (froms : list NodeId) : list Event :=
  map (yes PreVoteResp (term_of s + 1) (self_id s)) froms ++ map (yes RequestVoteResp (term_of s + 1) (self_id s)) froms.

(** C6: an election that a majority grants is won. A node in any reachable
    state that is not the leader, may campaign and is left without a leader for
    its election timeout (fewer than two base timeouts of ticks) starts a
    campaign; once members that make a majority with it have granted its calls
    for pre-votes and for votes, it has taken office as the leader of the next
    term, and no event on the way panics. *)
Theorem majority_elects (s : Consensus) (froms : list NodeId) :
  lives s -> role s <> Leader -> may_campaign s = true -> (term_of s < max_u64)%N ->
  Forall (fun n => Config.contains (cfg s) n = true) froms ->
  (Config.quorum (cfg s) <= size ({[self_id s]} ∪ list_to_set froms : gset NodeId))%nat ->
  roomy s (replicate (ticks_left s) Tick ++ majority_answers s froms) = true ->
  (ticks_left s < 2 * N.to_nat ELECTION_BASE)%nat
  /\ exists s' w, run s (replicate (ticks_left s) Tick ++ majority_answers s froms) = Some (s', w)
       /\ RoleChanged Leader (term_of s + 1) (Some (self_id s)) ∈ w.
Proof.
  intros Hl Hr Hm Ht Hf Hq Hroom. destruct (lives_clock s Hl) as (B1 & B2 & Hwin). unfold in_window in Hwin. rewrite B1 in Hwin. unfold ELECTION_BASE in *.
  split; [unfold ticks_left; lia|]. destruct (run_ends s _ Hl Hroom) as (s' & w & E). exists s', w. split; [done|].
  assert (Config.contains (cfg s) (self_id s) = true) as Hin by (unfold may_campaign in Hm; by apply andb_prop in Hm as [_ ?]).
  apply run_app in E as (s1 & w1 & w2 & E1 & E2 & ->). apply won_app.
  destruct (ticks_start (cfg s) (term_of s) (self_id s) _ Ht Hin s s1 w1 Hr Hm eq_refl eq_refl eq_refl ltac:(unfold max_u32; lia) (N2Nat.id _) E1) as [H|[H|H]];
    [right; eapply race_won; eauto..|by left].
Qed.

Lemma majority_elects_witness :
  exists s' w, run (fresh 1) (replicate (ticks_left (fresh 1)) Tick ++ majority_answers (fresh 1) [2%N]) = Some (s', w)
    /\ RoleChanged Leader 1 (Some 1%N) ∈ w.
Proof.
  apply (majority_elects (fresh 1) [2%N]); [apply born|by vm_compute|by vm_compute|by vm_compute| |by vm_compute; lia|by vm_compute].
  apply Forall_singleton. by vm_compute.
Defined.
