(* ===== verification/Static.v ===== *)
(** A cluster whose configuration is the one its operator started it with.
    [static C] says that a node's configuration, its campaign and every
    snapshot it sends or receives are of [C]; every step keeps it, as long as
    the snapshots that arrive are of [C] too. The shipped driver
    ([src/src/consensus/node.rs]) proposes no membership change, so this is the
    configuration every count of votes is made against. *)
From S2P Require Import Prelude Bytes Errors WalRecord Config Types Transport Digest LogTail.
From S2P Require Import Payload State Office Membership Replicate SnapshotProto Append Election.
From S2P Require Import Step Hoare Votes.

Section static.
Context (C : Config).

Definition cursors_in (p : Progress) : Prop :=
  (forall c, sending p = Some c -> meta_config (snap_meta (sc_snapshot c)) = C)
  /\ (forall c, receiving p = Some c -> meta_config (rc_meta c) = C).

Definition static (s : Consensus) : Prop :=
  cfg s = C /\ (forall c, campaign s = Some c -> c = C)
  /\ map_Forall (fun _ p => cursors_in p) (progress s).

Definition meta_in (m : Message) : Prop :=
  match m_body m with
  | InstallSnapshot meta _ _ _ => meta_config meta = C
  | _ => True
  end.

Definition sends_in (a : Action) : Prop :=
  match a with Send m => meta_in m | _ => True end.

Definition staticR (s s' : Consensus) (w : list Action) : Prop :=
  static s -> static s' /\ Forall sends_in w.

#[local] Instance staticR_StepRel : StepRel staticR.
Proof.
  split; [by split|]. intros s1 s2 s3 w1 w2 H1 H2 Hs.
  destruct (H1 Hs) as [Hs2 F1]. destruct (H2 Hs2) as [Hs3 F2]. split; [done|by apply Forall_app].
Qed.

Lemma assume_static {A : Type} (m : M A) s :
  (static s -> keeps_at staticR m s) -> keeps_at staticR m s.
Proof.
  unfold keeps_at, wp, staticR. intros H. destruct (m s) as [[[a s'] w]|]; [|done].
  intros Hs. by apply H.
Qed.

(** Writes to other fields, and writes through the progress map. *)
Lemma staticR_same s s' :
  cfg s' = cfg s -> campaign s' = campaign s -> progress s' = progress s -> staticR s s' [].
Proof. intros E1 E2 E3 Hs. unfold static. rewrite E1, E2, E3. by split. Qed.

Lemma cursors_default : cursors_in progress_default.
Proof. by split. Qed.

Lemma cursors_at s id : static s -> cursors_in (default progress_default (progress s !! id)).
Proof.
  intros (_ & _ & Hp). destruct (progress s !! id) as [p|] eqn:E; [by apply (Hp id)|].
  apply cursors_default.
Qed.

Lemma staticR_progress id f s :
  (forall p, cursors_in p -> cursors_in (f p)) -> staticR s (update_progress id f s) [].
Proof.
  intros Hf Hs. split; [|done]. pose proof (Hf _ (cursors_at s id Hs)) as Hp.
  destruct Hs as (H1 & H2 & H3). split; [done|]. split; [done|].
  by apply map_Forall_insert_2.
Qed.

Lemma keeps_progress id f :
  (forall p, cursors_in p -> cursors_in (f p)) -> keeps staticR (modify (update_progress id f)).
Proof. intros Hf. apply keeps_modify. intros s. by apply staticR_progress. Qed.

Lemma keeps_self f :
  (forall p, cursors_in p -> cursors_in (f p)) -> keeps staticR (update_self f).
Proof. intros Hf. apply keeps_modify. intros s. by apply staticR_progress. Qed.

(** Close the writes and actions of a handler; what is left needs thought. *)
Ltac static_write :=
  first [ by apply staticR_same
        | by split; [|repeat constructor]
        | apply staticR_progress; intros ? [??]; by split ].
Ltac static_step :=
  match goal with
  | |- keeps staticR (update_self _) => apply keeps_self; intros ? [??]; by split
  | |- keeps staticR (modify (update_progress _ _)) => apply keeps_progress; intros ? [??]; by split
  | |- keeps staticR _ => keeps_step
  | |- staticR _ _ _ => static_write
  end.
Ltac static_walk := repeat static_step.

Lemma ensure_log_static : keeps staticR ensure_log.
Proof. unfold ensure_log. static_walk. Qed.
#[local] Hint Resolve ensure_log_static : keeps.

Lemma tail_mut_static : keeps staticR tail_mut.
Proof. unfold tail_mut. static_walk. Qed.
#[local] Hint Resolve tail_mut_static : keeps.

Lemma put_tail_static t : keeps staticR (put_tail t).
Proof. unfold put_tail. static_walk. Qed.
#[local] Hint Resolve put_tail_static : keeps.

Lemma push_entry_static e : keeps staticR (push_entry e).
Proof. unfold push_entry. static_walk. Qed.
#[local] Hint Resolve push_entry_static : keeps.

Lemma set_agreed_static r : keeps staticR (set_agreed r).
Proof. unfold set_agreed. static_walk. Qed.
#[local] Hint Resolve set_agreed_static : keeps.

Lemma become_follower_static t l : keeps staticR (become_follower t l).
Proof.
  intros s. apply wp_become_follower. intros (H1 & H2 & H3). split.
  - unfold stepped_down. destruct (_ =? _)%N; by split.
  - unfold step_down_actions. repeat case_match; repeat constructor.
Qed.
#[local] Hint Resolve become_follower_static : keeps.

Lemma advance_apply_static : keeps staticR advance_apply.
Proof. unfold advance_apply. static_walk. Qed.
#[local] Hint Resolve advance_apply_static : keeps.

Lemma send_snapshot_chunk_to_static peer : keeps staticR (send_snapshot_chunk_to peer).
Proof.
  unfold send_snapshot_chunk_to. apply keeps_read. intros s.
  destruct (progress s !! peer ≫= sending) as [cur|] eqn:E; [|apply keeps_ret; apply _].
  destruct (chunk _ _) as [data done_]. apply wp_emit. intros Hs. split; [done|].
  constructor; [|done]. cbn. apply bind_Some in E as (p & Hp & E).
  destruct Hs as (_ & _ & H3). by apply (proj1 (H3 peer p Hp)).
Qed.
#[local] Hint Resolve send_snapshot_chunk_to_static : keeps.

Lemma send_append_to_static peer : keeps staticR (send_append_to peer).
Proof.
  unfold send_append_to. static_walk. apply staticR_progress. intros p Hp. by case_match.
Qed.
#[local] Hint Resolve send_append_to_static : keeps.

Lemma bcast_append_static : keeps staticR bcast_append.
Proof. unfold bcast_append. static_walk. Qed.
#[local] Hint Resolve bcast_append_static : keeps.

Lemma append_own_entry_static c : keeps staticR (append_own_entry c).
Proof. unfold append_own_entry. static_walk. Qed.
#[local] Hint Resolve append_own_entry_static : keeps.

Lemma retain_progress_static me known (m : gmap NodeId Progress) :
  map_Forall (fun _ p => cursors_in p) m ->
  map_Forall (fun _ p => cursors_in p) (retain_progress me known m).
Proof. intros H id p Hp. apply map_lookup_filter_Some in Hp as [Hp _]. by apply (H id). Qed.

Lemma init_leader_progress_static : keeps staticR init_leader_progress.
Proof.
  unfold init_leader_progress. static_walk.
  intros (H1 & H2 & H3). split; [|done]. split; [done|]. split; [done|].
  by apply retain_progress_static.
Qed.
#[local] Hint Resolve init_leader_progress_static : keeps.

Lemma on_became_leader_static : keeps staticR on_became_leader.
Proof.
  unfold on_became_leader. static_walk.
  intros (H1 & H2 & H3). split; [|done]. split; [done|]. split; [done|].
  cbn. apply map_Forall_fmap. eapply map_Forall_impl; [exact H3|]. by intros id p [??].
Qed.
#[local] Hint Resolve on_became_leader_static : keeps.

Lemma advance_commit_static : keeps staticR advance_commit.
Proof. unfold advance_commit, quorum_matched. static_walk. Qed.
#[local] Hint Resolve advance_commit_static : keeps.

Lemma observe_config_at_static a : keeps staticR (observe_config_at a).
Proof. unfold observe_config_at. static_walk. Qed.
#[local] Hint Resolve observe_config_at_static : keeps.

Lemma observe_quorum_watermark_static r : keeps staticR (observe_quorum_watermark r).
Proof. unfold observe_quorum_watermark. static_walk. Qed.
#[local] Hint Resolve observe_quorum_watermark_static : keeps.

Lemma truncate_conflict_static r : keeps staticR (truncate_conflict r).
Proof. unfold truncate_conflict. static_walk. Qed.
#[local] Hint Resolve truncate_conflict_static : keeps.

Lemma extend_log_static from pr n fresh conflict newest lc :
  keeps staticR (extend_log from pr n fresh conflict newest lc).
Proof. unfold extend_log. static_walk. Qed.
#[local] Hint Resolve extend_log_static : keeps.

Lemma adopt_leader_static from t : keeps staticR (adopt_leader from t).
Proof. unfold adopt_leader. static_walk. Qed.
#[local] Hint Resolve adopt_leader_static : keeps.

Lemma on_append_static from t pr pt es lc : keeps staticR (on_append from t pr pt es lc).
Proof. unfold on_append. static_walk. Qed.
#[local] Hint Resolve on_append_static : keeps.

Lemma on_append_resp_static from ok m hint d : keeps staticR (on_append_resp from ok m hint d).
Proof.
  unfold on_append_resp. static_walk.
  - apply staticR_progress. intros p Hp. unfold latch_diverged. by case_match.
  - apply staticR_progress. intros p [H1 H2]. unfold count_ack. by case_match.
Qed.
#[local] Hint Resolve on_append_resp_static : keeps.

Lemma on_install_snapshot_resp_static from n : keeps staticR (on_install_snapshot_resp from n).
Proof.
  unfold on_install_snapshot_resp. static_walk.
  all: apply staticR_progress; intros p [H1 H2]; split; [|done]; cbn; intros c Hc.
  all: destruct (sending p) as [c0|] eqn:E; [|done]; injection Hc as <-; cbn; by apply H1.
Qed.
#[local] Hint Resolve on_install_snapshot_resp_static : keeps.

Lemma ack_snapshot_static to n : keeps staticR (ack_snapshot to n).
Proof. unfold ack_snapshot. static_walk. Qed.
#[local] Hint Resolve ack_snapshot_static : keeps.

Lemma refuse_snapshot_static to : keeps staticR (refuse_snapshot to).
Proof. unfold refuse_snapshot. static_walk. Qed.
#[local] Hint Resolve refuse_snapshot_static : keeps.

Lemma set_receiving_static c :
  (forall r, c = Some r -> meta_config (rc_meta r) = C) -> keeps staticR (set_receiving_cursor c).
Proof.
  intros Hc. apply keeps_self. intros p [H1 H2]. split; [done|]. cbn. done.
Qed.

Lemma hold_and_ack_static from c :
  meta_config (rc_meta c) = C -> keeps staticR (hold_and_ack from c).
Proof.
  intros Hc. unfold hold_and_ack. apply keeps_bind; [apply _| |intros _; auto with keeps].
  apply set_receiving_static. by intros r [= <-].
Qed.

(** The cursor a chunk goes to is of [C], and so is whatever is answered. *)
Lemma pick_cursor_static from meta offset data s :
  meta_config meta = C -> static s ->
  match pick_cursor from meta offset data (snapshot_incoming s) with
  | inl answer => keeps staticR answer
  | inr cur => meta_config (rc_meta cur) = C
  end.
Proof.
  intros Hm (_ & _ & H3).
  assert (forall c, snapshot_incoming s = Some c -> meta_config (rc_meta c) = C) as Hheld.
  { intros c Hc. unfold snapshot_incoming in Hc. apply bind_Some in Hc as (p & Hp & Hc).
    by apply (proj2 (H3 _ p Hp)). }
  unfold pick_cursor. repeat case_match; simplify_eq; try done; auto with keeps.
  apply hold_and_ack_static. by apply Hheld.
Qed.

Lemma on_install_snapshot_static from t meta offset data done_ :
  meta_config meta = C -> keeps staticR (on_install_snapshot from t meta offset data done_).
Proof.
  intros Hm. unfold on_install_snapshot. apply keeps_bind; [apply _|static_walk|intros s0].
  destruct (validate meta); [|auto with keeps]. destruct (_ && _); [auto with keeps|].
  apply keeps_bind; [apply _|auto with keeps|intros _]. apply keeps_read. intros s.
  repeat (case_match; [solve [apply ack_snapshot_static]|]).
  apply assume_static. intros Hs. pose proof (pick_cursor_static from meta offset data s Hm Hs) as Hp.
  destruct (pick_cursor _ _ _ _ _) as [answer|cur]; [apply Hp|].
  repeat (case_match; [by apply hold_and_ack_static || apply refuse_snapshot_static|]).
  cbv zeta. destruct done_; [|by apply hold_and_ack_static].
  destruct (completion_verdict _ _ _ _) as [?|[|]]; [by apply hold_and_ack_static..|].
  match goal with |- keeps_at _ ?m s => assert (keeps staticR m) as Hk; [|apply Hk] end.
  apply keeps_bind; [apply _|by apply set_receiving_static|intros _; auto with keeps].
Qed.

Lemma latch_damaged_static w : keeps staticR (latch_damaged w).
Proof. unfold latch_damaged. static_walk. Qed.
#[local] Hint Resolve latch_damaged_static : keeps.

Lemma note_config_static : keeps staticR (note_config_in_log C).
Proof.
  unfold note_config_in_log. apply keeps_read. intros s. apply assume_static. intros [E _].
  match goal with |- keeps_at _ ?m s => assert (keeps staticR m) as Hk; [|apply Hk] end.
  rewrite E. rewrite !bool_decide_true by done. static_walk.
Qed.

Lemma finish_install_static : keeps staticR finish_install.
Proof.
  unfold finish_install. apply keeps_read. intros s.
  destruct (snapshot_incoming s) as [cur|] eqn:Hi; [|apply keeps_ret; apply _].
  destruct (negb _); [apply keeps_ret; apply _|].
  apply assume_static. intros (_ & _ & H3).
  unfold snapshot_incoming in Hi. apply bind_Some in Hi as (p & Hp & Hi).
  rewrite (proj2 (H3 _ p Hp) cur Hi).
  match goal with |- keeps_at _ ?m s => assert (keeps staticR m) as Hk; [|apply Hk] end.
  apply keeps_bind; [apply _|apply note_config_static|]. intros [?|?]; [|static_walk].
  unfold install_snapshot_tail. static_walk. by apply set_receiving_static.
Qed.
#[local] Hint Resolve finish_install_static : keeps.

Lemma on_persisted_static t r : keeps staticR (on_persisted t r).
Proof. unfold on_persisted. static_walk. Qed.
#[local] Hint Resolve on_persisted_static : keeps.

Lemma on_propose_static c : keeps staticR (on_propose c).
Proof. unfold on_propose. static_walk. Qed.
#[local] Hint Resolve on_propose_static : keeps.

Lemma on_append_msg_static m : meta_in m -> keeps staticR (on_append_msg m).
Proof.
  intros Hm. unfold on_append_msg, meta_in in *. apply keeps_bind; [apply _|auto with keeps|intros _].
  destruct (m_body m); static_walk. by apply on_install_snapshot_static.
Qed.

(** A campaign is counted against the configuration in force. *)
Lemma redraw_timeout_static : keeps staticR redraw_timeout.
Proof.
  unfold redraw_timeout, draw_timeout. apply keeps_bind; [apply _| |intros ?; static_walk].
  apply keeps_bind; [apply _|static_walk|intros s]. destruct (next_u32 _). static_walk.
Qed.
#[local] Hint Resolve redraw_timeout_static : keeps.

Lemma capture_static f :
  (forall s, cfg (f s) = cfg s /\ progress (f s) = progress s
             /\ (campaign (f s) = Some (cfg s) \/ campaign (f s) = None)) ->
  keeps staticR (modify f).
Proof.
  intros Hf. apply keeps_modify. intros s (H1 & H2 & H3).
  destruct (Hf s) as (E1 & E2 & E3). split; [|done]. unfold static. rewrite E1, E2.
  split; [done|]. split; [|done]. intros c Hc. destruct E3 as [E3|E3]; congruence.
Qed.

Lemma become_leader_static : keeps staticR become_leader.
Proof.
  unfold become_leader. apply keeps_bind; [apply _| |intros _; static_walk].
  apply capture_static. intros s. by repeat split; right.
Qed.
#[local] Hint Resolve become_leader_static : keeps.

Lemma become_candidate_static : keeps staticR become_candidate.
Proof.
  unfold become_candidate. apply keeps_bind; [apply _| |intros _; static_walk].
  apply capture_static. intros s. by repeat split; left.
Qed.
#[local] Hint Resolve become_candidate_static : keeps.

Lemma start_precampaign_static : keeps staticR start_precampaign.
Proof.
  unfold start_precampaign. apply keeps_bind; [apply _| |intros _; static_walk].
  apply capture_static. intros s. by repeat split; left.
Qed.
#[local] Hint Resolve start_precampaign_static : keeps.

Lemma on_tick_static : keeps staticR on_tick.
Proof.
  unfold on_tick, leader_tick, voter_tick. static_walk. all: unfold age_peer.
  all: case_match eqn:E; [|by split]; intros (H1 & H2 & H3); split; [|done]; split; [done|]; split; [done|];
    cbn; apply map_Forall_insert_2; [|done]; by apply (H3 _ _ E).
Qed.

Lemma on_vote_msg_static m : keeps staticR (on_vote_msg m).
Proof.
  unfold on_vote_msg, on_pre_vote, on_pre_vote_resp, on_request_vote, on_request_vote_resp. static_walk.
Qed.
#[local] Hint Resolve on_vote_msg_static : keeps.

Definition event_in (ev : Event) : Prop :=
  match ev with Recv m => meta_in m | _ => True end.

Lemma stale_refusal_in b b' : stale_refusal b = Some b' -> forall f t n, meta_in (mkMessage f t n b').
Proof. destruct b; cbn; intros [= <-]; done. Qed.

Lemma on_message_static m : meta_in m -> keeps staticR (on_message m).
Proof.
  intros Hm. pose proof (on_append_msg_static m Hm) as Ha. unfold on_message. apply keeps_read. intros s.
  destruct (_ <? _)%N.
  - apply wp_when; [intros _|by split]. apply wp_bind, wp_unwrap; [|done]. intros b Hb. apply wp_emit.
    intros Hs. split; [done|]. constructor; [|done]. by eapply stale_refusal_in.
  - match goal with |- keeps_at _ ?k s => assert (keeps staticR k) as Hk by static_walk; apply Hk end.
Qed.

Lemma step_static s ev s' w :
  static s -> event_in ev -> step s ev = Some (s', w) -> static s' /\ Forall sends_in w.
Proof.
  intros Hs He H. apply step_dispatch in H.
  assert (keeps staticR (dispatch ev)) as Hk.
  { destruct ev; cbn [dispatch]; [apply on_tick_static|by apply on_message_static|auto with keeps..]. }
  exact (wp_run (dispatch ev) _ s tt s' w (Hk s) H Hs).
Qed.

(** The driver's own calls: a checkpoint, and arming a transfer of a capture
    made at this node's configuration. *)
Lemma compact_static through : keeps staticR (compact through).
Proof. unfold compact, compact_tail. static_walk. Qed.

Lemma offer_snapshot_to_static peer snap :
  meta_config (snap_meta snap) = C -> keeps staticR (offer_snapshot_to peer snap).
Proof.
  intros Hm. unfold offer_snapshot_to. static_walk.
  apply staticR_progress. intros p [H1 H2]. split; [|done]. cbn. by intros c [= <-].
Qed.

Lemma restore_static h sr st d es : keeps staticR (restore h sr st d es).
Proof.
  unfold restore. static_walk. induction es as [|e es IH]; cbn; static_walk.
Qed.

Lemma new_static id seed : static (Consensus_new id C seed).
Proof. unfold Consensus_new. by destruct (next_u32 _). Qed.
End static.
