(* ===== verification/Offices.v ===== *)
(** What an office rests on. [G v t c] stands for "voter [v] made its vote for
    [c] in term [t] durable". [office G s] says that a candidate's votes, and
    the majority a leader was elected by, are such votes of voters of [C].
    [calm] is the step relation of everything that cannot win an office. *)
From S2P Require Import Prelude Bytes Errors WalRecord Config Types Transport Digest LogTail.
From S2P Require Import Payload State Office Membership Replicate SnapshotProto Append Election.
From S2P Require Import Step Hoare Votes Static.

Definition calm (s s' : Consensus) (w : list Action) : Prop :=
  self_id s' = self_id s
  /\ (role s' = Follower
      \/ (role s' = role s /\ votes s' = votes s /\ term_of s' = term_of s)).

#[export] Instance calm_StepRel : StepRel calm.
Proof.
  split; [intros s; split; [done|by right]|].
  intros s1 s2 s3 w1 w2 [E1 H1] [E2 H2]. split; [congruence|].
  destruct H2 as [H2|(H2 & H3 & H4)]; [by left|].
  destruct H1 as [H1|(H1 & H5 & H6)]; [left; congruence|right]. by rewrite H2, H3, H4.
Qed.

Lemma inert_calm s s' w : inert s s' w -> calm s s' w.
Proof.
  intros [E _]. unfold office_fields in E. split; [congruence|]. right. unfold term_of.
  repeat split; congruence.
Qed.

Lemma keeps_inert_calm {A : Type} (m : M A) : keeps inert m -> keeps calm m.
Proof. apply keeps_mono, inert_calm. Qed.

Lemma become_follower_calm t l : keeps calm (become_follower t l).
Proof.
  intros s. apply wp_become_follower. unfold stepped_down. destruct (_ =? _)%N; split; [done|by left|done|by left].
Qed.
#[export] Hint Resolve become_follower_calm : keeps.

Ltac calm_walk :=
  repeat first [solve [apply keeps_inert_calm; auto 1 with keeps nocore] | keeps_step];
  try (split; [done|by first [right; repeat split | left]]).

Lemma apply_config_calm c : keeps calm (apply_config c).
Proof. unfold apply_config. calm_walk. Qed.
#[export] Hint Resolve apply_config_calm : keeps.

Lemma latch_damaged_calm w : keeps calm (latch_damaged w).
Proof. unfold latch_damaged. calm_walk. Qed.
#[export] Hint Resolve latch_damaged_calm : keeps.

Lemma note_config_in_log_calm c : keeps calm (note_config_in_log c).
Proof. unfold note_config_in_log. calm_walk. Qed.
#[export] Hint Resolve note_config_in_log_calm : keeps.

Lemma finish_install_calm : keeps calm finish_install.
Proof. unfold finish_install. calm_walk. Qed.
#[export] Hint Resolve finish_install_calm : keeps.

Lemma on_persisted_calm t r : keeps calm (on_persisted t r).
Proof. unfold on_persisted. calm_walk. Qed.
#[export] Hint Resolve on_persisted_calm : keeps.

Lemma adopt_leader_calm from t : keeps calm (adopt_leader from t).
Proof. unfold adopt_leader. calm_walk. Qed.
#[export] Hint Resolve adopt_leader_calm : keeps.

Lemma on_append_calm from t pr pt es lc : keeps calm (on_append from t pr pt es lc).
Proof. unfold on_append. calm_walk. Qed.
#[export] Hint Resolve on_append_calm : keeps.

Lemma on_install_snapshot_calm from t meta offset data done_ :
  keeps calm (on_install_snapshot from t meta offset data done_).
Proof.
  unfold on_install_snapshot.
  repeat first [solve [apply keeps_inert_calm; auto 1 with keeps nocore] | keeps_step].
  apply keeps_inert_calm. by eapply pick_cursor_inert.
Qed.
#[export] Hint Resolve on_install_snapshot_calm : keeps.

Lemma on_append_msg_calm m : keeps calm (on_append_msg m).
Proof. unfold on_append_msg. calm_walk. Qed.
#[export] Hint Resolve on_append_msg_calm : keeps.

Lemma redraw_timeout_calm : keeps calm redraw_timeout.
Proof.
  intros s. apply wp_redraw_timeout. intros t r _ _. split; [done|]. right. done.
Qed.
#[export] Hint Resolve redraw_timeout_calm : keeps.

Lemma leader_tick_calm : keeps calm leader_tick.
Proof.
  unfold leader_tick. calm_walk. unfold age_peer. case_match; (split; [done|by right]).
Qed.
#[export] Hint Resolve leader_tick_calm : keeps.

Lemma on_request_vote_calm from lt lr : keeps calm (on_request_vote from lt lr).
Proof. unfold on_request_vote. apply keeps_read. intros s. cbv zeta.
  destruct (_ && _); cbn [when]; unfold keeps_at; repeat apply wp_bind;
    [apply wp_modify, wp_emit, wp_emit|apply wp_ret, wp_emit]; (split; [done|by right]).
Qed.
#[export] Hint Resolve on_request_vote_calm : keeps.

Section offices.
Context (C : Config) (G : NodeId -> Term -> NodeId -> Prop).

(** A majority of [C] voted for [i] in [t]. *)
Definition backed (t : Term) (i : NodeId) : Prop :=
  exists Q : gset NodeId, (forall v, v ∈ Q -> v ∈ members C /\ G v t i)
                          /\ Config.has_quorum C (size Q) = true.

Definition office (s : Consensus) : Prop :=
  match role s with
  | Follower => True
  | PreCandidate => self_id s ∈ members C
  | Candidate => forall v, v ∈ votes s -> v ∈ members C /\ G v (term_of s) (self_id s)
  | Leader => backed (term_of s) (self_id s)
  end.

Lemma calm_office s s' w : calm s s' w -> office s -> office s'.
Proof.
  intros [E [H|(H1 & H2 & H3)]]; unfold office; [by rewrite H|].
  by rewrite E, H1, H2, H3.
Qed.

(** The votes a list of actions makes durable on node [me]. *)
Definition votes_in (me : NodeId) (w : list Action) : Prop :=
  forall t c, PersistHardState t (Some c) ∈ w -> G me t c.

(** From a state whose office is sound, so is the state reached, given the
    votes made durable on the way. *)
Definition wins {A : Type} (m : M A) (s : Consensus) : Prop :=
  wp True m (fun _ s' w => votes_in (self_id s) w -> office s') s.

Lemma calm_wins {A : Type} (m : M A) s : keeps calm m -> office s -> wins m s.
Proof.
  intros Hm Ho. eapply wp_mono; [apply Hm|]. cbn. intros _ s' w Hc _. by eapply calm_office.
Qed.

Lemma become_leader_wins s : backed (term_of s) (self_id s) -> wins become_leader s.
Proof.
  intros Hb. unfold wins, become_leader. apply wp_bind, wp_modify, wp_bind, wp_get, wp_bind, wp_emit.
  eapply wp_mono; [apply on_became_leader_inert|]. cbn. intros _ s' w Hi _.
  apply inert_calm in Hi. by apply (calm_office (to_leader s) s' w).
Qed.

(** A quorum in a campaign counted against [C] is a majority. *)
Lemma quorum_backs s :
  static C s -> (forall v, v ∈ votes s -> v ∈ members C /\ G v (term_of s) (self_id s)) ->
  campaign_has_quorum s = true -> backed (term_of s) (self_id s).
Proof.
  intros (_ & Hc & _) Hv Hq. unfold campaign_has_quorum in Hq.
  destruct (campaign s) as [c|] eqn:E; [|done]. rewrite (Hc c) in Hq by done.
  by exists (votes s).
Qed.

Lemma become_candidate_wins s :
  static C s -> self_id s ∈ members C -> wins become_candidate s.
Proof.
  intros Hs Hme. unfold wins, become_candidate.
  apply wp_bind, wp_modify, wp_bind, wp_redraw_timeout. intros t r _ _.
  apply wp_bind, wp_get, wp_bind, wp_emit, wp_bind, wp_emit. cbv beta.
  set (s2 := redrawn t r (to_candidate s)).
  assert (static C s2) as Hs2.
  { destruct Hs as (H1 & H2 & H3). split; [done|]. split; [|done]. by intros c [= <-]. }
  assert (G (self_id s) (term_of s2) (self_id s) ->
    forall v, v ∈ votes s2 -> v ∈ members C /\ G v (term_of s2) (self_id s2)) as Hv.
  { intros Hg v Hin. change (v ∈ ({[self_id s]} : gset NodeId)) in Hin.
    apply elem_of_singleton in Hin as ->. by split. }
  assert (wp True (if campaign_has_quorum s2 then become_leader else
      for_each (campaign_voters s2) (fun to => emit (Send (mkMessage (self_id s2) to (term_of s2)
        (RequestVote (last_term s2) (last_round s2))))))
    (fun _ s3 w3 => G (self_id s) (term_of s2) (self_id s) -> votes_in (self_id s) w3 -> office s3) s2) as Hrest.
  { apply wp_assume. intros Hg. destruct (campaign_has_quorum s2) eqn:Hq.
    - apply (become_leader_wins s2). apply quorum_backs; [done|by apply Hv|done].
    - apply (calm_wins _ s2); [|exact (Hv Hg)]. apply (keeps_for_each calm). intros n.
      apply keeps_emit. intros s0. split; [done|by right]. }
  eapply wp_mono; [exact Hrest|]. intros [] s3 w3 H3 Hw. apply H3.
  - apply Hw. left.
  - intros t' c Hin. apply Hw. do 2 right. exact Hin.
Qed.

Lemma start_precampaign_wins s :
  static C s -> self_id s ∈ members C -> wins start_precampaign s.
Proof.
  intros Hs Hme. unfold wins, start_precampaign.
  apply wp_bind, wp_modify, wp_bind, wp_redraw_timeout. intros t r _ _.
  apply wp_bind, wp_get, wp_bind, wp_emit. cbv beta.
  set (s2 := redrawn t r (to_precandidate s)).
  assert (static C s2) as Hs2.
  { destruct Hs as (H1 & H2 & H3). split; [done|]. split; [|done]. by intros c [= <-]. }
  destruct (campaign_has_quorum s2).
  - eapply wp_mono; [by apply (become_candidate_wins s2)|]. intros [] s3 w3 H3 Hw. apply H3.
    intros t' c Hin. apply Hw. by right.
  - eapply wp_mono.
    { apply (keeps_for_each calm). intros n. apply keeps_emit. intros s0. split; [done|by right]. }
    intros [] s3 w3 Hc _. exact (calm_office s2 s3 w3 Hc Hme).
Qed.

Lemma static_contains s : static C s -> Config.contains (cfg s) (self_id s) = true -> self_id s ∈ members C.
Proof. intros [<- _] H. by apply contains_spec in H. Qed.

Lemma on_tick_wins s : static C s -> office s -> wins on_tick s.
Proof.
  intros Hs Ho. unfold wins, on_tick. apply wp_bind, wp_get. cbn [app].
  assert (wins voter_tick s) as Hv.
  { unfold wins, voter_tick. apply wp_bind, wp_modify, wp_bind, wp_get. cbv beta.
    set (s1 := s <| since_heard := _ |>).
    assert (office s1) as Ho1 by exact Ho.
    destruct (_ <? _)%N; [by apply wp_ret|].
    destruct (may_campaign s1) eqn:Hm.
    - unfold may_campaign in Hm. apply andb_prop in Hm as [_ Hm].
      apply (start_precampaign_wins s1); [done|]. by apply static_contains.
    - apply (calm_wins _ s1); [|done]. calm_walk. }
  destruct (role s) eqn:Hr; try exact Hv. apply calm_wins; [calm_walk|done].
Qed.

(** The answers of an election are backed by durable votes. *)
Definition event_backed (me : NodeId) (ev : Event) : Prop :=
  match ev with
  | Recv m => m_body m = RequestVoteResp true -> G (m_from m) (m_term m) me
  | _ => True
  end.

Lemma campaign_contains_static s n :
  static C s -> campaign_contains s n = true -> n ∈ members C.
Proof.
  intros (_ & Hc & _) H. unfold campaign_contains in H.
  destruct (campaign s) as [c|] eqn:E; [|done]. rewrite (Hc c) in H by done. by apply contains_spec in H.
Qed.

Lemma on_vote_msg_wins m s :
  static C s -> office s -> event_backed (self_id s) (Recv m) -> wins (on_vote_msg m) s.
Proof.
  intros Hs Ho He. unfold on_vote_msg. destruct (m_body m) eqn:Hb; try by apply calm_wins; [apply keeps_panic|].
  - apply calm_wins; [|done]. unfold on_pre_vote. calm_walk.
  - unfold wins, on_pre_vote_resp. apply wp_bind, wp_get. cbn [app].
    case_bool_decide as Hr; cbn [negb]; [|by apply wp_ret].
    do 3 (destruct (negb _); [by apply wp_ret|]).
    apply wp_bind, wp_modify, wp_bind, wp_get. cbv beta. cbn [app].
    set (s1 := s <| votes := _ |>).
    assert (office s1) as Ho1 by (unfold office in *; cbn; by rewrite Hr in *).
    assert (static C s1) as Hs1 by exact Hs.
    apply wp_when; intros _; [|done]. apply (become_candidate_wins s1); [done|].
    unfold office in Ho1. cbn in Ho1. by rewrite Hr in Ho1.
  - by apply calm_wins; [auto with keeps|].
  - unfold wins, on_request_vote_resp. apply wp_bind, wp_get. cbn [app].
    case_bool_decide as Hr; cbn [negb]; [|by apply wp_ret].
    destruct (N.eqb_spec (m_term m) (term_of s)) as [Ht|]; cbn [negb]; [|by apply wp_ret].
    destruct (campaign_contains s (m_from m)) eqn:Hc; cbn [negb]; [|by apply wp_ret].
    destruct granted; cbn [negb]; [|by apply wp_ret].
    apply wp_bind, wp_modify, wp_bind, wp_get. cbv beta. cbn [app].
    set (s1 := s <| votes := _ |>).
    assert (forall v, v ∈ votes s1 -> v ∈ members C /\ G v (term_of s1) (self_id s1)) as Hv.
    { unfold office in Ho. rewrite Hr in Ho. intros v Hv. cbn in Hv.
      apply elem_of_union in Hv as [Hv%elem_of_singleton|Hv]; [subst v|by apply Ho].
      split; [by eapply campaign_contains_static|]. specialize (He Hb). rewrite Ht in He. exact He. }
    apply wp_when; intros Hq; [|intros _; unfold office; cbn; rewrite Hr; exact Hv].
    apply (become_leader_wins s1). by apply quorum_backs.
Qed.

Lemma step_office s ev s' w :
  static C s -> office s -> event_backed (self_id s) ev -> votes_in (self_id s) w ->
  step s ev = Some (s', w) -> office s'.
Proof.
  intros Hs Ho He Hw H. apply step_dispatch in H.
  assert (wins (dispatch ev) s) as Hk; [|by apply (wp_run (dispatch ev) _ s tt s' w Hk H)].
  destruct ev as [|m|t r|c]; cbn [dispatch].
  - by apply on_tick_wins.
  - unfold wins, on_message. apply wp_bind, wp_get. cbn [app].
    destruct (_ <? _)%N.
    { apply calm_wins; [|done]. calm_walk. }
    apply wp_bind. apply wp_when; intros _.
    + apply wp_become_follower.
      assert (self_id (stepped_down (m_term m) None s) = self_id s) as Hid
        by (unfold stepped_down; by destruct (_ =? _)%N).
      rewrite <- Hid in He |- *.
      eapply wp_mono.
      * destruct (is_vote_body _).
        -- apply (on_vote_msg_wins m (stepped_down (m_term m) None s)).
           ++ pose proof (become_follower_static C (m_term m) None s) as Hf.
              unfold wp in Hf. rewrite become_follower_run in Hf. by apply Hf.
           ++ unfold office, stepped_down. by destruct (_ =? _)%N.
           ++ exact He.
        -- apply (calm_wins _ (stepped_down (m_term m) None s)); [auto with keeps|].
           unfold office, stepped_down. by destruct (_ =? _)%N.
      * intros [] s3 w3 H3 Hw3. apply H3. intros t c Hin. apply Hw3. apply elem_of_app. by right.
    + cbn [app]. destruct (is_vote_body _); [by apply on_vote_msg_wins|].
      by apply calm_wins; [auto with keeps|].
  - by apply calm_wins; [auto with keeps|].
  - apply calm_wins; [|done]. apply keeps_inert_calm. auto with keeps.
Qed.
End offices.
