(* ===== verification/Cluster.v ===== *)
(** A cluster of nodes over a network that loses, duplicates and reorders, with
    crashes at every point between two actions and restarts from what the disk
    holds: [start], [drain] and [perform] of [src/src/consensus/node.rs] as far
    as the hard state and the messages go. The theorem is election safety: no
    term has two leaders. *)
From S2P Require Import Prelude Bytes Errors WalRecord Config Types Transport Digest LogTail.
From S2P Require Import Payload State Office Membership Replicate SnapshotProto Append Election.
From S2P Require Import Step Hoare Votes Static Offices.

(** A node is up with a state, or down; its hard state is on its disk. *)
Record Node := mkNode { up : option Consensus; disk : HardState }.

(** [led] records who held which term's office, for the statement only. *)
Record Cluster := mkCluster {
  nodes : NodeId -> Node;
  net : list Message;
  led : list (Term * NodeId)
}.

(** One action performed: its effect on the node's disk and on the network. *)
Definition perform (a : Action) (dn : HardState * list Message) : HardState * list Message :=
  match a with
  | Send m => (dn.1, m :: dn.2)
  | PersistHardState t v => (mkHard t v, dn.2)
  | _ => dn
  end.

Definition perform_all (w : list Action) (dn : HardState * list Message) : HardState * list Message :=
  fold_left (fun dn a => perform a dn) w dn.

Definition crown (i : NodeId) (s : Consensus) : list (Term * NodeId) :=
  if bool_decide (role s = Leader) then [(term_of s, i)] else [].

(** Whether the driver may hand an event to node [i]: a message is one that was
    sent to it, its term the [u64] it is. *)
Definition deliverable (c : Cluster) (i : NodeId) (ev : Event) : Prop :=
  match ev with
  | Recv m => m ∈ net c /\ m_to m = i /\ u64_ok (m_term m)
  | _ => True
  end.

Definition with_node (c : Cluster) (i : NodeId) (n : Node) (msgs : list Message)
    (won : list (Term * NodeId)) : Cluster :=
  mkCluster (fun j => if (j =? i)%N then n else nodes c j) msgs (won ++ led c).

Section cluster.
Context (C : Config).

Inductive cstep : Cluster -> Cluster -> Prop :=
(** An event stepped and every action of it performed. *)
| CEvent c i s ev s' w :
    up (nodes c i) = Some s -> deliverable c i ev -> step s ev = Some (s', w) ->
    cstep c (let dn := perform_all w (disk (nodes c i), net c) in
             with_node c i (mkNode (Some s') dn.1) dn.2 (crown i s'))
(** The same, the node going down after some of the actions. *)
| CTorn c i s ev s' w1 w2 :
    up (nodes c i) = Some s -> deliverable c i ev -> step s ev = Some (s', w1 ++ w2) ->
    cstep c (let dn := perform_all w1 (disk (nodes c i), net c) in
             with_node c i (mkNode None dn.1) dn.2 [])
(** A node going down between events, or in a panic. *)
| CDown c i :
    cstep c (with_node c i (mkNode None (disk (nodes c i))) (net c) [])
(** A restart: the state machine is rebuilt from the hard state on disk and
    whatever log and floor are there. *)
| CStart c i seed sr st d es s w :
    up (nodes c i) = None ->
    restore (disk (nodes c i)) sr st d es (Consensus_new i C seed) = Some (tt, s, w) ->
    cstep c (with_node c i (mkNode (Some s) (disk (nodes c i))) (net c) [])
(** The driver's bookkeeping: a checkpoint, and arming a transfer of a
    capture taken at the node's own snapshot point. *)
| CCompact c i s through r s' w :
    up (nodes c i) = Some s -> compact through s = Some (r, s', w) ->
    cstep c (with_node c i (mkNode (Some s') (disk (nodes c i))) (net c) [])
| COffer c i s peer snap r s' w :
    up (nodes c i) = Some s -> meta_config (snap_meta snap) = cfg s ->
    offer_snapshot_to peer snap s = Some (r, s', w) ->
    cstep c (with_node c i (mkNode (Some s') (disk (nodes c i))) (net c) []).

(** Every node down, nothing sent, no vote on any disk. *)
Definition initial : Cluster := mkCluster (fun _ => mkNode None hard_default) [] [].

Definition reachable (c : Cluster) : Prop := rtc cstep initial c.
End cluster.

(** * The ledger of durable votes *)

Abbreviation Ledger := (list (NodeId * Term * NodeId)) (only parsing).

Definition in_ledger (L : Ledger) (v : NodeId) (t : Term) (a : NodeId) : Prop := (v, t, a) ∈ L.

(** The votes a list of actions makes durable on [me]. *)
Definition cast (me : NodeId) (w : list Action) : Ledger :=
  omap (fun a => match a with PersistHardState t (Some c) => Some (me, t, c) | _ => None end) w.

(** The ledger agrees with the hard state on [me]'s disk: no vote of [me] is of
    a later term, the one of the disk's term is the disk's, and there is one
    vote per term below the ceiling. *)
Record ledger_ok (me : NodeId) (h : HardState) (L : Ledger) : Prop := {
  ledger_past t a : (me, t, a) ∈ L -> (t < max_u64)%N ->
    (t <= hard_term h)%N /\ (hard_term h = t -> voted_for h = Some a);
  ledger_one t a b : (me, t, a) ∈ L -> (me, t, b) ∈ L -> (t < max_u64)%N -> a = b;
  ledger_disk a : voted_for h = Some a -> (me, hard_term h, a) ∈ L
}.

Lemma ledger_persist me h t v L :
  ledger_ok me h L -> may_persist h (mkHard t v) ->
  ledger_ok me (mkHard t v) (L ++ cast me [PersistHardState t v]).
Proof.
  intros [H1 H2 H3] Hp.
  assert (forall t0 a, (me, t0, a) ∈ L -> (t0 < max_u64)%N ->
    (t0 <= t)%N /\ (t = t0 -> v = Some a)) as Hold.
  { intros t0 a Hin Ht. destruct (H1 t0 a Hin Ht) as [Hle Heq].
    destruct Hp as [Hp|[[Hp Hv]|[Hp1 Hp2]]]; cbn in *; [split; lia| |split; lia].
    split; [lia|]. intros ->. destruct Hv as [Hv|Hv]; [|rewrite Hv; apply Heq; lia].
    rewrite Heq in Hv by lia. done. }
  assert (forall t0 a, (me, t0, a) ∈ L ++ cast me [PersistHardState t v] -> (t0 < max_u64)%N ->
    (t0 <= t)%N /\ (t = t0 -> v = Some a)) as Hnew.
  { intros t0 a [Hin|Hin]%elem_of_app Ht; [by apply Hold|].
    destruct v as [c|]; cbn in Hin; [|by apply elem_of_nil in Hin].
    apply list_elem_of_singleton in Hin as [= -> ->]. split; [lia|done]. }
  split; [done| |].
  - intros t0 a b Ha Hb Ht.
    apply elem_of_app in Ha as [Ha|Ha]; apply elem_of_app in Hb as [Hb|Hb]; [by eapply H2| | |].
    all: destruct v as [c|]; cbn in *; try by apply elem_of_nil in Ha || apply elem_of_nil in Hb.
    + apply list_elem_of_singleton in Hb as [= -> ->].
      destruct (Hold t a Ha Ht) as [_ E]. by specialize (E eq_refl); simplify_eq.
    + apply list_elem_of_singleton in Ha as [= -> ->].
      destruct (Hold t b Hb Ht) as [_ E]. by specialize (E eq_refl); simplify_eq.
    + apply list_elem_of_singleton in Ha as [= -> ->]. by apply list_elem_of_singleton in Hb as [= ->].
  - intros a Ha. cbn in Ha. subst v. apply elem_of_app. right. by apply list_elem_of_singleton.
Qed.

(** Performing legal actions: the disk ends with the hard state they end in,
    the ledger grows by the votes, and a granted vote that is sent is in it. *)
Lemma perform_legal me h w h' msgs L :
  legal me h w h' -> ledger_ok me h L ->
  let dn := perform_all w (h, msgs) in
  dn.1 = h' /\ ledger_ok me h' (L ++ cast me w)
  /\ forall m, m ∈ dn.2 -> m ∈ msgs
       \/ (Send m ∈ w /\ (m_body m = RequestVoteResp true ->
             m_from m = me /\ in_ledger (L ++ cast me w) me (m_term m) (m_to m))).
Proof.
  intros Hl. revert msgs L.
  induction Hl as [h|h t v w h' Hp _ IH|h m w h' Hv _ IH|h a w h' Hs Hh _ IH]; intros msgs L HL; cbn zeta.
  - cbn. rewrite app_nil_r. split; [done|]. split; [done|]. by left.
  - destruct (IH msgs _ (ledger_persist _ _ _ _ _ HL Hp)) as (E1 & E2 & E3).
    change (cast me (PersistHardState t v :: w)) with (cast me ([PersistHardState t v] ++ w)).
    unfold cast. rewrite omap_app, app_assoc. split; [done|]. split; [done|].
    intros m Hm. destruct (E3 m Hm) as [?|[Hin Hg]]; [by left|right]. split; [by right|done].
  - destruct (IH (m :: msgs) L HL) as (E1 & E2 & E3). split; [done|]. split; [done|].
    intros m' Hm. destruct (E3 m' Hm) as [[->|Hin]%elem_of_cons|[Hin Hg]].
    + right. split; [left|]. intros Hb. destruct (Hv Hb) as (F1 & F2 & F3). split; [done|].
      unfold in_ledger. apply elem_of_app. left. rewrite <- F2. by apply (ledger_disk _ _ _ HL).
    + by left.
    + right. split; [by right|done].
  - destruct (IH msgs L HL) as (E1 & E2 & E3).
    assert (perform_all (a :: w) (h, msgs) = perform_all w (h, msgs)) as ->.
    { unfold perform_all. cbn. destruct a; try done; [by destruct (Hs m)|by destruct (Hh term voted_for)]. }
    assert (cast me (a :: w) = cast me w) as ->.
    { unfold cast. cbn. destruct a; try done. by destruct (Hh term voted_for). }
    split; [done|]. split; [done|]. intros m Hm. destruct (E3 m Hm) as [?|[Hin Hg]]; [by left|right].
    split; [by right|done].
Qed.

(** * The invariant *)

Lemma backed_mono C (G G' : NodeId -> Term -> NodeId -> Prop) t i :
  (forall v a b, G v a b -> G' v a b) -> backed C G t i -> backed C G' t i.
Proof. intros HG (Q & HQ & Hq). exists Q. split; [|done]. intros v Hv. destruct (HQ v Hv). auto. Qed.

Lemma office_mono C (G G' : NodeId -> Term -> NodeId -> Prop) s :
  (forall v a b, G v a b -> G' v a b) -> office C G s -> office C G' s.
Proof.
  intros HG. unfold office. destruct (role s); try done; [|by apply backed_mono].
  intros H v Hv. destruct (H v Hv). auto.
Qed.

Section safety.
Context (C : Config).

(** A node that is up runs on the hard state of its disk, in the cluster's
    configuration, in an office its votes account for. *)
Record node_ok (L : Ledger) (i : NodeId) (n : Node) : Prop := {
  node_term : (hard_term (disk n) <= max_u64)%N;
  node_ledger : ledger_ok i (disk n) L;
  node_up s : up n = Some s ->
    self_id s = i /\ hard s = disk n /\ static C s /\ office C (in_ledger L) s
}.

Definition message_backed (L : Ledger) (m : Message) : Prop :=
  (m_body m = RequestVoteResp true -> in_ledger L (m_from m) (m_term m) (m_to m)) /\ meta_in C m.

Record cluster_ok (L : Ledger) (c : Cluster) : Prop := {
  ok_nodes i : node_ok L i (nodes c i);
  ok_net m : m ∈ net c -> message_backed L m;
  ok_led t i : (t, i) ∈ led c -> backed C (in_ledger L) t i
}.

(** Votes of another node leave a node's record alone. *)
Lemma ledger_other me j h w L : j <> me -> ledger_ok j h L -> ledger_ok j h (L ++ cast me w).
Proof.
  intros Hne [H1 H2 H3].
  assert (forall t a, (j, t, a) ∈ L ++ cast me w -> (j, t, a) ∈ L) as Hin.
  { intros t a [H|H]%elem_of_app; [done|]. unfold cast in H. apply list_elem_of_omap in H as (x & _ & Hx).
    destruct x as [| |? [?|]| | | |]; simplify_eq. }
  split; [intros t a Ha; apply (H1 t a), (Hin t a Ha)| |].
  - intros t a b Ha Hb. apply Hin in Ha, Hb. by eapply H2.
  - intros a Ha. apply elem_of_app. left. auto.
Qed.

Lemma grow_ledger L L' v t a : in_ledger L v t a -> in_ledger (L ++ L') v t a.
Proof. unfold in_ledger. rewrite elem_of_app. by left. Qed.

(** Replacing one node, when the ledger grows by votes of that node. *)
Lemma cluster_update L c i w n msgs won :
  cluster_ok L c ->
  node_ok (L ++ cast i w) i n ->
  (forall m, m ∈ msgs -> message_backed (L ++ cast i w) m) ->
  (forall t j, (t, j) ∈ won -> backed C (in_ledger (L ++ cast i w)) t j) ->
  cluster_ok (L ++ cast i w) (with_node c i n msgs won).
Proof.
  intros [H1 H2 H3] Hn Hm Hw. split; cbn.
  - intros j. destruct (N.eqb_spec j i) as [->|Hne]; [done|].
    destruct (H1 j) as [Ht Hl Hu]. split; [done|by apply ledger_other|].
    intros s Hs. destruct (Hu s Hs) as (E1 & E2 & E3 & E4). do 3 (split; [done|]).
    eapply office_mono; [|exact E4]. intros. by apply grow_ledger.
  - done.
  - intros t j [Hj|Hj]%elem_of_app; [by apply Hw|].
    eapply backed_mono; [|by apply H3]. intros. by apply grow_ledger.
Qed.

(** The same with the ledger, the network and the disk unchanged. *)
Lemma cluster_same L c i n :
  cluster_ok L c -> disk n = disk (nodes c i) ->
  (forall s, up n = Some s -> self_id s = i /\ hard s = disk n /\ static C s /\ office C (in_ledger L) s) ->
  cluster_ok L (with_node c i n (net c) []).
Proof.
  intros Hc Hd Hu. pose proof (cluster_update L c i [] n (net c) []) as H.
  cbn in H. rewrite app_nil_r in H. apply H; [done| |by intros; apply Hc|by intros ? ? ?%elem_of_nil].
  destruct (ok_nodes _ _ Hc i) as [Ht Hl _]. split; [by rewrite Hd|by rewrite Hd|done].
Qed.

Lemma deliverable_ok L c i s ev :
  cluster_ok L c -> up (nodes c i) = Some s -> deliverable c i ev ->
  event_ok ev /\ event_in C ev /\ event_backed (in_ledger L) i ev.
Proof.
  intros Hc Hs Hd. destruct ev as [|m| |]; try done. destruct Hd as (Hm & Hto & Hu).
  destruct (ok_net _ _ Hc m Hm) as [Hb Hmeta]. split; [done|]. split; [done|].
  intros E. rewrite <- Hto. by apply Hb.
Qed.

(** One event at a node that is up: what the actions leave behind. *)
Lemma event_ok_step L c i s ev s' w1 w2 :
  cluster_ok L c -> up (nodes c i) = Some s -> deliverable c i ev -> step s ev = Some (s', w1 ++ w2) ->
  let dn := perform_all w1 (disk (nodes c i), net c) in
  (hard_term dn.1 <= max_u64)%N /\ ledger_ok i dn.1 (L ++ cast i w1)
  /\ (forall m, m ∈ dn.2 -> message_backed (L ++ cast i w1) m)
  /\ (w2 = [] -> self_id s' = i /\ hard s' = dn.1 /\ static C s' /\ office C (in_ledger (L ++ cast i w1)) s').
Proof.
  intros Hc Hs Hd Hstep. destruct (deliverable_ok L c i s ev Hc Hs Hd) as (He1 & He2 & He3).
  destruct (ok_nodes _ _ Hc i) as [Ht Hl Hu]. destruct (Hu s Hs) as (E1 & E2 & E3 & E4).
  assert (term_of s <= max_u64)%N as Hmax by (unfold term_of; by rewrite E2).
  destruct (step_legalR s ev s' (w1 ++ w2) Hmax He1 Hstep) as [F1 F2]. rewrite E1, E2 in *.
  destruct (step_static C s ev s' (w1 ++ w2) E3 He2 Hstep) as [F3 F4].
  apply legal_prefix in F2 as (h1 & P1 & P2).
  destruct (perform_legal i _ w1 h1 (net c) L P1 Hl) as (Q1 & Q2 & Q3). cbn zeta. rewrite Q1.
  split; [exact (legal_bound i _ w1 h1 P1 Ht)|]. split; [done|]. split.
  - intros m Hm. destruct (Q3 m Hm) as [Hold|[Hin Hg]].
    + destruct (ok_net _ _ Hc m Hold) as [Hb Hmeta]. split; [|done]. intros. by apply grow_ledger, Hb.
    + split; [intros Hb; by destruct (Hg Hb) as [-> ?]|].
      apply Forall_app in F4 as [F4 _]. rewrite Forall_forall in F4. exact (F4 _ Hin).
  - intros ->. assert (hard s' = h1) as Eh by (by inversion P2). rewrite app_nil_r in *.
    split; [congruence|]. split; [done|].
    split; [done|]. apply (step_office C (in_ledger (L ++ cast i w1)) s ev s' w1); try done.
    + eapply office_mono; [|exact E4]. intros. by apply grow_ledger.
    + rewrite E1. destruct ev; try done. intros Hb. by apply grow_ledger, He3.
    + rewrite E1. intros t a Hin. unfold in_ledger. apply elem_of_app. right. unfold cast.
      apply list_elem_of_omap. by exists (PersistHardState t (Some a)).
Qed.

Lemma compact_inert through : keeps inert (compact through).
Proof. unfold compact, compact_tail. inert_walk. Qed.

Lemma offer_snapshot_to_inert peer snap : keeps inert (offer_snapshot_to peer snap).
Proof. unfold offer_snapshot_to. inert_walk. Qed.

Lemma restore_entries_inert sr es : keeps inert (restore_entries sr es).
Proof. induction es as [|e es IH]; cbn; inert_walk. Qed.

Lemma restore_hard h sr st d es s s' w :
  restore h sr st d es s = Some (tt, s', w) ->
  self_id s' = self_id s /\ hard s' = h /\ role s' = Follower.
Proof.
  intros H. refine (wp_run (restore h sr st d es) (fun _ s' w => self_id s' = self_id s /\ hard s' = h /\ role s' = Follower) s tt s' w _ H).
  unfold restore. apply wp_bind, wp_get, wp_bind, wp_assert; [|done]. intros Ha.
  apply wp_bind, wp_modify. apply wp_bind.
  apply andb_prop in Ha as [Ha _]. apply andb_prop in Ha as [Ha _]. apply bool_decide_eq_true in Ha.
  eapply wp_mono; [apply update_self_inert|]. intros [] s1 w1 [I1 _].
  apply wp_bind. eapply wp_mono; [apply restore_entries_inert|]. intros [] s2 w2 [I2 _].
  apply wp_modify. unfold office_fields in *. cbn in *.
  injection I1 as ? ? ? ? ? ? ? ? ? ? ? ?. injection I2 as ? ? ? ? ? ? ? ? ? ? ? ?.
  repeat split; congruence.
Qed.

(** The driver's own calls leave office and hard state alone. *)
Lemma inert_up L i n s s' w :
  node_ok L i n -> up n = Some s -> inert s s' w -> static C s' ->
  self_id s' = i /\ hard s' = disk n /\ static C s' /\ office C (in_ledger L) s'.
Proof.
  intros [_ _ Hu] Hs Hi Hst. destruct (Hu s Hs) as (E1 & E2 & E3 & E4).
  pose proof (calm_office C (in_ledger L) s s' w (inert_calm s s' w Hi) E4) as Ho.
  destruct Hi as [I1 _]. unfold office_fields in I1. split; [congruence|]. split; [congruence|]. by split.
Qed.

Lemma cstep_ok L c c' : cluster_ok L c -> cstep C c c' -> exists L', cluster_ok L' c'.
Proof.
  intros Hc Hstep.
  destruct Hstep as [c i s ev s' w Hs Hd Hst|c i s ev s' w1 w2 Hs Hd Hst|c i
    |c i seed sr st d es s w Hs Hr|c i s through r s' w Hs Hr|c i s peer snap r s' w Hs Hm Hr].
  - exists (L ++ cast i w). rewrite <- (app_nil_r w) in Hst.
    destruct (event_ok_step L c i s ev s' w [] Hc Hs Hd Hst) as (P1 & P2 & P3 & P4).
    destruct (P4 eq_refl) as (Q1 & Q2 & Q3 & Q4).
    apply cluster_update; [done| |done|].
    + split; [done|done|]. intros s0 [= <-]. done.
    + unfold crown. intros t j Hin. case_bool_decide as Hl; [|by apply elem_of_nil in Hin].
      apply list_elem_of_singleton in Hin as [= -> ->]. unfold office in Q4. by rewrite Hl, Q1 in Q4.
  - exists (L ++ cast i w1).
    destruct (event_ok_step L c i s ev s' w1 w2 Hc Hs Hd Hst) as (P1 & P2 & P3 & _).
    apply cluster_update; [done| |done|by intros ? ? ?%elem_of_nil]. by split.
  - exists L. by apply cluster_same.
  - exists L. apply cluster_same; [done|done|]. intros s0 [= <-]. cbn.
    destruct (restore_hard _ _ _ _ _ _ _ _ Hr) as (E1 & E2 & E3).
    split; [|split; [done|split]].
    + rewrite E1. unfold Consensus_new. by destruct (next_u32 _).
    + exact (proj1 (wp_run _ _ _ _ _ _ (restore_static C (disk (nodes c i)) sr st d es _) Hr
               (new_static C i seed))).
    + unfold office. by rewrite E3.
  - exists L. apply cluster_same; [done|done|]. intros s0 [= <-].
    apply (inert_up L i (nodes c i) s s' w); [by apply Hc|done| |].
    + exact (wp_run _ _ _ _ _ _ (compact_inert through s) Hr).
    + destruct (node_up _ _ _ (ok_nodes _ _ Hc i) s Hs) as (_ & _ & Hst & _).
      exact (proj1 (wp_run _ _ _ _ _ _ (compact_static C through s) Hr Hst)).
  - exists L. apply cluster_same; [done|done|]. intros s0 [= <-].
    destruct (node_up _ _ _ (ok_nodes _ _ Hc i) s Hs) as (_ & _ & Hst & _).
    apply (inert_up L i (nodes c i) s s' w); [by apply Hc|done| |].
    + exact (wp_run _ _ _ _ _ _ (offer_snapshot_to_inert peer snap s) Hr).
    + assert (meta_config (snap_meta snap) = C) as Hmeta by (rewrite Hm; exact (proj1 Hst)).
      exact (proj1 (wp_run _ _ _ _ _ _ (offer_snapshot_to_static C peer snap Hmeta s) Hr Hst)).
Qed.

Lemma initial_ok : cluster_ok [] initial.
Proof.
  split; cbn.
  - intros i. split; cbn; [done| |done]. split; cbn; [by intros ? ? ?%elem_of_nil|by intros ? ? ? ?%elem_of_nil|done].
  - by intros ? ?%elem_of_nil.
  - by intros ? ? ?%elem_of_nil.
Qed.

Lemma reachable_ok c : reachable C c -> exists L, cluster_ok L c.
Proof.
  unfold reachable. intros H. assert (exists L, cluster_ok L initial) as Hi by (exists []; apply initial_ok).
  revert Hi. induction H as [|c1 c2 c3 Hs _ IH]; [done|].
  intros [L HL]. apply IH. by eapply cstep_ok.
Qed.
End safety.

(** * The claims *)

(** C1: election safety. In a cluster of any size, over a network that may
    lose, duplicate, delay and reorder messages, with nodes that crash between
    any two actions and restart from their disks, no two nodes ever lead one
    term (below the [u64] ceiling of terms). *)
Theorem at_most_one_leader_per_term C c t i j :
  config_wf C -> reachable C c -> (t < max_u64)%N -> (t, i) ∈ led c -> (t, j) ∈ led c -> i = j.
Proof.
  intros Hwf Hr Ht Hi Hj. destruct (reachable_ok C c Hr) as [L HL].
  destruct (ok_led _ _ _ HL t i Hi) as (A & HA & QA). destruct (ok_led _ _ _ HL t j Hj) as (B & HB & QB).
  apply has_quorum_spec in QA as [_ QA], QB as [_ QB].
  destruct (majorities_intersect (members C) A B) as (v & Hv1 & Hv2).
  - apply ascending_NoDup, Hwf.
  - intros x Hx. by apply HA.
  - intros x Hx. by apply HB.
  - pose proof (quorum_double C). lia.
  - destruct (HA v Hv1) as [_ G1]. destruct (HB v Hv2) as [_ G2].
    by apply (ledger_one _ _ _ (node_ledger _ _ _ _ (ok_nodes _ _ _ HL v)) t).
Qed.

(** A schedule of starts, ticks and deliveries (of the [k]-th message of the
    network), to run a cluster on. *)
Inductive Move : Type :=
| MStart (i : NodeId)
| MTick (i : NodeId)
| MRecv (i : NodeId) (k : nat).

Definition move_event (c : Cluster) (i : NodeId) (ev : Event) : option Cluster :=
  s ← up (nodes c i);
  '(s', w) ← step s ev;
  let dn := perform_all w (disk (nodes c i), net c) in
  Some (with_node c i (mkNode (Some s') dn.1) dn.2 (crown i s')).

Definition move (C : Config) (c : Cluster) (mv : Move) : option Cluster :=
  match mv with
  | MStart i =>
      match up (nodes c i), restore (disk (nodes c i)) 0 0 0 [] (Consensus_new i C 7) with
      | None, Some (_, s, _) => Some (with_node c i (mkNode (Some s) (disk (nodes c i))) (net c) [])
      | _, _ => None
      end
  | MTick i => move_event c i Tick
  | MRecv i k =>
      m ← net c !! k;
      if (m_to m =? i)%N && (m_term m <=? max_u64)%N then move_event c i (Recv m) else None
  end.

Fixpoint schedule (C : Config) (c : Cluster) (mvs : list Move) : option Cluster :=
  match mvs with
  | [] => Some c
  | mv :: mvs => c ← move C c mv; schedule C c mvs
  end.

Lemma move_event_sound C c i ev c' :
  deliverable c i ev -> move_event c i ev = Some c' -> cstep C c c'.
Proof.
  unfold move_event. intros Hd H. apply bind_Some in H as (s & Hs & H).
  apply bind_Some in H as ([s' w] & Hw & H). injection H as <-. by eapply CEvent.
Qed.

Lemma move_sound C c mv c' : move C c mv = Some c' -> cstep C c c'.
Proof.
  intros H. destruct mv as [i|i|i k]; cbn [move] in H.
  - destruct (up (nodes c i)) eqn:Hu; [done|].
    destruct (restore _ _ _ _ _ _) as [[[[] s] w]|] eqn:Hr; [|done].
    injection H as <-. by eapply CStart.
  - by apply (move_event_sound C c i Tick).
  - apply bind_Some in H as (m & Hm & H).
    destruct (N.eqb_spec (m_to m) i) as [Hto|]; [|done].
    destruct (N.leb_spec (m_term m) max_u64) as [Ht|]; [|done]. cbn [andb] in H.
    eapply move_event_sound; [|exact H]. split; [by eapply list_elem_of_lookup_2|done].
Qed.

Lemma schedule_sound C c mvs c' : schedule C c mvs = Some c' -> rtc (cstep C) c c'.
Proof.
  revert c. induction mvs as [|mv mvs IH]; intros c H; cbn in H; [by injection H as <-; constructor|].
  apply bind_Some in H as (c1 & H1 & H). eapply rtc_l; [by eapply move_sound|auto].
Qed.

(** Nodes 1 and 2 start; node 1 stands and is elected with node 2's vote. *)
Definition election : list Move :=
  [MStart 1; MStart 2] ++ replicate 17 (MTick 1)
  ++ [MRecv 2 1; MRecv 1 0; MRecv 2 1; MRecv 1 0].

Definition elected : Cluster := default initial (schedule trio initial election).

Lemma trio_wf : config_wf trio.
Proof. apply new_wf. Qed.

Lemma elected_reachable : reachable trio elected.
Proof.
  apply (schedule_sound trio initial election). unfold elected.
  assert (match schedule trio initial election with Some _ => true | None => false end = true) as H
    by (vm_compute; reflexivity).
  by destruct (schedule trio initial election).
Qed.

Lemma at_most_one_leader_per_term_witness :
  (1%N, 1%N) ∈ led elected /\ forall j, (1%N, j) ∈ led elected -> 1%N = j.
Proof.
  assert (led elected = [(1%N, 1%N)]) as E by (vm_compute; reflexivity).
  assert ((1%N, 1%N) ∈ led elected) as H1 by (rewrite E; left).
  split; [exact H1|]. intros j Hj.
  apply (at_most_one_leader_per_term trio elected 1 1 j);
    [apply trio_wf|apply elected_reachable|reflexivity|exact H1|exact Hj].
Defined.
